(** * An explicit-free-list allocator (mm.c) as a shallow embedding

    The allocator manages one contiguous region handed out by the region
    provider (memlib's [mem_sbrk]).  Every C object of the source that is a
    word, a size or a pointer is a [Z] kept in the range of [uintptr_t]
    (arithmetic wraps modulo [2 ^ (8 * W)]); the region is a word store
    indexed by byte address; the globals of mm.c and of the provider are the
    fields of [state]; every routine is a computation in a state monad with
    an explicit fault (an access outside the region or off a word boundary,
    which is undefined behaviour in C). *)

From Stdlib Require Import ZArith Lia List Bool.
Import ListNotations.
Open Scope Z_scope.

(** ** Machine state and the monad of the allocator's routines *)

Record state : Type := mkState {
  mem : Z -> Z;               (* the region's words, by byte address *)
  mem_start_brk : Z;          (* provider: first byte of the region *)
  mem_brk : Z;                (* provider: one past the last byte handed out *)
  mem_max_addr : Z;           (* provider: one past the last byte it can hand out *)
  heap_listp : Z;             (* static char *heap_listp *)
  free_list_start : Z;        (* static char *free_list_start *)
  last_malloced_size : Z;     (* static int last_malloced_size (find_fit) *)
  repeat_counter : Z          (* static int repeat_counter (find_fit) *)
}.

Inductive outcome (A : Type) : Type :=
| Ok (a : A) (s : state)      (* the routine returned [a] in state [s] *)
| Fault                       (* invalid memory access *)
| OutOfFuel.                  (* the loop bound of the model was reached *)
Arguments Ok {A} a s.
Arguments Fault {A}.
Arguments OutOfFuel {A}.

Definition M (A : Type) : Type := state -> outcome A.

Definition ret {A} (a : A) : M A := fun s => Ok a s.

Definition bind {A B} (c : M A) (k : A -> M B) : M B :=
  fun s => match c s with
           | Ok a s' => k a s'
           | Fault => Fault
           | OutOfFuel => OutOfFuel
           end.

Declare Scope alloc_scope.
Delimit Scope alloc_scope with alloc.
Notation "x <- c ;; k" := (bind c (fun x => k))
  (at level 61, c at next level, right associativity) : alloc_scope.
Notation "c ;; k" := (bind c (fun _ => k))
  (at level 61, right associativity) : alloc_scope.
Open Scope alloc_scope.

Definition upd (m : Z -> Z) (p v : Z) : Z -> Z :=
  fun q => if q =? p then v else m q.

Definition set_mem (m : Z -> Z) (s : state) : state :=
  mkState m (mem_start_brk s) (mem_brk s) (mem_max_addr s) (heap_listp s)
          (free_list_start s) (last_malloced_size s) (repeat_counter s).
Definition set_brk (b : Z) (s : state) : state :=
  mkState (mem s) (mem_start_brk s) b (mem_max_addr s) (heap_listp s)
          (free_list_start s) (last_malloced_size s) (repeat_counter s).
Definition set_heap_listp (p : Z) : M unit := fun s =>
  Ok tt (mkState (mem s) (mem_start_brk s) (mem_brk s) (mem_max_addr s) p
          (free_list_start s) (last_malloced_size s) (repeat_counter s)).
Definition set_free_list_start (p : Z) : M unit := fun s =>
  Ok tt (mkState (mem s) (mem_start_brk s) (mem_brk s) (mem_max_addr s)
          (heap_listp s) p (last_malloced_size s) (repeat_counter s)).
Definition set_last_malloced_size (v : Z) : M unit := fun s =>
  Ok tt (mkState (mem s) (mem_start_brk s) (mem_brk s) (mem_max_addr s)
          (heap_listp s) (free_list_start s) v (repeat_counter s)).
Definition set_repeat_counter (v : Z) : M unit := fun s =>
  Ok tt (mkState (mem s) (mem_start_brk s) (mem_brk s) (mem_max_addr s)
          (heap_listp s) (free_list_start s) (last_malloced_size s) v).
Definition get_free_list_start : M Z := fun s => Ok (free_list_start s) s.
Definition get_last_malloced_size : M Z := fun s => Ok (last_malloced_size s) s.
Definition get_repeat_counter : M Z := fun s => Ok (repeat_counter s) s.

(** (int)x on a 32-bit two's complement int. *)
Definition to_int (z : Z) : Z := (z + 2 ^ 31) mod 2 ^ 32 - 2 ^ 31.

Section Allocator.

(** WSIZE = sizeof(void * ): 4 on a 32-bit target, 8 on a 64-bit one. *)
Variable W : Z.

Definition modulus : Z := 2 ^ (8 * W).
(** Arithmetic of size_t, uintptr_t and pointers. *)
Definition wrap (z : Z) : Z := z mod modulus.
(** The value of a size_t read as an intptr_t. *)
Definition to_intptr (z : Z) : Z := (z + modulus / 2) mod modulus - modulus / 2.

Definition WSIZE : Z := W.
Definition DSIZE : Z := wrap (2 * WSIZE).
Definition CHUNKSIZE : Z := Z.shiftl 1 12.
Definition MAX (x y : Z) : Z := if x >? y then x else y.
Definition PACK (size alloc : Z) : Z := Z.lor size alloc.
Definition NULL : Z := 0.

(** A word access is defined inside the region handed out so far and on a
    word boundary. *)
Definition valid_word (s : state) (p : Z) : bool :=
  (mem_start_brk s <=? p) && (p + WSIZE <=? mem_brk s) && (p mod WSIZE =? 0).

Definition GET (p : Z) : M Z := fun s =>
  if valid_word s p then Ok (mem s p) s else Fault.
Definition PUT (p val : Z) : M unit := fun s =>
  if valid_word s p then Ok tt (set_mem (upd (mem s) p val) s) else Fault.

(** The two fields of a boundary tag: v & ~(DSIZE - 1) and v & 0x1. *)
Definition size_field (v : Z) : Z := Z.land v (wrap (Z.lnot (DSIZE - 1))).
Definition alloc_bit (v : Z) : Z := Z.land v 1.

Definition GET_SIZE (p : Z) : M Z :=
  v <- GET p ;; ret (size_field v).
Definition GET_ALLOC (p : Z) : M Z :=
  v <- GET p ;; ret (alloc_bit v).

Definition HDRP (bp : Z) : Z := wrap (bp - WSIZE).
Definition FTRP (bp : Z) : M Z :=
  sz <- GET_SIZE (HDRP bp) ;; ret (wrap (bp + sz - DSIZE)).
Definition NEXT_BLK (bp : Z) : M Z :=
  sz <- GET_SIZE (HDRP bp) ;; ret (wrap (bp + sz)).
Definition PREV_BLK (bp : Z) : M Z :=
  sz <- GET_SIZE (wrap (bp - DSIZE)) ;; ret (wrap (bp - sz)).

Definition GET_NEXT_PTR (bp : Z) : M Z := GET (wrap (bp + WSIZE)).
Definition GET_PREV_PTR (bp : Z) : M Z := GET bp.
Definition SET_NEXT_PTR (bp qp : Z) : M unit := PUT (wrap (bp + WSIZE)) qp.
Definition SET_PREV_PTR (bp qp : Z) : M unit := PUT bp qp.

(** Modelled from the spec: the region provider's [mem_sbrk] (memlib.c is not
    among the sources, only its prototype [void *mem_sbrk(intptr_t incr)]).
    It grows the region by [incr] bytes and returns the address of the first
    new byte, or the failure sentinel [(void * )-1] when it refuses; the
    region never shrinks and the bytes already handed out are kept. *)
Definition mem_sbrk (incr : Z) : M Z := fun s =>
  if (to_intptr incr <? 0) || (mem_max_addr s <? mem_brk s + incr)
  then Ok (wrap (-1)) s
  else Ok (mem_brk s) (set_brk (mem_brk s + incr) s).

(** ** The free list *)

Definition insert_in_free_list (bp : Z) : M unit :=
  fls <- get_free_list_start ;;
  SET_NEXT_PTR bp fls ;;
  SET_PREV_PTR fls bp ;;
  SET_PREV_PTR bp NULL ;;
  set_free_list_start bp.

Definition remove_from_free_list (bp : Z) : M unit :=
  pv <- GET_PREV_PTR bp ;;
  (if negb (pv =? 0)
   then (pv' <- GET_PREV_PTR bp ;; nx <- GET_NEXT_PTR bp ;; SET_NEXT_PTR pv' nx)
   else (nx <- GET_NEXT_PTR bp ;; set_free_list_start nx)) ;;
  nx <- GET_NEXT_PTR bp ;;
  pv'' <- GET_PREV_PTR bp ;;
  SET_PREV_PTR nx pv''.

(** ** Boundary-tag coalescing *)

Definition coalesce (bp : Z) : M Z :=
  nb <- NEXT_BLK bp ;;
  NEXT_ALLOC <- GET_ALLOC (HDRP nb) ;;
  pb <- PREV_BLK bp ;;
  pf <- FTRP pb ;;
  pa <- GET_ALLOC pf ;;
  pb' <- (if negb (pa =? 0) then ret pb else PREV_BLK bp) ;;
  let PREV_ALLOC := if negb (pa =? 0) then 1 else if pb' =? bp then 1 else 0 in
  size <- GET_SIZE (HDRP bp) ;;
  bp' <-
    (if negb (PREV_ALLOC =? 0) && (NEXT_ALLOC =? 0) then
       nb1 <- NEXT_BLK bp ;;
       nsz <- GET_SIZE (HDRP nb1) ;;
       let size := wrap (size + nsz) in
       nb2 <- NEXT_BLK bp ;;
       remove_from_free_list nb2 ;;
       PUT (HDRP bp) (PACK size 0) ;;
       f <- FTRP bp ;;
       PUT f (PACK size 0) ;;
       ret bp
     else if (PREV_ALLOC =? 0) && negb (NEXT_ALLOC =? 0) then
       pb1 <- PREV_BLK bp ;;
       psz <- GET_SIZE (HDRP pb1) ;;
       let size := wrap (size + psz) in
       bp1 <- PREV_BLK bp ;;
       remove_from_free_list bp1 ;;
       PUT (HDRP bp1) (PACK size 0) ;;
       f <- FTRP bp1 ;;
       PUT f (PACK size 0) ;;
       ret bp1
     else if (PREV_ALLOC =? 0) && (NEXT_ALLOC =? 0) then
       pb1 <- PREV_BLK bp ;;
       psz <- GET_SIZE (HDRP pb1) ;;
       nb1 <- NEXT_BLK bp ;;
       nsz <- GET_SIZE (HDRP nb1) ;;
       let size := wrap (size + wrap (psz + nsz)) in
       pb2 <- PREV_BLK bp ;;
       remove_from_free_list pb2 ;;
       nb2 <- NEXT_BLK bp ;;
       remove_from_free_list nb2 ;;
       bp1 <- PREV_BLK bp ;;
       PUT (HDRP bp1) (PACK size 0) ;;
       f <- FTRP bp1 ;;
       PUT f (PACK size 0) ;;
       ret bp1
     else ret bp) ;;
  insert_in_free_list bp' ;;
  ret bp'.

(** ** Heap extension *)

(** The number of bytes extend_heap asks the provider for. *)
Definition extend_size (words : Z) : Z :=
  let size := if negb (words mod 2 =? 0)
              then wrap (wrap (words + 1) * WSIZE)
              else wrap (words * WSIZE) in
  if size <? 16 then 16 else size.

Definition extend_heap (words : Z) : M Z :=
  let size := extend_size words in
  bp <- mem_sbrk size ;;
  if to_int bp =? -1 then ret NULL
  else
    PUT (HDRP bp) (PACK size 0) ;;
    f <- FTRP bp ;;
    PUT f (PACK size 0) ;;
    nb <- NEXT_BLK bp ;;
    PUT (HDRP nb) (PACK 0 1) ;;
    coalesce bp.

(** ** Initialisation *)

(** The four words mm_init writes at the start of the region, and the
    initial list head. *)
Definition init_sentinels (p : Z) : M unit :=
  PUT p 0 ;;
  PUT (wrap (p + wrap (1 * WSIZE))) (PACK DSIZE 1) ;;
  PUT (wrap (p + wrap (2 * WSIZE))) (PACK DSIZE 1) ;;
  PUT (wrap (p + wrap (3 * WSIZE))) (PACK 0 1) ;;
  set_free_list_start (wrap (p + wrap (2 * WSIZE))).

Definition mm_init : M Z :=
  p <- mem_sbrk (wrap (8 * WSIZE)) ;;
  set_heap_listp p ;;
  if p =? NULL then ret (-1)
  else
    init_sentinels p ;;
    r <- extend_heap 4 ;;
    if r =? NULL then ret (-1) else ret 0.

(** ** Search and placement *)

(** The [for] loop of find_fit, entered at [bp]; [fuel] bounds the number of
    list nodes visited. *)
Fixpoint find_fit_loop (fuel : nat) (asize bp : Z) : M Z :=
  match fuel with
  | O => fun _ => OutOfFuel
  | S fuel' =>
      a <- GET_ALLOC (HDRP bp) ;;
      if a =? 0 then
        sz <- GET_SIZE (HDRP bp) ;;
        if asize <=? sz then
          set_last_malloced_size (to_int asize) ;; ret bp
        else
          nx <- GET_NEXT_PTR bp ;; find_fit_loop fuel' asize nx
      else ret NULL
  end.

Definition find_fit_walk (fuel : nat) (asize : Z) : M Z :=
  fls <- get_free_list_start ;;
  find_fit_loop fuel asize fls.

Definition find_fit (fuel : nat) (asize : Z) : M Z :=
  last <- get_last_malloced_size ;;
  rc <- get_repeat_counter ;;
  if last =? to_int asize then
    if rc >? 30 then
      let extendsize := to_int (MAX asize (wrap (4 * WSIZE))) in
      extend_heap (wrap (Z.quot extendsize 4))
    else
      set_repeat_counter (to_int (rc + 1)) ;;
      find_fit_walk fuel asize
  else
    set_repeat_counter 0 ;;
    find_fit_walk fuel asize.

Definition place (bp asize : Z) : M unit :=
  csize <- GET_SIZE (HDRP bp) ;;
  if wrap (csize - asize) >=? wrap (4 * WSIZE) then
    PUT (HDRP bp) (PACK asize 1) ;;
    f <- FTRP bp ;;
    PUT f (PACK asize 1) ;;
    remove_from_free_list bp ;;
    bp' <- NEXT_BLK bp ;;
    PUT (HDRP bp') (PACK (wrap (csize - asize)) 0) ;;
    f' <- FTRP bp' ;;
    PUT f' (PACK (wrap (csize - asize)) 0) ;;
    coalesce bp' ;;
    ret tt
  else
    PUT (HDRP bp) (PACK csize 1) ;;
    f <- FTRP bp ;;
    PUT f (PACK csize 1) ;;
    remove_from_free_list bp.

(** ** The public operations *)

(** The adjusted block size mm_malloc computes from the request. *)
Definition adjust_size (size : Z) : Z :=
  if size <=? DSIZE then wrap (2 * DSIZE)
  else wrap (DSIZE * (wrap (wrap (size + DSIZE) + wrap (DSIZE - 1)) / DSIZE)).

Definition mm_malloc (fuel : nat) (size : Z) : M Z :=
  if size =? 0 then ret NULL
  else
    let asize := adjust_size size in
    bp <- find_fit fuel asize ;;
    if negb (bp =? NULL) then
      place bp asize ;; ret bp
    else
      let extendsize := MAX asize CHUNKSIZE in
      bp <- extend_heap (extendsize / WSIZE) ;;
      if bp =? NULL then ret NULL
      else place bp asize ;; ret bp.

Definition mm_free (bp : Z) : M unit :=
  if bp =? NULL then ret tt
  else
    size <- GET_SIZE (HDRP bp) ;;
    PUT (HDRP bp) (PACK size 0) ;;
    f <- FTRP bp ;;
    PUT f (PACK size 0) ;;
    coalesce bp ;;
    ret tt.

(** memcpy over the word store: whole words first, then the low bytes of a
    last partial word (little-endian byte order inside a word). *)
Fixpoint copy_words (n : nat) (dst src : Z) : M unit :=
  match n with
  | O => ret tt
  | S n' =>
      v <- GET src ;;
      PUT dst v ;;
      copy_words n' (wrap (dst + WSIZE)) (wrap (src + WSIZE))
  end.

Definition memcpy (dst src n : Z) : M unit :=
  copy_words (Z.to_nat (n / WSIZE)) dst src ;;
  let r := n mod WSIZE in
  if r =? 0 then ret tt
  else
    let off := WSIZE * (n / WSIZE) in
    sv <- GET (wrap (src + off)) ;;
    dv <- GET (wrap (dst + off)) ;;
    PUT (wrap (dst + off))
        (Z.lor (Z.land sv (Z.ones (8 * r))) (Z.ldiff dv (Z.ones (8 * r)))).

Definition mm_realloc (fuel : nat) (bp size : Z) : M Z :=
  if to_int size <? 0 then ret NULL
  else if to_int size =? 0 then mm_free bp ;; ret NULL
  else if size >? 0 then
    oldsize <- GET_SIZE (HDRP bp) ;;
    let newsize := wrap (size + wrap (2 * WSIZE)) in
    if newsize <=? oldsize then ret bp
    else
      nb <- NEXT_BLK bp ;;
      next_alloc <- GET_ALLOC (HDRP nb) ;;
      nsz <- (if next_alloc =? 0
              then nb' <- NEXT_BLK bp ;; GET_SIZE (HDRP nb')
              else ret 0) ;;
      let csize := wrap (oldsize + nsz) in
      if (next_alloc =? 0) && (csize >=? newsize) then
        nb'' <- NEXT_BLK bp ;;
        remove_from_free_list nb'' ;;
        PUT (HDRP bp) (PACK csize 1) ;;
        f <- FTRP bp ;;
        PUT f (PACK csize 1) ;;
        ret bp
      else
        new_ptr <- mm_malloc fuel newsize ;;
        place new_ptr newsize ;;
        memcpy new_ptr bp newsize ;;
        mm_free bp ;;
        ret new_ptr
  else ret NULL.

End Allocator.

(** ** Runs from a fresh region *)

(** Modelled from the spec: the provider's initial state (memlib's mem_init
    is not among the sources).  The region starts empty at [lo], can grow up
    to [hi], and its bytes hold whatever [m0] says; the statics of mm.c start
    at zero. *)
Definition init_state (m0 : Z -> Z) (lo hi : Z) : state :=
  mkState m0 lo lo hi 0 0 0 0.

(** A zero-filled region, and one whose words all read 1. *)
Definition zeros : Z -> Z := fun _ => 0.
Definition ones : Z -> Z := fun _ => 1.

Definition returned {A} (o : outcome A) : option A :=
  match o with Ok a _ => Some a | _ => None end.
Definition final_word {A} (p : Z) (o : outcome A) : option Z :=
  match o with Ok _ s => Some (mem s p) | _ => None end.
Definition final_free_list_start {A} (o : outcome A) : option Z :=
  match o with Ok _ s => Some (free_list_start s) | _ => None end.
Definition final_brk {A} (o : outcome A) : option Z :=
  match o with Ok _ s => Some (mem_brk s) | _ => None end.
Definition state_after {A} (o : outcome A) (dflt : state) : state :=
  match o with Ok _ s => s | _ => dflt end.
Definition faults {A} (o : outcome A) : bool :=
  match o with Fault => true | _ => false end.

(** [n] calls of the same routine in a row. *)
Fixpoint repeat_call (n : nat) (c : M Z) : M Z :=
  match n with
  | O => ret 0
  | S n' => c ;; repeat_call n' c
  end.

(** A forward walk over the boundary tags in the style of checkheap: from the
    block at [bp] it follows the header sizes and succeeds when it arrives
    exactly at the break with the epilogue header below it, having seen only
    blocks of at least four words whose tags carry no stray low bits. *)
Fixpoint walk_ok (W : Z) (n : nat) (s : state) (bp : Z) : bool :=
  match n with
  | O => false
  | S n' =>
      if bp =? mem_brk s then mem s (bp - W) =? 1
      else
        let h := mem s (bp - W) in
        let sz := size_field W h in
        (4 * W <=? sz) && (h - alloc_bit h =? sz) && (bp + sz <=? mem_brk s)
        && walk_ok W n' s (bp + sz)
  end.

Definition final_walk_ok {A} (W : Z) (n : nat) (o : outcome A) : option bool :=
  match o with
  | Ok _ s => Some (walk_ok W n s (mem_start_brk s + 8 * W))
  | _ => None
  end.

(** The region used by the concrete runs: it starts at address 4096 and the
    provider can grow it by up to [cap] bytes. *)
Definition fresh (m0 : Z -> Z) (cap : Z) : state := init_state m0 4096 (4096 + cap).


(** The adjusted size as the specification words it: DW times the ceiling of
    (size + DW + DW - 1) / DW, over unbounded integers. *)
Definition ceil_div (a b : Z) : Z := (a + b - 1) / b.
Definition asize_as_specified (W size : Z) : Z :=
  if size <=? 2 * W then 2 * (2 * W)
  else (2 * W) * ceil_div (size + 2 * W + 2 * W - 1) (2 * W).

(** The state after mm_init and one mm_malloc(24) on a 64-bit target: the
    block at 4160 is allocated (48 bytes) and followed by one free block. *)
Definition one_block_64 : state :=
  state_after ((mm_init 8 ;; mm_malloc 8 8 24) (fresh zeros (2 ^ 20))) (fresh zeros 0).

(** The state extend_heap hands to coalesce after a successful request of
    [size] bytes in state [s]: the break has moved up by [size], and three
    tags are written: the header and the footer of the new free block and the
    new epilogue header. *)
Definition tags_written (W : Z) (s : state) (size : Z) : state :=
  set_mem
    (upd (upd (upd (mem s)
       (mem_brk s - W) (PACK size 0))
       (mem_brk s + size - 2 * W) (PACK size 0))
       (mem_brk s + size - W) (PACK 0 1))
    (set_brk (mem_brk s + size) s).

(** mm_init up to the point where it calls extend_heap. *)
Definition mm_init_prefix (W : Z) : M unit :=
  p <- mem_sbrk W (wrap W (8 * W)) ;;
  set_heap_listp p ;;
  init_sentinels W p.

(** The state after mm_init on a 32-bit target, and the state mm_init is in
    when it calls extend_heap. *)
Definition after_init_32 : state :=
  state_after (mm_init 4 (fresh zeros (2 ^ 20))) (fresh zeros 0).
Definition before_first_extension_32 : state :=
  state_after (mm_init_prefix 4 (fresh zeros (2 ^ 20))) (fresh zeros 0).

(** A 64-bit heap with a small allocated block at 4160 followed by one free
    block of more than 4 GiB: mm_init, a = mm_malloc(24), b = mm_malloc(2^32),
    mm_free(b). *)
Definition small_then_huge_free_64 : state :=
  state_after
    ((mm_init 8 ;; a <- mm_malloc 8 8 24 ;; b <- mm_malloc 8 8 (2 ^ 32) ;;
      mm_free 8 b) (fresh zeros (2 ^ 33)))
    (fresh zeros 0).

(** The fourth scenario of the specification on a 64-bit target:
    mm_init, a = mm_malloc(32), b = mm_malloc(32), mm_free(b). *)
Definition grow_in_place_64 : state :=
  state_after
    ((mm_init 8 ;; a <- mm_malloc 8 8 32 ;; b <- mm_malloc 8 8 32 ;;
      mm_free 8 b) (fresh zeros (2 ^ 20)))
    (fresh zeros 0).

(** A run that ends in the fallback path of mm_realloc (32-bit target):
    x = mm_malloc(56), a = mm_malloc(8), g = mm_malloc(8), mm_free(x), then
    mm_realloc(a, 33).  The block after [a] is allocated, and the free list
    starts with the 64-byte block of [x]. *)
Definition fallback_prefix (m0 : Z -> Z) : outcome Z :=
  (mm_init 4 ;; x <- mm_malloc 4 8 56 ;; a <- mm_malloc 4 8 8 ;;
   g <- mm_malloc 4 8 8 ;; mm_free 4 x ;; ret a) (fresh m0 (2 ^ 20)).
Definition fallback_run (m0 : Z -> Z) : outcome Z :=
  (mm_init 4 ;; x <- mm_malloc 4 8 56 ;; a <- mm_malloc 4 8 8 ;;
   g <- mm_malloc 4 8 8 ;; mm_free 4 x ;; mm_realloc 4 8 a 33) (fresh m0 (2 ^ 20)).

(** Thirty-three requests of 24 bytes in a row on a 64-bit target. *)
Definition same_size_requests_64 : state :=
  state_after
    ((mm_init 8 ;; repeat_call 33 (mm_malloc 8 8 24)) (fresh zeros (2 ^ 20)))
    (fresh zeros 0).

(** ** The representation of a well-formed heap

    A well-formed heap is described by the list of its blocks in address
    order, [bl], and by the list of the nodes of the free list in list order,
    [fl]. *)

Record blk : Type := mkBlk {
  baddr : Z;      (* the block pointer bp: address of the payload *)
  bsize : Z;      (* the size of the block, header and footer included *)
  bused : bool    (* the allocation bit *)
}.

(** The boundary tag PACK(size, alloc) of a block. *)
Definition tag (b : blk) : Z := bsize b + (if bused b then 1 else 0).

Section Representation.

Variable W : Z.

(** The blocks of [bl] lie one after the other from block pointer [p] to
    block pointer [q]; each size is a multiple of two words and at least four
    words. *)
Fixpoint layout (p q : Z) (bl : list blk) : Prop :=
  match bl with
  | [] => p = q
  | b :: bl' =>
      baddr b = p /\ 4 * W <= bsize b /\ (2 * W | bsize b) /\
      layout (p + bsize b) q bl'
  end.

(** Header (at bp - W) and footer (at bp + size - 2W) of every block hold
    its tag. *)
Definition tagged (m : Z -> Z) (bl : list blk) : Prop :=
  forall b, In b bl ->
    m (baddr b - W) = tag b /\ m (baddr b + bsize b - 2 * W) = tag b.

(** The doubly linked list threaded through the first two words of its
    nodes: starting at [cur], whose predecessor is [prev], the "next" fields
    lead through the nodes of [fl] in order and then to [sent]; the "prev"
    field of every node holds its predecessor. *)
Fixpoint chain (m : Z -> Z) (sent prev cur : Z) (fl : list Z) : Prop :=
  match fl with
  | [] => cur = sent
  | p :: fl' => cur = p /\ m p = prev /\ chain m sent p (m (p + W)) fl'
  end.

(** The sentinel that ends the free list: the block pointer of the prologue,
    heap_listp + 2 * WSIZE, where free_list_start points after mm_init's
    first four writes. *)
Definition sentinel (s : state) : Z := mem_start_brk s + 2 * W.

(** The block pointer of the first block. *)
Definition first_block (s : state) : Z := mem_start_brk s + 8 * W.

Record shape (s : state) (bl : list blk) (fl : list Z) : Prop := mkShape {
  sh_lo : 0 < mem_start_brk s;
  sh_lo_al : (2 * W | mem_start_brk s);
  sh_brk : mem_brk s <= mem_max_addr s;
  sh_max : mem_max_addr s < modulus W;
  sh_layout : layout (first_block s) (mem_brk s) bl;
  sh_tagged : tagged (mem s) bl;
  sh_epilogue : mem s (mem_brk s - W) = 1;
  sh_prologue : mem s (mem_start_brk s + W) = 2 * W + 1;
  sh_gap : size_field W (mem s (mem_start_brk s + 6 * W)) = 0;
  sh_chain : chain (mem s) (sentinel s) 0 (free_list_start s) fl;
  sh_nodup : NoDup fl;
  sh_nodes : forall p, In p fl -> exists b, In b bl /\ baddr b = p
}.

(** The heap invariant: the tags describe the blocks [bl] from the first
    block up to the epilogue header, and the nodes of the free list, reached
    from free_list_start through the "next" fields up to the sentinel, are
    exactly the free blocks of [bl], each once. *)
Definition heap_inv (s : state) (bl : list blk) (fl : list Z) : Prop :=
  shape s bl fl /\
  forall p, In p fl <-> exists sz, In (mkBlk p sz false) bl.

End Representation.

(** The state with heap contents [m] and list head [f], all else as in [s]. *)
Definition with_heap (m : Z -> Z) (f : Z) (s : state) : state :=
  mkState m (mem_start_brk s) (mem_brk s) (mem_max_addr s) (heap_listp s) f
          (last_malloced_size s) (repeat_counter s).

(** ** Notions used to prove the invariant *)

(** A word access at [p] is defined in state [s]. *)
Definition valid (W : Z) (s : state) (p : Z) : Prop :=
  mem_start_brk s <= p /\ p + W <= mem_brk s /\ (W | p).

(** The region lies inside the address space of a pointer. *)
Definition region (W : Z) (s : state) : Prop :=
  0 <= mem_start_brk s /\ mem_brk s < modulus W.

(** A list segment: from [cur] through the nodes of [fl] to the node [nxt]
    that follows them; [lst] is the last node of the segment, or [prev] when
    the segment is empty. *)
Fixpoint cseg (W : Z) (m : Z -> Z) (prev cur : Z) (fl : list Z) (nxt lst : Z) : Prop :=
  match fl with
  | [] => cur = nxt /\ lst = prev
  | p :: fl' => cur = p /\ m p = prev /\ cseg W m p (m (p + W)) fl' nxt lst
  end.

(** Nodes whose two link words do not overlap. *)
Definition spaced (W : Z) (l : list Z) : Prop :=
  forall a b, In a l -> In b l -> a = b \/ a + W < b \/ b + W < a.

(** The cells the list operations may write: the "prev" word of the
    sentinel and the two link words of every node. *)
Definition link_cell (W : Z) (s : state) (fl : list Z) (a : Z) : Prop :=
  a = sentinel W s \/ exists q, In q fl /\ (a = q \/ a = q + W).

(** A well-linked list in heap [m] with head [f]. *)
Record linked (W : Z) (s : state) (m : Z -> Z) (f : Z) (fl : list Z) : Prop := mkLinked {
  lk_chain : chain W m (sentinel W s) 0 f fl;
  lk_nodup : NoDup fl;
  lk_spaced : spaced W fl;
  lk_sent : valid W s (sentinel W s);
  lk_valid : forall p, In p fl ->
    valid W s p /\ valid W s (p + W) /\ sentinel W s + W < p
}.

(** The geometry of the region and of its blocks: no memory contents. *)
Definition geom (W : Z) (s : state) (bl : list blk) : Prop :=
  0 < mem_start_brk s /\ (2 * W | mem_start_brk s) /\
  mem_brk s <= mem_max_addr s /\ mem_max_addr s < modulus W /\
  layout W (first_block W s) (mem_brk s) bl.

(** The words that hold tags. *)
Definition tags_ok (W : Z) (s : state) (m : Z -> Z) (bl : list blk) : Prop :=
  tagged W m bl /\
  m (mem_brk s - W) = 1 /\
  m (mem_start_brk s + W) = 2 * W + 1 /\
  size_field W (m (mem_start_brk s + 6 * W)) = 0.

(** Every node of the list is the block pointer of a block. *)
Definition nodes_in (bl : list blk) (fl : list Z) : Prop :=
  forall p, In p fl -> exists b, In b bl /\ baddr b = p.

(** What coalesce does once it has read the two allocation flags and the
    size of the block. *)
Definition coalesce_rest (W bp NEXT_ALLOC PREV_ALLOC size : Z) : M Z :=
  bp' <-
    (if negb (PREV_ALLOC =? 0) && (NEXT_ALLOC =? 0) then
       nb1 <- NEXT_BLK W bp ;;
       nsz <- GET_SIZE W (HDRP W nb1) ;;
       let size := wrap W (size + nsz) in
       nb2 <- NEXT_BLK W bp ;;
       remove_from_free_list W nb2 ;;
       PUT W (HDRP W bp) (PACK size 0) ;;
       f <- FTRP W bp ;;
       PUT W f (PACK size 0) ;;
       ret bp
     else if (PREV_ALLOC =? 0) && negb (NEXT_ALLOC =? 0) then
       pb1 <- PREV_BLK W bp ;;
       psz <- GET_SIZE W (HDRP W pb1) ;;
       let size := wrap W (size + psz) in
       bp1 <- PREV_BLK W bp ;;
       remove_from_free_list W bp1 ;;
       PUT W (HDRP W bp1) (PACK size 0) ;;
       f <- FTRP W bp1 ;;
       PUT W f (PACK size 0) ;;
       ret bp1
     else if (PREV_ALLOC =? 0) && (NEXT_ALLOC =? 0) then
       pb1 <- PREV_BLK W bp ;;
       psz <- GET_SIZE W (HDRP W pb1) ;;
       nb1 <- NEXT_BLK W bp ;;
       nsz <- GET_SIZE W (HDRP W nb1) ;;
       let size := wrap W (size + wrap W (psz + nsz)) in
       pb2 <- PREV_BLK W bp ;;
       remove_from_free_list W pb2 ;;
       nb2 <- NEXT_BLK W bp ;;
       remove_from_free_list W nb2 ;;
       bp1 <- PREV_BLK W bp ;;
       PUT W (HDRP W bp1) (PACK size 0) ;;
       f <- FTRP W bp1 ;;
       PUT W f (PACK size 0) ;;
       ret bp1
     else ret bp) ;;
  insert_in_free_list W bp' ;;
  ret bp'.

(** The tag found where the header of the block after [b] is expected: the
    header of the next block, or the epilogue header. *)
Definition next_tag (l2 : list blk) : Z :=
  match l2 with [] => 1 | nb :: _ => tag nb end.

(** Memory [m'] differs from [m] at most on the link words of the nodes
    [all] and on the words [ws]. *)
Definition frame (W : Z) (s : state) (all ws : list Z) (m m' : Z -> Z) : Prop :=
  forall a, ~ link_cell W s all a -> ~ In a ws -> m' a = m a.

(** The allocation flag of a block, and the one coalesce reads behind a
    block: that of the next block, or of the epilogue header. *)
Definition flag (u : bool) : Z := if u then 1 else 0.
Definition next_flag (l2 : list blk) : Z :=
  match l2 with [] => 1 | nb :: _ => flag (bused nb) end.

(** The allocated blocks of a heap, in address order. *)
Definition used_blocks (bl : list blk) : list blk := filter bused bl.

(** The outcome of coalescing the free block [b] of the heap [bl]. *)
Definition coalesced (W : Z) (s : state) (bl : list blk) (b : blk)
           (o : outcome Z) : Prop :=
  exists m' f' bl' fl' b',
    o = Ok (baddr b') (with_heap m' f' s) /\
    heap_inv W (with_heap m' f' s) bl' fl' /\
    In b' bl' /\ bused b' = false /\ bsize b <= bsize b' /\
    used_blocks bl' = used_blocks bl.

(** The heap [bl] with its free list [fl], on which every free block except
    the one at [x] is listed. *)
Definition listed_except (bl : list blk) (fl : list Z) (x : Z) : Prop :=
  forall p, In p fl <-> (exists sz, In (mkBlk p sz false) bl) /\ p <> x.

(** [p] is the block pointer of an allocated block of the heap [bl]. *)
Definition allocated (bl : list blk) (p : Z) : Prop :=
  exists sz, In (mkBlk p sz true) bl.

(** [s'] has the heap of [s]: only the statics of find_fit may differ. *)
Definition same_heap (s s' : state) : Prop :=
  mem s' = mem s /\ mem_start_brk s' = mem_start_brk s /\
  mem_brk s' = mem_brk s /\ mem_max_addr s' = mem_max_addr s /\
  free_list_start s' = free_list_start s.

(** A free block of at least [size] bytes has been found or made: the
    outcome is its block pointer, in a heap that satisfies the invariant and
    has the allocated blocks of [bl]. *)
Definition found (W : Z) (bl : list blk) (size : Z) (o : outcome Z) : Prop :=
  exists s' bl' fl' b',
    o = Ok (baddr b') s' /\ heap_inv W s' bl' fl' /\
    In b' bl' /\ bused b' = false /\ size <= bsize b' /\
    used_blocks bl' = used_blocks bl.

(** ** The states between public operations *)

(** The calls of mm_realloc that are served in place: the size reads as an
    int that is not positive (nothing is done, or the block is freed), the
    block is large enough already, or the next block is free and large
    enough to be absorbed. *)
Definition realloc_in_place (W : Z) (s : state) (bp size : Z) : bool :=
  let oldsize := size_field W (mem s (bp - W)) in
  let newsize := wrap W (size + 2 * W) in
  let next := mem s (bp + oldsize - W) in
  (to_int size <=? 0) || (newsize <=? oldsize) ||
  ((alloc_bit next =? 0) && (newsize <=? oldsize + size_field W next)).

(** A region mm_init can start from: nothing handed out yet, a positive
    double-word aligned start, addresses that fit a pointer, and a zero size
    field in the word two words below the first block pointer (mm_init does
    not write that word, and coalesce reads it as the footer before the first
    block). *)
Definition fresh_region (W : Z) (s0 : state) : Prop :=
  mem_brk s0 = mem_start_brk s0 /\ 0 < mem_start_brk s0 /\
  (2 * W | mem_start_brk s0) /\ mem_max_addr s0 < modulus W /\
  size_field W (mem s0 (mem_start_brk s0 + 6 * W)) = 0.

(** The states between public operations, with the pointers handed out and
    not freed so far: a successful mm_init, then calls of mm_malloc with a
    size of at most 2^31 - 4 * WSIZE, of mm_free on a pointer handed out and
    of mm_realloc on such a pointer when it is served in place. *)
Inductive reachable (W : Z) : state -> list Z -> Prop :=
| reach_init (s0 s : state) :
    fresh_region W s0 -> mm_init W s0 = Ok 0 s -> reachable W s []
| reach_malloc (s : state) (L : list Z) (fuel : nat) (size p : Z) (s' : state) :
    reachable W s L -> 0 <= size -> size + 4 * W <= 2 ^ 31 ->
    mm_malloc W fuel size s = Ok p s' ->
    reachable W s' (if p =? NULL then L else p :: L)
| reach_free (s : state) (L : list Z) (p : Z) (s' : state) :
    reachable W s L -> In p L -> mm_free W p s = Ok tt s' ->
    reachable W s' (remove Z.eq_dec p L)
| reach_realloc (s : state) (L : list Z) (fuel : nat) (bp size r : Z) (s' : state) :
    reachable W s L -> In bp L -> 0 <= size < modulus W ->
    realloc_in_place W s bp size = true ->
    mm_realloc W fuel bp size s = Ok r s' ->
    reachable W s' (if to_int size =? 0 then remove Z.eq_dec bp L else L).

(** The state between mm_init and the first mm_malloc of [one_block_64]. *)
Definition after_init_64 : state :=
  state_after (mm_init 8 (fresh zeros (2 ^ 20))) (fresh zeros 0).

(** ** The heap consistency checker *)

(** The lines the checker routines print. *)
Inductive report : Type :=
| NotAligned (bp : Z)          (* Error: %p is not doubleword aligned *)
| HeaderFooterMismatch         (* Error: header does not match footer *)
| BadPrologueHeader            (* Bad prologue header *)
| BadEpilogueHeader            (* Bad epilogue header *)
| HeapLine (p : Z)             (* Heap (%p): *)
| EndOfHeap (bp : Z)           (* %p: end of heap *)
| BlockLine (bp hsize : Z) (halloc : bool) (fsize : Z) (falloc : bool).
                               (* %p: header: [%zu:%c] footer: [%zu:%c] *)

Definition get_heap_listp : M Z := fun s => Ok (heap_listp s) s.

(** checkblock returns the lines it prints. *)
Definition checkblock (W bp : Z) : M (list report) :=
  let unaligned := if negb (bp mod DSIZE W =? 0) then [NotAligned bp] else [] in
  h <- GET W (HDRP W bp) ;;
  fp <- FTRP W bp ;;
  f <- GET W fp ;;
  ret (unaligned ++ if negb (h =? f) then [HeaderFooterMismatch] else []).

(** Modelled from the spec: the macro NEXT_BLKP that checkheap steps with;
    mm.c uses it and defines only NEXT_BLK.  The checker walks the heap
    from the prologue to the epilogue, so the step is the one of NEXT_BLK. *)
Definition NEXT_BLKP (W bp : Z) : M Z := NEXT_BLK W bp.

(** The [for] loop of checkheap, entered at [bp]: it returns the block
    pointer it stops at and the lines printed; [fuel] bounds the number of
    blocks visited. *)
Fixpoint checkheap_loop (W : Z) (printblock : Z -> M (list report))
         (fuel : nat) (verbose : bool) (bp : Z) : M (Z * list report) :=
  match fuel with
  | O => fun _ => OutOfFuel
  | S fuel' =>
      sz <- GET_SIZE W (HDRP W bp) ;;
      if sz >? 0 then
        o1 <- (if verbose then printblock bp else ret []) ;;
        o2 <- checkblock W bp ;;
        nb <- NEXT_BLKP W bp ;;
        r <- checkheap_loop W printblock fuel' verbose nb ;;
        ret (fst r, o1 ++ o2 ++ snd r)
      else ret (bp, [])
  end.

(** A tag test of checkheap: GET_SIZE(HDRP(bp)) != size || !GET_ALLOC(HDRP(bp)),
    the second read only when the first test fails. *)
Definition bad_tag (W bp size : Z) : M bool :=
  sz <- GET_SIZE W (HDRP W bp) ;;
  if negb (sz =? size) then ret true
  else a <- GET_ALLOC W (HDRP W bp) ;; ret (a =? 0).

(** checkheap and printblock call each other: checkheap(true) prints the
    blocks with printblock, and printblock starts with checkheap(false).
    The body of each takes the other as an argument. *)
Definition checkheap_with (W : Z) (printblock : Z -> M (list report))
           (fuel : nat) (verbose : bool) : M (list report) :=
  hl <- get_heap_listp ;;
  let o0 := if verbose then [HeapLine hl] else [] in
  bad <- bad_tag W hl (DSIZE W) ;;
  let o1 := if bad then [BadPrologueHeader] else [] in
  o2 <- checkblock W hl ;;
  r <- checkheap_loop W printblock fuel verbose hl ;;
  o4 <- (if verbose then printblock (fst r) else ret []) ;;
  ebad <- bad_tag W (fst r) 0 ;;
  ret (o0 ++ o1 ++ o2 ++ snd r ++ o4 ++
       if ebad then [BadEpilogueHeader] else []).

Definition printblock_with (W : Z) (checkheap_quiet : M (list report))
           (bp : Z) : M (list report) :=
  o0 <- checkheap_quiet ;;
  hsize <- GET_SIZE W (HDRP W bp) ;;
  halloc <- GET_ALLOC W (HDRP W bp) ;;
  fp <- FTRP W bp ;;
  fsize <- GET_SIZE W fp ;;
  fp' <- FTRP W bp ;;
  falloc <- GET_ALLOC W fp' ;;
  if hsize =? 0 then ret (o0 ++ [EndOfHeap bp])
  else ret (o0 ++ [BlockLine bp hsize (negb (halloc =? 0))
                             fsize (negb (falloc =? 0))]).

Definition printblock (W : Z) (fuel : nat) (bp : Z) : M (list report) :=
  printblock_with W (checkheap_with W (fun _ => ret []) fuel false) bp.

Definition checkheap (W : Z) (fuel : nat) (verbose : bool) : M (list report) :=
  checkheap_with W (printblock W fuel) fuel verbose.

(** ** Further notions used in the proofs *)

(** The operation leaves heap_listp and the start of the region alone. *)
Definition stable (s s' : state) : Prop :=
  heap_listp s' = heap_listp s /\ mem_start_brk s' = mem_start_brk s.
Definition preserves {A} (c : M A) : Prop :=
  forall s a s', c s = Ok a s' -> stable s s'.

(** A word the routines that work on free blocks may write: the "prev" word
    of the sentinel, or a word of a free block of [bl], from its header to
    its footer. *)
Definition free_word (W : Z) (s : state) (bl : list blk) (a : Z) : Prop :=
  a = sentinel W s \/
  exists b, In b bl /\ bused b = false /\
            baddr b - W <= a < baddr b + bsize b - W.

(** No two blocks in a row are free. *)
Fixpoint no_free_pair (bl : list blk) : Prop :=
  match bl with
  | [] => True
  | x :: r =>
      match r with
      | [] => True
      | y :: _ => bused x = true \/ bused y = true
      end /\ no_free_pair r
  end.

(** The first (last) block of a list is allocated, if there is one. *)
Definition starts_used (bl : list blk) : Prop :=
  forall x r, bl = x :: r -> bused x = true.
Definition ends_used (bl : list blk) : Prop :=
  forall r x, bl = r ++ [x] -> bused x = true.

(** The outcome of coalesce on the free block [b] of the heap
    [l1 ++ b :: l2] with free list [fl] (which lacks [b]): the pointer of
    a free block [bm] that covers [b], at the head of the free list of a heap
    [pre ++ bm :: post] with the same allocated blocks; a side of [b] that
    starts with an allocated block stays as it is. *)
Definition merged (W : Z) (s : state) (m : Z -> Z) (fl : list Z)
           (l1 : list blk) (b : blk) (l2 : list blk) (o : outcome Z) : Prop :=
  exists m' bm pre post rest,
    o = Ok (baddr bm) (with_heap m' (baddr bm) s) /\
    heap_inv W (with_heap m' (baddr bm) s) (pre ++ bm :: post) (baddr bm :: rest) /\
    bused bm = false /\
    baddr bm <= baddr b /\ baddr b + bsize b <= baddr bm + bsize bm /\
    (forall p, In p rest -> In p fl) /\
    used_blocks (pre ++ bm :: post) = used_blocks (l1 ++ b :: l2) /\
    (forall a, ~ free_word W s (l1 ++ b :: l2) a -> m' a = m a) /\
    (ends_used l1 -> pre = l1 /\ baddr bm = baddr b) /\
    (starts_used l2 -> post = l2 /\ baddr bm + bsize bm = baddr b + bsize b) /\
    (no_free_pair l1 -> no_free_pair l2 -> no_free_pair (pre ++ bm :: post)) /\
    (forall l0 pb, l1 = l0 ++ [pb] -> bused pb = false ->
       pre = l0 /\ baddr bm = baddr pb) /\
    (forall nb l3, l2 = nb :: l3 -> bused nb = false ->
       post = l3 /\ baddr bm + bsize bm = baddr nb + bsize nb).

(** The outcome of coalesce, with the heap it leaves given: [bm] at the head
    of the list of the heap [bl']. *)
Definition merged_into (W : Z) (s : state) (m : Z -> Z) (fl : list Z)
           (bl bl' : list blk) (bm : blk) (o : outcome Z) : Prop :=
  exists m' rest,
    o = Ok (baddr bm) (with_heap m' (baddr bm) s) /\
    heap_inv W (with_heap m' (baddr bm) s) bl' (baddr bm :: rest) /\
    (forall p, In p rest -> In p fl) /\
    used_blocks bl' = used_blocks bl /\
    (forall a, ~ free_word W s bl a -> m' a = m a).

(** Memory [m'] holds what [m] holds in every word of every allocated block
    of [bl], header and footer included. *)
Definition kept (W : Z) (bl : list blk) (m m' : Z -> Z) : Prop :=
  forall x a, In x bl -> bused x = true ->
    baddr x - W <= a < baddr x + bsize x - W -> m' a = m a.

(** A free block of at least [size] bytes has been found or made, in a heap
    that keeps the allocated blocks of [bl] with their contents, and has no
    two free blocks in a row if [bl] has none. *)
Definition found_kept (W : Z) (s : state) (bl : list blk) (size : Z)
           (o : outcome Z) : Prop :=
  exists s' l1 b l2 fl',
    o = Ok (baddr b) s' /\ heap_inv W s' (l1 ++ b :: l2) fl' /\
    bused b = false /\ size <= bsize b /\
    used_blocks (l1 ++ b :: l2) = used_blocks bl /\
    kept W bl (mem s) (mem s') /\
    (no_free_pair bl -> no_free_pair (l1 ++ b :: l2)).

(** The state after mm_init and two calls mm_malloc(24) on a 64-bit target:
    two allocated blocks of 48 bytes at 4160 and 4208. *)
Definition two_blocks_64 : state :=
  state_after (mm_malloc 8 8 24 one_block_64) (fresh zeros 0).

(** A 64-bit heap with two free blocks in a row: the heap of
    [two_blocks_64] with its two allocated blocks turned into one free block
    of 96 bytes at 4160, first on the free list, before the free block at
    4256.  The invariant holds in it; place on the block at 4160 makes a
    remainder whose successor is free. *)
Definition adjacent_free_64 : state :=
  with_heap
    (upd (upd (upd (upd (upd (mem two_blocks_64) 4152 96) 4240 96)
                   4160 0) 4168 4256) 4256 4160)
    4160 two_blocks_64.

(** The heap of [grow_in_place_64] once the tags of the block at 4160 say
    that it is free, as mm_free leaves them for coalesce: the block is not
    on the free list yet. *)
Definition freed_unlisted_64 : Z -> Z :=
  upd (upd (mem grow_in_place_64) 4152 48) 4192 48.

(** * Properties of the embedding *)

(** C1: right after initialisation on a 32-bit target, mm_malloc(2^32 - 1)
    returns the non-null pointer 4128 although the block it marks allocated
    is 16 bytes in all (tag 17 in header and footer, the next header right
    behind it): the sum size + DSIZE + (DSIZE - 1) wraps around, the adjusted
    size comes out as 8, and the first free block "fits".  The same happens on
    a 64-bit target with 2^64 - 1 and a 32-byte block. *)
Theorem mm_malloc_huge_request_wraps :
  adjust_size 4 (2 ^ 32 - 1) = 8 /\
  returned ((mm_init 4 ;; mm_malloc 4 8 (2 ^ 32 - 1)) (fresh zeros (2 ^ 20))) = Some 4128 /\
  final_word (4128 - 4) ((mm_init 4 ;; mm_malloc 4 8 (2 ^ 32 - 1)) (fresh zeros (2 ^ 20))) = Some 17 /\
  final_word (4128 + 8) ((mm_init 4 ;; mm_malloc 4 8 (2 ^ 32 - 1)) (fresh zeros (2 ^ 20))) = Some 17 /\
  final_brk ((mm_init 4 ;; mm_malloc 4 8 (2 ^ 32 - 1)) (fresh zeros (2 ^ 20))) = Some (4128 + 16) /\
  adjust_size 8 (2 ^ 64 - 1) = 16 /\
  returned ((mm_init 8 ;; mm_malloc 8 8 (2 ^ 64 - 1)) (fresh zeros (2 ^ 20))) = Some 4160 /\
  final_word (4160 - 8) ((mm_init 8 ;; mm_malloc 8 8 (2 ^ 64 - 1)) (fresh zeros (2 ^ 20))) = Some 33 /\
  final_brk ((mm_init 8 ;; mm_malloc 8 8 (2 ^ 64 - 1)) (fresh zeros (2 ^ 20))) = Some (4160 + 32).
Proof. repeat split; vm_compute; reflexivity. Qed.

(** mm_realloc reads the header of its argument before anything else once the
    size is positive as an int: with a null pointer that read is at address
    [-WSIZE], outside every region. *)
Lemma mm_realloc_null_faults (W : Z) (fuel : nat) (size : Z) (s : state) :
  W = 4 \/ W = 8 ->
  mem_brk s < modulus W ->
  0 < to_int size -> 0 < size ->
  mm_realloc W fuel 0 size s = Fault.
Proof.
  intros HW Hbrk Hint Hsz.
  unfold mm_realloc.
  destruct (to_int size <? 0) eqn:E1; [apply Z.ltb_lt in E1; lia|].
  destruct (to_int size =? 0) eqn:E2; [apply Z.eqb_eq in E2; lia|].
  destruct (size >? 0) eqn:E3; [|rewrite Z.gtb_ltb in E3; apply Z.ltb_ge in E3; lia].
  unfold bind at 1, GET_SIZE, bind at 1, GET, HDRP, valid_word, WSIZE.
  assert (Hm : wrap W (0 - W) + W = modulus W).
  { unfold wrap. destruct HW; subst W; vm_compute; reflexivity. }
  replace (wrap W (0 - W) + W <=? mem_brk s) with false.
  - rewrite andb_false_r. reflexivity.
  - symmetry. apply Z.leb_gt. lia.
Qed.

(** C2: mm_realloc(NULL, 1) right after initialisation is an invalid memory
    access, while mm_malloc(1) in the same state returns the block at 4160
    (64-bit target; 4128 on a 32-bit one). *)
Theorem mm_realloc_null_is_not_mm_malloc :
  faults ((mm_init 8 ;; mm_realloc 8 8 NULL 1) (fresh zeros (2 ^ 20))) = true /\
  returned ((mm_init 8 ;; mm_malloc 8 8 1) (fresh zeros (2 ^ 20))) = Some 4160 /\
  faults ((mm_init 4 ;; mm_realloc 4 8 NULL 1) (fresh zeros (2 ^ 20))) = true /\
  returned ((mm_init 4 ;; mm_malloc 4 8 1) (fresh zeros (2 ^ 20))) = Some 4128.
Proof. repeat split; vm_compute; reflexivity. Qed.

(** C3: after mm_init the prologue header (at heap_listp + WSIZE) holds
    PACK(DSIZE, 1) = 9, but the prologue footer (at heap_listp + 2 * WSIZE,
    which is also where free_list_start first points) holds 4128, the address
    of the first free block: insert_in_free_list stored it there as the "prev"
    link of the old list head.  Size field and allocation bit both differ. *)
Theorem mm_init_prologue_footer_overwritten :
  returned (mm_init 4 (fresh zeros (2 ^ 20))) = Some 0 /\
  final_word (4096 + 4) (mm_init 4 (fresh zeros (2 ^ 20))) = Some (PACK (DSIZE 4) 1) /\
  final_word (4096 + 8) (mm_init 4 (fresh zeros (2 ^ 20))) = Some 4128 /\
  size_field 4 (PACK (DSIZE 4) 1) = 8 /\ size_field 4 4128 = 4128 /\
  alloc_bit (PACK (DSIZE 4) 1) = 1 /\ alloc_bit 4128 = 0.
Proof. repeat split; vm_compute; reflexivity. Qed.

(** ** Word-size constants *)

Lemma modulus_4 : modulus 4 = 4294967296.
Proof. reflexivity. Qed.
Lemma modulus_8 : modulus 8 = 18446744073709551616.
Proof. reflexivity. Qed.
Lemma DSIZE_4 : DSIZE 4 = 8.
Proof. reflexivity. Qed.
Lemma DSIZE_8 : DSIZE 8 = 16.
Proof. reflexivity. Qed.

Lemma wrap_small (W z : Z) : 0 <= z < modulus W -> wrap W z = z.
Proof. intros H. unfold wrap. apply Z.mod_small. exact H. Qed.

Lemma to_int_small (z : Z) : - 2 ^ 31 <= z < 2 ^ 31 -> to_int z = z.
Proof.
  intros H. unfold to_int.
  rewrite Z.mod_small; [lia|].
  change (2 ^ 32) with (2 ^ 31 + 2 ^ 31). lia.
Qed.

Lemma to_int_multiple (z : Z) : z mod 2 ^ 32 = 0 -> to_int z = 0.
Proof.
  intros H. unfold to_int.
  rewrite <- Zplus_mod_idemp_l, H. reflexivity.
Qed.

(** ** The adjusted block size (C4) *)

(** C4, as stated, fails: for a request of 18 bytes on a 64-bit target the
    code computes 16 * ((18 + 16 + 15) / 16) = 48 with truncating division,
    where the ceiling of the specification's formula gives 64; and for a
    request of 2^64 - 1 bytes the sum wraps around and the adjusted size is
    16, less than four words and far from the request rounded up. *)
Lemma adjust_size_not_as_specified :
  adjust_size 8 18 = 48 /\ asize_as_specified 8 18 = 64 /\
  adjust_size 8 (2 ^ 64 - 1) = 16 /\ 16 < 4 * 8.
Proof. repeat split; vm_compute; reflexivity. Qed.

(** C4, amended: a request of at most DSIZE bytes gets 2 * DSIZE; a larger
    one whose sum size + DSIZE + (DSIZE - 1) does not wrap around gets
    DSIZE * ((size + DSIZE + (DSIZE - 1)) / DSIZE) with truncating division,
    which is size + DSIZE rounded up to a multiple of DSIZE and is at least
    four words. *)
Theorem adjust_size_rounds_up (W size : Z) :
  W = 4 \/ W = 8 ->
  0 < size ->
  (size <= DSIZE W -> adjust_size W size = 2 * DSIZE W) /\
  (DSIZE W < size -> size + DSIZE W + (DSIZE W - 1) < modulus W ->
   adjust_size W size = DSIZE W * ((size + DSIZE W + (DSIZE W - 1)) / DSIZE W) /\
   adjust_size W size mod DSIZE W = 0 /\
   size + DSIZE W <= adjust_size W size < size + 2 * DSIZE W /\
   4 * W <= adjust_size W size).
Proof.
  intros HW Hpos. unfold adjust_size.
  destruct HW; subst W; rewrite ?DSIZE_4, ?DSIZE_8; unfold wrap;
    rewrite ?modulus_4, ?modulus_8; split.
  - intros Hle. apply Z.leb_le in Hle. rewrite Hle. reflexivity.
  - intros Hgt Hno. apply Z.leb_gt in Hgt. rewrite Hgt.
    rewrite (Z.mod_small (size + 8)) by lia.
    rewrite (Z.mod_small (8 - 1)) by lia.
    rewrite (Z.mod_small (size + 8 + (8 - 1))) by lia.
    rewrite (Z.mod_small (8 * _)) by (Z.div_mod_to_equations; lia).
    repeat split; Z.div_mod_to_equations; lia.
  - intros Hle. apply Z.leb_le in Hle. rewrite Hle. reflexivity.
  - intros Hgt Hno. apply Z.leb_gt in Hgt. rewrite Hgt.
    rewrite (Z.mod_small (size + 16)) by lia.
    rewrite (Z.mod_small (16 - 1)) by lia.
    rewrite (Z.mod_small (size + 16 + (16 - 1))) by lia.
    rewrite (Z.mod_small (16 * _)) by (Z.div_mod_to_equations; lia).
    repeat split; Z.div_mod_to_equations; lia.
Qed.

Lemma adjust_size_rounds_up_witness :
  adjust_size 8 18 = DSIZE 8 * ((18 + DSIZE 8 + (DSIZE 8 - 1)) / DSIZE 8) /\
  adjust_size 8 18 mod DSIZE 8 = 0 /\
  18 + DSIZE 8 <= adjust_size 8 18 < 18 + 2 * DSIZE 8 /\
  4 * 8 <= adjust_size 8 18.
Proof.
  apply (adjust_size_rounds_up 8 18 (or_intror eq_refl) eq_refl);
    vm_compute; reflexivity.
Defined.

(** ** Truncation of the requested size in mm_realloc *)

(** A size whose low 32 bits are all zero is 0 once cast to int, so
    mm_realloc takes the "size == 0" branch. *)
Lemma mm_realloc_zero_int_size (W : Z) (fuel : nat) (bp size : Z) (s : state) :
  size mod 2 ^ 32 = 0 ->
  mm_realloc W fuel bp size s = (mm_free W bp ;; ret NULL) s.
Proof.
  intros Hlow. unfold mm_realloc.
  rewrite (to_int_multiple size Hlow). reflexivity.
Qed.

(** On [one_block_64] the call frees the block at 4160 (its tag goes from 49
    to a free tag) and returns NULL. *)
Example mm_realloc_zero_int_size_run :
  mem one_block_64 (4160 - 8) = 49 /\
  returned (mm_realloc 8 8 4160 (2 ^ 32) one_block_64) = Some NULL /\
  option_map alloc_bit
    (final_word (4160 - 8) (mm_realloc 8 8 4160 (2 ^ 32) one_block_64)) = Some 0.
Proof. repeat split; vm_compute; reflexivity. Qed.

(** ** Words, tags and single memory accesses *)

Section Basics.

Variable W : Z.

Lemma valid_word_iff (s : state) (p : Z) :
  valid_word W s p = true <->
  mem_start_brk s <= p /\ p + W <= mem_brk s /\ p mod W = 0.
Proof.
  unfold valid_word, WSIZE.
  rewrite !andb_true_iff, !Z.leb_le, Z.eqb_eq. tauto.
Qed.

Lemma GET_ok (s : state) (p : Z) :
  valid_word W s p = true -> GET W p s = Ok (mem s p) s.
Proof. intros H. unfold GET. rewrite H. reflexivity. Qed.

Lemma PUT_ok (s : state) (p v : Z) :
  valid_word W s p = true ->
  PUT W p v s = Ok tt (set_mem (upd (mem s) p v) s).
Proof. intros H. unfold PUT. rewrite H. reflexivity. Qed.

Lemma upd_same (m : Z -> Z) (p v : Z) : upd m p v p = v.
Proof. unfold upd. rewrite Z.eqb_refl. reflexivity. Qed.

Lemma upd_other (m : Z -> Z) (p v q : Z) : q <> p -> upd m p v q = m q.
Proof. intros H. unfold upd. apply Z.eqb_neq in H. rewrite H. reflexivity. Qed.

Hypothesis HW : W = 4 \/ W = 8.

Lemma W_pos : 0 < W.
Proof. lia. Qed.

Lemma DSIZE_eq : DSIZE W = 2 * W.
Proof. destruct HW; subst W; reflexivity. Qed.

Lemma modulus_large : 2 ^ 32 <= modulus W.
Proof. destruct HW; subst W; [rewrite modulus_4 | rewrite modulus_8]; lia. Qed.

Lemma modulus_aligned : modulus W mod (2 * W) = 0.
Proof. destruct HW; subst W; reflexivity. Qed.

Lemma size_field_eq (v : Z) :
  0 <= v < modulus W -> size_field W v = 2 * W * (v / (2 * W)).
Proof.
  intros Hv. unfold size_field, wrap.
  assert (Hmask : exists k, 0 <= k /\ DSIZE W - 1 = Z.ones k /\
                            modulus W = 2 ^ (8 * W) /\ 2 * W = 2 ^ k /\ 0 <= 8 * W).
  { destruct HW; subst W; [exists 3 | exists 4]; repeat split; lia. }
  destruct Hmask as (k & Hk & Hones & Hmod & Hpow & Hbits).
  rewrite Hones, Hmod, <- Z.land_ones by assumption.
  rewrite (Z.land_comm (Z.lnot _)), Z.land_assoc.
  rewrite Z.land_ones by assumption.
  rewrite Z.mod_small by (rewrite <- Hmod; exact Hv).
  change (Z.land v (Z.lnot (Z.ones k))) with (Z.land v (Z.lnot (Z.ones k))).
  rewrite <- Z.ldiff_land, Z.ldiff_ones_r by assumption.
  rewrite Z.shiftr_div_pow2, Z.shiftl_mul_pow2 by assumption.
  rewrite <- Hpow. lia.
Qed.

Lemma size_field_aligned (v : Z) :
  0 <= v < modulus W -> v mod (2 * W) = 0 -> size_field W v = v.
Proof.
  intros Hv Hal. rewrite size_field_eq by assumption.
  pose proof W_pos. Z.div_mod_to_equations. lia.
Qed.

Lemma alloc_bit_eq (v : Z) : alloc_bit v = v mod 2.
Proof. unfold alloc_bit. change 1 with (Z.ones 1). rewrite Z.land_ones by lia. reflexivity. Qed.

Lemma PACK_add (sz a : Z) :
  sz mod 2 = 0 -> a = 0 \/ a = 1 -> PACK sz a = sz + a.
Proof.
  intros Hsz Ha. unfold PACK.
  assert (Hland : Z.land sz a = 0).
  { destruct Ha; subst a; [apply Z.land_0_r|].
    change 1 with (Z.ones 1). rewrite Z.land_ones by lia. exact Hsz. }
  pose proof (Z.add_lor_land sz a) as H. rewrite Hland in H. lia.
Qed.

Lemma PACK_0 (sz : Z) : PACK sz 0 = sz.
Proof. unfold PACK. apply Z.lor_0_r. Qed.

(** The fields of a well-formed tag: an aligned size plus the allocation bit. *)
Lemma size_field_tag (sz a : Z) :
  0 <= sz < modulus W -> sz mod (2 * W) = 0 -> a = 0 \/ a = 1 ->
  size_field W (sz + a) = sz.
Proof.
  intros Hsz Hal Ha.
  assert (Hlt : sz + a < modulus W).
  { pose proof modulus_aligned. pose proof W_pos.
    Z.div_mod_to_equations. lia. }
  rewrite size_field_eq by lia.
  pose proof W_pos. Z.div_mod_to_equations. lia.
Qed.

Lemma alloc_bit_tag (sz a : Z) :
  sz mod (2 * W) = 0 -> a = 0 \/ a = 1 -> alloc_bit (sz + a) = a.
Proof.
  intros Hal Ha. rewrite alloc_bit_eq.
  pose proof W_pos. Z.div_mod_to_equations. lia.
Qed.

Lemma to_int_aligned (p : Z) : p mod 2 = 0 -> to_int p <> -1.
Proof.
  unfold to_int. intros Hp.
  change (2 ^ 32) with 4294967296. change (2 ^ 31) with 2147483648.
  Z.div_mod_to_equations. lia.
Qed.

End Basics.

(** ** Heap extension *)

Section Extension.

Variable W : Z.
Hypothesis HW : W = 4 \/ W = 8.

Lemma extend_size_bounds (words : Z) :
  16 <= extend_size W words < modulus W /\ extend_size W words mod (2 * W) = 0.
Proof.
  unfold extend_size, wrap, WSIZE.
  destruct HW; subst W; rewrite ?modulus_4, ?modulus_8;
    destruct (negb (words mod 2 =? 0)) eqn:Hodd;
    match goal with |- context [if ?c then 16 else _] => destruct c eqn:Hsmall end;
    try apply Z.ltb_ge in Hsmall;
    try (apply negb_true_iff, Z.eqb_neq in Hodd);
    try (apply negb_false_iff, Z.eqb_eq in Hodd);
    split; try reflexivity; try lia;
    Z.div_mod_to_equations; lia.
Qed.

Lemma mem_sbrk_accepts (incr : Z) (s : state) :
  0 <= to_intptr W incr -> mem_brk s + incr <= mem_max_addr s ->
  mem_sbrk W incr s = Ok (mem_brk s) (set_brk (mem_brk s + incr) s).
Proof.
  intros H1 H2. unfold mem_sbrk.
  replace (to_intptr W incr <? 0) with false by (symmetry; apply Z.ltb_ge; lia).
  replace (mem_max_addr s <? mem_brk s + incr) with false
    by (symmetry; apply Z.ltb_ge; lia).
  reflexivity.
Qed.

Lemma mem_sbrk_refuses (incr : Z) (s : state) :
  to_intptr W incr < 0 \/ mem_max_addr s < mem_brk s + incr ->
  mem_sbrk W incr s = Ok (wrap W (-1)) s.
Proof.
  intros H. unfold mem_sbrk.
  replace ((to_intptr W incr <? 0) || (mem_max_addr s <? mem_brk s + incr)) with true;
    [reflexivity|].
  symmetry. apply orb_true_iff. rewrite !Z.ltb_lt. exact H.
Qed.

Lemma to_int_failure_sentinel : to_int (wrap W (-1)) = -1.
Proof. destruct HW; subst W; reflexivity. Qed.

Lemma extend_heap_refused (words : Z) (s : state) :
  to_intptr W (extend_size W words) < 0 \/
  mem_max_addr s < mem_brk s + extend_size W words ->
  extend_heap W words s = Ok NULL s.
Proof.
  intros H. unfold extend_heap, bind.
  rewrite mem_sbrk_refuses by exact H.
  rewrite to_int_failure_sentinel. reflexivity.
Qed.

(** A successful extend_heap writes the header of the new free block at the
    word just below the old break and a fresh epilogue header PACK(0, 1) at
    the word just below the new break, and only then calls coalesce. *)
Lemma extend_heap_writes_tags (words : Z) (s : state) :
  0 <= mem_start_brk s ->
  mem_start_brk s + W <= mem_brk s ->
  mem_brk s mod (2 * W) = 0 ->
  mem_max_addr s < modulus W ->
  0 <= to_intptr W (extend_size W words) ->
  mem_brk s + extend_size W words <= mem_max_addr s ->
  extend_heap W words s
  = coalesce W (mem_brk s) (tags_written W s (extend_size W words)) /\
  mem (tags_written W s (extend_size W words)) (mem_brk s - W)
  = PACK (extend_size W words) 0 /\
  mem (tags_written W s (extend_size W words))
      (mem_brk (tags_written W s (extend_size W words)) - W)
  = PACK 0 1.
Proof.
  intros Hlo Hword Hal Hmax Hacc Hfit.
  destruct (extend_size_bounds words) as [[Hsz16 Hszlt] Hszal].
  set (size := extend_size W words) in *.
  set (b := mem_brk s) in *.
  pose proof W_pos W HW as HWpos.
  assert (HW2 : W <= 8) by lia.
  assert (Hbmod : b mod W = 0).
  { clear - Hal HW. destruct HW; subst W; Z.div_mod_to_equations; lia. }
  assert (Hszmod : size mod W = 0).
  { clear - Hszal HW. destruct HW; subst W; Z.div_mod_to_equations; lia. }
  assert (Hhdr : HDRP W b = b - W).
  { unfold HDRP, WSIZE. apply wrap_small. lia. }
  split; [|split].
  - assert (Hv : forall m p, mem_start_brk s <= p -> p + W <= b + size ->
                 p mod W = 0 ->
                 valid_word W (set_mem m (set_brk (b + size) s)) p = true).
    { intros m p H1 H2 H3. apply valid_word_iff. unfold set_mem, set_brk. simpl. auto. }
    assert (Hm1 : (b - W) mod W = 0).
    { clear - Hbmod HW. destruct HW; subst W; Z.div_mod_to_equations; lia. }
    assert (Hm2 : (b + size - 2 * W) mod W = 0).
    { clear - Hbmod Hszmod HW. destruct HW; subst W; Z.div_mod_to_equations; lia. }
    assert (Hm3 : (b + size - W) mod W = 0).
    { clear - Hbmod Hszmod HW. destruct HW; subst W; Z.div_mod_to_equations; lia. }
    unfold extend_heap. fold size. unfold bind at 1.
    rewrite mem_sbrk_accepts by assumption. fold b.
    assert (Hne : (to_int b =? -1) = false).
    { apply Z.eqb_neq, to_int_aligned.
      clear - Hal HW. destruct HW; subst W; Z.div_mod_to_equations; lia. }
    rewrite Hne, Hhdr.
    unfold bind at 1.
    rewrite (PUT_ok W) by (apply (Hv (mem s)); lia).
    unfold bind at 1, FTRP, bind at 1, GET_SIZE, bind at 1. rewrite Hhdr.
    rewrite (GET_ok W) by (apply Hv; lia).
    cbn [mem set_mem ret]. rewrite upd_same, PACK_0.
    rewrite (size_field_aligned W HW) by (try assumption; lia).
    rewrite (DSIZE_eq W HW).
    rewrite (wrap_small W (b + size - 2 * W)) by lia.
    unfold bind at 1.
    rewrite (PUT_ok W) by (apply Hv; lia).
    unfold bind at 1, NEXT_BLK, bind at 1, GET_SIZE, bind at 1. rewrite Hhdr.
    rewrite (GET_ok W) by (apply Hv; lia).
    cbn [mem set_mem ret].
    rewrite upd_other by lia. rewrite upd_same.
    rewrite (size_field_aligned W HW) by (try assumption; lia).
    rewrite (wrap_small W (b + size)) by lia.
    assert (Hhdr' : HDRP W (b + size) = b + size - W).
    { unfold HDRP, WSIZE. apply wrap_small. lia. }
    rewrite Hhdr'.
    unfold bind at 1.
    rewrite (PUT_ok W) by (apply Hv; lia).
    unfold tags_written. rewrite ?PACK_0. reflexivity.
  - unfold tags_written. cbn [mem set_mem]. fold b.
    rewrite !upd_other by lia. apply upd_same.
  - unfold tags_written. cbn [mem set_mem mem_brk set_brk]. fold b.
    replace (b + size - W) with (b + size - W) by reflexivity.
    apply upd_same.
Qed.

End Extension.

(** C6, as stated, fails for the first extension: when mm_init calls
    extend_heap the break is at heap_listp + 32 (eight words were requested),
    the epilogue header PACK(0, 1) written by mm_init is the word at
    heap_listp + 12, and the four words above it are zero; after mm_init that
    word still holds PACK(0, 1), and the header of the new free block (16) is
    the word at heap_listp + 28. *)
Lemma mm_init_first_extension_leaves_epilogue :
  mem_brk before_first_extension_32 = 4096 + 32 /\
  mem before_first_extension_32 (4096 + 12) = PACK 0 1 /\
  map (mem before_first_extension_32) [4096 + 16; 4096 + 20; 4096 + 24; 4096 + 28]
  = [0; 0; 0; 0] /\
  returned (mm_init 4 (fresh zeros (2 ^ 20))) = Some 0 /\
  mem after_init_32 (4096 + 12) = PACK 0 1 /\
  mem after_init_32 (4096 + 28) = PACK 16 0 /\
  mem after_init_32 (mem_brk after_init_32 - 4) = PACK 0 1.
Proof. repeat split; vm_compute; reflexivity. Qed.


(** C5, as stated, fails when the size is not positive as an int: in
    [small_then_huge_free_64] the block at 4160 is allocated with 48 bytes,
    its forward neighbour is free with 4294971392 bytes, and a request of
    2^32 bytes needs 2^32 + 16 of them, more than 48 and no more than the two
    blocks together; but (int)2^32 is 0, so mm_realloc frees the block and
    returns NULL instead of growing it in place. *)
Lemma mm_realloc_huge_size_does_not_absorb :
  mem small_then_huge_free_64 (4160 - 8) = PACK 48 1 /\
  mem small_then_huge_free_64 (4160 + 48 - 8) = PACK 4294971392 0 /\
  48 < wrap 8 (2 ^ 32 + 2 * 8) /\
  wrap 8 (2 ^ 32 + 2 * 8) <= wrap 8 (48 + 4294971392) /\
  returned (mm_realloc 8 8 4160 (2 ^ 32) small_then_huge_free_64) = Some NULL /\
  option_map alloc_bit
    (final_word (4160 - 8) (mm_realloc 8 8 4160 (2 ^ 32) small_then_huge_free_64))
  = Some 0.
Proof. repeat split; vm_compute; first [reflexivity | congruence]. Qed.

(** C8: the fallback path of mm_realloc.  mm_malloc(41) serves the whole
    64-byte block (64 - 48 < 16, no split); the second call place(new_ptr, 41)
    then finds 64 - 41 = 23 >= 16 and splits it with the tags PACK(41, 1) and
    PACK(23, 0), neither a multiple of 8; read back the two sizes are 40 and 16
    and the next header is looked up 8 bytes too early, in the old payload.
    On a zero-filled region that word reads as a free block of size 0 and
    coalesce unlinks it, taking the old footer 65 for a list pointer: the call
    ends in an invalid access.  On a region whose words all read 1 the call
    returns, and the boundary tags no longer describe a sequence of blocks
    from the first block to the epilogue, as they did before the call. *)
Theorem mm_realloc_fallback_breaks_block_sizes :
  returned (fallback_prefix zeros) = Some 4192 /\
  final_walk_ok 4 100 (fallback_prefix zeros) = Some true /\
  faults (fallback_run zeros) = true /\
  returned (fallback_prefix ones) = Some 4192 /\
  final_walk_ok 4 100 (fallback_prefix ones) = Some true /\
  returned (fallback_run ones) = Some 4128 /\
  final_walk_ok 4 100 (fallback_run ones) = Some false.
Proof. repeat split; vm_compute; reflexivity. Qed.

(** C9: after thirty-three requests of 24 bytes (adjusted size 48) on a 64-bit
    target the statics are last_malloced_size = 48 and repeat_counter = 31.
    find_fit(2^32 + 48) then compares (int)(2^32 + 48) = 48 with 48, skips the
    list walk, extends the heap by 96 bytes and returns the block at 5744,
    whose size is 2640 bytes, less than the size asked for; mm_malloc(2^32 +
    24), which makes this call, goes on to place 2^32 + 48 bytes into that
    block and ends in an invalid access. *)
Theorem find_fit_repeat_escape_truncates_size :
  last_malloced_size same_size_requests_64 = 48 /\
  repeat_counter same_size_requests_64 = 31 /\
  adjust_size 8 (2 ^ 32 + 24) = 2 ^ 32 + 48 /\
  to_int (2 ^ 32 + 48) = 48 /\
  returned (find_fit 8 8 (2 ^ 32 + 48) same_size_requests_64) = Some 5744 /\
  final_brk (find_fit 8 8 (2 ^ 32 + 48) same_size_requests_64)
  = Some (mem_brk same_size_requests_64 + 96) /\
  option_map (size_field 8)
    (final_word (5744 - 8) (find_fit 8 8 (2 ^ 32 + 48) same_size_requests_64))
  = Some 2640 /\
  faults (mm_malloc 8 8 (2 ^ 32 + 24) same_size_requests_64) = true.
Proof. repeat split; vm_compute; reflexivity. Qed.

(** * The heap invariant

    The rest of the development proves that [heap_inv] holds between the
    public operations.  A state is split into the provider's fields and the
    heap proper, [with_heap m f s]: the word store [m] and the list head [f].
    The invariant is split likewise into the geometry of the blocks ([geom]),
    the boundary tags ([tags_ok]) and the links of the free list ([linked]);
    tags and links occupy different words, so a routine that writes the ones
    leaves the others alone.  Each routine of mm.c gets a lemma that
    evaluates it on a heap in this form: the list operations, coalesce in its
    four cases, extend_heap, mm_init, find_fit, place, and the public
    operations. *)

Section Geometry.

Variable W : Z.
Hypothesis HW : W = 4 \/ W = 8.
#[local] Set Default Proof Using "HW".

Lemma layout_le (p q : Z) (bl : list blk) : layout W p q bl -> p <= q.
Proof.
  revert p. induction bl as [|b bl IH]; cbn [layout app In]; intros p H.
  - lia.
  - destruct H as (_ & Hsz & _ & Hrest). apply IH in Hrest.
    pose proof (W_pos W HW). lia.
Qed.

Lemma layout_app (p q : Z) (l1 l2 : list blk) :
  layout W p q (l1 ++ l2) <-> exists r, layout W p r l1 /\ layout W r q l2.
Proof.
  revert p. induction l1 as [|b l1 IH]; cbn [layout app In]; intros p.
  - split.
    + intros H. exists p. auto.
    + intros (r & -> & H). exact H.
  - rewrite IH. split.
    + intros (Ha & Hs & Hd & r & H1 & H2). exists r. auto.
    + intros (r & (Ha & Hs & Hd & H1) & H2). eauto 10.
Qed.

Lemma layout_in (p q : Z) (bl : list blk) (b : blk) :
  layout W p q bl -> In b bl ->
  p <= baddr b /\ baddr b + bsize b <= q /\ 4 * W <= bsize b /\ (2 * W | bsize b).
Proof.
  revert p. induction bl as [|b0 bl IH]; cbn [layout app In]; intros p H Hin; [tauto|].
  destruct H as (Ha & Hs & Hd & Hrest).
  pose proof (layout_le _ _ _ Hrest) as Hle.
  pose proof (W_pos W HW) as HWp.
  destruct Hin as [-> | Hin].
  - repeat split; try assumption; lia.
  - destruct (IH _ Hrest Hin) as (H1 & H2 & H3 & H4).
    repeat split; try assumption; lia.
Qed.

Lemma layout_sep (p q : Z) (bl : list blk) (b b' : blk) :
  layout W p q bl -> In b bl -> In b' bl ->
  b = b' \/ baddr b + bsize b <= baddr b' \/ baddr b' + bsize b' <= baddr b.
Proof.
  revert p. induction bl as [|b0 bl IH]; cbn [layout app In]; intros p H Hin Hin'; [tauto|].
  destruct H as (Ha & Hs & Hd & Hrest).
  pose proof (W_pos W HW) as HWp.
  destruct Hin as [-> | Hin], Hin' as [-> | Hin'].
  - left. reflexivity.
  - right. left. pose proof (layout_in _ _ _ _ Hrest Hin'). lia.
  - right. right. pose proof (layout_in _ _ _ _ Hrest Hin). lia.
  - eapply IH; eassumption.
Qed.

Lemma layout_same_addr (p q : Z) (bl : list blk) (b b' : blk) :
  layout W p q bl -> In b bl -> In b' bl -> baddr b = baddr b' -> b = b'.
Proof.
  intros H Hin Hin' Heq.
  pose proof (W_pos W HW) as HWp.
  destruct (layout_sep _ _ _ _ _ H Hin Hin') as [E | [E | E]]; [exact E| |].
  - pose proof (layout_in _ _ _ _ H Hin). lia.
  - pose proof (layout_in _ _ _ _ H Hin'). lia.
Qed.

Lemma layout_aligned (p q : Z) (bl : list blk) (b : blk) :
  (2 * W | p) -> layout W p q bl -> In b bl -> (2 * W | baddr b).
Proof.
  revert p. induction bl as [|b0 bl IH]; cbn [layout app In]; intros p Hp H Hin; [tauto|].
  destruct H as (Ha & Hs & Hd & Hrest).
  destruct Hin as [-> | Hin].
  - rewrite Ha. exact Hp.
  - apply (IH (p + bsize b0)); auto. apply Z.divide_add_r; assumption.
Qed.

Lemma layout_end_aligned (p q : Z) (bl : list blk) :
  (2 * W | p) -> layout W p q bl -> (2 * W | q).
Proof.
  revert p. induction bl as [|b0 bl IH]; cbn [layout app In]; intros p Hp H.
  - subst q. exact Hp.
  - destruct H as (Ha & Hs & Hd & Hrest).
    apply (IH (p + bsize b0)); auto. apply Z.divide_add_r; assumption.
Qed.

Lemma layout_split (p q : Z) (l1 l2 : list blk) (b : blk) :
  layout W p q (l1 ++ b :: l2) ->
  layout W p (baddr b) l1 /\ 4 * W <= bsize b /\ (2 * W | bsize b) /\
  layout W (baddr b + bsize b) q l2.
Proof.
  intros H. apply layout_app in H. destruct H as (r & H1 & H2).
  cbn [layout] in H2. destruct H2 as (Ha & Hs & Hd & H2). subst r. auto.
Qed.

Lemma layout_join (p q : Z) (l1 l2 : list blk) (b : blk) :
  layout W p (baddr b) l1 -> 4 * W <= bsize b -> (2 * W | bsize b) ->
  layout W (baddr b + bsize b) q l2 ->
  layout W p q (l1 ++ b :: l2).
Proof.
  intros H1 Hs Hd H2. apply layout_app. exists (baddr b). cbn [layout]. auto.
Qed.

Lemma layout_last (p q : Z) (l : list blk) (b : blk) :
  layout W p q (l ++ [b]) -> baddr b + bsize b = q.
Proof.
  intros H. apply layout_split in H. cbn [layout] in H. tauto.
Qed.

End Geometry.

(** ** Single steps on a state in heap form *)

Lemma with_heap_id (s : state) : with_heap (mem s) (free_list_start s) s = s.
Proof. destruct s; reflexivity. Qed.

Lemma get_fls_heap (m : Z -> Z) (f : Z) (s : state) :
  get_free_list_start (with_heap m f s) = Ok f (with_heap m f s).
Proof. reflexivity. Qed.

Lemma set_fls_heap (m : Z -> Z) (f : Z) (s : state) (p : Z) :
  set_free_list_start p (with_heap m f s) = Ok tt (with_heap m p s).
Proof. reflexivity. Qed.

Section Steps.

Variable W : Z.
Hypothesis HW : W = 4 \/ W = 8.
#[local] Set Default Proof Using "HW".

Lemma valid_with_heap (m : Z -> Z) (f : Z) (s : state) (p : Z) :
  valid W s p -> valid_word W (with_heap m f s) p = true.
Proof.
  intros (H1 & H2 & H3). apply valid_word_iff. cbn.
  repeat split; try assumption.
  apply Z.mod_divide; [pose proof (W_pos W HW); lia | exact H3].
Qed.

Lemma GET_heap (m : Z -> Z) (f : Z) (s : state) (p : Z) :
  valid W s p -> GET W p (with_heap m f s) = Ok (m p) (with_heap m f s).
Proof. intros H. apply (GET_ok W). apply valid_with_heap, H. Qed.

Lemma PUT_heap (m : Z -> Z) (f : Z) (s : state) (p v : Z) :
  valid W s p -> PUT W p v (with_heap m f s) = Ok tt (with_heap (upd m p v) f s).
Proof. intros H. rewrite (PUT_ok W) by (apply valid_with_heap, H). reflexivity. Qed.

Lemma insert_in_free_list_heap (m : Z -> Z) (f : Z) (s : state) (bp : Z) :
  region W s ->
  valid W s bp -> valid W s (bp + W) -> valid W s f ->
  insert_in_free_list W bp (with_heap m f s)
  = Ok tt (with_heap (upd (upd (upd m (bp + W) f) f bp) bp 0) bp s).
Proof.
  intros (Hlo & Hbrk) Hbp Hbp' Hf.
  assert (Hw : wrap W (bp + W) = bp + W).
  { apply wrap_small. destruct Hbp as (? & ? & ?), Hbp' as (? & ? & ?).
    pose proof (W_pos W HW). lia. }
  unfold insert_in_free_list, SET_NEXT_PTR, SET_PREV_PTR, WSIZE, NULL.
  rewrite Hw.
  unfold bind. rewrite get_fls_heap.
  rewrite !PUT_heap by assumption.
  rewrite set_fls_heap. reflexivity.
Qed.

Lemma wrap_valid (s : state) (p : Z) :
  region W s -> valid W s p -> wrap W p = p.
Proof.
  intros (Hlo & Hbrk) (H1 & H2 & _). apply wrap_small.
  pose proof (W_pos W HW). lia.
Qed.

Lemma remove_from_free_list_head (m : Z -> Z) (f : Z) (s : state) (bp : Z) :
  region W s ->
  valid W s bp -> valid W s (bp + W) -> valid W s (m (bp + W)) ->
  m bp = 0 ->
  remove_from_free_list W bp (with_heap m f s)
  = Ok tt (with_heap (upd m (m (bp + W)) 0) (m (bp + W)) s).
Proof.
  intros Hreg Hbp Hbp' Hnx Hpv.
  unfold remove_from_free_list, GET_PREV_PTR, GET_NEXT_PTR, SET_NEXT_PTR,
    SET_PREV_PTR, WSIZE.
  rewrite (wrap_valid s (bp + W)) by assumption.
  unfold bind.
  rewrite !GET_heap by assumption.
  rewrite Hpv. cbn [Z.eqb negb].
  rewrite !GET_heap by assumption.
  rewrite set_fls_heap.
  rewrite !GET_heap by assumption.
  rewrite Hpv.
  rewrite PUT_heap by assumption.
  reflexivity.
Qed.

Lemma remove_from_free_list_inner (m : Z -> Z) (f : Z) (s : state) (bp : Z) :
  region W s ->
  valid W s bp -> valid W s (bp + W) -> valid W s (m (bp + W)) ->
  valid W s (m bp + W) ->
  m bp <> 0 -> m bp + W <> bp -> m bp <> bp ->
  remove_from_free_list W bp (with_heap m f s)
  = Ok tt (with_heap (upd (upd m (m bp + W) (m (bp + W))) (m (bp + W)) (m bp)) f s).
Proof.
  intros Hreg Hbp Hbp' Hnx Hpv' Hpv Hne1 Hne2.
  unfold remove_from_free_list, GET_PREV_PTR, GET_NEXT_PTR, SET_NEXT_PTR,
    SET_PREV_PTR, WSIZE.
  rewrite (wrap_valid s (bp + W)) by assumption.
  unfold bind.
  rewrite !GET_heap by assumption.
  apply Z.eqb_neq in Hpv. rewrite Hpv. cbn [negb].
  rewrite !GET_heap by assumption.
  rewrite (wrap_valid s (m bp + W)) by assumption.
  rewrite PUT_heap by assumption.
  rewrite !GET_heap by assumption.
  rewrite !upd_other by lia.
  rewrite PUT_heap by assumption.
  reflexivity.
Qed.

End Steps.

(** ** The linked list as a sequence of nodes *)

Section Chains.

Variable W : Z.
Hypothesis HW : W = 4 \/ W = 8.
#[local] Set Default Proof Using "HW".

Lemma spaced_incl (l l' : list Z) : incl l l' -> spaced W l' -> spaced W l.
Proof. intros Hi Hs a b Ha Hb. apply Hs; apply Hi; assumption. Qed.

Lemma chain_app (m : Z -> Z) (sent prev cur : Z) (f1 f2 : list Z) :
  chain W m sent prev cur (f1 ++ f2) <->
  exists mid lst, cseg W m prev cur f1 mid lst /\ chain W m sent lst mid f2.
Proof.
  revert prev cur. induction f1 as [|p f1 IH]; cbn [app chain cseg]; intros prev cur.
  - split.
    + intros H. exists cur, prev. auto.
    + intros (mid & lst & (-> & ->) & H). exact H.
  - rewrite IH. split.
    + intros (Hc & Hp & mid & lst & H1 & H2). exists mid, lst. auto.
    + intros (mid & lst & (Hc & Hp & H1) & H2). eauto 10.
Qed.

Lemma chain_frame (m m' : Z -> Z) (sent prev cur : Z) (fl : list Z) :
  (forall p, In p fl -> m' p = m p /\ m' (p + W) = m (p + W)) ->
  chain W m sent prev cur fl -> chain W m' sent prev cur fl.
Proof.
  revert prev cur. induction fl as [|p fl IH]; cbn [chain]; intros prev cur Hf H.
  - exact H.
  - destruct H as (Hc & Hp & H).
    destruct (Hf p (or_introl eq_refl)) as (E1 & E2).
    rewrite E1, E2. repeat split; try assumption.
    apply IH; [|exact H]. intros q Hq. apply Hf. right. exact Hq.
Qed.

Lemma cseg_frame (m m' : Z -> Z) (prev cur : Z) (fl : list Z) (nxt lst : Z) :
  (forall p, In p fl -> m' p = m p /\ m' (p + W) = m (p + W)) ->
  cseg W m prev cur fl nxt lst -> cseg W m' prev cur fl nxt lst.
Proof.
  revert prev cur. induction fl as [|p fl IH]; cbn [cseg]; intros prev cur Hf H.
  - exact H.
  - destruct H as (Hc & Hp & H).
    destruct (Hf p (or_introl eq_refl)) as (E1 & E2).
    rewrite E1, E2. repeat split; try assumption.
    apply IH; [|exact H]. intros q Hq. apply Hf. right. exact Hq.
Qed.

(** The last node of a non-empty segment is one of its nodes. *)
Lemma cseg_last_in (m : Z -> Z) (prev cur : Z) (fl : list Z) (nxt lst : Z) :
  cseg W m prev cur fl nxt lst -> fl <> [] -> In lst fl /\ m (lst + W) = nxt.
Proof.
  revert prev cur. induction fl as [|p fl IH]; cbn [cseg]; intros prev cur H Hne.
  - congruence.
  - destruct H as (Hc & Hp & H). destruct fl as [|q fl].
    + cbn [cseg] in H. destruct H as (H1 & H2). subst lst. split; [left; reflexivity|].
      exact H1.
    + destruct (IH _ _ H) as (Hin & Hn); [discriminate|].
      split; [right; exact Hin | exact Hn].
Qed.

(** Redirecting the "next" field of the last node of a segment. *)
Lemma cseg_set_next (m m' : Z -> Z) (prev cur : Z) (fl : list Z) (nxt nxt' lst : Z) :
  NoDup fl -> spaced W fl ->
  cseg W m prev cur fl nxt lst -> fl <> [] ->
  m' (lst + W) = nxt' ->
  (forall p, In p fl -> m' p = m p /\ (p <> lst -> m' (p + W) = m (p + W))) ->
  cseg W m' prev cur fl nxt' lst.
Proof.
  revert prev cur. induction fl as [|p fl IH]; cbn [cseg]; intros prev cur Hnd Hsp H Hne Hl Hf.
  - congruence.
  - destruct H as (Hc & Hp & H).
    destruct (Hf p (or_introl eq_refl)) as (E1 & E2).
    rewrite E1. split; [exact Hc|]. split; [exact Hp|].
    destruct fl as [|q fl].
    + cbn [cseg] in H |- *. destruct H as (H1 & H2). subst lst.
      rewrite Hl. auto.
    + assert (Hpl : p <> lst).
      { destruct (cseg_last_in _ _ _ _ _ _ H) as (Hin & _); [discriminate|].
        inversion Hnd as [|? ? Hni _]; subst. intros ->. contradiction. }
      rewrite (E2 Hpl).
      inversion Hnd; subst.
      apply IH; auto.
      * eapply spaced_incl; [|exact Hsp]. intros x Hx. right. exact Hx.
      * discriminate.
      * intros x Hx. apply Hf. right. exact Hx.
Qed.

(** Redirecting the "prev" field of the first node of a chain. *)
Lemma chain_set_prev (m m' : Z -> Z) (sent prev prev' cur : Z) (fl : list Z) :
  chain W m sent prev cur fl ->
  (fl <> [] -> m' cur = prev') ->
  (forall p, In p fl -> (p <> cur -> m' p = m p) /\ m' (p + W) = m (p + W)) ->
  NoDup fl ->
  chain W m' sent prev' cur fl.
Proof.
  destruct fl as [|p fl]; cbn [chain]; intros H Hc Hf Hnd.
  - exact H.
  - destruct H as (Hcur & Hp & H). subst cur.
    split; [reflexivity|]. split; [apply Hc; discriminate|].
    destruct (Hf p (or_introl eq_refl)) as (_ & E2). rewrite E2.
    apply (chain_frame m); [|exact H].
    intros q Hq. destruct (Hf q (or_intror Hq)) as (E1 & E3).
    split; [|exact E3]. apply E1.
    inversion Hnd; subst. intros ->. contradiction.
Qed.

Lemma chain_nodes_cur (m : Z -> Z) (sent prev cur : Z) (fl : list Z) :
  chain W m sent prev cur fl -> fl = [] /\ cur = sent \/ exists fl', fl = cur :: fl'.
Proof.
  destruct fl as [|p fl]; cbn [chain]; intros H.
  - left. auto.
  - right. destruct H as (-> & _). eauto.
Qed.

End Chains.

(** ** List operations on a well-linked free list *)

Section Linked.

Variable W : Z.
Hypothesis HW : W = 4 \/ W = 8.
#[local] Set Default Proof Using "HW".

Lemma NoDup_app_disjoint {A} (l1 l2 : list A) (a : A) :
  NoDup (l1 ++ l2) -> In a l1 -> In a l2 -> False.
Proof.
  induction l1 as [|x l1 IH]; cbn [app In]; intros Hnd H1 H2; [tauto|].
  inversion Hnd as [|? ? Hni Hnd']; subst.
  destruct H1 as [-> | H1].
  - apply Hni. apply in_or_app. right. exact H2.
  - exact (IH Hnd' H1 H2).
Qed.

Ltac in_tac := cbn [In]; rewrite ?in_app_iff; cbn [In]; tauto.

Lemma linked_remove (s : state) (m : Z -> Z) (f : Z) (f1 f2 : list Z) (p : Z) :
  0 < mem_start_brk s -> mem_brk s < modulus W ->
  linked W s m f (f1 ++ p :: f2) ->
  exists m' f',
    remove_from_free_list W p (with_heap m f s) = Ok tt (with_heap m' f' s) /\
    linked W s m' f' (f1 ++ f2) /\
    (forall a, ~ link_cell W s (f1 ++ f2) a -> m' a = m a).
Proof.
  intros Hlo Hbrk [Hch Hnd Hsp Hsent Hval].
  assert (Hreg : region W s) by (split; lia).
  pose proof (W_pos W HW) as HWp.
  apply (chain_app W HW) in Hch. destruct Hch as (mid & lst & Hseg & Hch).
  cbn [chain] in Hch. destruct Hch as (-> & Hpv & Hch).
  destruct (Hval p ltac:(in_tac)) as (Hvp & Hvp' & Hap).
  set (nx := m (p + W)) in *.
  assert (Hnx : nx = sentinel W s /\ f2 = [] \/ In nx f2).
  { destruct (chain_nodes_cur W HW _ _ _ _ _ Hch) as [(-> & E) | (fl' & E)]; [auto|].
    right. rewrite E. left. reflexivity. }
  assert (Hvnx : valid W s nx).
  { destruct Hnx as [(-> & _) | Hin]; [exact Hsent|].
    apply Hval. in_tac. }
  assert (Hnd1 : NoDup (f1 ++ f2)) by (eapply NoDup_remove_1; exact Hnd).
  assert (Hpn : ~ In p (f1 ++ f2)) by (eapply NoDup_remove_2; exact Hnd).
  assert (Hnx1 : ~ In nx f1).
  { destruct Hnx as [(E & _) | Hin].
    - intros Hin. destruct (Hval nx ltac:(in_tac)) as (_ & _ & H). lia.
    - intros Hin'. eapply NoDup_app_disjoint; eassumption. }
  assert (Hsnx : forall q, In q (f1 ++ p :: f2) ->
                           q = nx \/ q + W < nx \/ nx + W < q).
  { intros q Hq. destruct Hnx as [(E & _) | Hin].
    - destruct (Hval q Hq) as (_ & _ & H). lia.
    - apply Hsp; [exact Hq | in_tac]. }
  assert (Hnxp : nx <> p).
  { intros E. destruct Hnx as [(E' & _) | Hin]; [lia|].
    apply Hpn. rewrite <- E. in_tac. }
  assert (Hsp' : spaced W (f1 ++ f2)).
  { eapply (spaced_incl W HW); [|exact Hsp]. intros x Hx. revert Hx. in_tac. }
  assert (Hval' : forall q, In q (f1 ++ f2) ->
            valid W s q /\ valid W s (q + W) /\ sentinel W s + W < q).
  { intros q Hq. apply Hval. revert Hq. in_tac. }
  destruct f1 as [|q0 f1'].
  - (* p is the head of the list *)
    cbn [cseg] in Hseg. destruct Hseg as (-> & ->).
    exists (upd m nx 0), nx.
    split; [apply remove_from_free_list_head; assumption|].
    split.
    + constructor; try assumption.
      cbn [app]. apply (chain_set_prev W HW m _ _ p); auto.
      * intros _. apply upd_same.
      * intros q Hq. split.
        -- intros Hne. apply upd_other. exact Hne.
        -- apply upd_other.
           destruct (Hsnx q ltac:(in_tac)) as [E | E]; lia.
    + intros a Ha. apply upd_other. intros ->. apply Ha.
      destruct Hnx as [(E & _) | Hin]; [left; exact E|].
      right. exists nx. split; [exact Hin | left; reflexivity].
  - (* p has a predecessor *)
    destruct (cseg_last_in W HW _ _ _ _ _ _ Hseg) as (Hlin & Hlnx); [discriminate|].
    set (fl1 := q0 :: f1') in *.
    assert (Hlp : lst <> p).
    { intros ->. apply Hpn. in_tac. }
    destruct (Hval lst ltac:(in_tac)) as (Hvl & Hvl' & Hal).
    assert (Hl0 : lst <> 0).
    { destruct Hvl as (H1 & _). lia. }
    assert (Hsl : lst + W < p \/ p + W < lst).
    { destruct (Hsp lst p ltac:(in_tac) ltac:(in_tac)) as [E | E];
        [contradiction | exact E]. }
    assert (Hsnl : lst + W < nx \/ nx + W < lst).
    { destruct (Hsnx lst ltac:(in_tac)) as [E | E]; [|exact E].
      exfalso. apply Hnx1. rewrite <- E. exact Hlin. }
    exists (upd (upd m (lst + W) nx) nx lst), f.
    split.
    { rewrite <- Hpv. apply remove_from_free_list_inner; rewrite ?Hpv; try assumption; lia. }
    split.
    + constructor; try assumption.
      apply (chain_app W HW). exists nx, lst. split.
      * apply (cseg_set_next W HW m _ _ _ _ p); auto.
        -- eapply NoDup_app_remove_r; exact Hnd1.
        -- eapply (spaced_incl W HW); [|exact Hsp]. intros x Hx. revert Hx. in_tac.
        -- discriminate.
        -- rewrite upd_other by lia. apply upd_same.
        -- intros q Hq.
           assert (Hsq : q = lst \/ q + W < lst \/ lst + W < q).
           { apply Hsp; in_tac. }
           assert (Hsqn : q + W < nx \/ nx + W < q).
           { destruct (Hsnx q ltac:(in_tac)) as [E | E]; [|exact E].
             exfalso. apply Hnx1. rewrite <- E. exact Hq. }
           split.
           ++ rewrite !upd_other by lia. reflexivity.
           ++ intros Hne. rewrite !upd_other by lia. reflexivity.
      * apply (chain_set_prev W HW m _ _ p); auto.
        -- intros _. apply upd_same.
        -- intros q Hq.
           assert (Hql : q <> lst).
           { intros ->. eapply NoDup_app_disjoint; eassumption. }
           assert (Hsq : q + W < lst \/ lst + W < q).
           { destruct (Hsp q lst ltac:(in_tac) ltac:(in_tac)) as [E | E];
               [contradiction | exact E]. }
           assert (Hsqn : q = nx \/ q + W < nx \/ nx + W < q).
           { apply Hsnx; in_tac. }
           split.
           ++ intros Hne. rewrite !upd_other by lia. reflexivity.
           ++ rewrite !upd_other by lia. reflexivity.
        -- eapply NoDup_app_remove_l; exact Hnd1.
    + intros a Ha.
      rewrite !upd_other; [reflexivity | |].
      * intros ->. apply Ha. right. exists lst. split; [in_tac | right; reflexivity].
      * intros ->. apply Ha.
        destruct Hnx as [(E & _) | Hin]; [left; exact E|].
        right. exists nx. split; [in_tac | left; reflexivity].
Qed.

End Linked.

(** ** Tags and links occupy different words *)

Section Frames.

Variable W : Z.
Hypothesis HW : W = 4 \/ W = 8.
#[local] Set Default Proof Using "HW".

Lemma shape_heap (s : state) (m : Z -> Z) (f : Z) (bl : list blk) (fl : list Z) :
  shape W (with_heap m f s) bl fl <->
  geom W s bl /\ tags_ok W s m bl /\ chain W m (sentinel W s) 0 f fl /\
  NoDup fl /\ nodes_in bl fl.
Proof.
  unfold geom, tags_ok, nodes_in. split.
  - intros [H1 H2 H3 H4 H5 H6 H7 H8 H9 H10 H11 H12]. cbn in *. tauto.
  - intros ((H1 & H2 & H3 & H4 & H5) & (H6 & H7 & H8 & H9) & H10 & H11 & H12).
    constructor; cbn; assumption.
Qed.

Lemma shape_state (s : state) (bl : list blk) (fl : list Z) :
  shape W s bl fl <->
  geom W s bl /\ tags_ok W s (mem s) bl /\
  chain W (mem s) (sentinel W s) 0 (free_list_start s) fl /\
  NoDup fl /\ nodes_in bl fl.
Proof.
  rewrite <- (with_heap_id s) at 1. apply shape_heap.
Qed.

Lemma geom_first_aligned (s : state) (bl : list blk) :
  geom W s bl -> (2 * W | first_block W s).
Proof.
  intros (_ & Hal & _). unfold first_block.
  apply Z.divide_add_r; [exact Hal|]. exists 4. lia.
Qed.

(** What the geometry says about one block. *)
Lemma geom_block (s : state) (bl : list blk) (b : blk) :
  geom W s bl -> In b bl ->
  mem_start_brk s + 8 * W <= baddr b /\ baddr b + bsize b <= mem_brk s /\
  4 * W <= bsize b /\ (2 * W | bsize b) /\ (2 * W | baddr b) /\
  0 < mem_start_brk s /\ mem_brk s < modulus W.
Proof.
  intros Hg Hin. pose proof (geom_first_aligned _ _ Hg) as Hfa.
  destruct Hg as (Hlo & Hal & Hbrk & Hmax & Hlay).
  destruct (layout_in W HW _ _ _ _ Hlay Hin) as (H1 & H2 & H3 & H4).
  pose proof (layout_aligned W HW _ _ _ _ Hfa Hlay Hin) as H5.
  unfold first_block in H1. repeat split; try assumption; lia.
Qed.

Lemma divide_word (x : Z) : (2 * W | x) -> (W | x).
Proof. intros (k & ->). exists (k * 2). lia. Qed.

Lemma divide_word_self : (W | W).
Proof. apply Z.divide_refl. Qed.

Lemma divide_word_mul (k : Z) : (W | k * W).
Proof. exists k. reflexivity. Qed.

End Frames.

Create HintDb algn.
#[export] Hint Resolve divide_word divide_word_self divide_word_mul
  Z.divide_add_r Z.divide_sub_r : algn.

Section Disjoint.

Variable W : Z.
Hypothesis HW : W = 4 \/ W = 8.
#[local] Set Default Proof Using "HW".

Ltac in_tac := cbn [In]; rewrite ?in_app_iff; cbn [In]; tauto.

Lemma geom_brk (s : state) (bl : list blk) :
  geom W s bl ->
  0 < mem_start_brk s /\ mem_start_brk s + 8 * W <= mem_brk s /\
  mem_brk s < modulus W /\ (2 * W | mem_start_brk s) /\ (2 * W | mem_brk s).
Proof.
  intros Hg. pose proof (geom_first_aligned W HW _ _ Hg) as Hfa.
  destruct Hg as (Hlo & Hal & Hbrk & Hmax & Hlay).
  pose proof (layout_le W HW _ _ _ Hlay) as Hle.
  pose proof (layout_end_aligned W HW _ _ _ Hfa Hlay).
  unfold first_block in Hle. repeat split; try assumption; lia.
Qed.

Lemma valid_intro (s : state) (p : Z) :
  mem_start_brk s <= p -> p + W <= mem_brk s -> (W | p) -> valid W s p.
Proof. intros. repeat split; assumption. Qed.

Lemma geom_valid_sentinel (s : state) (bl : list blk) :
  geom W s bl -> valid W s (sentinel W s).
Proof.
  intros Hg. destruct (geom_brk _ _ Hg) as (H1 & H2 & H3 & H4 & H5).
  pose proof (W_pos W HW). unfold sentinel.
  apply valid_intro; try lia.
  apply Z.divide_add_r; [apply (divide_word W HW); exact H4|].
  exists 2. reflexivity.
Qed.

(** The words of a block: header, links, payload, footer. *)
Lemma geom_valid_block (s : state) (bl : list blk) (b : blk) (k : Z) :
  geom W s bl -> In b bl ->
  - 1 <= k -> (k + 2) * W <= bsize b ->
  valid W s (baddr b + k * W).
Proof.
  intros Hg Hin Hk1 Hk2.
  destruct (geom_block W HW _ _ _ Hg Hin) as (H1 & H2 & H3 & H4 & H5 & H6 & H7).
  pose proof (W_pos W HW).
  apply valid_intro; try nia.
  apply Z.divide_add_r; [apply (divide_word W HW); exact H5|].
  exists k. reflexivity.
Qed.

Lemma nodes_facts (s : state) (bl : list blk) (fl : list Z) :
  geom W s bl -> nodes_in bl fl ->
  spaced W fl /\ valid W s (sentinel W s) /\
  forall p, In p fl -> valid W s p /\ valid W s (p + W) /\ sentinel W s + W < p.
Proof.
  intros Hg Hn. pose proof (W_pos W HW) as HWp.
  split; [|split].
  - intros a b Ha Hb.
    destruct (Hn a Ha) as (ba & Hba & <-).
    destruct (Hn b Hb) as (bb & Hbb & <-).
    destruct (geom_block W HW _ _ _ Hg Hba) as (? & ? & ? & _).
    destruct (geom_block W HW _ _ _ Hg Hbb) as (? & ? & ? & _).
    destruct Hg as (_ & _ & _ & _ & Hlay).
    destruct (layout_sep W HW _ _ _ _ _ Hlay Hba Hbb) as [-> | [E | E]];
      [left; reflexivity | right; left; lia | right; right; lia].
  - eapply geom_valid_sentinel; exact Hg.
  - intros p Hp. destruct (Hn p Hp) as (b & Hb & <-).
    destruct (geom_block W HW _ _ _ Hg Hb) as (? & ? & ? & _).
    split; [|split].
    + replace (baddr b) with (baddr b + 0 * W) by lia.
      eapply geom_valid_block; eauto; lia.
    + replace (baddr b + W) with (baddr b + 1 * W) by lia.
      eapply geom_valid_block; eauto; lia.
    + unfold sentinel. lia.
Qed.

Lemma mk_linked (s : state) (m : Z -> Z) (f : Z) (bl : list blk) (fl : list Z) :
  geom W s bl -> nodes_in bl fl -> NoDup fl ->
  chain W m (sentinel W s) 0 f fl ->
  linked W s m f fl.
Proof.
  intros Hg Hn Hnd Hch.
  destruct (nodes_facts _ _ _ Hg Hn) as (H1 & H2 & H3).
  constructor; assumption.
Qed.

(** A word inside a block, other than its two link words, is not a word of
    the list. *)
Lemma block_word_not_link (s : state) (bl : list blk) (fl : list Z) (b : blk) (a : Z) :
  geom W s bl -> nodes_in bl fl -> In b bl ->
  baddr b - W <= a < baddr b + bsize b - W ->
  (In (baddr b) fl -> a <> baddr b /\ a <> baddr b + W) ->
  ~ link_cell W s fl a.
Proof.
  intros Hg Hn Hin Ha Hne [Hs | (q & Hq & Hc)].
  - destruct (geom_block W HW _ _ _ Hg Hin) as (? & _).
    pose proof (W_pos W HW). unfold sentinel in Hs. lia.
  - destruct (Hn q Hq) as (b' & Hb' & E). subst q.
    destruct (geom_block W HW _ _ _ Hg Hin) as (? & ? & ? & _).
    destruct (geom_block W HW _ _ _ Hg Hb') as (? & ? & ? & _).
    pose proof (W_pos W HW).
    destruct Hg as (_ & _ & _ & _ & Hlay).
    destruct (layout_sep W HW _ _ _ _ _ Hlay Hin Hb') as [-> | [E | E]]; [|lia|lia].
    specialize (Hne Hq). lia.
Qed.

Lemma special_not_link (s : state) (bl : list blk) (fl : list Z) (a : Z) :
  geom W s bl -> nodes_in bl fl ->
  a = mem_brk s - W \/ a = mem_start_brk s + W \/ a = mem_start_brk s + 6 * W ->
  ~ link_cell W s fl a.
Proof.
  intros Hg Hn Ha [Hs | (q & Hq & Hc)].
  - destruct (geom_brk _ _ Hg) as (? & ? & _).
    pose proof (W_pos W HW). unfold sentinel in Hs. lia.
  - destruct (Hn q Hq) as (b' & Hb' & E). subst q.
    destruct (geom_block W HW _ _ _ Hg Hb') as (? & ? & ? & _).
    pose proof (W_pos W HW). lia.
Qed.

Lemma tags_ok_frame (s : state) (m m' : Z -> Z) (bl : list blk) (fl : list Z) :
  geom W s bl -> nodes_in bl fl -> tags_ok W s m bl ->
  (forall a, ~ link_cell W s fl a -> m' a = m a) ->
  tags_ok W s m' bl.
Proof.
  intros Hg Hn (Ht & He & Hp & Hgap) Hf.
  pose proof (W_pos W HW) as HWp.
  split; [|split; [|split]].
  - intros b Hb. destruct (Ht b Hb) as (E1 & E2).
    destruct (geom_block W HW _ _ _ Hg Hb) as (? & ? & ? & _).
    rewrite !Hf; [auto | |];
      apply (block_word_not_link s bl fl b); auto; try lia.
  - rewrite Hf; [exact He|]. eapply special_not_link; eauto.
  - rewrite Hf; [exact Hp|]. eapply special_not_link; eauto.
  - rewrite Hf; [exact Hgap|]. eapply special_not_link; eauto.
Qed.

Lemma linked_frame (s : state) (m m' : Z -> Z) (f : Z) (fl : list Z) :
  linked W s m f fl ->
  (forall a, link_cell W s fl a -> m' a = m a) ->
  linked W s m' f fl.
Proof.
  intros [Hch Hnd Hsp Hsent Hval] Hf.
  constructor; try assumption.
  apply (chain_frame W HW m); [|exact Hch].
  intros p Hp. split; apply Hf; right; exists p; auto.
Qed.

Lemma linked_insert (s : state) (m : Z -> Z) (f : Z) (fl : list Z) (p : Z) :
  0 < mem_start_brk s -> mem_brk s < modulus W ->
  linked W s m f fl ->
  valid W s p -> valid W s (p + W) -> sentinel W s + W < p ->
  ~ In p fl ->
  (forall q, In q fl -> p + W < q \/ q + W < p) ->
  exists m',
    insert_in_free_list W p (with_heap m f s) = Ok tt (with_heap m' p s) /\
    linked W s m' p (p :: fl) /\
    (forall a, ~ link_cell W s (p :: fl) a -> m' a = m a).
Proof.
  intros Hlo Hbrk [Hch Hnd Hsp Hsent Hval] Hvp Hvp' Hap Hnin Hsep.
  pose proof (W_pos W HW) as HWp.
  assert (Hreg : region W s) by (split; lia).
  assert (Hf : f = sentinel W s /\ fl = [] \/ In f fl).
  { destruct (chain_nodes_cur W HW _ _ _ _ _ Hch) as [(-> & E) | (fl' & E)]; [auto|].
    right. rewrite E. left. reflexivity. }
  assert (Hvf : valid W s f).
  { destruct Hf as [(-> & _) | Hin]; [exact Hsent | apply Hval; exact Hin]. }
  assert (Hfp : p + W < f \/ f + W < p).
  { destruct Hf as [(-> & _) | Hin]; [right; exact Hap | apply Hsep; exact Hin]. }
  exists (upd (upd (upd m (p + W) f) f p) p 0).
  split; [apply insert_in_free_list_heap; assumption|].
  split.
  - constructor; try assumption.
    + cbn [chain]. split; [reflexivity|]. split; [apply upd_same|].
      rewrite !upd_other by lia. rewrite upd_same.
      apply (chain_set_prev W HW (upd m (p + W) f) _ _ 0); auto.
      * apply (chain_frame W HW m); [|exact Hch].
        intros q Hq. specialize (Hsep q Hq).
        rewrite !upd_other by lia. auto.
      * intros _. rewrite upd_other by lia. apply upd_same.
      * intros q Hq. specialize (Hsep q Hq).
        assert (Hqf : q = f \/ q + W < f \/ f + W < q).
        { destruct Hf as [(-> & _) | Hin].
          - destruct (Hval q Hq) as (_ & _ & ?). lia.
          - apply Hsp; assumption. }
        split.
        -- intros Hne. rewrite !upd_other by lia. reflexivity.
        -- rewrite !upd_other by lia. reflexivity.
    + constructor; assumption.
    + intros a b [<- | Ha] [<- | Hb].
      * left; reflexivity.
      * specialize (Hsep b Hb). lia.
      * specialize (Hsep a Ha). lia.
      * apply Hsp; assumption.
    + intros q [<- | Hq]; [auto | apply Hval; exact Hq].
  - intros a Ha.
    rewrite !upd_other; [reflexivity | | |].
    + intros ->. apply Ha. right. exists p. split; [left; reflexivity | right; reflexivity].
    + intros ->. apply Ha.
      destruct Hf as [(E & _) | Hin]; [left; exact E|].
      right. exists f. split; [right; exact Hin | left; reflexivity].
    + intros ->. apply Ha. right. exists p. split; [left; reflexivity | left; reflexivity].
Qed.

End Disjoint.

(** ** Reading boundary tags *)

Section Reads.

Variable W : Z.
Hypothesis HW : W = 4 \/ W = 8.
#[local] Set Default Proof Using "HW".

Lemma tag_size (b : blk) :
  0 <= bsize b < modulus W -> (2 * W | bsize b) ->
  size_field W (tag b) = bsize b.
Proof.
  intros Hr Hd. unfold tag. apply (size_field_tag W HW); try assumption.
  - apply Z.mod_divide; [pose proof (W_pos W HW); lia | exact Hd].
  - destruct (bused b); auto.
Qed.

Lemma tag_alloc (b : blk) :
  (2 * W | bsize b) ->
  alloc_bit (tag b) = if bused b then 1 else 0.
Proof.
  intros Hd. unfold tag. apply (alloc_bit_tag W HW).
  - apply Z.mod_divide; [pose proof (W_pos W HW); lia | exact Hd].
  - destruct (bused b); auto.
Qed.

Lemma PACK_tag (sz : Z) (u : bool) :
  (2 * W | sz) -> PACK sz (if u then 1 else 0) = tag (mkBlk 0 sz u).
Proof.
  intros (k & ->). unfold tag. cbn [bsize bused].
  apply PACK_add.
  - replace (k * (2 * W)) with (k * W * 2) by lia. apply Z.mod_mul. lia.
  - destruct u; auto.
Qed.

Lemma GET_SIZE_heap (m : Z -> Z) (f : Z) (s : state) (p : Z) :
  valid W s p ->
  GET_SIZE W p (with_heap m f s) = Ok (size_field W (m p)) (with_heap m f s).
Proof.
  intros Hv. unfold GET_SIZE, bind. rewrite (GET_heap W HW) by assumption.
  reflexivity.
Qed.

Lemma GET_ALLOC_heap (m : Z -> Z) (f : Z) (s : state) (p : Z) :
  valid W s p ->
  GET_ALLOC W p (with_heap m f s) = Ok (alloc_bit (m p)) (with_heap m f s).
Proof.
  intros Hv. unfold GET_ALLOC, bind. rewrite (GET_heap W HW) by assumption.
  reflexivity.
Qed.

Lemma HDRP_eq (bp : Z) : W <= bp < modulus W -> HDRP W bp = bp - W.
Proof. intros H. unfold HDRP, WSIZE. apply wrap_small. lia. Qed.

Lemma NEXT_BLK_heap (m : Z -> Z) (f : Z) (s : state) (bp sz : Z) :
  W <= bp < modulus W -> valid W s (bp - W) -> size_field W (m (bp - W)) = sz ->
  0 <= sz -> bp + sz < modulus W ->
  NEXT_BLK W bp (with_heap m f s) = Ok (bp + sz) (with_heap m f s).
Proof.
  intros Hbp Hv Hsz H0 Hlt. unfold NEXT_BLK, bind.
  rewrite HDRP_eq by lia.
  rewrite GET_SIZE_heap by assumption. rewrite Hsz.
  unfold ret. rewrite wrap_small by lia. reflexivity.
Qed.

Lemma FTRP_heap (m : Z -> Z) (f : Z) (s : state) (bp sz : Z) :
  W <= bp < modulus W -> valid W s (bp - W) -> size_field W (m (bp - W)) = sz ->
  2 * W <= bp + sz -> bp + sz < modulus W + 2 * W ->
  FTRP W bp (with_heap m f s) = Ok (bp + sz - 2 * W) (with_heap m f s).
Proof.
  intros Hbp Hv Hsz H0 Hlt. unfold FTRP, bind.
  rewrite HDRP_eq by lia.
  rewrite GET_SIZE_heap by assumption. rewrite Hsz.
  unfold ret. rewrite (DSIZE_eq W HW). rewrite wrap_small by lia. reflexivity.
Qed.

Lemma PREV_BLK_heap (m : Z -> Z) (f : Z) (s : state) (bp sz : Z) :
  2 * W <= bp < modulus W ->
  valid W s (bp - 2 * W) -> size_field W (m (bp - 2 * W)) = sz ->
  0 <= bp - sz < modulus W ->
  PREV_BLK W bp (with_heap m f s) = Ok (bp - sz) (with_heap m f s).
Proof.
  intros Hbp Hv Hsz Hr. unfold PREV_BLK, bind.
  rewrite (DSIZE_eq W HW).
  rewrite (wrap_small W (bp - 2 * W)) by lia.
  rewrite GET_SIZE_heap by assumption. rewrite Hsz.
  unfold ret. rewrite wrap_small by lia. reflexivity.
Qed.

End Reads.

(** ** Coalescing *)

Lemma coalesce_eval (W bp : Z) (s : state) (nb na pb pf pa size : Z) :
  NEXT_BLK W bp s = Ok nb s ->
  GET_ALLOC W (HDRP W nb) s = Ok na s ->
  PREV_BLK W bp s = Ok pb s ->
  FTRP W pb s = Ok pf s ->
  GET_ALLOC W pf s = Ok pa s ->
  GET_SIZE W (HDRP W bp) s = Ok size s ->
  coalesce W bp s
  = coalesce_rest W bp na
      (if negb (pa =? 0) then 1 else if pb =? bp then 1 else 0) size s.
Proof.
  intros H1 H2 H3 H4 H5 H6.
  unfold coalesce, coalesce_rest, bind at 1. rewrite H1.
  unfold bind at 1. rewrite H2.
  unfold bind at 1. rewrite H3.
  unfold bind at 1. rewrite H4.
  unfold bind at 1. rewrite H5.
  unfold bind at 1.
  destruct (negb (pa =? 0)).
  - unfold ret at 1. unfold bind at 1. rewrite H6. reflexivity.
  - rewrite H3. unfold bind at 1. rewrite H6. reflexivity.
Qed.

Section Blocks.

Variable W : Z.
Hypothesis HW : W = 4 \/ W = 8.
#[local] Set Default Proof Using "HW".

Ltac in_tac := cbn [In]; rewrite ?in_app_iff; cbn [In]; tauto.

Lemma block_here (s : state) (m : Z -> Z) (l1 l2 : list blk) (b : blk) :
  geom W s (l1 ++ b :: l2) -> tags_ok W s m (l1 ++ b :: l2) ->
  m (baddr b - W) = tag b /\ m (baddr b + bsize b - 2 * W) = tag b /\
  m (baddr b + bsize b - W) = next_tag l2 /\
  layout W (first_block W s) (baddr b) l1 /\
  layout W (baddr b + bsize b) (mem_brk s) l2.
Proof.
  intros Hg (Ht & He & _).
  destruct (Ht b ltac:(in_tac)) as (E1 & E2).
  destruct Hg as (_ & _ & _ & _ & Hlay).
  apply (layout_split W HW) in Hlay. destruct Hlay as (Hl1 & _ & _ & Hl2).
  split; [exact E1|]. split; [exact E2|]. split; [|split; assumption].
  destruct l2 as [|nb l2]; cbn [layout next_tag] in *.
  - rewrite Hl2. exact He.
  - destruct Hl2 as (Ha & _). rewrite <- Ha.
    apply (Ht nb). in_tac.
Qed.

Lemma block_next (p q : Z) (nb : blk) (l2 : list blk) :
  layout W p q (nb :: l2) -> baddr nb = p.
Proof. cbn [layout]. tauto. Qed.

Lemma block_prev (s : state) (m : Z -> Z) (l1 l2 : list blk) (pb b : blk) :
  geom W s ((l1 ++ [pb]) ++ b :: l2) -> tags_ok W s m ((l1 ++ [pb]) ++ b :: l2) ->
  baddr pb + bsize pb = baddr b /\
  m (baddr pb - W) = tag pb /\ m (baddr b - 2 * W) = tag pb.
Proof.
  intros Hg (Ht & _).
  destruct (Ht pb ltac:(in_tac)) as (E1 & E2).
  destruct Hg as (_ & _ & _ & _ & Hlay).
  apply (layout_split W HW) in Hlay. destruct Hlay as (Hl1 & _).
  apply (layout_last W HW) in Hl1.
  rewrite <- Hl1. replace (baddr pb + bsize pb - 2 * W) with (baddr pb + bsize pb - 2 * W) by lia.
  auto.
Qed.

Lemma block_first (s : state) (m : Z -> Z) (l2 : list blk) (b : blk) :
  geom W s (b :: l2) -> tags_ok W s m (b :: l2) ->
  baddr b = first_block W s /\ size_field W (m (baddr b - 2 * W)) = 0.
Proof.
  intros Hg (_ & _ & _ & Hgap).
  destruct Hg as (_ & _ & _ & _ & Hlay). cbn [layout] in Hlay.
  destruct Hlay as (Ha & _). split; [exact Ha|].
  rewrite Ha. unfold first_block.
  replace (mem_start_brk s + 8 * W - 2 * W) with (mem_start_brk s + 6 * W) by lia.
  exact Hgap.
Qed.

Lemma frame_refl (s : state) (all ws : list Z) (m : Z -> Z) : frame W s all ws m m.
Proof. intros a _ _. reflexivity. Qed.

Lemma frame_trans (s : state) (all ws : list Z) (m1 m2 m3 : Z -> Z) :
  frame W s all ws m1 m2 -> frame W s all ws m2 m3 -> frame W s all ws m1 m3.
Proof. intros H1 H2 a Ha Hw. rewrite H2, H1; auto. Qed.

Lemma link_cell_incl (s : state) (fl fl' : list Z) (a : Z) :
  incl fl fl' -> link_cell W s fl a -> link_cell W s fl' a.
Proof.
  intros Hi [H | (q & Hq & H)]; [left; exact H|].
  right. exists q. split; [apply Hi; exact Hq | exact H].
Qed.

Lemma frame_links (s : state) (all ws fl : list Z) (m m' : Z -> Z) :
  incl fl all ->
  (forall a, ~ link_cell W s fl a -> m' a = m a) ->
  frame W s all ws m m'.
Proof.
  intros Hi Hf a Ha _. apply Hf. intros Hl. apply Ha.
  eapply link_cell_incl; eassumption.
Qed.

Lemma frame_upd (s : state) (all ws : list Z) (m : Z -> Z) (x v : Z) :
  In x ws -> frame W s all ws m (upd m x v).
Proof.
  intros Hx a _ Hw. apply upd_other. intros ->. contradiction.
Qed.

Lemma nodes_in_all (bl : list blk) : nodes_in bl (map baddr bl).
Proof.
  intros p Hp. apply in_map_iff in Hp. destruct Hp as (b & E & Hb). eauto.
Qed.

Lemma nodes_in_incl (bl : list blk) (fl : list Z) :
  nodes_in bl fl -> incl fl (map baddr bl).
Proof.
  intros Hn p Hp. destruct (Hn p Hp) as (b & Hb & <-).
  apply in_map. exact Hb.
Qed.

(** Replacing the blocks [old] by the blocks [new], which cover the same
    addresses. *)
Lemma tags_replace (s : state) (m m' : Z -> Z) (l1 old new l2 : list blk)
      (r1 r2 : Z) (ws : list Z) :
  geom W s (l1 ++ old ++ l2) -> tags_ok W s m (l1 ++ old ++ l2) ->
  layout W (first_block W s) r1 l1 -> layout W r2 (mem_brk s) l2 ->
  layout W r1 r2 new ->
  frame W s (map baddr (l1 ++ old ++ l2)) ws m m' ->
  (forall a, In a ws -> r1 - W <= a < r2 - W) ->
  tagged W m' new ->
  geom W s (l1 ++ new ++ l2) /\ tags_ok W s m' (l1 ++ new ++ l2).
Proof.
  intros Hg (Ht & He & Hp & Hgap) Hl1 Hl2 Hnew Hfr Hws Htn.
  pose proof (W_pos W HW) as HWp.
  pose proof (geom_brk W HW _ _ Hg) as (Hlo & Hbrk8 & Hbrk & Hal & Hbal).
  pose proof (layout_le W HW _ _ _ Hl1) as Hle1.
  pose proof (layout_le W HW _ _ _ Hl2) as Hle2.
  pose proof (layout_le W HW _ _ _ Hnew) as Hle3.
  unfold first_block in Hle1.
  assert (Hkeep : forall b, In b (l1 ++ l2) ->
            m' (baddr b - W) = m (baddr b - W) /\
            m' (baddr b + bsize b - 2 * W) = m (baddr b + bsize b - 2 * W)).
  { intros b Hb.
    assert (Hb' : In b (l1 ++ old ++ l2)) by (revert Hb; in_tac).
    destruct (geom_block W HW _ _ _ Hg Hb') as (? & ? & ? & _).
    assert (Hout : baddr b + bsize b <= r1 \/ r2 <= baddr b).
    { apply in_app_iff in Hb. destruct Hb as [Hb | Hb].
      - left. destruct (layout_in W HW _ _ _ _ Hl1 Hb) as (_ & ? & _). lia.
      - right. destruct (layout_in W HW _ _ _ _ Hl2 Hb) as (? & _). lia. }
    split; apply Hfr.
    - apply (block_word_not_link W HW s (l1 ++ old ++ l2) _ b);
        auto using nodes_in_all; lia.
    - intros Hw. apply Hws in Hw. lia.
    - apply (block_word_not_link W HW s (l1 ++ old ++ l2) _ b);
        auto using nodes_in_all; lia.
    - intros Hw. apply Hws in Hw. lia. }
  split.
  - destruct Hg as (? & ? & ? & ? & Hlay).
    repeat split; try assumption.
    apply (layout_app W HW). exists r1. split; [exact Hl1|].
    apply (layout_app W HW). exists r2. split; assumption.
  - split; [|split; [|split]].
    + intros b Hb. rewrite !in_app_iff in Hb.
      destruct Hb as [Hb | [Hb | Hb]].
      * destruct (Hkeep b ltac:(in_tac)) as (E1 & E2). rewrite E1, E2.
        apply Ht. in_tac.
      * apply Htn. exact Hb.
      * destruct (Hkeep b ltac:(in_tac)) as (E1 & E2). rewrite E1, E2.
        apply Ht. in_tac.
    + rewrite Hfr; [exact He | |].
      * eapply (special_not_link W HW); eauto using nodes_in_all.
      * intros Hw. apply Hws in Hw. lia.
    + rewrite Hfr; [exact Hp | |].
      * eapply (special_not_link W HW); eauto using nodes_in_all.
      * intros Hw. apply Hws in Hw. lia.
    + rewrite Hfr; [exact Hgap | |].
      * eapply (special_not_link W HW); eauto using nodes_in_all.
      * intros Hw. apply Hws in Hw. lia.
Qed.

End Blocks.

Section CoalesceFlags.

Variable W : Z.
Hypothesis HW : W = 4 \/ W = 8.
#[local] Set Default Proof Using "HW".

Ltac in_tac := cbn [In]; rewrite ?in_app_iff; cbn [In]; tauto.
Ltac valid_tac := apply (valid_intro W HW); [lia | lia | auto 10 with algn].

Lemma next_tag_alloc (s : state) (l1 l2 : list blk) (b : blk) :
  geom W s (l1 ++ b :: l2) -> alloc_bit (next_tag l2) = next_flag l2.
Proof.
  intros Hg. destruct l2 as [|nb l2]; [reflexivity|].
  cbn [next_tag next_flag].
  destruct (geom_block W HW _ _ nb Hg ltac:(in_tac)) as (_ & _ & _ & Hd & _).
  apply (tag_alloc W HW). exact Hd.
Qed.

(** The facts about block [b] that every step of coalesce uses. *)
Lemma block_facts (s : state) (bl : list blk) (b : blk) :
  geom W s bl -> In b bl ->
  2 * W <= baddr b - W /\ baddr b + bsize b < modulus W /\
  0 <= bsize b < modulus W /\ 4 * W <= bsize b /\
  mem_start_brk s + 8 * W <= baddr b /\ baddr b + bsize b <= mem_brk s /\
  (2 * W | baddr b) /\ (2 * W | bsize b) /\ 0 < W.
Proof.
  intros Hg Hin.
  destruct (geom_block W HW _ _ _ Hg Hin) as (H1 & H2 & H3 & H4 & H5 & H6 & H7).
  pose proof (W_pos W HW). repeat split; try assumption; lia.
Qed.

Lemma coalesce_flags_first (s : state) (m : Z -> Z) (f : Z) (b : blk) (l2 : list blk) :
  geom W s (b :: l2) -> tags_ok W s m (b :: l2) -> bused b = false ->
  coalesce W (baddr b) (with_heap m f s)
  = coalesce_rest W (baddr b) (next_flag l2) 1 (bsize b) (with_heap m f s).
Proof.
  intros Hg Ht Hfree.
  destruct (block_here W HW s m [] l2 b Hg Ht) as (Eh & Ef & En & _ & _).
  destruct (block_first W HW s m l2 b Hg Ht) as (Efirst & Egap).
  destruct (block_facts s _ b Hg ltac:(in_tac))
    as (B1 & B2 & B3 & B4 & B5 & B6 & B7 & B8 & B9).
  assert (Hsz : size_field W (m (baddr b - W)) = bsize b).
  { rewrite Eh. apply (tag_size W HW); assumption. }
  assert (Hvh : valid W s (baddr b - W)) by valid_tac.
  rewrite (coalesce_eval W (baddr b) _ (baddr b + bsize b) (next_flag l2)
             (baddr b) (baddr b + bsize b - 2 * W) 0 (bsize b)).
  - rewrite (Z.eqb_refl (baddr b)). reflexivity.
  - apply (NEXT_BLK_heap W HW); try assumption; lia.
  - rewrite (HDRP_eq W HW) by lia.
    rewrite (GET_ALLOC_heap W HW) by valid_tac.
    rewrite En, (next_tag_alloc s [] l2 b Hg). reflexivity.
  - rewrite <- (Z.sub_0_r (baddr b)) at 2.
    apply (PREV_BLK_heap W HW); try assumption; try lia. valid_tac.
  - apply (FTRP_heap W HW); try assumption; lia.
  - rewrite (GET_ALLOC_heap W HW) by valid_tac.
    rewrite Ef, (tag_alloc W HW) by assumption. rewrite Hfree. reflexivity.
  - rewrite (HDRP_eq W HW) by lia.
    rewrite (GET_SIZE_heap W HW) by assumption. rewrite Hsz. reflexivity.
Qed.

Lemma coalesce_flags_prev (s : state) (m : Z -> Z) (f : Z)
      (l1 l2 : list blk) (pb b : blk) :
  geom W s ((l1 ++ [pb]) ++ b :: l2) -> tags_ok W s m ((l1 ++ [pb]) ++ b :: l2) ->
  coalesce W (baddr b) (with_heap m f s)
  = coalesce_rest W (baddr b) (next_flag l2) (flag (bused pb)) (bsize b)
      (with_heap m f s).
Proof.
  intros Hg Ht.
  destruct (block_here W HW s m _ l2 b Hg Ht) as (Eh & Ef & En & _ & _).
  destruct (block_prev W HW s m l1 l2 pb b Hg Ht) as (Eadj & Eph & Epf).
  destruct (block_facts s _ b Hg ltac:(in_tac))
    as (B1 & B2 & B3 & B4 & B5 & B6 & B7 & B8 & B9).
  destruct (block_facts s _ pb Hg ltac:(in_tac))
    as (P1 & P2 & P3 & P4 & P5 & P6 & P7 & P8 & _).
  assert (Hsz : size_field W (m (baddr b - W)) = bsize b).
  { rewrite Eh. apply (tag_size W HW); assumption. }
  assert (Hpsz : size_field W (m (baddr b - 2 * W)) = bsize pb).
  { rewrite Epf. apply (tag_size W HW); assumption. }
  assert (Hpsz' : size_field W (m (baddr pb - W)) = bsize pb).
  { rewrite Eph. apply (tag_size W HW); assumption. }
  assert (Hvh : valid W s (baddr b - W)) by valid_tac.
  assert (Epb : baddr b - bsize pb = baddr pb) by lia.
  rewrite (coalesce_eval W (baddr b) _ (baddr b + bsize b) (next_flag l2)
             (baddr pb) (baddr b - 2 * W) (flag (bused pb)) (bsize b)).
  - destruct (bused pb); cbn [flag negb Z.eqb]; [reflexivity|].
    replace (baddr pb =? baddr b) with false; [reflexivity|].
    symmetry. apply Z.eqb_neq. lia.
  - apply (NEXT_BLK_heap W HW); try assumption; lia.
  - rewrite (HDRP_eq W HW) by lia.
    rewrite (GET_ALLOC_heap W HW) by valid_tac.
    rewrite En, (next_tag_alloc s _ l2 b Hg). reflexivity.
  - rewrite <- Epb.
    apply (PREV_BLK_heap W HW); try assumption; try lia. valid_tac.
  - replace (baddr b - 2 * W) with (baddr pb + bsize pb - 2 * W) by lia.
    apply (FTRP_heap W HW); try assumption; try lia. valid_tac.
  - rewrite (GET_ALLOC_heap W HW) by valid_tac.
    rewrite Epf, (tag_alloc W HW) by assumption. reflexivity.
  - rewrite (HDRP_eq W HW) by lia.
    rewrite (GET_SIZE_heap W HW) by assumption. rewrite Hsz. reflexivity.
Qed.

End CoalesceFlags.

Section ListSteps.

Variable W : Z.
Hypothesis HW : W = 4 \/ W = 8.
#[local] Set Default Proof Using "HW".

Ltac in_tac := cbn [In]; rewrite ?in_app_iff; cbn [In]; tauto.

Lemma nodes_in_remove (bl : list blk) (f1 f2 : list Z) (p : Z) :
  nodes_in bl (f1 ++ p :: f2) -> nodes_in bl (f1 ++ f2).
Proof. intros Hn q Hq. apply Hn. revert Hq. in_tac. Qed.

Lemma remove_step (s : state) (m : Z -> Z) (f : Z) (bl : list blk)
      (f1 f2 : list Z) (p : Z) :
  geom W s bl -> tags_ok W s m bl ->
  linked W s m f (f1 ++ p :: f2) -> nodes_in bl (f1 ++ p :: f2) ->
  exists m1 f',
    remove_from_free_list W p (with_heap m f s) = Ok tt (with_heap m1 f' s) /\
    linked W s m1 f' (f1 ++ f2) /\ tags_ok W s m1 bl /\
    nodes_in bl (f1 ++ f2) /\ ~ In p (f1 ++ f2).
Proof.
  intros Hg Ht Hl Hn.
  destruct (geom_brk W HW _ _ Hg) as (Hlo & _ & Hbrk & _).
  destruct (linked_remove W HW s m f f1 f2 p Hlo Hbrk Hl) as (m1 & f' & E & Hl1 & Hfr).
  exists m1, f'. split; [exact E|]. split; [exact Hl1|].
  pose proof (nodes_in_remove _ _ _ _ Hn) as Hn'.
  split; [|split; [exact Hn'|]].
  - eapply (tags_ok_frame W HW); eassumption.
  - apply NoDup_remove_2. apply (lk_nodup _ _ _ _ _ Hl).
Qed.

Lemma insert_step (s : state) (m : Z -> Z) (f : Z) (bl : list blk)
      (fl : list Z) (b : blk) :
  geom W s bl -> tags_ok W s m bl ->
  linked W s m f fl -> nodes_in bl fl ->
  In b bl -> ~ In (baddr b) fl ->
  exists m1,
    insert_in_free_list W (baddr b) (with_heap m f s)
    = Ok tt (with_heap m1 (baddr b) s) /\
    shape W (with_heap m1 (baddr b) s) bl (baddr b :: fl).
Proof.
  intros Hg Ht Hl Hn Hb Hnin.
  destruct (geom_brk W HW _ _ Hg) as (Hlo & _ & Hbrk & _).
  assert (Hn' : nodes_in bl (baddr b :: fl)).
  { intros q [<- | Hq]; [eauto | apply Hn; exact Hq]. }
  destruct (nodes_facts W HW s bl _ Hg Hn') as (Hsp & _ & Hv).
  destruct (Hv (baddr b) (or_introl eq_refl)) as (Hv1 & Hv2 & Hv3).
  destruct (linked_insert W HW s m f fl (baddr b) Hlo Hbrk Hl Hv1 Hv2 Hv3 Hnin)
    as (m1 & E & Hl1 & Hfr).
  { intros q Hq.
    destruct (Hsp (baddr b) q (or_introl eq_refl) (or_intror Hq)) as [E | E];
      [|exact E].
    exfalso. apply Hnin. rewrite E. exact Hq. }
  exists m1. split; [exact E|].
  apply (shape_heap W HW). split; [exact Hg|]. split.
  - eapply (tags_ok_frame W HW); eassumption.
  - split; [apply (lk_chain _ _ _ _ _ Hl1)|].
    split; [apply (lk_nodup _ _ _ _ _ Hl1) | exact Hn'].
Qed.

(** Writing the tags of one block [bm] over the blocks [old] it replaces. *)
Lemma tags_merge (s : state) (m : Z -> Z) (l1 old l2 : list blk) (bm : blk) :
  geom W s (l1 ++ old ++ l2) -> tags_ok W s m (l1 ++ old ++ l2) ->
  layout W (baddr bm) (baddr bm + bsize bm) old ->
  4 * W <= bsize bm -> (2 * W | bsize bm) ->
  let m' := upd (upd m (baddr bm - W) (tag bm))
                (baddr bm + bsize bm - 2 * W) (tag bm) in
  geom W s (l1 ++ [bm] ++ l2) /\ tags_ok W s m' (l1 ++ [bm] ++ l2).
Proof.
  intros Hg Ht Hold Hsz Hd m'.
  pose proof (W_pos W HW) as HWp.
  assert (Hs : layout W (first_block W s) (baddr bm) l1 /\
               layout W (baddr bm + bsize bm) (mem_brk s) l2).
  { destruct Hg as (_ & _ & _ & _ & Hlay).
    apply (layout_app W HW) in Hlay. destruct Hlay as (r1 & H1 & Hlay).
    apply (layout_app W HW) in Hlay. destruct Hlay as (r2 & H2 & H3).
    destruct old as [|ob old].
    - cbn [layout] in Hold. lia.
    - pose proof (block_next W HW _ _ _ _ H2) as E1.
      pose proof (block_next W HW _ _ _ _ Hold) as E2.
      assert (Er : r1 = baddr bm) by lia.
      rewrite Er in H1, H2. clear E1 E2 Er.
      assert (Hend : forall l p q q', layout W p q l -> layout W p q' l -> q = q').
      { clear. induction l as [|x l IH]; cbn [layout]; intros p q q' Ha Hb.
        - lia.
        - destruct Ha as (_ & _ & _ & Ha), Hb as (_ & _ & _ & Hb).
          eapply IH; eassumption. }
      rewrite (Hend _ _ _ _ Hold H2). auto. }
  destruct Hs as (Hl1 & Hl2).
  apply (tags_replace W HW s m m' l1 old [bm] l2 (baddr bm) (baddr bm + bsize bm)
           [baddr bm - W; baddr bm + bsize bm - 2 * W]); try assumption.
  - cbn [layout]. auto.
  - intros a _ Hw. unfold m'. cbn [In] in Hw.
    rewrite !upd_other by (intros ->; tauto). reflexivity.
  - intros a [<- | [<- | []]]; lia.
  - intros b [<- | []]. unfold m'. split.
    + rewrite upd_other by lia. apply upd_same.
    + apply upd_same.
Qed.

End ListSteps.

Section CoalesceCases.

Variable W : Z.
Hypothesis HW : W = 4 \/ W = 8.
#[local] Set Default Proof Using "HW".

Ltac in_tac := cbn [In]; rewrite ?in_app_iff; cbn [In]; tauto.
Ltac valid_tac := apply (valid_intro W HW); [lia | lia | auto 10 with algn].

Lemma blk_eta (b : blk) : b = mkBlk (baddr b) (bsize b) (bused b).
Proof. destruct b; reflexivity. Qed.

Lemma coalesce_case_none (s : state) (m : Z -> Z) (f : Z)
      (l1 l2 : list blk) (b : blk) (fl : list Z) :
  geom W s (l1 ++ b :: l2) -> tags_ok W s m (l1 ++ b :: l2) ->
  linked W s m f fl -> nodes_in (l1 ++ b :: l2) fl ->
  listed_except (l1 ++ b :: l2) fl (baddr b) ->
  bused b = false ->
  coalesced W s (l1 ++ b :: l2) b
    (coalesce_rest W (baddr b) 1 1 (bsize b) (with_heap m f s)).
Proof.
  intros Hg Ht Hl Hn Hiff Hfree.
  assert (Hb : In b (l1 ++ b :: l2)) by in_tac.
  assert (Hnin : ~ In (baddr b) fl).
  { intros Hin. apply Hiff in Hin. tauto. }
  destruct (insert_step W HW s m f _ fl b Hg Ht Hl Hn Hb Hnin) as (m1 & E & Hsh).
  exists m1, (baddr b), (l1 ++ b :: l2), (baddr b :: fl), b.
  split.
  { unfold coalesce_rest. change (1 =? 0) with false. cbn [negb andb].
    unfold bind, ret. rewrite E. reflexivity. }
  split; [|repeat split; try assumption; lia].
  split; [exact Hsh|].
  intros p. cbn [In]. split.
  - intros [<- | Hp]; [|apply Hiff in Hp; tauto].
    exists (bsize b). rewrite <- Hfree, <- blk_eta. exact Hb.
  - intros H. destruct (Z.eq_dec (baddr b) p); [left; assumption|].
    right. apply Hiff. split; [exact H | congruence].
Qed.

Lemma nodes_in_replace (l1 old new l2 : list blk) (fl : list Z) :
  nodes_in (l1 ++ old ++ l2) fl ->
  (forall ob, In ob old -> In (baddr ob) fl ->
              exists b', In b' new /\ baddr b' = baddr ob) ->
  nodes_in (l1 ++ new ++ l2) fl.
Proof.
  intros Hn Hold p Hp. destruct (Hn p Hp) as (b0 & Hb0 & E).
  rewrite !in_app_iff in Hb0. destruct Hb0 as [H | [H | H]].
  - exists b0. split; [in_tac | exact E].
  - subst p. destruct (Hold b0 H Hp) as (b' & Hb' & E').
    exists b'. split; [in_tac | exact E'].
  - exists b0. split; [in_tac | exact E].
Qed.

Lemma linked_tag_write (s : state) (m : Z -> Z) (f : Z) (bl : list blk)
      (fl : list Z) (b : blk) (a v : Z) :
  geom W s bl -> nodes_in bl fl -> In b bl ->
  baddr b - W <= a < baddr b + bsize b - W ->
  (In (baddr b) fl -> a <> baddr b /\ a <> baddr b + W) ->
  linked W s m f fl -> linked W s (upd m a v) f fl.
Proof.
  intros Hg Hn Hb Ha Hne Hl.
  apply (linked_frame W HW s m); [exact Hl|].
  intros c Hc. apply upd_other. intros ->.
  revert Hc. eapply (block_word_not_link W HW); eassumption.
Qed.

Lemma used_blocks_app (l1 l2 : list blk) :
  used_blocks (l1 ++ l2) = used_blocks l1 ++ used_blocks l2.
Proof. apply filter_app. Qed.

Lemma coalesce_case_next (s : state) (m : Z -> Z) (f : Z)
      (l1 l2 : list blk) (b nb : blk) (fl : list Z) :
  geom W s (l1 ++ b :: nb :: l2) -> tags_ok W s m (l1 ++ b :: nb :: l2) ->
  linked W s m f fl -> nodes_in (l1 ++ b :: nb :: l2) fl ->
  listed_except (l1 ++ b :: nb :: l2) fl (baddr b) ->
  bused b = false -> bused nb = false ->
  coalesced W s (l1 ++ b :: nb :: l2) b
    (coalesce_rest W (baddr b) 0 1 (bsize b) (with_heap m f s)).
Proof.
  intros Hg Ht Hl Hn Hiff Hfree Hnfree.
  set (bl := l1 ++ b :: nb :: l2) in *.
  assert (Hb : In b bl) by (unfold bl; in_tac).
  assert (Hnb : In nb bl) by (unfold bl; in_tac).
  destruct (block_here W HW s m l1 (nb :: l2) b Hg Ht) as (Eh & Ef & En & _ & Hl2).
  pose proof (block_next W HW _ _ _ _ Hl2) as Enb.
  cbn [next_tag] in En.
  destruct (block_facts W HW s _ b Hg Hb)
    as (B1 & B2 & B3 & B4 & B5 & B6 & B7 & B8 & B9).
  destruct (block_facts W HW s _ nb Hg Hnb)
    as (N1 & N2 & N3 & N4 & N5 & N6 & N7 & N8 & _).
  assert (Hne : baddr nb <> baddr b) by lia.
  assert (Hnin : ~ In (baddr b) fl).
  { intros Hin. apply Hiff in Hin. tauto. }
  assert (Hnbin : In (baddr nb) fl).
  { apply Hiff. split; [|exact Hne].
    exists (bsize nb). rewrite <- Hnfree, <- blk_eta. exact Hnb. }
  destruct (in_split _ _ Hnbin) as (f1 & f2 & Efl).
  rewrite Efl in Hl, Hn.
  destruct (remove_step W HW s m f bl f1 f2 (baddr nb) Hg Ht Hl Hn)
    as (m1 & f' & Erm & Hl1 & Ht1 & Hn1 & Hnb1).
  assert (Hnin1 : ~ In (baddr b) (f1 ++ f2)).
  { intros Hin. apply Hnin. rewrite Efl. revert Hin. in_tac. }
  set (sz := bsize b + bsize nb).
  set (bm := mkBlk (baddr b) sz false).
  set (m3 := upd (upd m1 (baddr b - W) (tag bm)) (baddr b + sz - 2 * W) (tag bm)).
  assert (Htag : tag bm = sz) by (unfold tag, bm; cbn [bsize bused]; lia).
  assert (Hdsz : (2 * W | sz)) by (unfold sz; auto with algn).
  destruct (tags_merge W HW s m1 l1 [b; nb] l2 bm) as (Hg3 & Ht3); try assumption.
  { cbn [layout bm baddr bsize]. unfold sz. repeat split; try assumption; lia. }
  { cbn [bm bsize]. unfold sz. lia. }
  fold m3 in Ht3. cbn [bm baddr bsize] in Ht3.
  assert (Hl3 : linked W s m3 f' (f1 ++ f2)).
  { unfold m3.
    apply (linked_tag_write s _ f' bl _ nb); try assumption;
      [unfold sz; lia | lia |].
    apply (linked_tag_write s _ f' bl _ b); try assumption; [lia | tauto]. }
  assert (Hn3 : nodes_in (l1 ++ [bm] ++ l2) (f1 ++ f2)).
  { apply (nodes_in_replace l1 [b; nb]); [exact Hn1|].
    intros ob [<- | [<- | []]] Hin; contradiction. }
  assert (Hbm : In bm (l1 ++ [bm] ++ l2)) by in_tac.
  destruct (insert_step W HW s m3 f' _ (f1 ++ f2) bm Hg3 Ht3 Hl3 Hn3 Hbm Hnin1)
    as (m4 & Eins & Hsh).
  exists m4, (baddr b), (l1 ++ [bm] ++ l2), (baddr b :: f1 ++ f2), bm.
  split.
  { unfold coalesce_rest. change (1 =? 0) with false. change (0 =? 0) with true.
    cbn [negb andb]. unfold bind.
    assert (Hsz1 : size_field W (m (baddr b - W)) = bsize b).
    { rewrite Eh. apply (tag_size W HW); assumption. }
    assert (Hnext : NEXT_BLK W (baddr b) (with_heap m f s)
                    = Ok (baddr nb) (with_heap m f s)).
    { rewrite Enb. apply (NEXT_BLK_heap W HW); try assumption; try lia. valid_tac. }
    rewrite Hnext. cbv beta iota.
    rewrite (HDRP_eq W HW) by lia.
    rewrite (GET_SIZE_heap W HW) by valid_tac. cbv beta iota.
    replace (baddr nb - W) with (baddr b + bsize b - W) by lia.
    rewrite En, (tag_size W HW) by assumption.
    unfold ret at 1. cbv beta iota.
    rewrite (wrap_small W (bsize b + bsize nb)) by lia.
    rewrite Hnext. cbv beta iota.
    rewrite Erm. cbv beta iota.
    rewrite (HDRP_eq W HW) by lia.
    rewrite (PUT_heap W HW) by valid_tac. cbv beta iota.
    rewrite PACK_0. fold sz. rewrite <- Htag.
    rewrite (FTRP_heap W HW _ _ _ (baddr b) sz);
      [ | lia | valid_tac | | lia | lia].
    2:{ rewrite upd_same.
        apply (tag_size W HW bm); cbn [bm bsize]; [unfold sz; lia | assumption]. }
    cbv beta iota.
    rewrite (PUT_heap W HW) by (unfold sz; valid_tac). cbv beta iota.
    fold m3. unfold ret. cbn [baddr bm] in Eins. rewrite Eins. reflexivity. }
  split; [|repeat split; try reflexivity; cbn [bm bsize]; try assumption; try (unfold sz; lia)].
  - split; [exact Hsh|].
    intros p. cbn [In baddr bm]. split.
    + intros [<- | Hp].
      * exists sz. in_tac.
      * assert (Hp' : In p fl) by (rewrite Efl; revert Hp; in_tac).
        apply Hiff in Hp'. destruct Hp' as ((sz' & Hin) & Hpb).
        exists sz'. unfold bl in Hin. rewrite in_app_iff in Hin. cbn [In] in Hin.
        destruct Hin as [Hin | [Hin | [Hin | Hin]]].
        -- in_tac.
        -- apply (f_equal baddr) in Hin. cbn [baddr] in Hin. congruence.
        -- exfalso. apply Hnb1. apply (f_equal baddr) in Hin. cbn [baddr] in Hin.
           rewrite Hin. exact Hp.
        -- in_tac.
    + intros (sz' & Hin).
      destruct (Z.eq_dec (baddr b) p) as [E | E]; [left; exact E | right].
      assert (Hold : In (mkBlk p sz' false) bl).
      { rewrite !in_app_iff in Hin. cbn [In] in Hin. unfold bl.
        destruct Hin as [Hin | [[Hin | []] | Hin]]; try in_tac.
        exfalso. apply E. apply (f_equal baddr) in Hin. exact Hin. }
      assert (Hp : In p fl).
      { apply Hiff. split; [eauto | congruence]. }
      rewrite Efl in Hp. rewrite in_app_iff in Hp. cbn [In] in Hp.
      destruct Hp as [Hp | [Hp | Hp]]; try in_tac.
      exfalso.
      (* p is the address of nb, which lies inside the merged block *)
      destruct Hg3 as (_ & _ & _ & _ & Hlay3).
      destruct (layout_in W HW _ _ _ _ Hlay3 Hin) as (_ & _ & Hs4 & _).
      destruct (layout_sep W HW _ _ _ _ _ Hlay3 Hin Hbm) as [Ex | [Ex | Ex]];
        cbn [baddr bsize bm] in *.
      * unfold bm in Ex. injection Ex as Ex1 _. congruence.
      * lia.
      * unfold sz in Ex. lia.
  - unfold bl, used_blocks, bm. rewrite !filter_app.
    cbn [filter bused app]. rewrite Hfree, Hnfree. reflexivity.
Qed.

(** Blocks of different parts of a heap have different addresses. *)
Lemma layout_parts_disjoint (p q : Z) (l1 old l2 : list blk) (x y : blk) :
  layout W p q (l1 ++ old ++ l2) -> In x (l1 ++ l2) -> In y old ->
  baddr x <> baddr y.
Proof.
  intros Hlay Hx Hy.
  apply (layout_app W HW) in Hlay. destruct Hlay as (r1 & H1 & Hlay).
  apply (layout_app W HW) in Hlay. destruct Hlay as (r2 & H2 & H3).
  destruct (layout_in W HW _ _ _ _ H2 Hy) as (? & ? & ? & _).
  pose proof (W_pos W HW).
  apply in_app_iff in Hx. destruct Hx as [Hx | Hx].
  - destruct (layout_in W HW _ _ _ _ H1 Hx) as (? & ? & ? & _). lia.
  - destruct (layout_in W HW _ _ _ _ H3 Hx) as (? & ? & ? & _). lia.
Qed.

Lemma in_remove_nodup (f1 f2 : list Z) (x q : Z) :
  NoDup (f1 ++ x :: f2) -> (In q (f1 ++ f2) <-> In q (f1 ++ x :: f2) /\ q <> x).
Proof.
  intros Hnd. pose proof (NoDup_remove_2 _ _ _ Hnd) as Hx.
  rewrite !in_app_iff in *. cbn [In]. split.
  - intros H. split; [tauto|]. intros ->. tauto.
  - intros ([H | [H | H]] & Hne); try tauto. congruence.
Qed.

(** After the neighbours [rm] of the block at [xb] have left the list, the
    list holds the free blocks outside [old]. *)
Lemma listed_outside (p0 q0 : Z) (l1 old l2 : list blk) (fl fl0 rm : list Z) (xb : Z) :
  layout W p0 q0 (l1 ++ old ++ l2) ->
  listed_except (l1 ++ old ++ l2) fl xb ->
  (forall q, In q fl0 <-> In q fl /\ ~ In q rm) ->
  (forall ob, In ob old -> baddr ob = xb \/ In (baddr ob) rm) ->
  (forall q, q = xb \/ In q rm -> exists ob, In ob old /\ baddr ob = q) ->
  forall p, In p fl0 <-> exists sz, In (mkBlk p sz false) (l1 ++ l2).
Proof.
  intros Hlay Hiff Hfl0 Hold Hrm p. rewrite Hfl0. split.
  - intros (Hp & Hnrm). apply Hiff in Hp. destruct Hp as ((sz & Hin) & Hne).
    exists sz. rewrite !in_app_iff in Hin. destruct Hin as [H | [H | H]]; try in_tac.
    exfalso. destruct (Hold _ H) as [E | E]; cbn [baddr] in E; tauto.
  - intros (sz & Hin).
    assert (Hout : forall q, q = xb \/ In q rm -> p <> q).
    { intros q Hq. destruct (Hrm q Hq) as (ob & Hob & <-).
      apply (layout_parts_disjoint _ _ _ _ _ (mkBlk p sz false) ob Hlay Hin Hob). }
    split.
    + apply Hiff. split.
      * exists sz. revert Hin. in_tac.
      * apply Hout. left. reflexivity.
    + intros Hr. apply (Hout p); [right; exact Hr | reflexivity].
Qed.

Lemma listed_merged (l1 l2 : list blk) (bm : blk) (fl0 : list Z) :
  bused bm = false ->
  (forall p, In p fl0 <-> exists sz, In (mkBlk p sz false) (l1 ++ l2)) ->
  forall p, In p (baddr bm :: fl0) <->
            exists sz, In (mkBlk p sz false) (l1 ++ [bm] ++ l2).
Proof.
  intros Hfree Hiff p. cbn [In]. rewrite Hiff. split.
  - intros [<- | (sz & H)].
    + exists (bsize bm). rewrite <- Hfree, <- blk_eta. in_tac.
    + exists sz. revert H. in_tac.
  - intros (sz & H). rewrite !in_app_iff in H. cbn [In] in H.
    destruct H as [H | [[H | []] | H]].
    + right. exists sz. in_tac.
    + left. rewrite H. reflexivity.
    + right. exists sz. in_tac.
Qed.

Lemma coalesce_case_prev (s : state) (m : Z -> Z) (f : Z)
      (l1 l2 : list blk) (pb b : blk) (fl : list Z) :
  geom W s (l1 ++ pb :: b :: l2) -> tags_ok W s m (l1 ++ pb :: b :: l2) ->
  linked W s m f fl -> nodes_in (l1 ++ pb :: b :: l2) fl ->
  listed_except (l1 ++ pb :: b :: l2) fl (baddr b) ->
  bused b = false -> bused pb = false ->
  coalesced W s (l1 ++ pb :: b :: l2) b
    (coalesce_rest W (baddr b) 1 0 (bsize b) (with_heap m f s)).
Proof.
  intros Hg Ht Hl Hn Hiff Hfree Hpfree.
  set (bl := l1 ++ pb :: b :: l2) in *.
  assert (Ebl : bl = (l1 ++ [pb]) ++ b :: l2)
    by (unfold bl; rewrite <- app_assoc; reflexivity).
  assert (Hb : In b bl) by (unfold bl; in_tac).
  assert (Hpb : In pb bl) by (unfold bl; in_tac).
  destruct (block_prev W HW s m l1 l2 pb b) as (Eadj & Eph & Epf);
    [rewrite <- Ebl; exact Hg | rewrite <- Ebl; exact Ht |].
  destruct (block_facts W HW s _ b Hg Hb)
    as (B1 & B2 & B3 & B4 & B5 & B6 & B7 & B8 & B9).
  destruct (block_facts W HW s _ pb Hg Hpb)
    as (P1 & P2 & P3 & P4 & P5 & P6 & P7 & P8 & _).
  assert (Hne : baddr pb <> baddr b) by lia.
  assert (Hnin : ~ In (baddr b) fl).
  { intros Hin. apply Hiff in Hin. tauto. }
  assert (Hpbin : In (baddr pb) fl).
  { apply Hiff. split; [|exact Hne].
    exists (bsize pb). rewrite <- Hpfree, <- blk_eta. exact Hpb. }
  destruct (in_split _ _ Hpbin) as (f1 & f2 & Efl).
  rewrite Efl in Hl, Hn.
  destruct (remove_step W HW s m f bl f1 f2 (baddr pb) Hg Ht Hl Hn)
    as (m1 & f' & Erm & Hl1 & Ht1 & Hn1 & Hnb1).
  assert (Hnin1 : ~ In (baddr b) (f1 ++ f2)).
  { intros Hin. apply Hnin. rewrite Efl. revert Hin. in_tac. }
  set (sz := bsize b + bsize pb).
  set (bm := mkBlk (baddr pb) sz false).
  set (m3 := upd (upd m1 (baddr pb - W) (tag bm)) (baddr pb + sz - 2 * W) (tag bm)).
  assert (Htag : tag bm = sz) by (unfold tag, bm; cbn [bsize bused]; lia).
  assert (Hdsz : (2 * W | sz)) by (unfold sz; auto with algn).
  destruct (tags_merge W HW s m1 l1 [pb; b] l2 bm) as (Hg3 & Ht3); try assumption.
  { cbn [layout bm baddr bsize]. unfold sz. repeat split; try assumption; lia. }
  { cbn [bm bsize]. unfold sz. lia. }
  fold m3 in Ht3. cbn [bm baddr bsize] in Ht3.
  assert (Hl3 : linked W s m3 f' (f1 ++ f2)).
  { unfold m3.
    apply (linked_tag_write s _ f' bl _ b); try assumption;
      [unfold sz; lia | tauto |].
    apply (linked_tag_write s _ f' bl _ pb); try assumption; [lia | tauto]. }
  assert (Hn3 : nodes_in (l1 ++ [bm] ++ l2) (f1 ++ f2)).
  { apply (nodes_in_replace l1 [pb; b]); [exact Hn1|].
    intros ob [<- | [<- | []]] Hin; contradiction. }
  assert (Hbm : In bm (l1 ++ [bm] ++ l2)) by in_tac.
  destruct (insert_step W HW s m3 f' _ (f1 ++ f2) bm Hg3 Ht3 Hl3 Hn3 Hbm Hnb1)
    as (m4 & Eins & Hsh).
  exists m4, (baddr pb), (l1 ++ [bm] ++ l2), (baddr pb :: f1 ++ f2), bm.
  split.
  { unfold coalesce_rest. change (1 =? 0) with false. change (0 =? 0) with true.
    cbn [negb andb]. unfold bind.
    assert (Hprev : PREV_BLK W (baddr b) (with_heap m f s)
                    = Ok (baddr pb) (with_heap m f s)).
    { replace (baddr pb) with (baddr b - bsize pb) by lia.
      apply (PREV_BLK_heap W HW); try lia; [valid_tac|].
      rewrite Epf. apply (tag_size W HW); assumption. }
    rewrite Hprev. cbv beta iota.
    rewrite (HDRP_eq W HW) by lia.
    rewrite (GET_SIZE_heap W HW) by valid_tac. cbv beta iota.
    rewrite Eph, (tag_size W HW) by assumption.
    unfold ret at 1. cbv beta iota.
    rewrite (wrap_small W (bsize b + bsize pb)) by lia.
    rewrite Hprev. cbv beta iota.
    rewrite Erm. cbv beta iota.
    rewrite (HDRP_eq W HW) by lia.
    rewrite (PUT_heap W HW) by valid_tac. cbv beta iota.
    rewrite PACK_0. fold sz. rewrite <- Htag.
    rewrite (FTRP_heap W HW _ _ _ (baddr pb) sz);
      [ | lia | valid_tac | | unfold sz; lia | unfold sz; lia].
    2:{ rewrite upd_same.
        apply (tag_size W HW bm); cbn [bm bsize]; [unfold sz; lia | assumption]. }
    cbv beta iota.
    rewrite (PUT_heap W HW) by (unfold sz; valid_tac). cbv beta iota.
    fold m3. unfold ret. cbn [baddr bm] in Eins. rewrite Eins. reflexivity. }
  split; [|repeat split; try reflexivity; cbn [bm bsize]; try assumption; try (unfold sz; lia)].
  - split; [exact Hsh|].
    change (baddr pb) with (baddr bm).
    apply listed_merged; [reflexivity|].
    destruct Hg as (_ & _ & _ & _ & Hlay).
    apply (listed_outside _ _ l1 [pb; b] l2 fl (f1 ++ f2) [baddr pb] (baddr b) Hlay Hiff).
    + intros q. rewrite Efl.
      rewrite (in_remove_nodup f1 f2 (baddr pb) q (lk_nodup _ _ _ _ _ Hl)).
      cbn [In]. intuition congruence.
    + intros ob [<- | [<- | []]]; cbn [In]; tauto.
    + intros q [-> | [<- | []]]; [exists b | exists pb]; cbn [In]; tauto.
  - unfold bl, used_blocks, bm. rewrite !filter_app.
    cbn [filter bused app]. rewrite Hfree, Hpfree. reflexivity.
Qed.

Lemma coalesce_case_both (s : state) (m : Z -> Z) (f : Z)
      (l1 l2 : list blk) (pb b nb : blk) (fl : list Z) :
  geom W s (l1 ++ pb :: b :: nb :: l2) ->
  tags_ok W s m (l1 ++ pb :: b :: nb :: l2) ->
  linked W s m f fl -> nodes_in (l1 ++ pb :: b :: nb :: l2) fl ->
  listed_except (l1 ++ pb :: b :: nb :: l2) fl (baddr b) ->
  bused b = false -> bused pb = false -> bused nb = false ->
  coalesced W s (l1 ++ pb :: b :: nb :: l2) b
    (coalesce_rest W (baddr b) 0 0 (bsize b) (with_heap m f s)).
Proof.
  intros Hg Ht Hl Hn Hiff Hfree Hpfree Hnfree.
  set (bl := l1 ++ pb :: b :: nb :: l2) in *.
  assert (Ebl : bl = (l1 ++ [pb]) ++ b :: nb :: l2)
    by (unfold bl; rewrite <- app_assoc; reflexivity).
  assert (Hb : In b bl) by (unfold bl; in_tac).
  assert (Hpb : In pb bl) by (unfold bl; in_tac).
  assert (Hnb : In nb bl) by (unfold bl; in_tac).
  destruct (block_facts W HW s _ b Hg Hb)
    as (B1 & B2 & B3 & B4 & B5 & B6 & B7 & B8 & B9).
  destruct (block_facts W HW s _ pb Hg Hpb)
    as (P1 & P2 & P3 & P4 & P5 & P6 & P7 & P8 & _).
  destruct (block_facts W HW s _ nb Hg Hnb)
    as (N1 & N2 & N3 & N4 & N5 & N6 & N7 & N8 & _).
  assert (Hreads : forall m', tags_ok W s m' bl ->
            baddr pb + bsize pb = baddr b /\ baddr nb = baddr b + bsize b /\
            m' (baddr pb - W) = tag pb /\ m' (baddr b - 2 * W) = tag pb /\
            m' (baddr b - W) = tag b /\ m' (baddr nb - W) = tag nb).
  { intros m' Ht'.
    destruct (block_prev W HW s m' l1 (nb :: l2) pb b) as (Eadj & Eph & Epf);
      [rewrite <- Ebl; exact Hg | rewrite <- Ebl; exact Ht' |].
    destruct (block_here W HW s m' (l1 ++ [pb]) (nb :: l2) b)
      as (Eh & Ef & En & _ & Hl2);
      [rewrite <- Ebl; exact Hg | rewrite <- Ebl; exact Ht' |].
    pose proof (block_next W HW _ _ _ _ Hl2) as Enb. cbn [next_tag] in En.
    rewrite Enb. auto 10. }
  destruct (Hreads m Ht) as (Eadj & Enb & Eph & Epf & Eh & En).
  assert (Hprev : forall m' f', tags_ok W s m' bl ->
            PREV_BLK W (baddr b) (with_heap m' f' s)
            = Ok (baddr pb) (with_heap m' f' s)).
  { intros m' f0 Ht'. destruct (Hreads m' Ht') as (_ & _ & _ & E & _).
    replace (baddr pb) with (baddr b - bsize pb) by lia.
    apply (PREV_BLK_heap W HW); try lia; [valid_tac|].
    rewrite E. apply (tag_size W HW); assumption. }
  assert (Hnext : forall m' f', tags_ok W s m' bl ->
            NEXT_BLK W (baddr b) (with_heap m' f' s)
            = Ok (baddr nb) (with_heap m' f' s)).
  { intros m' f0 Ht'. destruct (Hreads m' Ht') as (_ & _ & _ & _ & E & _).
    rewrite Enb.
    apply (NEXT_BLK_heap W HW); try lia; [valid_tac|].
    rewrite E. apply (tag_size W HW); assumption. }
  assert (Hnin : ~ In (baddr b) fl).
  { intros Hin. apply Hiff in Hin. tauto. }
  assert (Hpbin : In (baddr pb) fl).
  { apply Hiff. split; [|lia].
    exists (bsize pb). rewrite <- Hpfree, <- blk_eta. exact Hpb. }
  assert (Hnbin : In (baddr nb) fl).
  { apply Hiff. split; [|lia].
    exists (bsize nb). rewrite <- Hnfree, <- blk_eta. exact Hnb. }
  pose proof (lk_nodup _ _ _ _ _ Hl) as Hnd.
  destruct (in_split _ _ Hpbin) as (f1 & f2 & Efl).
  rewrite Efl in Hl, Hn, Hnd.
  destruct (remove_step W HW s m f bl f1 f2 (baddr pb) Hg Ht Hl Hn)
    as (m1 & f' & Erm1 & Hl1 & Ht1 & Hn1 & Hnb1).
  assert (Hnbin1 : In (baddr nb) (f1 ++ f2)).
  { apply (in_remove_nodup f1 f2 (baddr pb) _ Hnd). split; [|lia].
    rewrite <- Efl. exact Hnbin. }
  pose proof (lk_nodup _ _ _ _ _ Hl1) as Hnd1.
  destruct (in_split _ _ Hnbin1) as (g1 & g2 & Egl).
  rewrite Egl in Hl1, Hn1, Hnd1.
  destruct (remove_step W HW s m1 f' bl g1 g2 (baddr nb) Hg Ht1 Hl1 Hn1)
    as (m2 & f'' & Erm2 & Hl2 & Ht2 & Hn2 & Hnb2).
  assert (Hfl0 : forall q, In q (g1 ++ g2) <->
                           In q fl /\ ~ In q [baddr pb; baddr nb]).
  { intros q.
    rewrite (in_remove_nodup g1 g2 (baddr nb) q Hnd1), <- Egl.
    rewrite (in_remove_nodup f1 f2 (baddr pb) q Hnd), <- Efl.
    cbn [In]. intuition congruence. }
  assert (Hnin2 : ~ In (baddr b) (g1 ++ g2)).
  { intros Hin. apply Hfl0 in Hin. tauto. }
  assert (Hpnin2 : ~ In (baddr pb) (g1 ++ g2)).
  { intros Hin. apply Hfl0 in Hin. cbn [In] in Hin. tauto. }
  set (sz := bsize b + (bsize pb + bsize nb)).
  set (bm := mkBlk (baddr pb) sz false).
  set (m3 := upd (upd m2 (baddr pb - W) (tag bm)) (baddr pb + sz - 2 * W) (tag bm)).
  assert (Htag : tag bm = sz) by (unfold tag, bm; cbn [bsize bused]; lia).
  assert (Hdsz : (2 * W | sz)) by (unfold sz; auto with algn).
  destruct (tags_merge W HW s m2 l1 [pb; b; nb] l2 bm) as (Hg3 & Ht3); try assumption.
  { cbn [layout bm baddr bsize]. unfold sz. repeat split; try assumption; lia. }
  { cbn [bm bsize]. unfold sz. lia. }
  fold m3 in Ht3. cbn [bm baddr bsize] in Ht3.
  assert (Hl3 : linked W s m3 f'' (g1 ++ g2)).
  { unfold m3.
    apply (linked_tag_write s _ f'' bl _ nb); try assumption;
      [unfold sz; lia | tauto |].
    apply (linked_tag_write s _ f'' bl _ pb); try assumption; [lia | tauto]. }
  assert (Hn3 : nodes_in (l1 ++ [bm] ++ l2) (g1 ++ g2)).
  { apply (nodes_in_replace l1 [pb; b; nb]); [exact Hn2|].
    intros ob [<- | [<- | [<- | []]]] Hin; contradiction. }
  assert (Hbm : In bm (l1 ++ [bm] ++ l2)) by in_tac.
  destruct (insert_step W HW s m3 f'' _ (g1 ++ g2) bm Hg3 Ht3 Hl3 Hn3 Hbm Hpnin2)
    as (m4 & Eins & Hsh).
  exists m4, (baddr pb), (l1 ++ [bm] ++ l2), (baddr pb :: g1 ++ g2), bm.
  split.
  { unfold coalesce_rest. change (0 =? 0) with true.
    cbn [negb andb]. unfold bind.
    rewrite (Hprev m f Ht). cbv beta iota.
    rewrite (HDRP_eq W HW) by lia.
    rewrite (GET_SIZE_heap W HW) by valid_tac. cbv beta iota.
    rewrite Eph, (tag_size W HW) by assumption.
    rewrite (Hnext m f Ht). cbv beta iota.
    rewrite (HDRP_eq W HW) by lia.
    rewrite (GET_SIZE_heap W HW) by valid_tac. cbv beta iota.
    rewrite En, (tag_size W HW) by assumption.
    unfold ret at 1. cbv beta iota.
    rewrite (wrap_small W (bsize pb + bsize nb)) by lia.
    rewrite (wrap_small W (bsize b + (bsize pb + bsize nb))) by lia.
    rewrite (Hprev m f Ht). cbv beta iota.
    rewrite Erm1. cbv beta iota.
    rewrite (Hnext m1 f' Ht1). cbv beta iota.
    rewrite Erm2. cbv beta iota.
    rewrite (Hprev m2 f'' Ht2). cbv beta iota.
    rewrite (HDRP_eq W HW) by lia.
    rewrite (PUT_heap W HW) by valid_tac. cbv beta iota.
    rewrite PACK_0. fold sz. rewrite <- Htag.
    rewrite (FTRP_heap W HW _ _ _ (baddr pb) sz);
      [ | lia | valid_tac | | unfold sz; lia | unfold sz; lia].
    2:{ rewrite upd_same.
        apply (tag_size W HW bm); cbn [bm bsize]; [unfold sz; lia | assumption]. }
    cbv beta iota.
    rewrite (PUT_heap W HW) by (unfold sz; valid_tac). cbv beta iota.
    fold m3. unfold ret. cbn [baddr bm] in Eins. rewrite Eins. reflexivity. }
  split; [|repeat split; try reflexivity; cbn [bm bsize]; try assumption; try (unfold sz; lia)].
  - split; [exact Hsh|].
    change (baddr pb) with (baddr bm).
    apply listed_merged; [reflexivity|].
    destruct Hg as (_ & _ & _ & _ & Hlay).
    apply (listed_outside _ _ l1 [pb; b; nb] l2 fl (g1 ++ g2)
             [baddr pb; baddr nb] (baddr b) Hlay Hiff Hfl0).
    + intros ob [<- | [<- | [<- | []]]]; cbn [In]; tauto.
    + intros q [-> | [<- | [<- | []]]]; [exists b | exists pb | exists nb];
        cbn [In]; tauto.
  - unfold bl, used_blocks, bm. rewrite !filter_app.
    cbn [filter bused app]. rewrite Hfree, Hpfree, Hnfree. reflexivity.
Qed.

(** coalesce, called on a free block of a heap whose list holds every other
    free block, returns the merged free block in a heap that satisfies the
    invariant. *)
Lemma coalesce_spec (s : state) (m : Z -> Z) (f : Z)
      (bl : list blk) (fl : list Z) (b : blk) :
  geom W s bl -> tags_ok W s m bl -> linked W s m f fl -> nodes_in bl fl ->
  listed_except bl fl (baddr b) -> In b bl -> bused b = false ->
  coalesced W s bl b (coalesce W (baddr b) (with_heap m f s)).
Proof.
  intros Hg Ht Hl Hn Hiff Hb Hfree.
  destruct (in_split _ _ Hb) as (l1 & l2 & ->).
  destruct (list_eq_dec Z.eq_dec (map baddr l1) []) as [E1 | E1].
  - destruct l1 as [|x l1]; [|discriminate E1]. cbn [app] in *.
    rewrite (coalesce_flags_first W HW s m f b l2 Hg Ht Hfree).
    destruct l2 as [|nb l2]; cbn [next_flag].
    + eapply (coalesce_case_none s m f [] []); eassumption.
    + destruct (bused nb) eqn:Hnu; cbn [flag].
      * eapply (coalesce_case_none s m f [] (nb :: l2)); eassumption.
      * eapply (coalesce_case_next s m f [] l2); eassumption.
  - assert (Hne : l1 <> []) by (intros ->; apply E1; reflexivity).
    destruct (exists_last Hne) as (l0 & pb & ->).
    rewrite (coalesce_flags_prev W HW s m f l0 l2 pb b Hg Ht).
    destruct (bused pb) eqn:Hpu; cbn [flag].
    + destruct l2 as [|nb l2]; cbn [next_flag].
      * eapply coalesce_case_none; eassumption.
      * destruct (bused nb) eqn:Hnu; cbn [flag].
        -- eapply coalesce_case_none; eassumption.
        -- eapply coalesce_case_next; eassumption.
    + rewrite <- app_assoc in *. cbn [app] in *.
      destruct l2 as [|nb l2]; cbn [next_flag].
      * eapply coalesce_case_prev; eassumption.
      * destruct (bused nb) eqn:Hnu; cbn [flag].
        -- eapply coalesce_case_prev; eassumption.
        -- eapply coalesce_case_both; eassumption.
Qed.

End CoalesceCases.

(** ** The public operations *)

Section Operations.

Variable W : Z.
Hypothesis HW : W = 4 \/ W = 8.
#[local] Set Default Proof Using "HW".

Ltac in_tac := cbn [In]; rewrite ?in_app_iff; cbn [In]; tauto.
Ltac valid_tac := apply (valid_intro W HW); [lia | lia | auto 10 with algn].

Lemma heap_inv_heap (s : state) (m : Z -> Z) (f : Z) (bl : list blk) (fl : list Z) :
  heap_inv W (with_heap m f s) bl fl <->
  geom W s bl /\ tags_ok W s m bl /\ linked W s m f fl /\ nodes_in bl fl /\
  forall p, In p fl <-> exists sz, In (mkBlk p sz false) bl.
Proof.
  unfold heap_inv. rewrite (shape_heap W HW). split.
  - intros ((Hg & Ht & Hc & Hnd & Hn) & Hiff).
    split; [exact Hg|]. split; [exact Ht|]. split; [|split; assumption].
    apply (mk_linked W HW s m f bl); assumption.
  - intros (Hg & Ht & Hl & Hn & Hiff).
    split; [|exact Hiff].
    split; [exact Hg|]. split; [exact Ht|].
    split; [apply (lk_chain _ _ _ _ _ Hl)|].
    split; [apply (lk_nodup _ _ _ _ _ Hl) | exact Hn].
Qed.

Lemma heap_inv_state (s : state) (bl : list blk) (fl : list Z) :
  heap_inv W s bl fl <->
  geom W s bl /\ tags_ok W s (mem s) bl /\
  linked W s (mem s) (free_list_start s) fl /\ nodes_in bl fl /\
  forall p, In p fl <-> exists sz, In (mkBlk p sz false) bl.
Proof. rewrite <- (with_heap_id s) at 1. apply heap_inv_heap. Qed.

Lemma used_not_listed (p q : Z) (bl : list blk) (fl : list Z) (b : blk) :
  layout W p q bl ->
  (forall a, In a fl <-> exists sz, In (mkBlk a sz false) bl) ->
  In b bl -> bused b = true -> ~ In (baddr b) fl.
Proof.
  intros Hlay Hiff Hb Hu Hin. apply Hiff in Hin. destruct Hin as (sz & Hin).
  pose proof (layout_same_addr W HW _ _ _ _ _ Hlay Hin Hb eq_refl) as E.
  rewrite <- E in Hu. discriminate Hu.
Qed.

(** The list of a heap in which the allocated block [b] has just been
    marked free. *)
Lemma listed_free (p q : Z) (l1 l2 : list blk) (b : blk) (fl : list Z) :
  layout W p q (l1 ++ [b] ++ l2) -> bused b = true ->
  (forall a, In a fl <-> exists sz, In (mkBlk a sz false) (l1 ++ [b] ++ l2)) ->
  listed_except (l1 ++ [mkBlk (baddr b) (bsize b) false] ++ l2) fl (baddr b).
Proof.
  intros Hlay Hu Hiff a. rewrite Hiff. split.
  - intros (sz & Hin). rewrite !in_app_iff in Hin. cbn [In] in Hin.
    destruct Hin as [H | [[H | []] | H]].
    + split; [exists sz; in_tac|].
      apply (layout_parts_disjoint W HW _ _ _ _ _ (mkBlk a sz false) b Hlay);
        in_tac.
    + rewrite H in Hu. cbn [bused] in Hu. discriminate Hu.
    + split; [exists sz; in_tac|].
      apply (layout_parts_disjoint W HW _ _ _ _ _ (mkBlk a sz false) b Hlay);
        in_tac.
  - intros ((sz & Hin) & Hne). exists sz. rewrite !in_app_iff in Hin. cbn [In] in Hin.
    destruct Hin as [H | [[H | []] | H]]; try in_tac.
    exfalso. apply Hne. apply (f_equal baddr) in H. cbn [baddr] in H. congruence.
Qed.

(** mm_free on the pointer of an allocated block: the block is marked free,
    merged with its free neighbours and put on the list; every other
    allocated block stays. *)
Lemma mm_free_heap (s : state) (m : Z -> Z) (f : Z)
      (bl : list blk) (fl : list Z) (b : blk) :
  heap_inv W (with_heap m f s) bl fl -> In b bl -> bused b = true ->
  exists m' f' bl' fl',
    mm_free W (baddr b) (with_heap m f s) = Ok tt (with_heap m' f' s) /\
    heap_inv W (with_heap m' f' s) bl' fl' /\
    forall p, p <> baddr b -> allocated bl p -> allocated bl' p.
Proof.
  intros Hinv Hb Hu. apply heap_inv_heap in Hinv.
  destruct Hinv as (Hg & Ht & Hl & Hn & Hiff).
  destruct (in_split _ _ Hb) as (l1 & l2 & Ebl).
  change (b :: l2) with ([b] ++ l2) in Ebl. subst bl.
  destruct (block_facts W HW s _ b Hg Hb)
    as (B1 & B2 & B3 & B4 & B5 & B6 & B7 & B8 & B9).
  destruct (block_here W HW s m l1 l2 b Hg Ht) as (Eh & _).
  set (b0 := mkBlk (baddr b) (bsize b) false).
  set (m2 := upd (upd m (baddr b - W) (tag b0)) (baddr b + bsize b - 2 * W) (tag b0)).
  assert (Htag : tag b0 = bsize b) by (unfold tag, b0; cbn [bsize bused]; lia).
  assert (Hlay : layout W (first_block W s) (mem_brk s) (l1 ++ [b] ++ l2))
    by apply Hg.
  pose proof (used_not_listed _ _ _ _ _ Hlay Hiff Hb Hu) as Hnin.
  destruct (tags_merge W HW s m l1 [b] l2 b0) as (Hg2 & Ht2); try assumption.
  { cbn [layout b0 baddr bsize]. repeat split; try assumption; lia. }
  fold m2 in Ht2. cbn [b0 baddr bsize] in Ht2.
  assert (Hl2 : linked W s m2 f fl).
  { unfold m2.
    apply (linked_tag_write W HW s _ f _ _ b _ _ Hg Hn Hb); [lia | tauto |].
    apply (linked_tag_write W HW s _ f _ _ b _ _ Hg Hn Hb); [lia | tauto |].
    exact Hl. }
  assert (Hn2 : nodes_in (l1 ++ [b0] ++ l2) fl).
  { apply (nodes_in_replace W HW l1 [b]); [exact Hn|].
    intros ob [<- | []] Hin; contradiction. }
  pose proof (listed_free _ _ _ _ _ _ Hlay Hu Hiff) as Hle. fold b0 in Hle.
  assert (Hb0 : In b0 (l1 ++ [b0] ++ l2)) by in_tac.
  destruct (coalesce_spec W HW s m2 f _ fl b0 Hg2 Ht2 Hl2 Hn2 Hle Hb0 eq_refl)
    as (m' & f' & bl' & fl' & b' & E & Hinv' & _ & _ & _ & Hused).
  exists m', f', bl', fl'. split; [|split; [exact Hinv'|]].
  - unfold mm_free.
    replace (baddr b =? NULL) with false by (symmetry; apply Z.eqb_neq; unfold NULL; lia).
    unfold bind.
    rewrite (HDRP_eq W HW) by lia.
    rewrite (GET_SIZE_heap W HW) by valid_tac. cbv beta iota.
    rewrite Eh, (tag_size W HW) by assumption.
    rewrite (PUT_heap W HW) by valid_tac. cbv beta iota.
    rewrite PACK_0.
    rewrite (FTRP_heap W HW _ _ _ (baddr b) (bsize b)); [ | lia | valid_tac | | lia | lia].
    2:{ rewrite upd_same.
        apply (size_field_aligned W HW); [lia | ].
        apply Z.mod_divide; [lia | assumption]. }
    cbv beta iota.
    rewrite (PUT_heap W HW) by valid_tac. cbv beta iota.
    unfold m2 in E. rewrite Htag in E. cbn [b0 baddr] in E.
    rewrite E. reflexivity.
  - intros p Hne (sz & Hin).
    assert (Hin' : In (mkBlk p sz true) (used_blocks (l1 ++ [b0] ++ l2))).
    { unfold used_blocks. apply filter_In. split; [|reflexivity].
      rewrite !in_app_iff in Hin. cbn [In] in Hin.
      destruct Hin as [H | [[H | []] | H]]; try in_tac.
      exfalso. apply Hne. rewrite H. reflexivity. }
    rewrite <- Hused in Hin'. apply filter_In in Hin'.
    exists sz. apply Hin'.
Qed.

Ltac upd_tac := repeat (rewrite upd_same || (rewrite upd_other by lia)).
Ltac discriminate_ret E := exfalso; clear - E; unfold ret in E; congruence.

(** extend_heap does not need the epilogue header in place: mm_init calls
    it on a heap whose last words are not written yet. *)
Lemma extend_heap_raw (s : state) (m : Z -> Z) (f : Z)
      (bl : list blk) (fl : list Z) (words : Z) :
  geom W s bl -> tagged W m bl ->
  m (mem_start_brk s + W) = 2 * W + 1 ->
  size_field W (m (mem_start_brk s + 6 * W)) = 0 ->
  linked W s m f fl -> nodes_in bl fl ->
  (forall p, In p fl <-> exists sz, In (mkBlk p sz false) bl) ->
  4 * W <= extend_size W words ->
  0 <= to_intptr W (extend_size W words) ->
  mem_brk s + extend_size W words <= mem_max_addr s ->
  found W bl (extend_size W words) (extend_heap W words (with_heap m f s)).
Proof.
  intros Hg T1 T3 T4 Hl Hn Hiff Hmin Hpos Hfit.
  destruct (extend_size_bounds W HW words) as ((_ & Hlt) & Hal).
  set (size := extend_size W words) in *.
  pose proof (W_pos W HW) as HWp.
  destruct (geom_brk W HW _ _ Hg) as (Hlo & Hbrk8 & Hbrk & Hloal & Hbal).
  assert (Hd : (2 * W | size)) by (apply Z.mod_divide; [lia | exact Hal]).
  set (b0 := mem_brk s) in *.
  set (s1 := set_brk (b0 + size) s).
  set (nb := mkBlk b0 size false).
  set (m3 := upd (upd (upd m (b0 - W) size) (b0 + size - 2 * W) size)
                 (b0 + size - W) 1).
  assert (Hmax : mem_max_addr s < modulus W) by apply Hg.
  assert (Hlay : layout W (first_block W s) b0 bl) by apply Hg.
  assert (Hg3 : geom W s1 (bl ++ [nb])).
  { destruct Hg as (G1 & G2 & G3 & G4 & G5).
    split; [exact G1|]. split; [exact G2|].
    split; [cbn [s1 set_brk mem_brk mem_max_addr]; lia|].
    split; [exact G4|].
    apply (layout_join W HW); cbn [nb baddr bsize layout]; try assumption.
    reflexivity. }
  assert (Hblk : forall b, In b bl ->
            first_block W s <= baddr b /\ baddr b + bsize b <= b0 /\
            4 * W <= bsize b).
  { intros b Hb. destruct (layout_in W HW _ _ _ _ Hlay Hb) as (? & ? & ? & _).
    auto. }
  assert (Ht3 : tags_ok W s1 m3 (bl ++ [nb])).
  { unfold first_block in Hblk.
    split; [|split; [|split]].
    - intros b Hb. apply in_app_iff in Hb. destruct Hb as [Hb | [<- | []]].
      + destruct (Hblk b Hb) as (? & ? & ?). destruct (T1 b Hb) as (E1 & E2).
        unfold m3. upd_tac. auto.
      + unfold tag, nb, m3. cbn [baddr bsize bused]. upd_tac.
        split; lia.
    - cbn [s1 set_brk mem_brk]. unfold m3. upd_tac. reflexivity.
    - cbn [s1 set_brk mem_start_brk]. unfold m3. upd_tac. exact T3.
    - cbn [s1 set_brk mem_start_brk]. unfold m3. upd_tac. exact T4. }
  assert (Hn3 : nodes_in (bl ++ [nb]) fl).
  { intros p Hp. destruct (Hn p Hp) as (b & Hb & E). exists b. split; [in_tac | exact E]. }
  assert (Hl3 : linked W s1 m3 f fl).
  { apply (mk_linked W HW s1 m3 f (bl ++ [nb])); try assumption.
    - apply (lk_nodup _ _ _ _ _ Hl).
    - apply (chain_frame W HW m); [|apply (lk_chain _ _ _ _ _ Hl)].
      intros p Hp. destruct (Hn p Hp) as (b & Hb & <-).
      destruct (Hblk b Hb) as (? & ? & ?). unfold first_block in *.
      unfold m3. upd_tac. auto. }
  assert (Hle : listed_except (bl ++ [nb]) fl (baddr nb)).
  { intros p. rewrite Hiff. cbn [nb baddr]. split.
    - intros (sz & Hin). split; [exists sz; in_tac|].
      destruct (Hblk _ Hin) as (? & ? & ?). cbn [baddr bsize] in *. lia.
    - intros ((sz & Hin) & Hne). exists sz.
      apply in_app_iff in Hin. destruct Hin as [Hin | [Hin | []]]; [exact Hin|].
      exfalso. apply Hne. apply (f_equal baddr) in Hin. cbn [baddr nb] in Hin. lia. }
  assert (Hnb : In nb (bl ++ [nb])) by in_tac.
  destruct (coalesce_spec W HW s1 m3 f _ fl nb Hg3 Ht3 Hl3 Hn3 Hle Hnb eq_refl)
    as (m' & f' & bl' & fl' & b' & E & Hinv' & Hb' & Hfree' & Hsz' & Hused').
  exists (with_heap m' f' s1), bl', fl', b'.
  split; [|split; [exact Hinv'|]].
  - unfold extend_heap. fold size. unfold bind.
    rewrite (mem_sbrk_accepts W) by (cbn [with_heap mem_brk mem_max_addr]; lia).
    change (mem_brk (with_heap m f s)) with b0.
    change (set_brk (b0 + size) (with_heap m f s)) with (with_heap m f s1).
    replace (to_int b0 =? -1) with false.
    2:{ symmetry. apply Z.eqb_neq, to_int_aligned.
        destruct Hbal as (k & ->). replace (k * (2 * W)) with (k * W * 2) by lia.
        apply Z.mod_mul. lia. }
    assert (Hv : forall p, mem_start_brk s <= p -> p + W <= b0 + size -> (W | p) ->
                 valid W s1 p).
    { intros p H1 H2 H3. repeat split; assumption. }
    rewrite (HDRP_eq W HW) by lia.
    rewrite (PUT_heap W HW) by (apply Hv; [lia | lia | auto 10 with algn]).
    cbv beta iota. rewrite PACK_0.
    rewrite (FTRP_heap W HW _ _ _ b0 size);
      [ | lia | apply Hv; [lia | lia | auto 10 with algn] | | lia | lia].
    2:{ rewrite upd_same. apply (size_field_aligned W HW); [lia | exact Hal]. }
    cbv beta iota.
    rewrite (PUT_heap W HW) by (apply Hv; [lia | lia | auto 10 with algn]).
    cbv beta iota.
    rewrite (NEXT_BLK_heap W HW _ _ _ b0 size);
      [ | lia | apply Hv; [lia | lia | auto 10 with algn] | | lia | lia].
    2:{ upd_tac. apply (size_field_aligned W HW); [lia | exact Hal]. }
    cbv beta iota.
    rewrite (HDRP_eq W HW) by lia.
    rewrite (PUT_heap W HW) by (apply Hv; [lia | lia | auto 10 with algn]).
    cbv beta iota.
    change (PACK 0 1) with 1. fold m3.
    change b0 with (baddr nb) at 1. exact E.
  - cbn [nb bsize] in Hsz'.
    rewrite Hused'. unfold used_blocks. rewrite filter_app. cbn [filter nb bused].
    rewrite app_nil_r. auto.
Qed.

Lemma extend_heap_heap (s : state) (bl : list blk) (fl : list Z) (words : Z) :
  heap_inv W s bl fl ->
  4 * W <= extend_size W words ->
  extend_heap W words s = Ok NULL s \/
  found W bl (extend_size W words) (extend_heap W words s).
Proof.
  intros Hinv Hmin. apply heap_inv_state in Hinv.
  destruct Hinv as (Hg & (T1 & _ & T3 & T4) & Hl & Hn & Hiff).
  destruct (Z_lt_dec (to_intptr W (extend_size W words)) 0) as [Hneg | Hpos];
    [left; apply (extend_heap_refused W HW); left; exact Hneg|].
  destruct (Z_lt_dec (mem_max_addr s) (mem_brk s + extend_size W words))
    as [Hbig | Hfit];
    [left; apply (extend_heap_refused W HW); right; exact Hbig|].
  right. rewrite <- (with_heap_id s).
  apply (extend_heap_raw _ _ _ _ fl); try assumption; lia.
Qed.

Lemma to_intptr_small (z : Z) : 0 <= z < 2 ^ 31 -> to_intptr W z = z.
Proof.
  intros H. unfold to_intptr.
  change (2 ^ 31) with 2147483648 in H.
  destruct HW; subst W; [rewrite modulus_4 | rewrite modulus_8];
    [change (4294967296 / 2) with 2147483648
    |change (18446744073709551616 / 2) with 9223372036854775808];
    rewrite Z.mod_small; lia.
Qed.

Lemma word_offset (p k : Z) :
  0 <= k <= 8 -> 0 <= p -> p + k * W < modulus W ->
  wrap W (p + wrap W (k * WSIZE W)) = p + k * W.
Proof.
  intros Hk Hp Hlt. pose proof (W_pos W HW). pose proof (modulus_large W HW).
  unfold WSIZE. rewrite (wrap_small W (k * W)) by nia.
  apply wrap_small. nia.
Qed.

Lemma extend_size_4 : extend_size W 4 = 4 * W.
Proof. destruct HW; subst W; reflexivity. Qed.

(** mm_init up to its call of extend_heap, on a region that is still empty
    and can grow by eight words. *)
Lemma mm_init_eval (s0 : state) :
  mem_brk s0 = mem_start_brk s0 -> 0 < mem_start_brk s0 ->
  (2 * W | mem_start_brk s0) -> mem_max_addr s0 < modulus W ->
  mem_start_brk s0 + 8 * W <= mem_max_addr s0 ->
  let lo := mem_start_brk s0 in
  let s2 := mkState (mem s0) lo (lo + 8 * W) (mem_max_addr s0) lo
                    (free_list_start s0) (last_malloced_size s0)
                    (repeat_counter s0) in
  let m4 := upd (upd (upd (upd (mem s0) lo 0) (lo + W) (2 * W + 1))
                     (lo + 2 * W) (2 * W + 1)) (lo + 3 * W) 1 in
  (forall k, 0 <= k < 8 -> valid W s2 (lo + k * W)) /\
  mm_init W s0
  = (r <- extend_heap W 4 ;; if r =? NULL then ret (-1) else ret 0)
      (with_heap m4 (lo + 2 * W) s2).
Proof.
  intros Hempty Hlo Hal Hmax Hroom lo s2 m4.
  pose proof (W_pos W HW) as HWp. pose proof (modulus_large W HW) as Hml.
  fold lo in Hempty, Hlo, Hal, Hroom.
  assert (Hv : forall k, 0 <= k < 8 -> valid W s2 (lo + k * W)).
  { intros k Hk. apply (valid_intro W HW); cbn [s2 mem_start_brk mem_brk].
    - nia.
    - nia.
    - apply Z.divide_add_r; [apply (divide_word W HW); exact Hal|].
      apply Z.divide_factor_r. }
  split; [exact Hv|].
  unfold mm_init. unfold bind at 1.
  rewrite (mem_sbrk_accepts W).
  2:{ rewrite (wrap_small W (8 * WSIZE W)), to_intptr_small; unfold WSIZE; lia. }
  2:{ rewrite (wrap_small W (8 * WSIZE W)); unfold WSIZE; lia. }
  rewrite Hempty. unfold bind at 1. unfold set_heap_listp.
  replace (lo =? NULL) with false by (symmetry; apply Z.eqb_neq; unfold NULL; lia).
  rewrite (wrap_small W (8 * WSIZE W)) by (unfold WSIZE; lia).
  unfold WSIZE at 1.
  change (mkState _ _ _ _ _ _ _ _)
    with (with_heap (mem s0) (free_list_start s0) s2).
  unfold bind at 1.
  replace (init_sentinels W lo (with_heap (mem s0) (free_list_start s0) s2))
    with (Ok tt (with_heap m4 (lo + 2 * W) s2)); [reflexivity|].
  symmetry. unfold init_sentinels, bind.
  rewrite (word_offset lo 1), (word_offset lo 2), (word_offset lo 3) by lia.
  rewrite (DSIZE_eq W HW).
  rewrite (PACK_add (2 * W) 1) by (try (right; reflexivity);
    replace (2 * W) with (W * 2) by lia; apply Z.mod_mul; lia).
  change (PACK 0 1) with 1.
  replace lo with (lo + 0 * W) at 1 by lia.
  rewrite (PUT_heap W HW) by (apply Hv; lia). cbv beta iota.
  rewrite (PUT_heap W HW) by (apply Hv; lia). cbv beta iota.
  rewrite (PUT_heap W HW) by (apply Hv; lia). cbv beta iota.
  rewrite (PUT_heap W HW) by (apply Hv; lia). cbv beta iota.
  rewrite set_fls_heap.
  replace (lo + 0 * W) with lo by lia.
  replace (1 * W) with W in * by lia. reflexivity.
Qed.

Lemma invalid_failure_sentinel (s : state) : valid_word W s (wrap W (-1)) = false.
Proof.
  unfold valid_word. apply andb_false_iff. right.
  destruct HW; subst W; reflexivity.
Qed.

(** mm_init returns 0 only if the provider granted both of its requests. *)
Lemma mm_init_room (s0 s : state) :
  mem_brk s0 = mem_start_brk s0 -> 0 < mem_start_brk s0 ->
  (2 * W | mem_start_brk s0) -> mem_max_addr s0 < modulus W ->
  mm_init W s0 = Ok 0 s ->
  mem_start_brk s0 + 12 * W <= mem_max_addr s0.
Proof.
  intros Hempty Hlo Hal Hmax E.
  pose proof (W_pos W HW) as HWp. pose proof (modulus_large W HW) as Hml.
  destruct (Z_lt_dec (mem_max_addr s0) (mem_start_brk s0 + 8 * W)) as [Hno | Hyes].
  - exfalso. revert E. unfold mm_init, bind.
    rewrite (mem_sbrk_refuses W)
      by (right; rewrite (wrap_small W (8 * WSIZE W)); unfold WSIZE; lia).
    unfold set_heap_listp.
    replace (wrap W (-1) =? NULL) with false
      by (destruct HW; subst W; reflexivity).
    unfold init_sentinels, bind, PUT at 1.
    rewrite invalid_failure_sentinel. discriminate.
  - destruct (mm_init_eval s0 Hempty Hlo Hal Hmax) as (_ & E0); [lia|].
    rewrite E0 in E. clear E0.
    destruct (Z_lt_dec (mem_max_addr s0) (mem_start_brk s0 + 12 * W)) as [Hno | ?];
      [|lia].
    exfalso. revert E. unfold bind.
    rewrite (extend_heap_refused W HW).
    + change (NULL =? NULL) with true. unfold ret. intros E. inversion E.
    + right. rewrite extend_size_4. cbn [with_heap mem_max_addr mem_brk]. lia.
Qed.

(** mm_init on a region that is still empty and can grow by twelve words
    sets up a heap of one free block. *)
Lemma mm_init_spec (s0 : state) :
  mem_brk s0 = mem_start_brk s0 -> 0 < mem_start_brk s0 ->
  (2 * W | mem_start_brk s0) -> mem_max_addr s0 < modulus W ->
  mem_start_brk s0 + 12 * W <= mem_max_addr s0 ->
  size_field W (mem s0 (mem_start_brk s0 + 6 * W)) = 0 ->
  exists s' bl fl,
    mm_init W s0 = Ok 0 s' /\ heap_inv W s' bl fl /\ used_blocks bl = [].
Proof.
  intros Hempty Hlo Hal Hmax Hroom Hgap.
  pose proof (W_pos W HW) as HWp. pose proof (modulus_large W HW) as Hml.
  destruct (mm_init_eval s0 Hempty Hlo Hal Hmax) as (Hv & E0); [lia|].
  rewrite E0. clear E0.
  set (lo := mem_start_brk s0) in *.
  set (s2 := mkState (mem s0) lo (lo + 8 * W) (mem_max_addr s0) lo
                     (free_list_start s0) (last_malloced_size s0)
                     (repeat_counter s0)) in *.
  set (m4 := upd (upd (upd (upd (mem s0) lo 0) (lo + W) (2 * W + 1))
                      (lo + 2 * W) (2 * W + 1)) (lo + 3 * W) 1).
  assert (Hg : geom W s2 []).
  { unfold geom, first_block. cbn [s2 mem_start_brk mem_brk mem_max_addr layout].
    repeat split; try assumption; lia. }
  assert (Hl : linked W s2 m4 (lo + 2 * W) []).
  { constructor; cbn [chain In]; try tauto.
    - constructor.
    - intros a b [].
    - apply (Hv 2). lia. }
  destruct (extend_heap_raw s2 m4 (lo + 2 * W) [] [] 4 Hg)
    as (s' & bl' & fl' & b' & E & Hinv' & Hb' & Hfree' & Hsz' & Hused');
    try assumption.
  { intros b []. }
  { cbn [s2 mem_start_brk]. unfold m4. upd_tac. reflexivity. }
  { cbn [s2 mem_start_brk]. unfold m4. upd_tac. exact Hgap. }
  { intros p []. }
  { intros p. cbn [In]. split; [tauto | intros (? & [])]. }
  { rewrite extend_size_4. lia. }
  { rewrite extend_size_4, to_intptr_small; lia. }
  { rewrite extend_size_4. cbn [s2 mem_brk mem_max_addr]. lia. }
  exists s', bl', fl'. split; [|split; [exact Hinv' | exact Hused']].
  unfold bind. rewrite E.
  replace (baddr b' =? NULL) with false; [reflexivity|].
  symmetry. apply Z.eqb_neq. unfold NULL.
  apply heap_inv_state in Hinv'. destruct Hinv' as (Hg' & _).
  destruct (block_facts W HW _ _ _ Hg' Hb') as (? & _). lia.
Qed.

(** *** Searching the list *)

Lemma GET_state (s : state) (p : Z) :
  valid W s p -> GET W p s = Ok (mem s p) s.
Proof.
  intros Hv. pose proof (GET_heap W HW (mem s) (free_list_start s) s p Hv) as E.
  rewrite with_heap_id in E. exact E.
Qed.

Lemma GET_SIZE_state (s : state) (p : Z) :
  valid W s p -> GET_SIZE W p s = Ok (size_field W (mem s p)) s.
Proof. intros Hv. unfold GET_SIZE, bind. rewrite GET_state by assumption. reflexivity. Qed.

Lemma GET_ALLOC_state (s : state) (p : Z) :
  valid W s p -> GET_ALLOC W p s = Ok (alloc_bit (mem s p)) s.
Proof. intros Hv. unfold GET_ALLOC, bind. rewrite GET_state by assumption. reflexivity. Qed.

Lemma heap_inv_same (s s' : state) (bl : list blk) (fl : list Z) :
  same_heap s s' -> heap_inv W s bl fl -> heap_inv W s' bl fl.
Proof.
  destruct s, s'. unfold same_heap. cbn.
  intros (-> & -> & -> & -> & ->) ([H1 H2 H3 H4 H5 H6 H7 H8 H9 H10 H11 H12] & Hiff).
  split; [|exact Hiff]. constructor; assumption.
Qed.

Lemma same_heap_refl (s : state) : same_heap s s.
Proof. repeat split. Qed.

(** The loop of find_fit, entered at a node of the list, ends at the
    sentinel or at a free block that is large enough. *)
Lemma find_fit_loop_spec (s : state) (bl : list blk) (asize : Z) :
  geom W s bl -> tags_ok W s (mem s) bl ->
  forall (fl2 : list Z) (fuel : nat) (prev cur : Z),
    chain W (mem s) (sentinel W s) prev cur fl2 ->
    (forall p, In p fl2 -> exists sz, In (mkBlk p sz false) bl) ->
    (length fl2 < fuel)%nat ->
    exists r s',
      find_fit_loop W fuel asize cur s = Ok r s' /\ same_heap s s' /\
      (r = NULL \/
       exists b, In b bl /\ bused b = false /\ asize <= bsize b /\ r = baddr b).
Proof.
  intros Hg Ht.
  pose proof (W_pos W HW) as HWp.
  destruct (geom_brk W HW _ _ Hg) as (Hlo & Hbrk8 & Hbrk & Hloal & Hbal).
  induction fl2 as [|p fl2 IH]; intros fuel prev cur Hch Hfree Hfuel;
    (destruct fuel as [|fuel]; [cbn [length] in Hfuel; lia|]);
    cbn [chain] in Hch; cbn [find_fit_loop]; unfold bind.
  - subst cur. unfold sentinel.
    rewrite (HDRP_eq W HW) by lia.
    rewrite GET_ALLOC_state by valid_tac.
    replace (mem_start_brk s + 2 * W - W) with (mem_start_brk s + W) by lia.
    destruct Ht as (_ & _ & -> & _).
    rewrite (alloc_bit_tag W HW (2 * W) 1);
      [ | apply Z_mod_same_full | right; reflexivity].
    change (1 =? 0) with false. cbv beta iota.
    exists NULL, s. split; [reflexivity|]. split; [apply same_heap_refl | left; reflexivity].
  - destruct Hch as (-> & Hpv & Hch).
    destruct (Hfree p (or_introl eq_refl)) as (sz & Hb).
    set (b := mkBlk p sz false) in *.
    destruct (block_facts W HW s _ b Hg Hb)
      as (B1 & B2 & B3 & B4 & B5 & B6 & B7 & B8 & _).
    cbn [b baddr bsize] in *.
    assert (Eh : mem s (p - W) = sz).
    { destruct Ht as (Ht & _). destruct (Ht b Hb) as (E & _).
      cbn [b baddr] in E. rewrite E. unfold tag. cbn [b bsize bused]. lia. }
    rewrite (HDRP_eq W HW) by lia.
    rewrite GET_ALLOC_state by valid_tac. rewrite Eh.
    replace (alloc_bit sz) with 0.
    2:{ symmetry. replace sz with (sz + 0) by lia.
        apply (alloc_bit_tag W HW); [|left; reflexivity].
        apply Z.mod_divide; [lia | exact B8]. }
    change (0 =? 0) with true. cbv beta iota.
    rewrite GET_SIZE_state by valid_tac. rewrite Eh.
    rewrite (size_field_aligned W HW) by first [lia | apply Z.mod_divide; [lia | exact B8]].
    destruct (asize <=? sz) eqn:Hfit.
    + apply Z.leb_le in Hfit. unfold set_last_malloced_size, ret.
      eexists p, _. split; [reflexivity|].
      split; [repeat split|].
      right. exists b. cbn [b baddr bsize bused]. auto.
    + unfold GET_NEXT_PTR, WSIZE. rewrite (wrap_small W (p + W)) by lia.
      rewrite GET_state by valid_tac. cbv beta iota.
      apply (IH fuel p (mem s (p + W)) Hch).
      * intros q Hq. apply Hfree. right. exact Hq.
      * cbn [length] in Hfuel. lia.
Qed.

Lemma same_heap_trans (s1 s2 s3 : state) :
  same_heap s1 s2 -> same_heap s2 s3 -> same_heap s1 s3.
Proof.
  unfold same_heap. intros (A1 & A2 & A3 & A4 & A5) (B1 & B2 & B3 & B4 & B5).
  repeat split; congruence.
Qed.

Lemma found_weaken (bl : list blk) (sz sz' : Z) (o : outcome Z) :
  found W bl sz o -> sz' <= sz -> found W bl sz' o.
Proof.
  intros (s' & bl' & fl' & b' & E & Hinv & Hb & Hf & Hsz & Hu) Hle.
  exists s', bl', fl', b'.
  split; [exact E|]. split; [exact Hinv|]. split; [exact Hb|].
  split; [exact Hf|]. split; [lia | exact Hu].
Qed.

Lemma find_fit_walk_spec (s : state) (bl : list blk) (fl : list Z)
      (fuel : nat) (asize : Z) :
  heap_inv W s bl fl -> (length fl < fuel)%nat ->
  (exists s', find_fit_walk W fuel asize s = Ok NULL s' /\ same_heap s s') \/
  found W bl asize (find_fit_walk W fuel asize s).
Proof.
  intros Hinv Hfuel. pose proof Hinv as Hinv0.
  apply heap_inv_state in Hinv. destruct Hinv as (Hg & Ht & Hl & Hn & Hiff).
  destruct (find_fit_loop_spec s bl asize Hg Ht fl fuel 0 (free_list_start s))
    as (r & s' & E & Hsame & Hr); try assumption.
  { apply (lk_chain _ _ _ _ _ Hl). }
  { intros p Hp. apply Hiff. exact Hp. }
  unfold find_fit_walk, get_free_list_start, bind. rewrite E.
  destruct Hr as [-> | (b & Hb & Hfree & Hsz & ->)].
  - left. exists s'. auto.
  - right. exists s', bl, fl, b.
    split; [reflexivity|]. split; [apply (heap_inv_same s); assumption|].
    auto.
Qed.

Lemma extend_size_bytes (size : Z) :
  (2 * W | size) -> 16 <= size < 2 ^ 31 -> extend_size W (size / WSIZE W) = size.
Proof.
  intros (k & ->) Hr. change (2 ^ 31) with 2147483648 in Hr.
  unfold extend_size, wrap, WSIZE.
  destruct HW; subst W; [rewrite modulus_4 | rewrite modulus_8].
  - replace (k * (2 * 4) / 4) with (2 * k) by (Z.div_mod_to_equations; lia).
    replace (2 * k mod 2) with 0 by (Z.div_mod_to_equations; lia).
    cbn [Z.eqb negb]. rewrite Z.mod_small by lia.
    replace (2 * k * 4 <? 16) with false by (symmetry; apply Z.ltb_ge; lia). lia.
  - replace (k * (2 * 8) / 8) with (2 * k) by (Z.div_mod_to_equations; lia).
    replace (2 * k mod 2) with 0 by (Z.div_mod_to_equations; lia).
    cbn [Z.eqb negb]. rewrite Z.mod_small by lia.
    replace (2 * k * 8 <? 16) with false by (symmetry; apply Z.ltb_ge; lia). lia.
Qed.

(** The extension find_fit asks for when it skips the list walk:
    extendsize / 4 words. *)
Lemma extend_size_quarter (asize : Z) :
  (2 * W | asize) -> 4 * W <= asize < 2 ^ 31 ->
  extend_size W (wrap W (Z.quot (to_int (MAX asize (wrap W (4 * WSIZE W)))) 4))
  = asize * (W / 4).
Proof.
  intros (k & ->) Hr. pose proof (modulus_large W HW) as Hml.
  change (2 ^ 31) with 2147483648 in Hr. change (2 ^ 32) with 4294967296 in Hml.
  unfold WSIZE. rewrite (wrap_small W (4 * W)) by (destruct HW; subst W; lia).
  unfold MAX.
  destruct (k * (2 * W) >? 4 * W) eqn:Hgt.
  - rewrite to_int_small by (change (2 ^ 31) with 2147483648; destruct HW; subst W; lia).
    rewrite Z.quot_div_nonneg by (destruct HW; subst W; lia).
    unfold extend_size, wrap, WSIZE.
    destruct HW; subst W; [rewrite modulus_4 | rewrite modulus_8].
    + replace (k * (2 * 4) / 4) with (2 * k) by (Z.div_mod_to_equations; lia).
      rewrite (Z.mod_small (2 * k)) by lia.
      replace (2 * k mod 2) with 0 by (Z.div_mod_to_equations; lia).
      cbn [Z.eqb negb]. rewrite Z.mod_small by lia.
      replace (2 * k * 4 <? 16) with false by (symmetry; apply Z.ltb_ge; lia).
      change (4 / 4) with 1. lia.
    + replace (k * (2 * 8) / 4) with (4 * k) by (Z.div_mod_to_equations; lia).
      rewrite (Z.mod_small (4 * k)) by lia.
      replace (4 * k mod 2) with 0 by (Z.div_mod_to_equations; lia).
      cbn [Z.eqb negb]. rewrite Z.mod_small by lia.
      replace (4 * k * 8 <? 16) with false by (symmetry; apply Z.ltb_ge; lia).
      change (8 / 4) with 2. lia.
  - assert (E : k * (2 * W) = 4 * W) by (rewrite Z.gtb_ltb in Hgt; apply Z.ltb_ge in Hgt; lia).
    rewrite E.
    destruct HW; subst W; reflexivity.
Qed.

Lemma W_quarter : 1 <= W / 4 <= 2.
Proof. destruct HW; subst W; [change (4 / 4) with 1 | change (8 / 4) with 2]; lia. Qed.

(** find_fit returns NULL and leaves the heap alone, or returns a free
    block of at least [asize] bytes. *)
Lemma find_fit_spec (s : state) (bl : list blk) (fl : list Z)
      (fuel : nat) (asize : Z) :
  heap_inv W s bl fl -> (2 * W | asize) -> 4 * W <= asize < 2 ^ 31 ->
  (length fl < fuel)%nat ->
  (exists s', find_fit W fuel asize s = Ok NULL s' /\ same_heap s s') \/
  found W bl asize (find_fit W fuel asize s).
Proof.
  intros Hinv Hd Hr Hfuel. pose proof (W_pos W HW) as HWp.
  unfold find_fit, get_last_malloced_size, get_repeat_counter, bind.
  assert (Hwalk : forall s1, same_heap s s1 ->
            (exists s', find_fit_walk W fuel asize s1 = Ok NULL s' /\ same_heap s s') \/
            found W bl asize (find_fit_walk W fuel asize s1)).
  { intros s1 Hs1.
    destruct (find_fit_walk_spec s1 bl fl fuel asize) as [(s' & E & Hs') | Hf];
      try assumption.
    - apply (heap_inv_same s); assumption.
    - left. exists s'. split; [exact E|]. apply (same_heap_trans s s1); assumption.
    - right. exact Hf. }
  destruct (last_malloced_size s =? to_int asize).
  - destruct (repeat_counter s >? 30).
    + destruct (extend_heap_heap s bl fl
                  (wrap W (Z.quot (to_int (MAX asize (wrap W (4 * WSIZE W)))) 4)) Hinv)
        as [E | Hf].
      * rewrite extend_size_quarter by assumption. pose proof W_quarter. nia.
      * left. exists s. split; [exact E | apply same_heap_refl].
      * right. apply (found_weaken _ _ _ _ Hf).
        rewrite extend_size_quarter by assumption. pose proof W_quarter. nia.
    + unfold set_repeat_counter. apply Hwalk. repeat split.
  - unfold set_repeat_counter. apply Hwalk. repeat split.
Qed.

(** *** Placing a block *)

(** The list once the free block [b] has left it holds the free blocks
    around [b]. *)
Lemma listed_without (p0 q0 : Z) (l1 l2 : list blk) (b : blk) (f1 f2 : list Z) :
  layout W p0 q0 (l1 ++ [b] ++ l2) -> NoDup (f1 ++ baddr b :: f2) ->
  (forall p, In p (f1 ++ baddr b :: f2) <->
             exists sz, In (mkBlk p sz false) (l1 ++ [b] ++ l2)) ->
  forall p, In p (f1 ++ f2) <-> exists sz, In (mkBlk p sz false) (l1 ++ l2).
Proof.
  intros Hlay Hnd Hiff p.
  rewrite (in_remove_nodup W HW f1 f2 (baddr b) p Hnd), Hiff. split.
  - intros ((sz & Hin) & Hne). exists sz.
    rewrite !in_app_iff in Hin. cbn [In] in Hin.
    destruct Hin as [H | [[H | []] | H]]; try in_tac.
    exfalso. apply Hne. rewrite H. reflexivity.
  - intros (sz & Hin). split; [exists sz; revert Hin; in_tac|].
    apply (layout_parts_disjoint W HW _ _ _ _ _ (mkBlk p sz false) b Hlay Hin).
    in_tac.
Qed.

(** The blocks [new] go where [b] was: allocated ones, and at most a free
    one at [x] that is not on the list yet. *)
Lemma listed_new (p0 q0 : Z) (l1 new l2 : list blk) (fl0 : list Z) (x : Z) :
  layout W p0 q0 (l1 ++ new ++ l2) ->
  (forall p, In p fl0 <-> exists sz, In (mkBlk p sz false) (l1 ++ l2)) ->
  (exists nb, In nb new /\ baddr nb = x) ->
  (forall nb, In nb new -> bused nb = true \/ baddr nb = x) ->
  listed_except (l1 ++ new ++ l2) fl0 x.
Proof.
  intros Hlay Hiff (xb & Hxb & Ex) Hnew p. rewrite Hiff. split.
  - intros (sz & Hin). split; [exists sz; revert Hin; in_tac|].
    rewrite <- Ex.
    apply (layout_parts_disjoint W HW _ _ _ _ _ (mkBlk p sz false) xb Hlay Hin Hxb).
  - intros ((sz & Hin) & Hne). exists sz.
    rewrite !in_app_iff in Hin. destruct Hin as [H | [H | H]]; try in_tac.
    exfalso. destruct (Hnew _ H) as [E | E]; cbn [bused baddr] in E;
      [discriminate E | contradiction].
Qed.

Lemma listed_except_used (p0 q0 : Z) (bl : list blk) (fl : list Z) (b : blk) :
  layout W p0 q0 bl -> In b bl -> bused b = true ->
  listed_except bl fl (baddr b) ->
  forall p, In p fl <-> exists sz, In (mkBlk p sz false) bl.
Proof.
  intros Hlay Hb Hu Hle p. rewrite (Hle p). split; [tauto|].
  intros (sz & Hin). split; [eauto|]. intros E.
  pose proof (layout_same_addr W HW _ _ _ _ _ Hlay Hin Hb E) as E'.
  rewrite <- E' in Hu. discriminate Hu.
Qed.

(** place on a free block that is too small to be split. *)
Lemma place_whole (s : state) (m : Z -> Z) (f : Z)
      (bl : list blk) (fl : list Z) (b : blk) (asize : Z) :
  heap_inv W (with_heap m f s) bl fl -> In b bl -> bused b = false ->
  0 <= asize <= bsize b -> bsize b - asize < 4 * W ->
  exists m' f' bl' fl',
    place W (baddr b) asize (with_heap m f s) = Ok tt (with_heap m' f' s) /\
    heap_inv W (with_heap m' f' s) bl' fl' /\
    In (mkBlk (baddr b) (bsize b) true) bl' /\
    (forall p, allocated bl p -> allocated bl' p).
Proof.
  intros Hinv Hb Hfree Hle Hsmall. apply heap_inv_heap in Hinv.
  destruct Hinv as (Hg & Ht & Hl & Hn & Hiff).
  destruct (in_split _ _ Hb) as (l1 & l2 & Ebl).
  change (b :: l2) with ([b] ++ l2) in Ebl. subst bl.
  destruct (block_facts W HW s _ b Hg Hb)
    as (B1 & B2 & B3 & B4 & B5 & B6 & B7 & B8 & B9).
  destruct (block_here W HW s m l1 l2 b Hg Ht) as (Eh & _).
  pose proof (modulus_large W HW) as Hml.
  set (bu := mkBlk (baddr b) (bsize b) true).
  set (m2 := upd (upd m (baddr b - W) (tag bu)) (baddr b + bsize b - 2 * W) (tag bu)).
  assert (Htag : tag bu = bsize b + 1) by reflexivity.
  assert (Hlay : layout W (first_block W s) (mem_brk s) (l1 ++ [b] ++ l2))
    by apply Hg.
  assert (Hbin : In (baddr b) fl).
  { apply Hiff. exists (bsize b). rewrite <- Hfree, <- (blk_eta W HW). exact Hb. }
  destruct (tags_merge W HW s m l1 [b] l2 bu) as (Hg2 & Ht2); try assumption.
  { cbn [layout bu baddr bsize]. repeat split; try assumption; lia. }
  fold m2 in Ht2. cbn [bu baddr bsize] in Ht2.
  assert (Hl2 : linked W s m2 f fl).
  { unfold m2.
    apply (linked_tag_write W HW s _ f _ _ b _ _ Hg Hn Hb); [lia | lia |].
    apply (linked_tag_write W HW s _ f _ _ b _ _ Hg Hn Hb); [lia | lia |].
    exact Hl. }
  assert (Hn2 : nodes_in (l1 ++ [bu] ++ l2) fl).
  { apply (nodes_in_replace W HW l1 [b]); [exact Hn|].
    intros ob [<- | []] _. exists bu. split; [in_tac | reflexivity]. }
  destruct (in_split _ _ Hbin) as (f1 & f2 & Efl). subst fl.
  destruct (remove_step W HW s m2 f _ f1 f2 (baddr b) Hg2 Ht2 Hl2 Hn2)
    as (m3 & f' & Erm & Hl3 & Ht3 & Hn3 & Hnin3).
  assert (Hbu : In bu (l1 ++ [bu] ++ l2)) by in_tac.
  exists m3, f', (l1 ++ [bu] ++ l2), (f1 ++ f2).
  split; [|split; [|split]].
  - unfold place, bind.
    rewrite (HDRP_eq W HW) by lia.
    rewrite (GET_SIZE_heap W HW) by valid_tac. cbv beta iota.
    rewrite Eh, (tag_size W HW) by assumption.
    unfold WSIZE. rewrite (wrap_small W (bsize b - asize)) by lia.
    rewrite (wrap_small W (4 * W)) by lia.
    replace (bsize b - asize >=? 4 * W) with false
      by (symmetry; rewrite Z.geb_leb; apply Z.leb_gt; lia).
    rewrite (PUT_heap W HW) by valid_tac. cbv beta iota.
    rewrite (PACK_add (bsize b) 1);
      [ | destruct B8 as (k & ->); replace (k * (2 * W)) with (k * W * 2) by lia;
          apply Z.mod_mul; lia | right; reflexivity].
    rewrite <- Htag.
    rewrite (FTRP_heap W HW _ _ _ (baddr b) (bsize b)); [ | lia | valid_tac | | lia | lia].
    2:{ rewrite upd_same. apply (tag_size W HW bu); assumption. }
    cbv beta iota.
    rewrite (PUT_heap W HW) by valid_tac. cbv beta iota.
    fold m2. exact Erm.
  - apply heap_inv_heap.
    split; [exact Hg2|]. split; [exact Ht3|]. split; [exact Hl3|].
    split; [exact Hn3|].
    destruct Hg2 as (_ & _ & _ & _ & Hlay2).
    apply (listed_except_used _ _ _ _ bu Hlay2 Hbu eq_refl).
    apply (listed_new _ _ _ _ _ _ _ Hlay2).
    + apply (listed_without _ _ _ _ _ _ _ Hlay (lk_nodup _ _ _ _ _ Hl) Hiff).
    + exists bu. split; [in_tac | reflexivity].
    + intros nb [<- | []]. left. reflexivity.
  - exact Hbu.
  - intros p (sz & Hin). exists sz.
    rewrite !in_app_iff in Hin. cbn [In] in Hin.
    destruct Hin as [H | [[H | []] | H]]; try in_tac.
    rewrite H in Hfree. discriminate Hfree.
Qed.

(** place on a free block that leaves room for a free remainder. *)
Lemma place_split (s : state) (m : Z -> Z) (f : Z)
      (bl : list blk) (fl : list Z) (b : blk) (asize : Z) :
  heap_inv W (with_heap m f s) bl fl -> In b bl -> bused b = false ->
  (2 * W | asize) -> 4 * W <= asize -> 4 * W <= bsize b - asize ->
  exists m' f' bl' fl',
    place W (baddr b) asize (with_heap m f s) = Ok tt (with_heap m' f' s) /\
    heap_inv W (with_heap m' f' s) bl' fl' /\
    In (mkBlk (baddr b) asize true) bl' /\
    (forall p, allocated bl p -> allocated bl' p).
Proof.
  intros Hinv Hb Hfree Hda Hmin Hrest. apply heap_inv_heap in Hinv.
  destruct Hinv as (Hg & Ht & Hl & Hn & Hiff).
  destruct (in_split _ _ Hb) as (l1 & l2 & Ebl).
  change (b :: l2) with ([b] ++ l2) in Ebl. subst bl.
  destruct (block_facts W HW s _ b Hg Hb)
    as (B1 & B2 & B3 & B4 & B5 & B6 & B7 & B8 & B9).
  destruct (block_here W HW s m l1 l2 b Hg Ht) as (Eh & _ & _ & Hlay1 & Hlay2).
  destruct (geom_brk W HW _ _ Hg) as (Hlo & _ & Hbrk & _).
  pose proof (modulus_large W HW) as Hml.
  set (bp := baddr b) in *. set (csize := bsize b) in *.
  set (r := csize - asize).
  set (bu := mkBlk bp asize true).
  set (rem := mkBlk (bp + asize) r false).
  assert (Hdr : (2 * W | r)) by (unfold r; auto with algn).
  assert (Hlay : layout W (first_block W s) (mem_brk s) (l1 ++ [b] ++ l2))
    by apply Hg.
  pose proof (lk_nodup _ _ _ _ _ Hl) as Hnd.
  assert (Hbin : In bp fl).
  { apply Hiff. exists csize. unfold bp, csize. rewrite <- Hfree, <- (blk_eta W HW).
    exact Hb. }
  destruct (in_split _ _ Hbin) as (f1 & f2 & Efl). subst fl.
  pose proof (NoDup_remove_2 _ _ _ Hnd) as Hnin.
  pose proof (nodes_in_remove W HW _ _ _ _ Hn) as Hn0.
  assert (Hnl : forall a, bp - W <= a < bp + csize - W ->
                          ~ link_cell W s (f1 ++ f2) a).
  { intros a Ha. apply (block_word_not_link W HW s _ _ b a Hg Hn0 Hb Ha).
    intros Hin. contradiction. }
  set (m2 := upd (upd m (bp - W) (asize + 1)) (bp + asize - 2 * W) (asize + 1)).
  assert (Hl2 : linked W s m2 f (f1 ++ bp :: f2)).
  { unfold m2.
    apply (linked_tag_write W HW s _ f _ _ b _ _ Hg Hn Hb);
      [fold bp csize; lia | fold bp; lia |].
    apply (linked_tag_write W HW s _ f _ _ b _ _ Hg Hn Hb);
      [fold bp csize; lia | fold bp; lia |].
    exact Hl. }
  destruct (linked_remove W HW s m2 f f1 f2 bp Hlo Hbrk Hl2)
    as (m3 & f' & Erm & Hl3 & Hfr3).
  set (m5 := upd (upd m3 (bp + asize - W) r) (bp + csize - 2 * W) r).
  assert (E3 : forall a, bp - W <= a < bp + csize - W -> m3 a = m2 a).
  { intros a Ha. apply Hfr3, Hnl, Ha. }
  assert (Hv : forall k, -1 <= k -> (k + 2) * W <= csize -> valid W s (bp + k * W)).
  { intros k H1 H2. apply (geom_valid_block W HW s _ b k Hg Hb H1 H2). }
  assert (Hnew : layout W bp (bp + csize) [bu; rem]).
  { cbn [layout bu rem baddr bsize]. unfold r. repeat split; try assumption; lia. }
  destruct (tags_replace W HW s m m5 l1 [b] [bu; rem] l2 bp (bp + csize)
              [bp - W; bp + asize - 2 * W; bp + asize - W; bp + csize - 2 * W])
    as (Hg5 & Ht5); try assumption.
  { intros a Ha Hw. cbn [In] in Hw.
    unfold m5. rewrite !upd_other by lia.
    rewrite Hfr3.
    - unfold m2. rewrite !upd_other by lia. reflexivity.
    - intros Hc. apply Ha. revert Hc. apply (link_cell_incl W HW).
      apply (nodes_in_incl W HW). exact Hn0. }
  { intros a. cbn [In]. lia. }
  { intros x [<- | [<- | []]]; unfold tag; cbn [bu rem baddr bsize bused].
    - unfold m5. rewrite !upd_other by lia.
      rewrite !E3 by lia. unfold m2. upd_tac.
      replace (bp + asize + r - 2 * W) with (bp + csize - 2 * W) by (unfold r; lia).
      auto.
    - unfold m5. upd_tac.
      replace (bp + asize + r - 2 * W) with (bp + csize - 2 * W) by (unfold r; lia).
      upd_tac. split; lia. }
  assert (Hl5 : linked W s m5 f' (f1 ++ f2)).
  { unfold m5.
    apply (linked_tag_write W HW s _ f' _ _ b _ _ Hg Hn0 Hb);
      [fold bp csize; lia | tauto |].
    apply (linked_tag_write W HW s _ f' _ _ b _ _ Hg Hn0 Hb);
      [fold bp csize; lia | tauto |].
    exact Hl3. }
  assert (Hn5 : nodes_in (l1 ++ [bu; rem] ++ l2) (f1 ++ f2)).
  { apply (nodes_in_replace W HW l1 [b]); [exact Hn0|].
    intros ob [<- | []] Hin. contradiction. }
  assert (Hrem : In rem (l1 ++ [bu; rem] ++ l2)) by in_tac.
  assert (Hlay5 : layout W (first_block W s) (mem_brk s) (l1 ++ [bu; rem] ++ l2))
    by apply Hg5.
  assert (Hle : listed_except (l1 ++ [bu; rem] ++ l2) (f1 ++ f2) (baddr rem)).
  { apply (listed_new _ _ _ _ _ _ _ Hlay5).
    - apply (listed_without _ _ _ _ _ _ _ Hlay Hnd Hiff).
    - exists rem. split; [in_tac | reflexivity].
    - intros nb [<- | [<- | []]]; [left | right]; reflexivity. }
  destruct (coalesce_spec W HW s m5 f' _ _ rem Hg5 Ht5 Hl5 Hn5 Hle Hrem eq_refl)
    as (m' & f'' & bl' & fl' & b' & E & Hinv' & _ & _ & _ & Hused).
  assert (Hkeep : forall x, bused x = true -> In x (l1 ++ [bu; rem] ++ l2) -> In x bl').
  { intros x Hx Hin.
    assert (Hin' : In x (used_blocks (l1 ++ [bu; rem] ++ l2)))
      by (apply filter_In; auto).
    rewrite <- Hused in Hin'. apply filter_In in Hin'. apply Hin'. }
  exists m', f'', bl', fl'.
  split; [|split; [exact Hinv' | split]].
  - unfold place, bind.
    rewrite (HDRP_eq W HW) by lia.
    rewrite (GET_SIZE_heap W HW) by valid_tac. cbv beta iota.
    rewrite Eh, (tag_size W HW) by assumption. fold csize.
    unfold WSIZE. rewrite (wrap_small W (csize - asize)) by lia.
    rewrite (wrap_small W (4 * W)) by lia.
    replace (csize - asize >=? 4 * W) with true
      by (symmetry; rewrite Z.geb_leb; apply Z.leb_le; lia).
    rewrite (PUT_heap W HW) by valid_tac. cbv beta iota.
    rewrite (PACK_add asize 1);
      [ | destruct Hda as (k & ->); replace (k * (2 * W)) with (k * W * 2) by lia;
          apply Z.mod_mul; lia | right; reflexivity].
    assert (Hsa : size_field W (asize + 1) = asize).
    { apply (size_field_tag W HW); [lia | | right; reflexivity].
      apply Z.mod_divide; [lia | exact Hda]. }
    rewrite (FTRP_heap W HW _ _ _ bp asize); [ | lia | valid_tac | | lia | lia].
    2:{ rewrite upd_same. exact Hsa. }
    cbv beta iota.
    rewrite (PUT_heap W HW) by valid_tac. cbv beta iota.
    fold m2. rewrite Erm. cbv beta iota.
    rewrite (NEXT_BLK_heap W HW _ _ _ bp asize); [ | lia | valid_tac | | lia | lia].
    2:{ rewrite E3 by lia. unfold m2. upd_tac. exact Hsa. }
    cbv beta iota.
    rewrite (HDRP_eq W HW) by lia.
    rewrite (PUT_heap W HW) by valid_tac. cbv beta iota.
    rewrite PACK_0. fold r.
    rewrite (FTRP_heap W HW _ _ _ (bp + asize) r);
      [ | lia | valid_tac | | unfold r; lia | unfold r; lia].
    2:{ replace (bp + asize - W) with (bp + asize - W) by lia. rewrite upd_same.
        apply (size_field_aligned W HW); [unfold r; lia|].
        apply Z.mod_divide; [lia | exact Hdr]. }
    cbv beta iota.
    replace (bp + asize + r - 2 * W) with (bp + csize - 2 * W) by (unfold r; lia).
    rewrite (PUT_heap W HW) by valid_tac. cbv beta iota.
    fold m5. change (bp + asize) with (baddr rem). rewrite E. reflexivity.
  - apply Hkeep; [reflexivity | in_tac].
  - intros p (sz & Hin). exists sz. apply Hkeep; [reflexivity|].
    rewrite !in_app_iff in Hin. cbn [In] in Hin.
    destruct Hin as [H | [[H | []] | H]]; try in_tac.
    rewrite H in Hfree. discriminate Hfree.
Qed.

(** place on a free block of at least [asize] bytes marks its first
    [asize] bytes, or all of it, allocated. *)
Lemma place_spec (s : state) (bl : list blk) (fl : list Z) (b : blk) (asize : Z) :
  heap_inv W s bl fl -> In b bl -> bused b = false ->
  (2 * W | asize) -> 4 * W <= asize <= bsize b ->
  exists s' bl' fl' sz,
    place W (baddr b) asize s = Ok tt s' /\ heap_inv W s' bl' fl' /\
    In (mkBlk (baddr b) sz true) bl' /\ asize <= sz /\
    (forall p, allocated bl p -> allocated bl' p).
Proof.
  intros Hinv Hb Hfree Hd Hr.
  rewrite <- (with_heap_id s) in Hinv |- *.
  destruct (Z_lt_dec (bsize b - asize) (4 * W)) as [Hsmall | Hbig].
  - destruct (place_whole _ _ _ _ _ b asize Hinv Hb Hfree)
      as (m' & f' & bl' & fl' & E & Hinv' & Hin & Hkeep); [lia | lia |].
    exists (with_heap m' f' s), bl', fl', (bsize b).
    split; [exact E|]. split; [exact Hinv'|]. split; [exact Hin|].
    split; [lia | exact Hkeep].
  - destruct (place_split _ _ _ _ _ b asize Hinv Hb Hfree Hd)
      as (m' & f' & bl' & fl' & E & Hinv' & Hin & Hkeep); [lia | lia |].
    exists (with_heap m' f' s), bl', fl', asize.
    split; [exact E|]. split; [exact Hinv'|]. split; [exact Hin|].
    split; [lia | exact Hkeep].
Qed.

(** *** mm_malloc *)

Lemma adjust_size_bounds (size : Z) :
  0 < size -> size + 4 * W <= 2 ^ 31 ->
  (2 * W | adjust_size W size) /\ 4 * W <= adjust_size W size < 2 ^ 31 /\
  size + 2 * W <= adjust_size W size.
Proof.
  intros Hpos Hle. change (2 ^ 31) with 2147483648 in *.
  unfold adjust_size. rewrite (DSIZE_eq W HW).
  destruct (size <=? 2 * W) eqn:Hs.
  - apply Z.leb_le in Hs.
    rewrite wrap_small by (destruct HW; subst W; [rewrite modulus_4 | rewrite modulus_8]; lia).
    split; [exists 2; lia | lia].
  - apply Z.leb_gt in Hs.
    assert (Hm : 2147483648 < modulus W)
      by (destruct HW; subst W; [rewrite modulus_4 | rewrite modulus_8]; lia).
    pose proof (W_pos W HW) as HWp.
    rewrite (wrap_small W (size + 2 * W)) by lia.
    rewrite (wrap_small W (2 * W - 1)) by lia.
    rewrite (wrap_small W (size + 2 * W + (2 * W - 1))) by lia.
    set (q := (size + 2 * W + (2 * W - 1)) / (2 * W)).
    assert (Hq : 2 * W * q <= size + 2 * W + (2 * W - 1) < 2 * W * q + 2 * W).
    { unfold q. pose proof (Z.mul_div_le (size + 2 * W + (2 * W - 1)) (2 * W)).
      pose proof (Z.mul_succ_div_gt (size + 2 * W + (2 * W - 1)) (2 * W)). lia. }
    rewrite wrap_small by lia.
    split; [exists q; lia | lia].
Qed.

Lemma chunk_words (asize : Z) :
  (2 * W | asize) -> 4 * W <= asize < 2 ^ 31 ->
  extend_size W (MAX asize CHUNKSIZE / WSIZE W) = MAX asize CHUNKSIZE /\
  asize <= MAX asize CHUNKSIZE /\ 4 * W <= MAX asize CHUNKSIZE.
Proof.
  intros Hd Hr. change (2 ^ 31) with 2147483648 in *.
  change CHUNKSIZE with 4096. unfold MAX.
  destruct (asize >? 4096) eqn:Hgt; rewrite Z.gtb_ltb in Hgt.
  - apply Z.ltb_lt in Hgt.
    rewrite extend_size_bytes; [lia | exact Hd |].
    change (2 ^ 31) with 2147483648. pose proof (W_pos W HW). lia.
  - apply Z.ltb_ge in Hgt.
    rewrite extend_size_bytes.
    + destruct HW; subst W; lia.
    + destruct HW; subst W; [exists 512 | exists 256]; reflexivity.
    + change (2 ^ 31) with 2147483648. lia.
Qed.

(** mm_malloc keeps the invariant and every allocated block; it returns
    NULL or a new allocated block with room for [size] bytes. *)
Lemma mm_malloc_spec (s : state) (bl : list blk) (fl : list Z)
      (fuel : nat) (size : Z) :
  heap_inv W s bl fl -> 0 <= size -> size + 4 * W <= 2 ^ 31 ->
  (length fl < fuel)%nat ->
  exists r s' bl' fl',
    mm_malloc W fuel size s = Ok r s' /\ heap_inv W s' bl' fl' /\
    (forall p, allocated bl p -> allocated bl' p) /\
    (r = NULL \/
     exists sz, In (mkBlk r sz true) bl' /\ size + 2 * W <= sz /\
                ~ allocated bl r).
Proof.
  intros Hinv Hpos Hle Hfuel. unfold mm_malloc.
  destruct (size =? 0) eqn:Hz.
  { exists NULL, s, bl, fl. unfold ret. auto. }
  apply Z.eqb_neq in Hz.
  destruct (adjust_size_bounds size) as (Hd & Hr & Hroom); [lia | lia |].
  set (asize := adjust_size W size) in *.
  assert (Hplace : forall o, found W bl asize o ->
            exists b1 s1 s' bl' fl',
              o = Ok (baddr b1) s1 /\ (baddr b1 =? NULL) = false /\
              place W (baddr b1) asize s1 = Ok tt s' /\
              heap_inv W s' bl' fl' /\
              (forall p, allocated bl p -> allocated bl' p) /\
              exists sz, In (mkBlk (baddr b1) sz true) bl' /\
                         size + 2 * W <= sz /\ ~ allocated bl (baddr b1)).
  { intros o (s1 & bl1 & fl1 & b1 & -> & Hinv1 & Hb1 & Hfree1 & Hsz1 & Hused1).
    destruct (place_spec s1 bl1 fl1 b1 asize Hinv1 Hb1 Hfree1 Hd)
      as (s2 & bl2 & fl2 & sz & E & Hinv2 & Hin2 & Hsz2 & Hkeep2); [lia|].
    assert (Hg1 : geom W s1 bl1) by (apply heap_inv_state in Hinv1; apply Hinv1).
    destruct (block_facts W HW _ _ _ Hg1 Hb1) as (? & _).
    pose proof (W_pos W HW).
    exists b1, s1, s2, bl2, fl2. split; [reflexivity|].
    split; [apply Z.eqb_neq; unfold NULL; lia|].
    split; [exact E|]. split; [exact Hinv2|].
    assert (Hsame : forall p, allocated bl p -> allocated bl1 p).
    { intros p (sz' & Hin).
      assert (Hin' : In (mkBlk p sz' true) (used_blocks bl))
        by (apply filter_In; auto).
      rewrite <- Hused1 in Hin'. apply filter_In in Hin'. exists sz'. apply Hin'. }
    split; [intros p Hp; apply Hkeep2, Hsame, Hp|].
    exists sz. split; [exact Hin2|]. split; [lia|].
    intros Ha. destruct (Hsame _ Ha) as (sz' & Hin').
    destruct Hg1 as (_ & _ & _ & _ & Hlay1).
    pose proof (layout_same_addr W HW _ _ _ _ _ Hlay1 Hin' Hb1 eq_refl) as Eb.
    rewrite <- Eb in Hfree1. discriminate Hfree1. }
  unfold bind at 1.
  destruct (find_fit_spec s bl fl fuel asize Hinv Hd Hr Hfuel)
    as [(s1 & E & Hsame) | Hf].
  - rewrite E. change (negb (NULL =? NULL)) with false. cbv iota.
    pose proof (heap_inv_same _ _ _ _ Hsame Hinv) as Hinv1.
    destruct (chunk_words asize Hd Hr) as (Ews & Hge & Hmin).
    unfold bind.
    destruct (extend_heap_heap s1 bl fl (MAX asize CHUNKSIZE / WSIZE W) Hinv1)
      as [E1 | Hf1].
    + rewrite Ews. exact Hmin.
    + rewrite E1. change (NULL =? NULL) with true. cbv iota.
      exists NULL, s1, bl, fl. unfold ret. auto.
    + rewrite Ews in Hf1. apply (found_weaken _ _ asize) in Hf1; [|exact Hge].
      destruct (Hplace _ Hf1)
        as (b1 & s2 & s' & bl' & fl' & Eo & Hnn & E2 & Hinv' & Hkeep & Hnew).
      rewrite Eo, Hnn, E2. cbv iota.
      exists (baddr b1), s', bl', fl'. unfold ret. auto.
  - destruct (Hplace _ Hf)
      as (b1 & s2 & s' & bl' & fl' & Eo & Hnn & E2 & Hinv' & Hkeep & Hnew).
    rewrite Eo, Hnn. cbn [negb]. unfold bind. rewrite E2.
    exists (baddr b1), s', bl', fl'. unfold ret. auto.
Qed.

(** *** mm_free and mm_realloc *)

Lemma mm_free_spec (s : state) (bl : list blk) (fl : list Z) (b : blk) :
  heap_inv W s bl fl -> In b bl -> bused b = true ->
  exists s' bl' fl',
    mm_free W (baddr b) s = Ok tt s' /\ heap_inv W s' bl' fl' /\
    forall p, p <> baddr b -> allocated bl p -> allocated bl' p.
Proof.
  intros Hinv Hb Hu. rewrite <- (with_heap_id s) in Hinv |- *.
  destruct (mm_free_heap _ _ _ _ _ b Hinv Hb Hu)
    as (m' & f' & bl' & fl' & E & Hinv' & Hkeep).
  exists (with_heap m' f' s), bl', fl'. auto.
Qed.

Lemma remove_step_frame (s : state) (m : Z -> Z) (f : Z) (bl : list blk)
      (f1 f2 : list Z) (p : Z) :
  geom W s bl -> tags_ok W s m bl ->
  linked W s m f (f1 ++ p :: f2) -> nodes_in bl (f1 ++ p :: f2) ->
  exists m1 f',
    remove_from_free_list W p (with_heap m f s) = Ok tt (with_heap m1 f' s) /\
    linked W s m1 f' (f1 ++ f2) /\ tags_ok W s m1 bl /\
    nodes_in bl (f1 ++ f2) /\ ~ In p (f1 ++ f2) /\
    forall a, ~ link_cell W s (f1 ++ f2) a -> m1 a = m a.
Proof.
  intros Hg Ht Hl Hn.
  destruct (geom_brk W HW _ _ Hg) as (Hlo & _ & Hbrk & _).
  destruct (linked_remove W HW s m f f1 f2 p Hlo Hbrk Hl) as (m1 & f' & E & Hl1 & Hfr).
  exists m1, f'. split; [exact E|]. split; [exact Hl1|].
  pose proof (nodes_in_remove W HW _ _ _ _ Hn) as Hn'.
  split; [|split; [exact Hn'|split; [|exact Hfr]]].
  - eapply (tags_ok_frame W HW); eassumption.
  - apply NoDup_remove_2. apply (lk_nodup _ _ _ _ _ Hl).
Qed.

Lemma listed_except_of_used (p0 q0 : Z) (bl : list blk) (fl : list Z) (b : blk) :
  layout W p0 q0 bl -> In b bl -> bused b = true ->
  (forall p, In p fl <-> exists sz, In (mkBlk p sz false) bl) ->
  listed_except bl fl (baddr b).
Proof.
  intros Hlay Hb Hu Hiff p. rewrite (Hiff p). split; [|tauto].
  intros (sz & Hin). split; [eauto|]. intros E.
  pose proof (layout_same_addr W HW _ _ _ _ _ Hlay Hin Hb E) as E'.
  rewrite <- E' in Hu. discriminate Hu.
Qed.

(** mm_realloc on an allocated block followed by a free block that is
    large enough: the free block leaves the list and becomes part of the
    allocated block, whose first words stay as they are. *)
Lemma mm_realloc_absorb_heap (s : state) (m : Z -> Z) (f : Z)
      (l1 l2 : list blk) (b nb : blk) (fl : list Z) (fuel : nat) (size : Z) :
  heap_inv W (with_heap m f s) (l1 ++ b :: nb :: l2) fl ->
  bused b = true -> bused nb = false ->
  0 <= size < modulus W -> 0 < to_int size ->
  bsize b < wrap W (size + 2 * W) <= bsize b + bsize nb ->
  exists m' f' fl',
    mm_realloc W fuel (baddr b) size (with_heap m f s)
    = Ok (baddr b) (with_heap m' f' s) /\
    heap_inv W (with_heap m' f' s)
      (l1 ++ mkBlk (baddr b) (bsize b + bsize nb) true :: l2) fl' /\
    (forall p, In p fl' <-> In p fl /\ p <> baddr nb) /\
    m' (baddr b - W) = PACK (bsize b + bsize nb) 1 /\
    m' (baddr b + (bsize b + bsize nb) - 2 * W) = PACK (bsize b + bsize nb) 1 /\
    forall a, baddr b <= a < baddr b + bsize b - 2 * W -> m' a = m a.
Proof.
  intros Hinv Hu Hnfree Hsize Hint Hnew. apply heap_inv_heap in Hinv.
  destruct Hinv as (Hg & Ht & Hl & Hn & Hiff).
  set (bl := l1 ++ b :: nb :: l2) in *.
  assert (Hb : In b bl) by (unfold bl; in_tac).
  assert (Hnb : In nb bl) by (unfold bl; in_tac).
  destruct (block_here W HW s m l1 (nb :: l2) b Hg Ht) as (Eh & Ef & En & _ & Hl2).
  pose proof (block_next W HW _ _ _ _ Hl2) as Enb.
  cbn [next_tag] in En.
  destruct (block_facts W HW s _ b Hg Hb)
    as (B1 & B2 & B3 & B4 & B5 & B6 & B7 & B8 & B9).
  destruct (block_facts W HW s _ nb Hg Hnb)
    as (N1 & N2 & N3 & N4 & N5 & N6 & N7 & N8 & _).
  pose proof (modulus_large W HW) as Hml.
  assert (Hlay : layout W (first_block W s) (mem_brk s) (l1 ++ [b; nb] ++ l2))
    by apply Hg.
  pose proof (used_not_listed _ _ _ _ _ Hlay Hiff Hb Hu) as Hnin.
  assert (Hnbin : In (baddr nb) fl).
  { apply Hiff. exists (bsize nb). rewrite <- Hnfree, <- (blk_eta W HW). exact Hnb. }
  pose proof (lk_nodup _ _ _ _ _ Hl) as Hnd.
  destruct (in_split _ _ Hnbin) as (f1 & f2 & Efl).
  rewrite Efl in Hl, Hn, Hnd.
  destruct (remove_step_frame s m f bl f1 f2 (baddr nb) Hg Ht Hl Hn)
    as (m1 & f' & Erm & Hl1 & Ht1 & Hn1 & Hnb1 & Hfr1).
  assert (Hnin1 : ~ In (baddr b) (f1 ++ f2)).
  { intros Hin. apply Hnin. rewrite Efl. revert Hin. in_tac. }
  set (sz := bsize b + bsize nb).
  set (bm := mkBlk (baddr b) sz true).
  set (m3 := upd (upd m1 (baddr b - W) (tag bm)) (baddr b + sz - 2 * W) (tag bm)).
  assert (Htag : tag bm = sz + 1) by reflexivity.
  assert (Hdsz : (2 * W | sz)) by (unfold sz; auto with algn).
  assert (Hpack : PACK sz 1 = tag bm).
  { rewrite Htag. apply PACK_add; [|right; reflexivity].
    destruct Hdsz as (k & ->). replace (k * (2 * W)) with (k * W * 2) by lia.
    apply Z.mod_mul. lia. }
  destruct (tags_merge W HW s m1 l1 [b; nb] l2 bm) as (Hg3 & Ht3); try assumption.
  { cbn [layout bm baddr bsize]. unfold sz. repeat split; try assumption; lia. }
  { cbn [bm bsize]. unfold sz. lia. }
  fold m3 in Ht3. cbn [bm baddr bsize] in Ht3.
  assert (Hl3 : linked W s m3 f' (f1 ++ f2)).
  { unfold m3.
    apply (linked_tag_write W HW s _ f' bl _ nb); try assumption;
      [unfold sz; lia | tauto |].
    apply (linked_tag_write W HW s _ f' bl _ b); try assumption; [lia | tauto]. }
  assert (Hn3 : nodes_in (l1 ++ [bm] ++ l2) (f1 ++ f2)).
  { apply (nodes_in_replace W HW l1 [b; nb]); [exact Hn1|].
    intros ob [<- | [<- | []]] Hin; contradiction. }
  assert (Hbm : In bm (l1 ++ [bm] ++ l2)) by in_tac.
  assert (Hnewsize : wrap W (size + wrap W (2 * WSIZE W)) = wrap W (size + 2 * W)).
  { unfold WSIZE. rewrite (wrap_small W (2 * W)) by lia. reflexivity. }
  exists m3, f', (f1 ++ f2).
  split; [|split; [|split; [|split; [|split]]]].
  - unfold mm_realloc.
    replace (to_int size <? 0) with false by (symmetry; apply Z.ltb_ge; lia).
    replace (to_int size =? 0) with false by (symmetry; apply Z.eqb_neq; lia).
    replace (size >? 0) with true
      by (symmetry; rewrite Z.gtb_ltb; apply Z.ltb_lt;
          destruct (Z.eq_dec size 0) as [-> | ?]; [discriminate Hint | lia]).
    rewrite Hnewsize. unfold bind.
    rewrite (HDRP_eq W HW) by lia.
    rewrite (GET_SIZE_heap W HW) by valid_tac. cbv beta iota.
    rewrite Eh, (tag_size W HW) by assumption.
    replace (wrap W (size + 2 * W) <=? bsize b) with false
      by (symmetry; apply Z.leb_gt; lia).
    assert (Hsz1 : size_field W (m (baddr b - W)) = bsize b).
    { rewrite Eh. apply (tag_size W HW); assumption. }
    assert (Hnext : NEXT_BLK W (baddr b) (with_heap m f s)
                    = Ok (baddr nb) (with_heap m f s)).
    { rewrite Enb. apply (NEXT_BLK_heap W HW); try assumption; try lia. valid_tac. }
    rewrite Hnext. cbv beta iota.
    rewrite (HDRP_eq W HW) by lia.
    rewrite (GET_ALLOC_heap W HW) by valid_tac. cbv beta iota.
    replace (baddr nb - W) with (baddr b + bsize b - W) by lia.
    rewrite En, (tag_alloc W HW) by assumption. rewrite Hnfree.
    change (0 =? 0) with true. cbv beta iota.
    rewrite Hnext. cbv beta iota.
    rewrite (HDRP_eq W HW) by lia.
    rewrite (GET_SIZE_heap W HW) by valid_tac. cbv beta iota.
    replace (baddr nb - W) with (baddr b + bsize b - W) by lia.
    rewrite En, (tag_size W HW) by assumption.
    rewrite (wrap_small W (bsize b + bsize nb)) by lia. fold sz.
    replace (sz >=? wrap W (size + 2 * W)) with true
      by (symmetry; rewrite Z.geb_leb; apply Z.leb_le; unfold sz; lia).
    cbn [andb]. cbv beta iota.
    rewrite Hnext. cbv beta iota.
    rewrite Erm. cbv beta iota.
    rewrite (PUT_heap W HW) by valid_tac. cbv beta iota.
    rewrite Hpack.
    rewrite (FTRP_heap W HW _ _ _ (baddr b) sz);
      [ | lia | valid_tac | | unfold sz; lia | unfold sz; lia].
    2:{ rewrite upd_same.
        apply (tag_size W HW bm); cbn [bm bsize]; [unfold sz; lia | assumption]. }
    cbv beta iota.
    rewrite (PUT_heap W HW) by (unfold sz; valid_tac). cbv beta iota.
    fold m3. reflexivity.
  - apply heap_inv_heap.
    split; [exact Hg3|]. split; [exact Ht3|]. split; [exact Hl3|].
    split; [exact Hn3|].
    destruct Hg3 as (_ & _ & _ & _ & Hlay3).
    apply (listed_except_used _ _ _ _ bm Hlay3 Hbm eq_refl).
    apply (listed_new _ _ _ _ _ _ _ Hlay3).
    + apply (listed_outside W HW _ _ l1 [b; nb] l2 fl (f1 ++ f2) [baddr nb] (baddr b) Hlay).
      * apply (listed_except_of_used _ _ _ _ _ Hlay Hb Hu Hiff).
      * intros q. rewrite Efl.
        rewrite (in_remove_nodup W HW f1 f2 (baddr nb) q Hnd).
        cbn [In]. intuition congruence.
      * intros ob [<- | [<- | []]]; cbn [In]; tauto.
      * intros q [-> | [<- | []]]; [exists b | exists nb]; cbn [In]; tauto.
    + exists bm. split; [in_tac | reflexivity].
    + intros x [<- | []]. left. reflexivity.
  - intros p. rewrite Efl. apply (in_remove_nodup W HW f1 f2 (baddr nb) p Hnd).
  - rewrite Hpack. unfold m3. rewrite upd_other by (unfold sz; lia).
    apply upd_same.
  - rewrite Hpack. unfold m3. apply upd_same.
  - intros a Ha. unfold m3. rewrite !upd_other by (unfold sz; lia).
    apply Hfr1.
    apply (block_word_not_link W HW s bl _ b a Hg Hn1 Hb); [lia | tauto].
Qed.

Lemma mm_realloc_in_place_spec (s : state) (bl : list blk) (fl : list Z)
      (b : blk) (fuel : nat) (size : Z) :
  heap_inv W s bl fl -> In b bl -> bused b = true ->
  0 <= size < modulus W ->
  realloc_in_place W s (baddr b) size = true ->
  exists r s' bl' fl',
    mm_realloc W fuel (baddr b) size s = Ok r s' /\ heap_inv W s' bl' fl' /\
    forall p, (to_int size = 0 -> p <> baddr b) -> allocated bl p -> allocated bl' p.
Proof.
  intros Hinv Hb Hu Hsize Hplace.
  destruct (Z_lt_dec (to_int size) 0) as [Hneg | Hnneg].
  { exists NULL, s, bl, fl. unfold mm_realloc.
    replace (to_int size <? 0) with true by (symmetry; apply Z.ltb_lt; lia).
    unfold ret. auto. }
  destruct (Z.eq_dec (to_int size) 0) as [Hzero | Hnz].
  { destruct (mm_free_spec s bl fl b Hinv Hb Hu) as (s' & bl' & fl' & E & Hinv' & Hkeep).
    exists NULL, s', bl', fl'. unfold mm_realloc.
    replace (to_int size <? 0) with false by (symmetry; apply Z.ltb_ge; lia).
    rewrite Hzero. change (0 =? 0) with true. cbv iota.
    unfold bind. rewrite E. unfold ret. auto. }
  assert (Hint : 0 < to_int size) by lia.
  assert (Hsp : 0 < size).
  { destruct (Z.eq_dec size 0) as [-> | ?]; [exfalso; apply Hnz; reflexivity | lia]. }
  pose proof Hinv as Hinv0. apply heap_inv_state in Hinv.
  destruct Hinv as (Hg & Ht & Hl & Hn & Hiff).
  destruct (in_split _ _ Hb) as (l1 & l2 & Ebl). subst bl.
  destruct (block_facts W HW s _ b Hg Hb)
    as (B1 & B2 & B3 & B4 & B5 & B6 & B7 & B8 & B9).
  destruct (block_here W HW s (mem s) l1 l2 b Hg Ht) as (Eh & Ef & En & _ & Hl2).
  pose proof (modulus_large W HW) as Hml.
  assert (Hsz1 : size_field W (mem s (baddr b - W)) = bsize b).
  { rewrite Eh. apply (tag_size W HW); assumption. }
  unfold realloc_in_place in Hplace. rewrite Hsz1, En in Hplace.
  replace (to_int size <=? 0) with false in Hplace by (symmetry; apply Z.leb_gt; lia).
  cbn [orb] in Hplace.
  destruct (wrap W (size + 2 * W) <=? bsize b) eqn:Hshrink.
  { exists (baddr b), s, (l1 ++ b :: l2), fl.
    split; [|split; [exact Hinv0 | auto]].
    unfold mm_realloc.
    replace (to_int size <? 0) with false by (symmetry; apply Z.ltb_ge; lia).
    replace (to_int size =? 0) with false by (symmetry; apply Z.eqb_neq; lia).
    replace (size >? 0) with true by (symmetry; rewrite Z.gtb_ltb; apply Z.ltb_lt; lia).
    unfold bind. rewrite (HDRP_eq W HW) by lia.
    rewrite GET_SIZE_state by valid_tac. rewrite Hsz1.
    unfold WSIZE. rewrite (wrap_small W (2 * W)) by lia.
    rewrite Hshrink. reflexivity. }
  cbn [orb] in Hplace. apply andb_true_iff in Hplace.
  destruct Hplace as (Hna & Hfit). apply Z.eqb_eq in Hna. apply Z.leb_le in Hfit.
  apply Z.leb_gt in Hshrink.
  destruct l2 as [|nb l2]; cbn [next_tag] in Hna, Hfit.
  { discriminate Hna. }
  assert (Hnb : In nb (l1 ++ b :: nb :: l2)) by in_tac.
  destruct (block_facts W HW s _ nb Hg Hnb)
    as (N1 & N2 & N3 & N4 & N5 & N6 & N7 & N8 & _).
  rewrite (tag_alloc W HW) in Hna by assumption.
  rewrite (tag_size W HW) in Hfit by assumption.
  assert (Hnfree : bused nb = false) by (destruct (bused nb); [discriminate Hna | reflexivity]).
  rewrite <- (with_heap_id s) in Hinv0 |- *.
  destruct (mm_realloc_absorb_heap s (mem s) (free_list_start s) l1 l2 b nb fl
              fuel size Hinv0 Hu Hnfree Hsize Hint)
    as (m' & f' & fl' & E & Hinv' & _); [lia|].
  exists (baddr b), (with_heap m' f' s),
    (l1 ++ mkBlk (baddr b) (bsize b + bsize nb) true :: l2), fl'.
  split; [exact E|]. split; [exact Hinv'|].
  intros p _ (sz & Hin).
  rewrite in_app_iff in Hin. cbn [In] in Hin.
  destruct Hin as [H | [H | [H | H]]].
  - exists sz. in_tac.
  - exists (bsize b + bsize nb).
    replace p with (baddr b) by (rewrite H; reflexivity). in_tac.
  - rewrite H in Hnfree. discriminate Hnfree.
  - exists sz. in_tac.
Qed.

(** *** More fuel does not change a result *)

Lemma find_fit_loop_mono (fuel : nat) :
  forall (fuel' : nat) (asize bp : Z) (s : state) (r : Z) (s' : state),
    (fuel <= fuel')%nat ->
    find_fit_loop W fuel asize bp s = Ok r s' ->
    find_fit_loop W fuel' asize bp s = Ok r s'.
Proof.
  induction fuel as [|fuel IH]; intros fuel' asize bp s r s' Hle E;
    [discriminate E|].
  destruct fuel' as [|fuel']; [lia|].
  cbn [find_fit_loop] in *. unfold bind in *.
  destruct (GET_ALLOC W (HDRP W bp) s) as [a s1| |]; try discriminate E.
  destruct (a =? 0); [|exact E].
  destruct (GET_SIZE W (HDRP W bp) s1) as [sz s2| |]; try discriminate E.
  destruct (asize <=? sz); [exact E|].
  destruct (GET_NEXT_PTR W bp s2) as [nx s3| |]; try discriminate E.
  apply IH; [lia | exact E].
Qed.

Lemma find_fit_mono (fuel fuel' : nat) (asize : Z) (s : state) (r : Z) (s' : state) :
  (fuel <= fuel')%nat ->
  find_fit W fuel asize s = Ok r s' -> find_fit W fuel' asize s = Ok r s'.
Proof.
  intros Hle. unfold find_fit, find_fit_walk, bind.
  destruct (get_last_malloced_size s) as [last s1| |]; try discriminate.
  destruct (get_repeat_counter s1) as [rc s2| |]; try discriminate.
  destruct (last =? to_int asize).
  - destruct (rc >? 30); [auto|].
    destruct (set_repeat_counter (to_int (rc + 1)) s2) as [u s3| |]; try discriminate.
    destruct (get_free_list_start s3) as [fls s4| |]; try discriminate.
    apply find_fit_loop_mono, Hle.
  - destruct (set_repeat_counter 0 s2) as [u s3| |]; try discriminate.
    destruct (get_free_list_start s3) as [fls s4| |]; try discriminate.
    apply find_fit_loop_mono, Hle.
Qed.

Lemma mm_malloc_mono (fuel fuel' : nat) (size : Z) (s : state) (r : Z) (s' : state) :
  (fuel <= fuel')%nat ->
  mm_malloc W fuel size s = Ok r s' -> mm_malloc W fuel' size s = Ok r s'.
Proof.
  intros Hle E. unfold mm_malloc in *.
  destruct (size =? 0); [exact E|]. unfold bind in *.
  destruct (find_fit W fuel (adjust_size W size) s) as [bp s1| |] eqn:E1;
    try discriminate E.
  rewrite (find_fit_mono _ _ _ _ _ _ Hle E1). exact E.
Qed.

End Operations.

(** ** The invariant in the states between public operations (C7) *)

Section Invariant.

Variable W : Z.
Hypothesis HW : W = 4 \/ W = 8.
#[local] Set Default Proof Using "HW".

Lemma allocated_block (bl : list blk) (p : Z) :
  allocated bl p -> exists b, In b bl /\ bused b = true /\ baddr b = p.
Proof. intros (sz & Hin). exists (mkBlk p sz true). auto. Qed.


End Invariant.

(** ** mm_realloc absorbing the next block (C5) *)

Section Absorb.

Variable W : Z.
Hypothesis HW : W = 4 \/ W = 8.
#[local] Set Default Proof Using "HW".

Lemma positive_int_size (size : Z) :
  0 <= size < modulus W -> 0 < to_int size -> size + 2 * W < modulus W.
Proof.
  intros Hsize Hint. unfold to_int in Hint.
  change (2 ^ 32) with 4294967296 in Hint. change (2 ^ 31) with 2147483648 in Hint.
  destruct HW; subst W; [rewrite modulus_4 in * | rewrite modulus_8 in *];
    Z.div_mod_to_equations; lia.
Qed.

(** C5, amended: on a heap that satisfies the invariant, for an allocated
    block [b] followed by a free block [nb] and a size that is positive when
    read as an int, with oldsize < size + 2 * WSIZE <= oldsize + neighbor
    size, mm_realloc(bp, size) returns bp itself, takes the neighbor off the
    free list (the other nodes stay), writes PACK(oldsize + neighbor size, 1)
    into the header of bp and into the footer at the end of the neighbor, and
    leaves the old payload words as they are; the heap it leaves satisfies the
    invariant with the two blocks replaced by one allocated block. *)
Theorem mm_realloc_absorbs_next (s : state) (l1 l2 : list blk) (b nb : blk)
        (fl : list Z) (fuel : nat) (size : Z) :
  heap_inv W s (l1 ++ b :: nb :: l2) fl ->
  bused b = true -> bused nb = false ->
  0 <= size < modulus W -> 0 < to_int size ->
  bsize b < size + 2 * W <= bsize b + bsize nb ->
  exists s' fl',
    mm_realloc W fuel (baddr b) size s = Ok (baddr b) s' /\
    heap_inv W s' (l1 ++ mkBlk (baddr b) (bsize b + bsize nb) true :: l2) fl' /\
    (forall p, In p fl' <-> In p fl /\ p <> baddr nb) /\
    mem s' (baddr b - W) = PACK (bsize b + bsize nb) 1 /\
    mem s' (baddr b + (bsize b + bsize nb) - 2 * W) = PACK (bsize b + bsize nb) 1 /\
    forall a, baddr b <= a < baddr b + bsize b - 2 * W -> mem s' a = mem s a.
Proof.
  intros Hinv Hu Hnfree Hsize Hint Hnew.
  pose proof (positive_int_size size Hsize Hint) as Hlt.
  pose proof (W_pos W HW) as HWp.
  rewrite <- (with_heap_id s) in Hinv |- *.
  destruct (mm_realloc_absorb_heap W HW s (mem s) (free_list_start s) l1 l2 b nb fl
              fuel size Hinv Hu Hnfree Hsize Hint)
    as (m' & f' & fl' & E & Hinv' & Hfl & Hh & Hf & Hpay).
  { rewrite wrap_small by lia. exact Hnew. }
  exists (with_heap m' f' s), fl'. cbn [with_heap mem]. auto 10.
Qed.

End Absorb.

(** The heap of the fourth scenario before its mm_realloc: the allocated
    block of [a] (48 bytes) and one free block up to the break. *)
Lemma grow_in_place_64_heap :
  heap_inv 8 grow_in_place_64 [mkBlk 4160 48 true; mkBlk 4208 4080 false] [4208].
Proof.
  split.
  - constructor.
    + reflexivity.
    + exists 256. reflexivity.
    + vm_compute. congruence.
    + reflexivity.
    + vm_compute.
      repeat split; try congruence; try (exists 3; reflexivity);
        try (exists 255; reflexivity).
    + intros b [<- | [<- | []]]; split; reflexivity.
    + reflexivity.
    + reflexivity.
    + reflexivity.
    + vm_compute. auto.
    + repeat constructor. intros [].
    + intros p [<- | []]. eexists. split; [right; left; reflexivity | reflexivity].
  - intros p. split.
    + intros [<- | []]. exists 4080. right. left. reflexivity.
    + intros (sz & [H | [H | []]]);
        [discriminate H | injection H as <- _; left; reflexivity].
Qed.

Lemma mm_realloc_absorbs_next_witness :
  exists s' fl',
    mm_realloc 8 8 4160 48 grow_in_place_64 = Ok 4160 s' /\
    heap_inv 8 s' [mkBlk 4160 4128 true] fl' /\
    (forall p, In p fl' <-> In p [4208] /\ p <> 4208) /\
    mem s' (4160 - 8) = PACK 4128 1 /\
    mem s' (4160 + 4128 - 2 * 8) = PACK 4128 1 /\
    forall a, 4160 <= a < 4160 + 48 - 2 * 8 -> mem s' a = mem grow_in_place_64 a.
Proof.
  apply (mm_realloc_absorbs_next 8 (or_intror eq_refl) grow_in_place_64 []
           [] (mkBlk 4160 48 true) (mkBlk 4208 4080 false) [4208] 8 48).
  - exact grow_in_place_64_heap.
  - reflexivity.
  - reflexivity.
  - vm_compute. split; congruence.
  - reflexivity.
  - vm_compute. split; congruence.
Defined.


(** * The heap each operation leaves *)

(** ** Lists of blocks without two free blocks in a row *)

Lemma no_free_pair_tail (x : blk) (l : list blk) :
  no_free_pair (x :: l) -> no_free_pair l.
Proof. cbn [no_free_pair]. tauto. Qed.

Lemma no_free_pair_app_inv (l1 l2 : list blk) :
  no_free_pair (l1 ++ l2) -> no_free_pair l1 /\ no_free_pair l2.
Proof.
  induction l1 as [|x l1 IH]; cbn [app]; intros H.
  - split; [exact I | exact H].
  - destruct (IH (no_free_pair_tail _ _ H)) as (H1 & H2).
    split; [|exact H2].
    cbn [no_free_pair] in *. split; [|exact H1].
    destruct l1 as [|y l1]; [exact I|]. cbn [app] in H. tauto.
Qed.

Lemma ends_used_nil : ends_used [].
Proof. intros r x E. destruct r; discriminate E. Qed.

Lemma starts_used_nil : starts_used [].
Proof. intros x r E. discriminate E. Qed.

Lemma ends_used_snoc (l : list blk) (x : blk) :
  bused x = true -> ends_used (l ++ [x]).
Proof.
  intros Hx r y E. apply app_inj_tail in E. destruct E as (_ & <-). exact Hx.
Qed.

Lemma starts_used_cons (x : blk) (l : list blk) :
  bused x = true -> starts_used (x :: l).
Proof. intros Hx y r E. injection E as <- _. exact Hx. Qed.

Lemma ends_used_cons (x y : blk) (l : list blk) :
  ends_used (x :: y :: l) <-> ends_used (y :: l).
Proof.
  split; intros H r z E.
  - apply (H (x :: r) z). rewrite E. reflexivity.
  - destruct r as [|x' r]; [discriminate E|].
    injection E as _ E. apply (H r z E).
Qed.

(** Two lists without free pairs give one when a block at the seam is
    allocated. *)
Lemma no_free_pair_app (l1 l2 : list blk) :
  no_free_pair l1 -> no_free_pair l2 -> ends_used l1 \/ starts_used l2 ->
  no_free_pair (l1 ++ l2).
Proof.
  induction l1 as [|x l1 IH]; cbn [app]; intros H1 H2 Hs; [exact H2|].
  destruct l1 as [|y l1].
  - cbn [app]. destruct l2 as [|z l2]; [exact H1|].
    cbn [no_free_pair]. split; [|exact H2].
    destruct Hs as [Hs | Hs].
    + left. apply (Hs [] x). reflexivity.
    + right. apply (Hs z l2). reflexivity.
  - cbn [no_free_pair app] in *. split; [tauto|].
    apply IH; [tauto | exact H2 |].
    destruct Hs as [Hs | Hs]; [left | right; exact Hs].
    apply ends_used_cons in Hs. exact Hs.
Qed.

(** Around a free block of such a list the blocks are allocated. *)
Lemma no_free_pair_around (l1 l2 : list blk) (b : blk) :
  no_free_pair (l1 ++ b :: l2) -> bused b = false ->
  ends_used l1 /\ starts_used l2 /\ no_free_pair l1 /\ no_free_pair l2.
Proof.
  intros H Hb.
  destruct (no_free_pair_app_inv _ _ H) as (H1 & H2).
  split; [|split; [|split; [exact H1 | exact (no_free_pair_tail _ _ H2)]]].
  - intros r x E. subst l1. rewrite <- app_assoc in H. cbn [app] in H.
    destruct (no_free_pair_app_inv _ _ H) as (_ & H3).
    cbn [no_free_pair] in H3. destruct H3 as ([H3 | H3] & _); congruence.
  - intros x r E. subst l2. cbn [no_free_pair] in H2.
    destruct H2 as ([H3 | H3] & _); congruence.
Qed.

Lemma no_free_pair_one (l1 l2 : list blk) (x : blk) :
  no_free_pair l1 -> no_free_pair l2 ->
  bused x = true \/ (ends_used l1 /\ starts_used l2) ->
  no_free_pair (l1 ++ x :: l2).
Proof.
  intros H1 H2 Hx.
  change (x :: l2) with ([x] ++ l2). rewrite app_assoc.
  apply no_free_pair_app; [|exact H2|].
  - apply no_free_pair_app; [exact H1 | cbn; auto |].
    destruct Hx as [Hx | (Hx & _)]; [right; apply starts_used_cons, Hx | left; exact Hx].
  - destruct Hx as [Hx | (_ & Hx)]; [left; apply ends_used_snoc, Hx | right; exact Hx].
Qed.

(** ** What coalesce leaves behind *)

Section Merging.

Variable W : Z.
Hypothesis HW : W = 4 \/ W = 8.
#[local] Set Default Proof Using "HW".

Ltac in_tac := cbn [In]; rewrite ?in_app_iff; cbn [In]; tauto.
Ltac valid_tac := apply (valid_intro W HW); [lia | lia | auto 10 with algn].

(** The link words of free blocks are words of free blocks. *)
Lemma link_cell_free_word (s : state) (bl : list blk) (fl : list Z) (a : Z) :
  geom W s bl ->
  (forall q, In q fl -> exists x, In x bl /\ bused x = false /\ baddr x = q) ->
  link_cell W s fl a -> free_word W s bl a.
Proof.
  intros Hg Hfl [Hs | (q & Hq & Ha)]; [left; exact Hs | right].
  destruct (Hfl q Hq) as (x & Hx & Hfree & <-).
  exists x. split; [exact Hx|]. split; [exact Hfree|].
  destruct (block_facts W HW s _ x Hg Hx) as (_ & _ & _ & ? & _ & _ & _ & _ & ?).
  lia.
Qed.

(** No word of an allocated block, header and footer included, is one. *)
Lemma used_not_free_word (s : state) (bl : list blk) (x : blk) (a : Z) :
  geom W s bl -> In x bl -> bused x = true ->
  baddr x - W <= a < baddr x + bsize x - W ->
  ~ free_word W s bl a.
Proof.
  intros Hg Hx Hu Ha [Hs | (y & Hy & Hfree & Hr)].
  - destruct (block_facts W HW s _ x Hg Hx) as (? & _ & _ & _ & ? & _ & _ & _ & ?).
    unfold sentinel in Hs. lia.
  - destruct (block_facts W HW s _ x Hg Hx) as (_ & _ & _ & ? & _ & _ & _ & _ & ?).
    destruct (block_facts W HW s _ y Hg Hy) as (_ & _ & _ & ? & _).
    destruct Hg as (_ & _ & _ & _ & Hlay).
    destruct (layout_sep W HW _ _ _ _ _ Hlay Hx Hy) as [E | [E | E]]; [|lia|lia].
    rewrite E in Hu. congruence.
Qed.

Lemma free_word_incl (s : state) (bl bl' : list blk) (a : Z) :
  (forall x, In x bl -> bused x = false ->
     exists y, In y bl' /\ bused y = false /\
               baddr y <= baddr x /\ baddr x + bsize x <= baddr y + bsize y) ->
  free_word W s bl a -> free_word W s bl' a.
Proof.
  intros Hi [Hs | (x & Hx & Hfree & Hr)]; [left; exact Hs | right].
  destruct (Hi x Hx Hfree) as (y & Hy & Hyf & H1 & H2).
  exists y. split; [exact Hy|]. split; [exact Hyf | lia].
Qed.

Lemma insert_step_frame (s : state) (m : Z -> Z) (f : Z) (bl : list blk)
      (fl : list Z) (b : blk) :
  geom W s bl -> tags_ok W s m bl ->
  linked W s m f fl -> nodes_in bl fl ->
  In b bl -> ~ In (baddr b) fl ->
  exists m1,
    insert_in_free_list W (baddr b) (with_heap m f s)
    = Ok tt (with_heap m1 (baddr b) s) /\
    shape W (with_heap m1 (baddr b) s) bl (baddr b :: fl) /\
    forall a, ~ link_cell W s (baddr b :: fl) a -> m1 a = m a.
Proof.
  intros Hg Ht Hl Hn Hb Hnin.
  destruct (geom_brk W HW _ _ Hg) as (Hlo & _ & Hbrk & _).
  assert (Hn' : nodes_in bl (baddr b :: fl)).
  { intros q [<- | Hq]; [eauto | apply Hn; exact Hq]. }
  destruct (nodes_facts W HW s bl _ Hg Hn') as (Hsp & _ & Hv).
  destruct (Hv (baddr b) (or_introl eq_refl)) as (Hv1 & Hv2 & Hv3).
  destruct (linked_insert W HW s m f fl (baddr b) Hlo Hbrk Hl Hv1 Hv2 Hv3 Hnin)
    as (m1 & E & Hl1 & Hfr).
  { intros q Hq.
    destruct (Hsp (baddr b) q (or_introl eq_refl) (or_intror Hq)) as [E | E];
      [|exact E].
    exfalso. apply Hnin. rewrite E. exact Hq. }
  exists m1. split; [exact E|]. split; [|exact Hfr].
  apply (shape_heap W HW). split; [exact Hg|]. split.
  - eapply (tags_ok_frame W HW); eassumption.
  - split; [apply (lk_chain _ _ _ _ _ Hl1)|].
    split; [apply (lk_nodup _ _ _ _ _ Hl1) | exact Hn'].
Qed.

Lemma used_blocks_replace (l1 old new l2 : list blk) :
  used_blocks old = used_blocks new ->
  used_blocks (l1 ++ old ++ l2) = used_blocks (l1 ++ new ++ l2).
Proof. intros E. unfold used_blocks in *. rewrite !filter_app, E. reflexivity. Qed.

Lemma used_blocks_free (l : list blk) :
  (forall x, In x l -> bused x = false) -> used_blocks l = [].
Proof.
  induction l as [|x l IH]; intros H; [reflexivity|].
  unfold used_blocks in *. cbn [filter].
  rewrite (H x (or_introl eq_refl)). apply IH.
  intros y Hy. apply H. right. exact Hy.
Qed.

(** The last steps of coalesce: the free blocks [old] have left the list,
    the tags of the block [bm] that covers them are written, and [bm] is put
    at the head of the list. *)
Lemma merge_finish (s : state) (m m2 : Z -> Z) (f2 : Z) (fl0 : list Z)
      (l1 old l2 : list blk) (bm : blk) :
  geom W s (l1 ++ old ++ l2) -> tags_ok W s m2 (l1 ++ old ++ l2) ->
  linked W s m2 f2 fl0 -> nodes_in (l1 ++ old ++ l2) fl0 ->
  (forall p, In p fl0 <-> exists sz, In (mkBlk p sz false) (l1 ++ l2)) ->
  (forall a, ~ free_word W s (l1 ++ old ++ l2) a -> m2 a = m a) ->
  old <> [] -> (forall x, In x old -> bused x = false) ->
  layout W (baddr bm) (baddr bm + bsize bm) old ->
  bused bm = false -> 4 * W <= bsize bm -> (2 * W | bsize bm) ->
  exists m4,
    insert_in_free_list W (baddr bm)
      (with_heap (upd (upd m2 (baddr bm - W) (tag bm))
                      (baddr bm + bsize bm - 2 * W) (tag bm)) f2 s)
    = Ok tt (with_heap m4 (baddr bm) s) /\
    heap_inv W (with_heap m4 (baddr bm) s) (l1 ++ [bm] ++ l2) (baddr bm :: fl0) /\
    used_blocks (l1 ++ [bm] ++ l2) = used_blocks (l1 ++ old ++ l2) /\
    forall a, ~ free_word W s (l1 ++ old ++ l2) a -> m4 a = m a.
Proof.
  intros Hg Ht2 Hl2 Hn2 Hiff0 Hfr2 Hne Hfree Hlayo Hbmf Hsz Hd.
  pose proof (W_pos W HW) as HWp.
  assert (Hlay : layout W (first_block W s) (mem_brk s) (l1 ++ old ++ l2))
    by apply Hg.
  (* the first and the last block of [old] *)
  destruct old as [|x1 oldr]; [contradiction|].
  assert (Ex1 : baddr x1 = baddr bm) by apply (block_next W HW _ _ _ _ Hlayo).
  set (old := x1 :: oldr) in *.
  assert (Hx1 : In x1 old) by (left; reflexivity).
  destruct (exists_last Hne) as (oldi & xl & Elast).
  assert (Hxl : In xl old) by (rewrite Elast; in_tac).
  assert (Exl : baddr xl + bsize xl = baddr bm + bsize bm).
  { rewrite Elast in Hlayo. apply (layout_last W HW _ _ _ _ Hlayo). }
  set (bl := l1 ++ old ++ l2) in *.
  assert (Hin_old : forall x, In x old -> In x bl).
  { intros x Hx. unfold bl. apply in_or_app. right. apply in_or_app. left. exact Hx. }
  assert (Hout : forall x, In x old -> ~ In (baddr x) fl0).
  { intros x Hx Hin. apply Hiff0 in Hin. destruct Hin as (sz & Hin).
    apply (layout_parts_disjoint W HW _ _ _ _ _ (mkBlk (baddr x) sz false) x Hlay Hin Hx).
    reflexivity. }
  destruct (block_facts W HW s _ x1 Hg (Hin_old _ Hx1))
    as (A1 & A2 & A3 & A4 & A5 & A6 & A7 & A8 & _).
  destruct (block_facts W HW s _ xl Hg (Hin_old _ Hxl))
    as (Z1 & Z2 & Z3 & Z4 & Z5 & Z6 & Z7 & Z8 & _).
  set (m3 := upd (upd m2 (baddr bm - W) (tag bm))
                 (baddr bm + bsize bm - 2 * W) (tag bm)).
  destruct (tags_merge W HW s m2 l1 old l2 bm Hg Ht2 Hlayo Hsz Hd) as (Hg3 & Ht3).
  fold m3 in Ht3.
  assert (Hl3 : linked W s m3 f2 fl0).
  { unfold m3.
    apply (linked_tag_write W HW s _ f2 bl _ xl); try assumption;
      [apply Hin_old, Hxl | lia | intros Hin; destruct (Hout _ Hxl Hin) |].
    apply (linked_tag_write W HW s _ f2 bl _ x1); try assumption;
      [apply Hin_old, Hx1 | lia | intros Hin; destruct (Hout _ Hx1 Hin)]. }
  assert (Hn3 : nodes_in (l1 ++ [bm] ++ l2) fl0).
  { apply (nodes_in_replace W HW l1 old); [exact Hn2|].
    intros ob Hob Hin. destruct (Hout _ Hob Hin). }
  assert (Hbm : In bm (l1 ++ [bm] ++ l2)) by in_tac.
  assert (Hnin : ~ In (baddr bm) fl0).
  { rewrite <- Ex1. apply Hout, Hx1. }
  destruct (insert_step_frame s m3 f2 _ fl0 bm Hg3 Ht3 Hl3 Hn3 Hbm Hnin)
    as (m4 & Eins & Hsh & Hfr4).
  exists m4. split; [exact Eins|]. split; [|split].
  - split; [exact Hsh|]. apply (listed_merged W HW); assumption.
  - apply used_blocks_replace.
    rewrite (used_blocks_free old Hfree).
    unfold used_blocks. cbn [filter]. rewrite Hbmf. reflexivity.
  - intros a Ha. rewrite Hfr4.
    + unfold m3. rewrite !upd_other; [apply Hfr2, Ha | |].
      * intros ->. apply Ha. right. exists x1.
        split; [apply Hin_old, Hx1|]. split; [apply Hfree, Hx1 | lia].
      * intros ->. apply Ha. right. exists xl.
        split; [apply Hin_old, Hxl|]. split; [apply Hfree, Hxl | lia].
    + intros Hc. apply Ha. revert Hc.
      apply (link_cell_free_word s bl _ a Hg).
      intros q [<- | Hq].
      * exists x1. split; [apply Hin_old, Hx1|]. split; [apply Hfree, Hx1 | exact Ex1].
      * apply Hiff0 in Hq. destruct Hq as (sz & Hin).
        exists (mkBlk q sz false). split; [|split; reflexivity].
        unfold bl. revert Hin. in_tac.
Qed.

Lemma merge_case_none (s : state) (m : Z -> Z) (f : Z)
      (l1 l2 : list blk) (b : blk) (fl : list Z) :
  geom W s (l1 ++ b :: l2) -> tags_ok W s m (l1 ++ b :: l2) ->
  linked W s m f fl -> nodes_in (l1 ++ b :: l2) fl ->
  listed_except (l1 ++ b :: l2) fl (baddr b) ->
  bused b = false ->
  merged_into W s m fl (l1 ++ b :: l2) (l1 ++ b :: l2) b
    (coalesce_rest W (baddr b) 1 1 (bsize b) (with_heap m f s)).
Proof.
  intros Hg Ht Hl Hn Hiff Hfree.
  assert (Hb : In b (l1 ++ b :: l2)) by in_tac.
  assert (Hnin : ~ In (baddr b) fl).
  { intros Hin. apply Hiff in Hin. tauto. }
  destruct (insert_step_frame s m f _ fl b Hg Ht Hl Hn Hb Hnin)
    as (m1 & E & Hsh & Hfr).
  exists m1, fl.
  split.
  { unfold coalesce_rest. change (1 =? 0) with false. cbn [negb andb].
    unfold bind, ret. rewrite E. reflexivity. }
  split; [|split; [auto | split; [reflexivity|]]].
  - split; [exact Hsh|].
    intros p. cbn [In]. split.
    + intros [<- | Hp]; [|apply Hiff in Hp; tauto].
      exists (bsize b). rewrite <- Hfree, <- (blk_eta W HW). exact Hb.
    + intros H. destruct (Z.eq_dec (baddr b) p); [left; assumption|].
      right. apply Hiff. split; [exact H | congruence].
  - intros a Ha. apply Hfr. intros Hc. apply Ha. revert Hc.
    apply (link_cell_free_word s _ _ a Hg).
    intros q [<- | Hq]; [exists b; auto|].
    apply Hiff in Hq. destruct Hq as ((sz & Hin) & _).
    exists (mkBlk q sz false). auto.
Qed.

(** The list without the neighbours of [b] that coalesce takes off it, and
    the memory that removing them leaves. *)
Lemma removal_frame (s : state) (bl : list blk) (fl fl0 : list Z)
      (m m1 : Z -> Z) :
  geom W s bl ->
  (forall p, In p fl -> exists sz, In (mkBlk p sz false) bl) ->
  (forall p, In p fl0 -> In p fl) ->
  (forall a, ~ link_cell W s fl0 a -> m1 a = m a) ->
  forall a, ~ free_word W s bl a -> m1 a = m a.
Proof.
  intros Hg Hfl Hsub Hfr a Ha. apply Hfr. intros Hc. apply Ha. revert Hc.
  apply (link_cell_free_word s _ _ a Hg).
  intros q Hq. destruct (Hfl q (Hsub q Hq)) as (sz & Hin).
  exists (mkBlk q sz false). auto.
Qed.

Lemma merge_case_next (s : state) (m : Z -> Z) (f : Z)
      (l1 l2 : list blk) (b nb : blk) (fl : list Z) :
  geom W s (l1 ++ b :: nb :: l2) -> tags_ok W s m (l1 ++ b :: nb :: l2) ->
  linked W s m f fl -> nodes_in (l1 ++ b :: nb :: l2) fl ->
  listed_except (l1 ++ b :: nb :: l2) fl (baddr b) ->
  bused b = false -> bused nb = false ->
  merged_into W s m fl (l1 ++ b :: nb :: l2)
    (l1 ++ mkBlk (baddr b) (bsize b + bsize nb) false :: l2)
    (mkBlk (baddr b) (bsize b + bsize nb) false)
    (coalesce_rest W (baddr b) 0 1 (bsize b) (with_heap m f s)).
Proof.
  intros Hg Ht Hl Hn Hiff Hfree Hnfree.
  set (bl := l1 ++ b :: nb :: l2) in *.
  assert (Hb : In b bl) by (unfold bl; in_tac).
  assert (Hnb : In nb bl) by (unfold bl; in_tac).
  destruct (block_here W HW s m l1 (nb :: l2) b Hg Ht) as (Eh & Ef & En & _ & Hl2).
  pose proof (block_next W HW _ _ _ _ Hl2) as Enb.
  cbn [next_tag] in En.
  destruct (block_facts W HW s _ b Hg Hb)
    as (B1 & B2 & B3 & B4 & B5 & B6 & B7 & B8 & B9).
  destruct (block_facts W HW s _ nb Hg Hnb)
    as (N1 & N2 & N3 & N4 & N5 & N6 & N7 & N8 & _).
  assert (Hne : baddr nb <> baddr b) by lia.
  assert (Hnbin : In (baddr nb) fl).
  { apply Hiff. split; [|exact Hne].
    exists (bsize nb). rewrite <- Hnfree, <- (blk_eta W HW). exact Hnb. }
  pose proof (lk_nodup _ _ _ _ _ Hl) as Hnd.
  destruct (in_split _ _ Hnbin) as (f1 & f2 & Efl).
  rewrite Efl in Hl, Hn, Hnd.
  destruct (remove_step_frame W HW s m f bl f1 f2 (baddr nb) Hg Ht Hl Hn)
    as (m1 & f' & Erm & Hl1 & Ht1 & Hn1 & Hnb1 & Hfr1).
  set (sz := bsize b + bsize nb).
  set (bm := mkBlk (baddr b) sz false).
  assert (Htag : tag bm = sz) by (unfold tag, bm; cbn [bsize bused]; lia).
  assert (Hdsz : (2 * W | sz)) by (unfold sz; auto with algn).
  assert (Hlay : layout W (first_block W s) (mem_brk s) (l1 ++ [b; nb] ++ l2))
    by apply Hg.
  assert (Hsub : forall p, In p (f1 ++ f2) -> In p fl).
  { intros p Hp. rewrite Efl. revert Hp. in_tac. }
  destruct (merge_finish s m m1 f' (f1 ++ f2) l1 [b; nb] l2 bm Hg Ht1 Hl1 Hn1)
    as (m4 & Eins & Hinv & Hused & Hfr4).
  { apply (listed_outside W HW _ _ l1 [b; nb] l2 fl (f1 ++ f2) [baddr nb] (baddr b)
             Hlay Hiff).
    - intros q. rewrite Efl.
      rewrite (in_remove_nodup W HW f1 f2 (baddr nb) q Hnd).
      cbn [In]. intuition congruence.
    - intros ob [<- | [<- | []]]; cbn [In]; tauto.
    - intros q [-> | [<- | []]]; [exists b | exists nb]; cbn [In]; tauto. }
  { apply (removal_frame s bl fl (f1 ++ f2) m m1 Hg); try assumption.
    intros p Hp. apply Hiff in Hp. tauto. }
  { discriminate. }
  { intros x [<- | [<- | []]]; assumption. }
  { cbn [layout bm baddr bsize]. unfold sz. repeat split; try assumption; lia. }
  { reflexivity. }
  { cbn [bm bsize]. unfold sz. lia. }
  { exact Hdsz. }
  exists m4, (f1 ++ f2).
  split; [|split; [exact Hinv | split; [exact Hsub | split; [exact Hused | exact Hfr4]]]].
  unfold coalesce_rest. change (1 =? 0) with false. change (0 =? 0) with true.
  cbn [negb andb]. unfold bind.
  assert (Hsz1 : size_field W (m (baddr b - W)) = bsize b).
  { rewrite Eh. apply (tag_size W HW); assumption. }
  assert (Hnext : NEXT_BLK W (baddr b) (with_heap m f s)
                  = Ok (baddr nb) (with_heap m f s)).
  { rewrite Enb. apply (NEXT_BLK_heap W HW); try assumption; try lia. valid_tac. }
  rewrite Hnext. cbv beta iota.
  rewrite (HDRP_eq W HW) by lia.
  rewrite (GET_SIZE_heap W HW) by valid_tac. cbv beta iota.
  replace (baddr nb - W) with (baddr b + bsize b - W) by lia.
  rewrite En, (tag_size W HW) by assumption.
  unfold ret at 1. cbv beta iota.
  rewrite (wrap_small W (bsize b + bsize nb)) by lia.
  rewrite Hnext. cbv beta iota.
  rewrite Erm. cbv beta iota.
  rewrite (HDRP_eq W HW) by lia.
  rewrite (PUT_heap W HW) by valid_tac. cbv beta iota.
  rewrite PACK_0. fold sz. rewrite <- Htag.
  rewrite (FTRP_heap W HW _ _ _ (baddr b) sz);
    [ | lia | valid_tac | | lia | lia].
  2:{ rewrite upd_same.
      apply (tag_size W HW bm); cbn [bm bsize]; [unfold sz; lia | assumption]. }
  cbv beta iota.
  rewrite (PUT_heap W HW) by (unfold sz; valid_tac). cbv beta iota.
  cbn [baddr bsize bm] in Eins. unfold ret. rewrite Eins. reflexivity.
Qed.

Lemma merge_case_prev (s : state) (m : Z -> Z) (f : Z)
      (l1 l2 : list blk) (pb b : blk) (fl : list Z) :
  geom W s (l1 ++ pb :: b :: l2) -> tags_ok W s m (l1 ++ pb :: b :: l2) ->
  linked W s m f fl -> nodes_in (l1 ++ pb :: b :: l2) fl ->
  listed_except (l1 ++ pb :: b :: l2) fl (baddr b) ->
  bused b = false -> bused pb = false ->
  baddr pb + bsize pb = baddr b /\
  merged_into W s m fl (l1 ++ pb :: b :: l2)
    (l1 ++ mkBlk (baddr pb) (bsize b + bsize pb) false :: l2)
    (mkBlk (baddr pb) (bsize b + bsize pb) false)
    (coalesce_rest W (baddr b) 1 0 (bsize b) (with_heap m f s)).
Proof.
  intros Hg Ht Hl Hn Hiff Hfree Hpfree.
  set (bl := l1 ++ pb :: b :: l2) in *.
  assert (Ebl : bl = (l1 ++ [pb]) ++ b :: l2)
    by (unfold bl; rewrite <- app_assoc; reflexivity).
  assert (Hb : In b bl) by (unfold bl; in_tac).
  assert (Hpb : In pb bl) by (unfold bl; in_tac).
  destruct (block_prev W HW s m l1 l2 pb b) as (Eadj & Eph & Epf);
    [rewrite <- Ebl; exact Hg | rewrite <- Ebl; exact Ht |].
  split; [exact Eadj|].
  destruct (block_facts W HW s _ b Hg Hb)
    as (B1 & B2 & B3 & B4 & B5 & B6 & B7 & B8 & B9).
  destruct (block_facts W HW s _ pb Hg Hpb)
    as (P1 & P2 & P3 & P4 & P5 & P6 & P7 & P8 & _).
  assert (Hne : baddr pb <> baddr b) by lia.
  assert (Hpbin : In (baddr pb) fl).
  { apply Hiff. split; [|exact Hne].
    exists (bsize pb). rewrite <- Hpfree, <- (blk_eta W HW). exact Hpb. }
  pose proof (lk_nodup _ _ _ _ _ Hl) as Hnd.
  destruct (in_split _ _ Hpbin) as (f1 & f2 & Efl).
  rewrite Efl in Hl, Hn, Hnd.
  destruct (remove_step_frame W HW s m f bl f1 f2 (baddr pb) Hg Ht Hl Hn)
    as (m1 & f' & Erm & Hl1 & Ht1 & Hn1 & Hnb1 & Hfr1).
  set (sz := bsize b + bsize pb).
  set (bm := mkBlk (baddr pb) sz false).
  assert (Htag : tag bm = sz) by (unfold tag, bm; cbn [bsize bused]; lia).
  assert (Hdsz : (2 * W | sz)) by (unfold sz; auto with algn).
  assert (Hlay : layout W (first_block W s) (mem_brk s) (l1 ++ [pb; b] ++ l2))
    by apply Hg.
  assert (Hsub : forall p, In p (f1 ++ f2) -> In p fl).
  { intros p Hp. rewrite Efl. revert Hp. in_tac. }
  destruct (merge_finish s m m1 f' (f1 ++ f2) l1 [pb; b] l2 bm Hg Ht1 Hl1 Hn1)
    as (m4 & Eins & Hinv & Hused & Hfr4).
  { apply (listed_outside W HW _ _ l1 [pb; b] l2 fl (f1 ++ f2) [baddr pb] (baddr b)
             Hlay Hiff).
    - intros q. rewrite Efl.
      rewrite (in_remove_nodup W HW f1 f2 (baddr pb) q Hnd).
      cbn [In]. intuition congruence.
    - intros ob [<- | [<- | []]]; cbn [In]; tauto.
    - intros q [-> | [<- | []]]; [exists b | exists pb]; cbn [In]; tauto. }
  { apply (removal_frame s bl fl (f1 ++ f2) m m1 Hg); try assumption.
    intros p Hp. apply Hiff in Hp. tauto. }
  { discriminate. }
  { intros x [<- | [<- | []]]; assumption. }
  { cbn [layout bm baddr bsize]. unfold sz. repeat split; try assumption; lia. }
  { reflexivity. }
  { cbn [bm bsize]. unfold sz. lia. }
  { exact Hdsz. }
  exists m4, (f1 ++ f2).
  split; [|split; [exact Hinv | split; [exact Hsub | split; [exact Hused | exact Hfr4]]]].
  unfold coalesce_rest. change (1 =? 0) with false. change (0 =? 0) with true.
  cbn [negb andb]. unfold bind.
  assert (Hprev : PREV_BLK W (baddr b) (with_heap m f s)
                  = Ok (baddr pb) (with_heap m f s)).
  { replace (baddr pb) with (baddr b - bsize pb) by lia.
    apply (PREV_BLK_heap W HW); try lia; [valid_tac|].
    rewrite Epf. apply (tag_size W HW); assumption. }
  rewrite Hprev. cbv beta iota.
  rewrite (HDRP_eq W HW) by lia.
  rewrite (GET_SIZE_heap W HW) by valid_tac. cbv beta iota.
  rewrite Eph, (tag_size W HW) by assumption.
  unfold ret at 1. cbv beta iota.
  rewrite (wrap_small W (bsize b + bsize pb)) by lia.
  rewrite Hprev. cbv beta iota.
  rewrite Erm. cbv beta iota.
  rewrite (HDRP_eq W HW) by lia.
  rewrite (PUT_heap W HW) by valid_tac. cbv beta iota.
  rewrite PACK_0. fold sz. rewrite <- Htag.
  rewrite (FTRP_heap W HW _ _ _ (baddr pb) sz);
    [ | lia | valid_tac | | unfold sz; lia | unfold sz; lia].
  2:{ rewrite upd_same.
      apply (tag_size W HW bm); cbn [bm bsize]; [unfold sz; lia | assumption]. }
  cbv beta iota.
  rewrite (PUT_heap W HW) by (unfold sz; valid_tac). cbv beta iota.
  cbn [baddr bsize bm] in Eins. unfold ret. rewrite Eins. reflexivity.
Qed.

Lemma merge_case_both (s : state) (m : Z -> Z) (f : Z)
      (l1 l2 : list blk) (pb b nb : blk) (fl : list Z) :
  geom W s (l1 ++ pb :: b :: nb :: l2) ->
  tags_ok W s m (l1 ++ pb :: b :: nb :: l2) ->
  linked W s m f fl -> nodes_in (l1 ++ pb :: b :: nb :: l2) fl ->
  listed_except (l1 ++ pb :: b :: nb :: l2) fl (baddr b) ->
  bused b = false -> bused pb = false -> bused nb = false ->
  baddr pb + bsize pb = baddr b /\
  merged_into W s m fl (l1 ++ pb :: b :: nb :: l2)
    (l1 ++ mkBlk (baddr pb) (bsize b + (bsize pb + bsize nb)) false :: l2)
    (mkBlk (baddr pb) (bsize b + (bsize pb + bsize nb)) false)
    (coalesce_rest W (baddr b) 0 0 (bsize b) (with_heap m f s)).
Proof.
  intros Hg Ht Hl Hn Hiff Hfree Hpfree Hnfree.
  set (bl := l1 ++ pb :: b :: nb :: l2) in *.
  assert (Ebl : bl = (l1 ++ [pb]) ++ b :: nb :: l2)
    by (unfold bl; rewrite <- app_assoc; reflexivity).
  assert (Hb : In b bl) by (unfold bl; in_tac).
  assert (Hpb : In pb bl) by (unfold bl; in_tac).
  assert (Hnb : In nb bl) by (unfold bl; in_tac).
  destruct (block_facts W HW s _ b Hg Hb)
    as (B1 & B2 & B3 & B4 & B5 & B6 & B7 & B8 & B9).
  destruct (block_facts W HW s _ pb Hg Hpb)
    as (P1 & P2 & P3 & P4 & P5 & P6 & P7 & P8 & _).
  destruct (block_facts W HW s _ nb Hg Hnb)
    as (N1 & N2 & N3 & N4 & N5 & N6 & N7 & N8 & _).
  assert (Hreads : forall m', tags_ok W s m' bl ->
            baddr pb + bsize pb = baddr b /\ baddr nb = baddr b + bsize b /\
            m' (baddr pb - W) = tag pb /\ m' (baddr b - 2 * W) = tag pb /\
            m' (baddr b - W) = tag b /\ m' (baddr nb - W) = tag nb).
  { intros m' Ht'.
    destruct (block_prev W HW s m' l1 (nb :: l2) pb b) as (Eadj & Eph & Epf);
      [rewrite <- Ebl; exact Hg | rewrite <- Ebl; exact Ht' |].
    destruct (block_here W HW s m' (l1 ++ [pb]) (nb :: l2) b)
      as (Eh & Ef & En & _ & Hl2);
      [rewrite <- Ebl; exact Hg | rewrite <- Ebl; exact Ht' |].
    pose proof (block_next W HW _ _ _ _ Hl2) as Enb. cbn [next_tag] in En.
    rewrite Enb. auto 10. }
  destruct (Hreads m Ht) as (Eadj & Enb & Eph & Epf & Eh & En).
  split; [exact Eadj|].
  assert (Hprev : forall m' f', tags_ok W s m' bl ->
            PREV_BLK W (baddr b) (with_heap m' f' s)
            = Ok (baddr pb) (with_heap m' f' s)).
  { intros m' f0 Ht'. destruct (Hreads m' Ht') as (_ & _ & _ & E & _).
    replace (baddr pb) with (baddr b - bsize pb) by lia.
    apply (PREV_BLK_heap W HW); try lia; [valid_tac|].
    rewrite E. apply (tag_size W HW); assumption. }
  assert (Hnext : forall m' f', tags_ok W s m' bl ->
            NEXT_BLK W (baddr b) (with_heap m' f' s)
            = Ok (baddr nb) (with_heap m' f' s)).
  { intros m' f0 Ht'. destruct (Hreads m' Ht') as (_ & _ & _ & _ & E & _).
    rewrite Enb.
    apply (NEXT_BLK_heap W HW); try lia; [valid_tac|].
    rewrite E. apply (tag_size W HW); assumption. }
  assert (Hpbin : In (baddr pb) fl).
  { apply Hiff. split; [|lia].
    exists (bsize pb). rewrite <- Hpfree, <- (blk_eta W HW). exact Hpb. }
  assert (Hnbin : In (baddr nb) fl).
  { apply Hiff. split; [|lia].
    exists (bsize nb). rewrite <- Hnfree, <- (blk_eta W HW). exact Hnb. }
  pose proof (lk_nodup _ _ _ _ _ Hl) as Hnd.
  destruct (in_split _ _ Hpbin) as (f1 & f2 & Efl).
  rewrite Efl in Hl, Hn, Hnd.
  destruct (remove_step_frame W HW s m f bl f1 f2 (baddr pb) Hg Ht Hl Hn)
    as (m1 & f' & Erm1 & Hl1 & Ht1 & Hn1 & Hnb1 & Hfr1).
  assert (Hnbin1 : In (baddr nb) (f1 ++ f2)).
  { apply (in_remove_nodup W HW f1 f2 (baddr pb) _ Hnd). split; [|lia].
    rewrite <- Efl. exact Hnbin. }
  pose proof (lk_nodup _ _ _ _ _ Hl1) as Hnd1.
  destruct (in_split _ _ Hnbin1) as (g1 & g2 & Egl).
  rewrite Egl in Hl1, Hn1, Hnd1.
  destruct (remove_step_frame W HW s m1 f' bl g1 g2 (baddr nb) Hg Ht1 Hl1 Hn1)
    as (m2 & f'' & Erm2 & Hl2 & Ht2 & Hn2 & Hnb2 & Hfr2).
  assert (Hfl0 : forall q, In q (g1 ++ g2) <->
                           In q fl /\ ~ In q [baddr pb; baddr nb]).
  { intros q.
    rewrite (in_remove_nodup W HW g1 g2 (baddr nb) q Hnd1), <- Egl.
    rewrite (in_remove_nodup W HW f1 f2 (baddr pb) q Hnd), <- Efl.
    cbn [In]. intuition congruence. }
  set (sz := bsize b + (bsize pb + bsize nb)).
  set (bm := mkBlk (baddr pb) sz false).
  assert (Htag : tag bm = sz) by (unfold tag, bm; cbn [bsize bused]; lia).
  assert (Hdsz : (2 * W | sz)) by (unfold sz; auto with algn).
  assert (Hlay : layout W (first_block W s) (mem_brk s) (l1 ++ [pb; b; nb] ++ l2))
    by apply Hg.
  assert (Hsub1 : forall p, In p (f1 ++ f2) -> In p fl).
  { intros p Hp. rewrite Efl. revert Hp. in_tac. }
  assert (Hsub : forall p, In p (g1 ++ g2) -> In p fl).
  { intros p Hp. apply Hfl0 in Hp. tauto. }
  assert (Hfree_in : forall p, In p fl -> exists sz0, In (mkBlk p sz0 false) bl).
  { intros p Hp. apply Hiff in Hp. tauto. }
  destruct (merge_finish s m m2 f'' (g1 ++ g2) l1 [pb; b; nb] l2 bm Hg Ht2 Hl2 Hn2)
    as (m4 & Eins & Hinv & Hused & Hfr4).
  { apply (listed_outside W HW _ _ l1 [pb; b; nb] l2 fl (g1 ++ g2)
             [baddr pb; baddr nb] (baddr b) Hlay Hiff Hfl0).
    - intros ob [<- | [<- | [<- | []]]]; cbn [In]; tauto.
    - intros q [-> | [<- | [<- | []]]]; [exists b | exists pb | exists nb];
        cbn [In]; tauto. }
  { intros a Ha.
    rewrite (removal_frame s bl fl (g1 ++ g2) m1 m2 Hg Hfree_in Hsub Hfr2 a Ha).
    apply (removal_frame s bl fl (f1 ++ f2) m m1 Hg Hfree_in Hsub1 Hfr1 a Ha). }
  { discriminate. }
  { intros x [<- | [<- | [<- | []]]]; assumption. }
  { cbn [layout bm baddr bsize]. unfold sz. repeat split; try assumption; lia. }
  { reflexivity. }
  { cbn [bm bsize]. unfold sz. lia. }
  { exact Hdsz. }
  exists m4, (g1 ++ g2).
  split; [|split; [exact Hinv | split; [exact Hsub | split; [exact Hused | exact Hfr4]]]].
  unfold coalesce_rest. change (0 =? 0) with true.
  cbn [negb andb]. unfold bind.
  rewrite (Hprev m f Ht). cbv beta iota.
  rewrite (HDRP_eq W HW) by lia.
  rewrite (GET_SIZE_heap W HW) by valid_tac. cbv beta iota.
  rewrite Eph, (tag_size W HW) by assumption.
  rewrite (Hnext m f Ht). cbv beta iota.
  rewrite (HDRP_eq W HW) by lia.
  rewrite (GET_SIZE_heap W HW) by valid_tac. cbv beta iota.
  rewrite En, (tag_size W HW) by assumption.
  unfold ret at 1. cbv beta iota.
  rewrite (wrap_small W (bsize pb + bsize nb)) by lia.
  rewrite (wrap_small W (bsize b + (bsize pb + bsize nb))) by lia.
  rewrite (Hprev m f Ht). cbv beta iota.
  rewrite Erm1. cbv beta iota.
  rewrite (Hnext m1 f' Ht1). cbv beta iota.
  rewrite Erm2. cbv beta iota.
  rewrite (Hprev m2 f'' Ht2). cbv beta iota.
  rewrite (HDRP_eq W HW) by lia.
  rewrite (PUT_heap W HW) by valid_tac. cbv beta iota.
  rewrite PACK_0. fold sz. rewrite <- Htag.
  rewrite (FTRP_heap W HW _ _ _ (baddr pb) sz);
    [ | lia | valid_tac | | unfold sz; lia | unfold sz; lia].
  2:{ rewrite upd_same.
      apply (tag_size W HW bm); cbn [bm bsize]; [unfold sz; lia | assumption]. }
  cbv beta iota.
  rewrite (PUT_heap W HW) by (unfold sz; valid_tac). cbv beta iota.
  cbn [baddr bsize bm] in Eins. unfold ret. rewrite Eins. reflexivity.
Qed.

Lemma merged_intro (s : state) (m : Z -> Z) (fl : list Z)
      (l1 l2 pre post : list blk) (b bm : blk) (o : outcome Z) :
  merged_into W s m fl (l1 ++ b :: l2) (pre ++ bm :: post) bm o ->
  bused bm = false ->
  baddr bm <= baddr b -> baddr b + bsize b <= baddr bm + bsize bm ->
  (ends_used l1 -> pre = l1 /\ baddr bm = baddr b) ->
  (starts_used l2 -> post = l2 /\ baddr bm + bsize bm = baddr b + bsize b) ->
  (no_free_pair l1 -> no_free_pair l2 -> no_free_pair (pre ++ bm :: post)) ->
  (forall l0 pb, l1 = l0 ++ [pb] -> bused pb = false ->
     pre = l0 /\ baddr bm = baddr pb) ->
  (forall nb l3, l2 = nb :: l3 -> bused nb = false ->
     post = l3 /\ baddr bm + bsize bm = baddr nb + bsize nb) ->
  merged W s m fl l1 b l2 o.
Proof.
  intros (m' & rest & E & Hinv & Hsub & Hused & Hfr) H2 H3 H4 H5 H6 H7 H8 H9.
  exists m', bm, pre, post, rest.
  split; [exact E|]. split; [exact Hinv|]. split; [exact H2|]. split; [exact H3|].
  split; [exact H4|]. split; [exact Hsub|]. split; [exact Hused|].
  split; [exact Hfr|]. split; [exact H5|]. split; [exact H6|].
  split; [exact H7|]. split; [exact H8 | exact H9].
Qed.

(** coalesce on a free block that is not on the list, in a heap whose other
    free blocks are. *)
Lemma coalesce_merged (s : state) (m : Z -> Z) (f : Z)
      (l1 l2 : list blk) (b : blk) (fl : list Z) :
  geom W s (l1 ++ b :: l2) -> tags_ok W s m (l1 ++ b :: l2) ->
  linked W s m f fl -> nodes_in (l1 ++ b :: l2) fl ->
  listed_except (l1 ++ b :: l2) fl (baddr b) -> bused b = false ->
  merged W s m fl l1 b l2 (coalesce W (baddr b) (with_heap m f s)).
Proof.
  intros Hg Ht Hl Hn Hiff Hfree.
  pose proof (W_pos W HW) as HWp.
  assert (Hsize : 4 * W <= bsize b).
  { destruct (block_facts W HW s _ b Hg ltac:(in_tac)) as (_ & _ & _ & ? & _). lia. }
  (* the four ways the neighbours can be *)
  assert (Hnone : ends_used l1 -> starts_used l2 ->
            merged W s m fl l1 b l2
              (coalesce_rest W (baddr b) 1 1 (bsize b) (with_heap m f s))).
  { intros He Hs.
    apply (merged_intro s m fl l1 l2 l1 l2 b b);
      try lia; try assumption; try reflexivity; try (intros _; split; reflexivity).
    - apply merge_case_none; assumption.
    - intros H1 H2. apply no_free_pair_one; auto.
    - intros l0 pb E Hpf. specialize (He l0 pb E). congruence.
    - intros nb l3 E Hnf. specialize (Hs nb l3 E). congruence. }
  assert (Hnext : forall nb l2', l2 = nb :: l2' -> bused nb = false ->
            ends_used l1 ->
            merged W s m fl l1 b l2
              (coalesce_rest W (baddr b) 0 1 (bsize b) (with_heap m f s))).
  { intros nb l2' -> Hnf He.
    destruct (block_facts W HW s _ nb Hg ltac:(in_tac)) as (_ & _ & _ & ? & _).
    assert (Eadj : baddr nb = baddr b + bsize b).
    { destruct (block_here W HW s m l1 (nb :: l2') b Hg Ht) as (_ & _ & _ & _ & Hlay2).
      cbn [layout] in Hlay2. apply Hlay2. }
    apply (merged_intro s m fl l1 (nb :: l2') l1 l2' b
             (mkBlk (baddr b) (bsize b + bsize nb) false));
      cbn [baddr bsize]; try lia; try reflexivity;
      try (intros _; split; reflexivity).
    - apply merge_case_next; assumption.
    - intros Hs. specialize (Hs nb l2' eq_refl). congruence.
    - intros H1 H2.
      destruct (no_free_pair_around [] l2' nb H2 Hnf) as (_ & Hs & _ & H3).
      apply no_free_pair_one; auto.
    - intros l0 pb E Hpf. specialize (He l0 pb E). congruence.
    - intros nb0 l3 E _. injection E as <- <-. split; [reflexivity | lia]. }
  assert (Hprev : forall l0 pb, l1 = l0 ++ [pb] -> bused pb = false ->
            starts_used l2 ->
            merged W s m fl l1 b l2
              (coalesce_rest W (baddr b) 1 0 (bsize b) (with_heap m f s))).
  { intros l0 pb -> Hpf Hs.
    rewrite <- app_assoc in Hg, Ht, Hn, Hiff. cbn [app] in Hg, Ht, Hn, Hiff.
    destruct (block_facts W HW s _ pb Hg ltac:(in_tac)) as (_ & _ & _ & ? & _).
    destruct (merge_case_prev s m f l0 l2 pb b fl Hg Ht Hl Hn Hiff Hfree Hpf)
      as (Eadj & Hm).
    apply (merged_intro s m fl (l0 ++ [pb]) l2 l0 l2 b
             (mkBlk (baddr pb) (bsize b + bsize pb) false));
      cbn [baddr bsize]; try lia; try reflexivity.
    - rewrite <- app_assoc. exact Hm.
    - intros He. specialize (He l0 pb eq_refl). congruence.
    - intros _. split; [reflexivity | lia].
    - intros H1 H2.
      destruct (no_free_pair_around l0 [] pb H1 Hpf) as (He & _ & H3 & _).
      apply no_free_pair_one; auto.
    - intros l3 pb0 E _. apply app_inj_tail in E. destruct E as (<- & <-).
      split; reflexivity.
    - intros nb l3 E Hnf. specialize (Hs nb l3 E). congruence. }
  assert (Hboth : forall l0 pb nb l2', l1 = l0 ++ [pb] -> l2 = nb :: l2' ->
            bused pb = false -> bused nb = false ->
            merged W s m fl l1 b l2
              (coalesce_rest W (baddr b) 0 0 (bsize b) (with_heap m f s))).
  { intros l0 pb nb l2' -> -> Hpf Hnf.
    assert (Enb : baddr nb = baddr b + bsize b).
    { destruct (block_here W HW s m (l0 ++ [pb]) (nb :: l2') b Hg Ht)
        as (_ & _ & _ & _ & Hlay2).
      cbn [layout] in Hlay2. apply Hlay2. }
    rewrite <- app_assoc in Hg, Ht, Hn, Hiff. cbn [app] in Hg, Ht, Hn, Hiff.
    destruct (block_facts W HW s _ pb Hg ltac:(in_tac)) as (_ & _ & _ & ? & _).
    destruct (block_facts W HW s _ nb Hg ltac:(in_tac)) as (_ & _ & _ & ? & _).
    destruct (merge_case_both s m f l0 l2' pb b nb fl Hg Ht Hl Hn Hiff Hfree Hpf Hnf)
      as (Eadj & Hm).
    apply (merged_intro s m fl (l0 ++ [pb]) (nb :: l2') l0 l2' b
             (mkBlk (baddr pb) (bsize b + (bsize pb + bsize nb)) false));
      cbn [baddr bsize]; try lia; try reflexivity.
    - rewrite <- app_assoc. exact Hm.
    - intros He. specialize (He l0 pb eq_refl). congruence.
    - intros Hs. specialize (Hs nb l2' eq_refl). congruence.
    - intros H1 H2.
      destruct (no_free_pair_around l0 [] pb H1 Hpf) as (He & _ & H3 & _).
      destruct (no_free_pair_around [] l2' nb H2 Hnf) as (_ & Hs & _ & H4).
      apply no_free_pair_one; auto.
    - intros l3 pb0 E _. apply app_inj_tail in E. destruct E as (<- & <-).
      split; reflexivity.
    - intros nb0 l3 E _. injection E as <- <-. split; [reflexivity | lia]. }
  destruct (list_eq_dec Z.eq_dec (map baddr l1) []) as [E1 | E1].
  - destruct l1 as [|x l1]; [|discriminate E1]. cbn [app] in *.
    rewrite (coalesce_flags_first W HW s m f b l2 Hg Ht Hfree).
    destruct l2 as [|nb l2]; cbn [next_flag].
    + apply Hnone; [apply ends_used_nil | apply starts_used_nil].
    + destruct (bused nb) eqn:Hnu; cbn [flag].
      * apply Hnone; [apply ends_used_nil | apply starts_used_cons, Hnu].
      * apply (Hnext nb l2 eq_refl Hnu). apply ends_used_nil.
  - assert (Hne : l1 <> []) by (intros ->; apply E1; reflexivity).
    destruct (exists_last Hne) as (l0 & pb & E0).
    pose proof Hg as Hg'. pose proof Ht as Ht'. rewrite E0 in Hg', Ht'.
    rewrite (coalesce_flags_prev W HW s m f l0 l2 pb b Hg' Ht').
    destruct (bused pb) eqn:Hpu; cbn [flag].
    + assert (He : ends_used l1) by (rewrite E0; apply ends_used_snoc, Hpu).
      destruct l2 as [|nb l2]; cbn [next_flag].
      * apply Hnone; [exact He | apply starts_used_nil].
      * destruct (bused nb) eqn:Hnu; cbn [flag].
        -- apply Hnone; [exact He | apply starts_used_cons, Hnu].
        -- apply (Hnext nb l2 eq_refl Hnu He).
    + destruct l2 as [|nb l2]; cbn [next_flag].
      * apply (Hprev l0 pb E0 Hpu). apply starts_used_nil.
      * destruct (bused nb) eqn:Hnu; cbn [flag].
        -- apply (Hprev l0 pb E0 Hpu). apply starts_used_cons, Hnu.
        -- apply (Hboth l0 pb nb l2 E0 eq_refl Hpu Hnu).
Qed.

(** The memory a result is compared with can be one that differs on words
    of free blocks. *)
Lemma merged_frame (s : state) (m m0 : Z -> Z) (fl : list Z)
      (l1 l2 : list blk) (b : blk) (o : outcome Z) :
  merged W s m fl l1 b l2 o ->
  (forall a, ~ free_word W s (l1 ++ b :: l2) a -> m a = m0 a) ->
  merged W s m0 fl l1 b l2 o.
Proof.
  intros (m' & bm & pre & post & rest & E & Hinv & H2 & H3 & H4 & H5 & H6 & H7 & H8)
         Hfr.
  exists m', bm, pre, post, rest.
  split; [exact E|]. split; [exact Hinv|]. split; [exact H2|]. split; [exact H3|].
  split; [exact H4|]. split; [exact H5|]. split; [exact H6|].
  split; [|exact H8].
  intros a Ha. rewrite (H7 a Ha). apply Hfr, Ha.
Qed.

End Merging.

(** ** The operations, with the heap they leave *)

Section Effects.

Variable W : Z.
Hypothesis HW : W = 4 \/ W = 8.
#[local] Set Default Proof Using "HW".

Ltac in_tac := cbn [In]; rewrite ?in_app_iff; cbn [In]; tauto.
Ltac valid_tac := apply (valid_intro W HW); [lia | lia | auto 10 with algn].
Ltac upd_tac := repeat (rewrite upd_same || (rewrite upd_other by lia)).

Lemma kept_refl (bl : list blk) (m : Z -> Z) : kept W bl m m.
Proof. intros x a _ _ _. reflexivity. Qed.

Lemma kept_frame (s : state) (bl : list blk) (m m' : Z -> Z) :
  geom W s bl -> (forall a, ~ free_word W s bl a -> m' a = m a) ->
  kept W bl m m'.
Proof.
  intros Hg Hfr x a Hx Hu Ha. apply Hfr.
  apply (used_not_free_word W HW s bl x a Hg Hx Hu Ha).
Qed.

Lemma used_blocks_in (bl : list blk) (x : blk) :
  In x (used_blocks bl) <-> In x bl /\ bused x = true.
Proof. apply filter_In. Qed.

Lemma kept_trans (bl bl1 : list blk) (m m1 m2 : Z -> Z) :
  kept W bl m m1 -> kept W bl1 m1 m2 ->
  (forall x, In x (used_blocks bl) -> In x (used_blocks bl1)) ->
  kept W bl m m2.
Proof.
  intros H1 H2 Hsub x a Hx Hu Ha.
  rewrite <- (H1 x a Hx Hu Ha).
  assert (Hx1 : In x (used_blocks bl1)) by (apply Hsub, used_blocks_in; auto).
  apply used_blocks_in in Hx1.
  apply (H2 x a); tauto.
Qed.

(** mm_free up to its call of coalesce: the block is marked free. *)
Lemma mm_free_step (s : state) (m : Z -> Z) (f : Z)
      (l1 l2 : list blk) (b : blk) (fl : list Z) :
  heap_inv W (with_heap m f s) (l1 ++ b :: l2) fl -> bused b = true ->
  let b0 := mkBlk (baddr b) (bsize b) false in
  exists m2,
    mm_free W (baddr b) (with_heap m f s)
    = (coalesce W (baddr b) ;; ret tt) (with_heap m2 f s) /\
    geom W s (l1 ++ b0 :: l2) /\ tags_ok W s m2 (l1 ++ b0 :: l2) /\
    linked W s m2 f fl /\ nodes_in (l1 ++ b0 :: l2) fl /\
    listed_except (l1 ++ b0 :: l2) fl (baddr b) /\
    (forall a, ~ free_word W s (l1 ++ b0 :: l2) a -> m2 a = m a).
Proof.
  intros Hinv Hu b0. apply (heap_inv_heap W HW) in Hinv.
  destruct Hinv as (Hg & Ht & Hl & Hn & Hiff).
  assert (Hb : In b (l1 ++ b :: l2)) by in_tac.
  destruct (block_facts W HW s _ b Hg Hb)
    as (B1 & B2 & B3 & B4 & B5 & B6 & B7 & B8 & B9).
  destruct (block_here W HW s m l1 l2 b Hg Ht) as (Eh & _).
  set (m2 := upd (upd m (baddr b - W) (tag b0)) (baddr b + bsize b - 2 * W) (tag b0)).
  assert (Htag : tag b0 = bsize b) by (unfold tag, b0; cbn [bsize bused]; lia).
  assert (Hlay : layout W (first_block W s) (mem_brk s) (l1 ++ [b] ++ l2))
    by apply Hg.
  pose proof (used_not_listed W HW _ _ _ _ _ Hlay Hiff Hb Hu) as Hnin.
  destruct (tags_merge W HW s m l1 [b] l2 b0) as (Hg2 & Ht2); try assumption.
  { cbn [layout b0 baddr bsize]. repeat split; try assumption; lia. }
  fold m2 in Ht2. cbn [b0 baddr bsize] in Ht2.
  exists m2. split; [|split; [exact Hg2 | split; [exact Ht2 | split; [|split; [|split]]]]].
  - unfold mm_free.
    replace (baddr b =? NULL) with false by (symmetry; apply Z.eqb_neq; unfold NULL; lia).
    unfold bind.
    rewrite (HDRP_eq W HW) by lia.
    rewrite (GET_SIZE_heap W HW) by valid_tac. cbv beta iota.
    rewrite Eh, (tag_size W HW) by assumption.
    rewrite (PUT_heap W HW) by valid_tac. cbv beta iota.
    rewrite PACK_0.
    rewrite (FTRP_heap W HW _ _ _ (baddr b) (bsize b)); [ | lia | valid_tac | | lia | lia].
    2:{ rewrite upd_same.
        apply (size_field_aligned W HW); [lia | ].
        apply Z.mod_divide; [lia | assumption]. }
    cbv beta iota.
    rewrite (PUT_heap W HW) by valid_tac. cbv beta iota.
    unfold m2. rewrite Htag. reflexivity.
  - unfold m2.
    apply (linked_tag_write W HW s _ f _ _ b _ _ Hg Hn Hb); [lia | tauto |].
    apply (linked_tag_write W HW s _ f _ _ b _ _ Hg Hn Hb); [lia | tauto |].
    exact Hl.
  - apply (nodes_in_replace W HW l1 [b] [b0] l2); [exact Hn|].
    intros ob [<- | []] Hin; contradiction.
  - apply (listed_free W HW _ _ _ _ _ _ Hlay Hu Hiff).
  - intros a Ha. unfold m2. rewrite !upd_other; [reflexivity | |];
      intros ->; apply Ha; right; exists b0; cbn [b0 baddr bsize bused];
      (split; [in_tac | split; [reflexivity | lia]]).
Qed.

(** mm_free on an allocated block: the block is merged with its free
    neighbours. *)
Lemma mm_free_merged (s : state) (m : Z -> Z) (f : Z)
      (l1 l2 : list blk) (b : blk) (fl : list Z) :
  heap_inv W (with_heap m f s) (l1 ++ b :: l2) fl -> bused b = true ->
  exists r s',
    geom W s (l1 ++ mkBlk (baddr b) (bsize b) false :: l2) /\
    merged W s m fl l1 (mkBlk (baddr b) (bsize b) false) l2 (Ok r s') /\
    mm_free W (baddr b) (with_heap m f s) = Ok tt s'.
Proof.
  intros Hinv Hu.
  destruct (mm_free_step s m f l1 l2 b fl Hinv Hu)
    as (m2 & E & Hg2 & Ht2 & Hl2 & Hn2 & Hle & Hfr).
  pose proof (coalesce_merged W HW s m2 f l1 l2 _ fl Hg2 Ht2 Hl2 Hn2 Hle eq_refl)
    as Hm.
  cbn [baddr] in Hm.
  apply (merged_frame W HW s m2 m) in Hm; [|exact Hfr].
  pose proof Hm as (m' & bm & pre & post & rest & Eo & _).
  exists (baddr bm), (with_heap m' (baddr bm) s).
  rewrite <- Eo. split; [exact Hg2|]. split; [exact Hm|].
  rewrite E. unfold bind. rewrite Eo. reflexivity.
Qed.


(** extend_heap, when the provider grants the request: the new block is
    merged with a free block that ends the heap.  The epilogue header need
    not be in place before the call. *)
Lemma extend_heap_merged (s : state) (m : Z -> Z) (f : Z)
      (bl : list blk) (fl : list Z) (words : Z) :
  geom W s bl -> tagged W m bl ->
  m (mem_start_brk s + W) = 2 * W + 1 ->
  size_field W (m (mem_start_brk s + 6 * W)) = 0 ->
  linked W s m f fl -> nodes_in bl fl ->
  (forall p, In p fl <-> exists sz, In (mkBlk p sz false) bl) ->
  4 * W <= extend_size W words ->
  0 <= to_intptr W (extend_size W words) ->
  mem_brk s + extend_size W words <= mem_max_addr s ->
  exists m3,
    (forall a, a < mem_brk s - W -> m3 a = m a) /\
    geom W (set_brk (mem_brk s + extend_size W words) s)
      (bl ++ [mkBlk (mem_brk s) (extend_size W words) false]) /\
    merged W (set_brk (mem_brk s + extend_size W words) s) m3 fl
      bl (mkBlk (mem_brk s) (extend_size W words) false) []
      (extend_heap W words (with_heap m f s)).
Proof.
  intros Hg T1 T3 T4 Hl Hn Hiff Hmin Hpos Hfit.
  destruct (extend_size_bounds W HW words) as ((_ & Hlt) & Hal).
  set (size := extend_size W words) in *.
  pose proof (W_pos W HW) as HWp.
  destruct (geom_brk W HW _ _ Hg) as (Hlo & Hbrk8 & Hbrk & Hloal & Hbal).
  assert (Hd : (2 * W | size)) by (apply Z.mod_divide; [lia | exact Hal]).
  set (b0 := mem_brk s) in *.
  set (s1 := set_brk (b0 + size) s).
  set (nb := mkBlk b0 size false).
  set (m3 := upd (upd (upd m (b0 - W) size) (b0 + size - 2 * W) size)
                 (b0 + size - W) 1).
  assert (Hmax : mem_max_addr s < modulus W) by apply Hg.
  assert (Hlay : layout W (first_block W s) b0 bl) by apply Hg.
  assert (Hg3 : geom W s1 (bl ++ [nb])).
  { destruct Hg as (G1 & G2 & G3 & G4 & G5).
    split; [exact G1|]. split; [exact G2|].
    split; [cbn [s1 set_brk mem_brk mem_max_addr]; lia|].
    split; [exact G4|].
    apply (layout_join W HW); cbn [nb baddr bsize layout]; try assumption.
    reflexivity. }
  assert (Hblk : forall b, In b bl ->
            first_block W s <= baddr b /\ baddr b + bsize b <= b0 /\
            4 * W <= bsize b).
  { intros b Hb. destruct (layout_in W HW _ _ _ _ Hlay Hb) as (? & ? & ? & _).
    auto. }
  assert (Ht3 : tags_ok W s1 m3 (bl ++ [nb])).
  { unfold first_block in Hblk.
    split; [|split; [|split]].
    - intros b Hb. apply in_app_iff in Hb. destruct Hb as [Hb | [<- | []]].
      + destruct (Hblk b Hb) as (? & ? & ?). destruct (T1 b Hb) as (E1 & E2).
        unfold m3. upd_tac. auto.
      + unfold tag, nb, m3. cbn [baddr bsize bused]. upd_tac.
        split; lia.
    - cbn [s1 set_brk mem_brk]. unfold m3. upd_tac. reflexivity.
    - cbn [s1 set_brk mem_start_brk]. unfold m3. upd_tac. exact T3.
    - cbn [s1 set_brk mem_start_brk]. unfold m3. upd_tac. exact T4. }
  assert (Hn3 : nodes_in (bl ++ [nb]) fl).
  { intros p Hp. destruct (Hn p Hp) as (b & Hb & E). exists b. split; [in_tac | exact E]. }
  assert (Hl3 : linked W s1 m3 f fl).
  { apply (mk_linked W HW s1 m3 f (bl ++ [nb])); try assumption.
    - apply (lk_nodup _ _ _ _ _ Hl).
    - apply (chain_frame W HW m); [|apply (lk_chain _ _ _ _ _ Hl)].
      intros p Hp. destruct (Hn p Hp) as (b & Hb & <-).
      destruct (Hblk b Hb) as (? & ? & ?). unfold first_block in *.
      unfold m3. upd_tac. auto. }
  assert (Hle : listed_except (bl ++ [nb]) fl (baddr nb)).
  { intros p. rewrite Hiff. cbn [nb baddr]. split.
    - intros (sz & Hin). split; [exists sz; in_tac|].
      destruct (Hblk _ Hin) as (? & ? & ?). cbn [baddr bsize] in *. lia.
    - intros ((sz & Hin) & Hne). exists sz.
      apply in_app_iff in Hin. destruct Hin as [Hin | [Hin | []]]; [exact Hin|].
      exfalso. apply Hne. apply (f_equal baddr) in Hin. cbn [baddr nb] in Hin. lia. }
  pose proof (coalesce_merged W HW s1 m3 f bl [] nb fl Hg3 Ht3 Hl3 Hn3 Hle eq_refl)
    as Hm.
  exists m3. split.
  { intros a Ha. unfold m3. upd_tac. reflexivity. }
  split; [exact Hg3|].
  replace (extend_heap W words (with_heap m f s))
    with (coalesce W (baddr nb) (with_heap m3 f s1)); [exact Hm|].
  symmetry.
  unfold extend_heap. fold size. unfold bind.
  rewrite (mem_sbrk_accepts W) by (cbn [with_heap mem_brk mem_max_addr]; lia).
  change (mem_brk (with_heap m f s)) with b0.
  change (set_brk (b0 + size) (with_heap m f s)) with (with_heap m f s1).
  replace (to_int b0 =? -1) with false.
  2:{ symmetry. apply Z.eqb_neq, to_int_aligned.
      destruct Hbal as (k & ->). replace (k * (2 * W)) with (k * W * 2) by lia.
      apply Z.mod_mul. lia. }
  assert (Hv : forall p, mem_start_brk s <= p -> p + W <= b0 + size -> (W | p) ->
               valid W s1 p).
  { intros p H1 H2 H3. repeat split; assumption. }
  rewrite (HDRP_eq W HW) by lia.
  rewrite (PUT_heap W HW) by (apply Hv; [lia | lia | auto 10 with algn]).
  cbv beta iota. rewrite PACK_0.
  rewrite (FTRP_heap W HW _ _ _ b0 size);
    [ | lia | apply Hv; [lia | lia | auto 10 with algn] | | lia | lia].
  2:{ rewrite upd_same. apply (size_field_aligned W HW); [lia | exact Hal]. }
  cbv beta iota.
  rewrite (PUT_heap W HW) by (apply Hv; [lia | lia | auto 10 with algn]).
  cbv beta iota.
  rewrite (NEXT_BLK_heap W HW _ _ _ b0 size);
    [ | lia | apply Hv; [lia | lia | auto 10 with algn] | | lia | lia].
  2:{ upd_tac. apply (size_field_aligned W HW); [lia | exact Hal]. }
  cbv beta iota.
  rewrite (HDRP_eq W HW) by lia.
  rewrite (PUT_heap W HW) by (apply Hv; [lia | lia | auto 10 with algn]).
  cbv beta iota.
  change (PACK 0 1) with 1. fold m3. reflexivity.
Qed.

End Effects.

(** ** Placing a block, with the heap it leaves *)

Section Placing.

Variable W : Z.
Hypothesis HW : W = 4 \/ W = 8.
#[local] Set Default Proof Using "HW".

Ltac in_tac := cbn [In]; rewrite ?in_app_iff; cbn [In]; tauto.
Ltac valid_tac := apply (valid_intro W HW); [lia | lia | auto 10 with algn].
Ltac upd_tac := repeat (rewrite upd_same || (rewrite upd_other by lia)).

Lemma used_blocks_cons_free (x : blk) (l : list blk) :
  bused x = false -> used_blocks (x :: l) = used_blocks l.
Proof. intros E. unfold used_blocks. cbn [filter]. rewrite E. reflexivity. Qed.

Lemma used_blocks_cons_used (x : blk) (l : list blk) :
  bused x = true -> used_blocks (x :: l) = x :: used_blocks l.
Proof. intros E. unfold used_blocks. cbn [filter]. rewrite E. reflexivity. Qed.

Lemma no_free_pair_parts (l1 l2 : list blk) (b : blk) :
  no_free_pair (l1 ++ b :: l2) -> no_free_pair l1 /\ no_free_pair l2.
Proof.
  intros H. destruct (no_free_pair_app_inv _ _ H) as (H1 & H2).
  split; [exact H1 | apply (no_free_pair_tail b), H2].
Qed.

(** place on a free block that is too small to be split: the whole block
    becomes allocated. *)
Lemma place_whole_effect (s : state) (m : Z -> Z) (f : Z)
      (l1 l2 : list blk) (b : blk) (fl : list Z) (asize : Z) :
  heap_inv W (with_heap m f s) (l1 ++ b :: l2) fl -> bused b = false ->
  0 <= asize <= bsize b -> bsize b - asize < 4 * W ->
  exists m' f' fl',
    place W (baddr b) asize (with_heap m f s) = Ok tt (with_heap m' f' s) /\
    heap_inv W (with_heap m' f' s)
      (l1 ++ mkBlk (baddr b) (bsize b) true :: l2) fl' /\
    (forall p, In p fl' <-> In p fl /\ p <> baddr b) /\
    (forall a, ~ free_word W s (l1 ++ b :: l2) a -> m' a = m a).
Proof.
  intros Hinv Hfree Hle Hsmall. apply (heap_inv_heap W HW) in Hinv.
  destruct Hinv as (Hg & Ht & Hl & Hn & Hiff).
  assert (Hb : In b (l1 ++ b :: l2)) by in_tac.
  change (b :: l2) with ([b] ++ l2) in *.
  destruct (block_facts W HW s _ b Hg Hb)
    as (B1 & B2 & B3 & B4 & B5 & B6 & B7 & B8 & B9).
  destruct (block_here W HW s m l1 l2 b Hg Ht) as (Eh & _).
  pose proof (modulus_large W HW) as Hml.
  set (bu := mkBlk (baddr b) (bsize b) true).
  set (m2 := upd (upd m (baddr b - W) (tag bu)) (baddr b + bsize b - 2 * W) (tag bu)).
  assert (Htag : tag bu = bsize b + 1) by reflexivity.
  assert (Hlay : layout W (first_block W s) (mem_brk s) (l1 ++ [b] ++ l2))
    by apply Hg.
  assert (Hbin : In (baddr b) fl).
  { apply Hiff. exists (bsize b). rewrite <- Hfree, <- (blk_eta W HW). exact Hb. }
  destruct (tags_merge W HW s m l1 [b] l2 bu) as (Hg2 & Ht2); try assumption.
  { cbn [layout bu baddr bsize]. repeat split; try assumption; lia. }
  fold m2 in Ht2. cbn [bu baddr bsize] in Ht2.
  assert (Hl2 : linked W s m2 f fl).
  { unfold m2.
    apply (linked_tag_write W HW s _ f _ _ b _ _ Hg Hn Hb); [lia | lia |].
    apply (linked_tag_write W HW s _ f _ _ b _ _ Hg Hn Hb); [lia | lia |].
    exact Hl. }
  assert (Hn2 : nodes_in (l1 ++ [bu] ++ l2) fl).
  { apply (nodes_in_replace W HW l1 [b]); [exact Hn|].
    intros ob [<- | []] _. exists bu. split; [in_tac | reflexivity]. }
  pose proof (lk_nodup _ _ _ _ _ Hl) as Hnd.
  destruct (in_split _ _ Hbin) as (f1 & f2 & Efl). subst fl.
  destruct (remove_step_frame W HW s m2 f _ f1 f2 (baddr b) Hg2 Ht2 Hl2 Hn2)
    as (m3 & f' & Erm & Hl3 & Ht3 & Hn3 & Hnin3 & Hfr3).
  assert (Hbu : In bu (l1 ++ [bu] ++ l2)) by in_tac.
  exists m3, f', (f1 ++ f2).
  split; [|split; [|split]].
  - unfold place, bind.
    rewrite (HDRP_eq W HW) by lia.
    rewrite (GET_SIZE_heap W HW) by valid_tac. cbv beta iota.
    rewrite Eh, (tag_size W HW) by assumption.
    unfold WSIZE. rewrite (wrap_small W (bsize b - asize)) by lia.
    rewrite (wrap_small W (4 * W)) by lia.
    replace (bsize b - asize >=? 4 * W) with false
      by (symmetry; rewrite Z.geb_leb; apply Z.leb_gt; lia).
    rewrite (PUT_heap W HW) by valid_tac. cbv beta iota.
    rewrite (PACK_add (bsize b) 1);
      [ | destruct B8 as (k & ->); replace (k * (2 * W)) with (k * W * 2) by lia;
          apply Z.mod_mul; lia | right; reflexivity].
    rewrite <- Htag.
    rewrite (FTRP_heap W HW _ _ _ (baddr b) (bsize b)); [ | lia | valid_tac | | lia | lia].
    2:{ rewrite upd_same. apply (tag_size W HW bu); assumption. }
    cbv beta iota.
    rewrite (PUT_heap W HW) by valid_tac. cbv beta iota.
    fold m2. exact Erm.
  - apply (heap_inv_heap W HW).
    split; [exact Hg2|]. split; [exact Ht3|]. split; [exact Hl3|].
    split; [exact Hn3|].
    destruct Hg2 as (_ & _ & _ & _ & Hlay2).
    apply (listed_except_used W HW _ _ _ _ bu Hlay2 Hbu eq_refl).
    apply (listed_new W HW _ _ _ _ _ _ _ Hlay2).
    + apply (listed_without W HW _ _ _ _ _ _ _ Hlay Hnd Hiff).
    + exists bu. split; [in_tac | reflexivity].
    + intros nb [<- | []]. left. reflexivity.
  - intros p. apply (in_remove_nodup W HW f1 f2 (baddr b) p Hnd).
  - intros a Ha.
    assert (Hfl : forall q, In q (f1 ++ f2) ->
              exists x, In x (l1 ++ [b] ++ l2) /\ bused x = false /\ baddr x = q).
    { intros q Hq.
      assert (Hq' : In q (f1 ++ baddr b :: f2)) by (revert Hq; in_tac).
      apply Hiff in Hq'. destruct Hq' as (sz & Hin).
      exists (mkBlk q sz false). auto. }
    rewrite Hfr3.
    + unfold m2. rewrite !upd_other; [reflexivity | |];
        intros ->; apply Ha; right; exists b;
        (split; [in_tac | split; [exact Hfree | lia]]).
    + intros Hc. apply Ha.
      apply (link_cell_free_word W HW s _ _ a Hg Hfl Hc).
Qed.

(** place on a free block that leaves room for a free remainder: the first
    [asize] bytes become an allocated block, and the remainder is merged
    with a free block that follows it. *)
Lemma place_split_effect (s : state) (m : Z -> Z) (f : Z)
      (l1 l2 : list blk) (b : blk) (fl : list Z) (asize : Z) :
  heap_inv W (with_heap m f s) (l1 ++ b :: l2) fl -> bused b = false ->
  (2 * W | asize) -> 4 * W <= asize -> 4 * W <= bsize b - asize ->
  exists m' bm post rest,
    place W (baddr b) asize (with_heap m f s)
    = Ok tt (with_heap m' (baddr bm) s) /\
    heap_inv W (with_heap m' (baddr bm) s)
      (l1 ++ mkBlk (baddr b) asize true :: bm :: post) (baddr bm :: rest) /\
    bused bm = false /\ baddr bm = baddr b + asize /\
    bsize b - asize <= bsize bm /\
    (forall p, In p rest -> In p fl /\ p <> baddr b) /\
    used_blocks post = used_blocks l2 /\
    (forall a, ~ free_word W s (l1 ++ b :: l2) a -> m' a = m a) /\
    (starts_used l2 -> post = l2 /\ bsize bm = bsize b - asize) /\
    (no_free_pair (l1 ++ b :: l2) ->
     no_free_pair (l1 ++ mkBlk (baddr b) asize true :: bm :: post)) /\
    (forall nb l3, l2 = nb :: l3 -> bused nb = false ->
       post = l3 /\ bsize bm = bsize b - asize + bsize nb).
Proof.
  intros Hinv Hfree Hda Hmin Hrest. apply (heap_inv_heap W HW) in Hinv.
  destruct Hinv as (Hg & Ht & Hl & Hn & Hiff).
  assert (Hb : In b (l1 ++ b :: l2)) by in_tac.
  destruct (block_here W HW s m l1 l2 b Hg Ht) as (Eh & _ & _ & Hlay1 & Hlay2).
  change (b :: l2) with ([b] ++ l2) in *.
  destruct (block_facts W HW s _ b Hg Hb)
    as (B1 & B2 & B3 & B4 & B5 & B6 & B7 & B8 & B9).
  destruct (geom_brk W HW _ _ Hg) as (Hlo & _ & Hbrk & _).
  pose proof (modulus_large W HW) as Hml.
  set (bp := baddr b) in *. set (csize := bsize b) in *.
  set (r := csize - asize).
  set (bu := mkBlk bp asize true).
  set (rem := mkBlk (bp + asize) r false).
  assert (Hdr : (2 * W | r)) by (unfold r; auto with algn).
  assert (Hlay : layout W (first_block W s) (mem_brk s) (l1 ++ [b] ++ l2))
    by apply Hg.
  pose proof (lk_nodup _ _ _ _ _ Hl) as Hnd.
  assert (Hbin : In bp fl).
  { apply Hiff. exists csize. unfold bp, csize. rewrite <- Hfree, <- (blk_eta W HW).
    exact Hb. }
  destruct (in_split _ _ Hbin) as (f1 & f2 & Efl). subst fl.
  pose proof (NoDup_remove_2 _ _ _ Hnd) as Hnin.
  pose proof (nodes_in_remove W HW _ _ _ _ Hn) as Hn0.
  assert (Hnl : forall a, bp - W <= a < bp + csize - W ->
                          ~ link_cell W s (f1 ++ f2) a).
  { intros a Ha. apply (block_word_not_link W HW s _ _ b a Hg Hn0 Hb Ha).
    intros Hin. contradiction. }
  set (m2 := upd (upd m (bp - W) (asize + 1)) (bp + asize - 2 * W) (asize + 1)).
  assert (Hl2 : linked W s m2 f (f1 ++ bp :: f2)).
  { unfold m2.
    apply (linked_tag_write W HW s _ f _ _ b _ _ Hg Hn Hb);
      [fold bp csize; lia | fold bp; lia |].
    apply (linked_tag_write W HW s _ f _ _ b _ _ Hg Hn Hb);
      [fold bp csize; lia | fold bp; lia |].
    exact Hl. }
  destruct (linked_remove W HW s m2 f f1 f2 bp Hlo Hbrk Hl2)
    as (m3 & f' & Erm & Hl3 & Hfr3).
  set (m5 := upd (upd m3 (bp + asize - W) r) (bp + csize - 2 * W) r).
  assert (E3 : forall a, bp - W <= a < bp + csize - W -> m3 a = m2 a).
  { intros a Ha. apply Hfr3, Hnl, Ha. }
  assert (Hv : forall k, -1 <= k -> (k + 2) * W <= csize -> valid W s (bp + k * W)).
  { intros k H1 H2. apply (geom_valid_block W HW s _ b k Hg Hb H1 H2). }
  assert (Hnew : layout W bp (bp + csize) [bu; rem]).
  { cbn [layout bu rem baddr bsize]. unfold r. repeat split; try assumption; lia. }
  destruct (tags_replace W HW s m m5 l1 [b] [bu; rem] l2 bp (bp + csize)
              [bp - W; bp + asize - 2 * W; bp + asize - W; bp + csize - 2 * W])
    as (Hg5 & Ht5); try assumption.
  { intros a Ha Hw. cbn [In] in Hw.
    unfold m5. rewrite !upd_other by lia.
    rewrite Hfr3.
    - unfold m2. rewrite !upd_other by lia. reflexivity.
    - intros Hc. apply Ha. revert Hc. apply (link_cell_incl W HW).
      apply (nodes_in_incl W HW). exact Hn0. }
  { intros a. cbn [In]. lia. }
  { intros x [<- | [<- | []]]; unfold tag; cbn [bu rem baddr bsize bused].
    - unfold m5. rewrite !upd_other by lia.
      rewrite !E3 by lia. unfold m2. upd_tac.
      replace (bp + asize + r - 2 * W) with (bp + csize - 2 * W) by (unfold r; lia).
      auto.
    - unfold m5. upd_tac.
      replace (bp + asize + r - 2 * W) with (bp + csize - 2 * W) by (unfold r; lia).
      upd_tac. split; lia. }
  assert (Hl5 : linked W s m5 f' (f1 ++ f2)).
  { unfold m5.
    apply (linked_tag_write W HW s _ f' _ _ b _ _ Hg Hn0 Hb);
      [fold bp csize; lia | tauto |].
    apply (linked_tag_write W HW s _ f' _ _ b _ _ Hg Hn0 Hb);
      [fold bp csize; lia | tauto |].
    exact Hl3. }
  assert (Hn5 : nodes_in (l1 ++ [bu; rem] ++ l2) (f1 ++ f2)).
  { apply (nodes_in_replace W HW l1 [b]); [exact Hn0|].
    intros ob [<- | []] Hin. contradiction. }
  assert (Hlay5 : layout W (first_block W s) (mem_brk s) (l1 ++ [bu; rem] ++ l2))
    by apply Hg5.
  assert (Hle : listed_except (l1 ++ [bu; rem] ++ l2) (f1 ++ f2) (baddr rem)).
  { apply (listed_new W HW _ _ _ _ _ _ _ Hlay5).
    - apply (listed_without W HW _ _ _ _ _ _ _ Hlay Hnd Hiff).
    - exists rem. split; [in_tac | reflexivity].
    - intros nb [<- | [<- | []]]; [left | right]; reflexivity. }
  assert (Eapp : l1 ++ [bu; rem] ++ l2 = (l1 ++ [bu]) ++ rem :: l2)
    by (rewrite <- app_assoc; reflexivity).
  rewrite Eapp in Hg5, Ht5, Hn5, Hle.
  destruct (coalesce_merged W HW s m5 f' (l1 ++ [bu]) l2 rem (f1 ++ f2)
              Hg5 Ht5 Hl5 Hn5 Hle eq_refl)
    as (m' & bm & pre & post & rest & E & Hinv' & Hbmf & Hlo' & Hhi' & Hrest'
        & Hused & Hfr & Hends & Hstarts & Hnfp & _ & Hnext).
  destruct Hends as (-> & Ebm).
  { apply ends_used_snoc. reflexivity. }
  cbn [rem baddr bsize] in Ebm, Hlo', Hhi'.
  rewrite <- app_assoc in Hinv'. cbn [app] in Hinv'.
  exists m', bm, post, rest.
  split; [|split; [exact Hinv' | split; [exact Hbmf | split; [exact Ebm |
          split; [|split; [|split; [|split; [|split; [|split]]]]]]]]].
  - unfold place, bind.
    rewrite (HDRP_eq W HW) by lia.
    rewrite (GET_SIZE_heap W HW) by valid_tac. cbv beta iota.
    rewrite Eh, (tag_size W HW) by assumption. fold csize.
    unfold WSIZE. rewrite (wrap_small W (csize - asize)) by lia.
    rewrite (wrap_small W (4 * W)) by lia.
    replace (csize - asize >=? 4 * W) with true
      by (symmetry; rewrite Z.geb_leb; apply Z.leb_le; lia).
    rewrite (PUT_heap W HW) by valid_tac. cbv beta iota.
    rewrite (PACK_add asize 1);
      [ | destruct Hda as (k & ->); replace (k * (2 * W)) with (k * W * 2) by lia;
          apply Z.mod_mul; lia | right; reflexivity].
    assert (Hsa : size_field W (asize + 1) = asize).
    { apply (size_field_tag W HW); [lia | | right; reflexivity].
      apply Z.mod_divide; [lia | exact Hda]. }
    rewrite (FTRP_heap W HW _ _ _ bp asize); [ | lia | valid_tac | | lia | lia].
    2:{ rewrite upd_same. exact Hsa. }
    cbv beta iota.
    rewrite (PUT_heap W HW) by valid_tac. cbv beta iota.
    fold m2. rewrite Erm. cbv beta iota.
    rewrite (NEXT_BLK_heap W HW _ _ _ bp asize); [ | lia | valid_tac | | lia | lia].
    2:{ rewrite E3 by lia. unfold m2. upd_tac. exact Hsa. }
    cbv beta iota.
    rewrite (HDRP_eq W HW) by lia.
    rewrite (PUT_heap W HW) by valid_tac. cbv beta iota.
    rewrite PACK_0. fold r.
    rewrite (FTRP_heap W HW _ _ _ (bp + asize) r);
      [ | lia | valid_tac | | unfold r; lia | unfold r; lia].
    2:{ rewrite upd_same.
        apply (size_field_aligned W HW); [unfold r; lia|].
        apply Z.mod_divide; [lia | exact Hdr]. }
    cbv beta iota.
    replace (bp + asize + r - 2 * W) with (bp + csize - 2 * W) by (unfold r; lia).
    rewrite (PUT_heap W HW) by valid_tac. cbv beta iota.
    fold m5. change (bp + asize) with (baddr rem). rewrite E. reflexivity.
  - unfold r in Hhi'. lia.
  - intros p Hp. apply (in_remove_nodup W HW f1 f2 bp p Hnd). apply Hrest', Hp.
  - rewrite <- !app_assoc in Hused. cbn [app] in Hused.
    rewrite !(used_blocks_app W HW) in Hused.
    apply app_inv_head in Hused.
    rewrite !(used_blocks_cons_used bu) in Hused by reflexivity.
    injection Hused as Hused.
    rewrite Hbmf in Hused. exact Hused.
  - intros a Ha.
    assert (Hfl : forall q, In q (f1 ++ f2) ->
              exists x, In x (l1 ++ [b] ++ l2) /\ bused x = false /\ baddr x = q).
    { intros q Hq.
      assert (Hq' : In q (f1 ++ bp :: f2)) by (revert Hq; in_tac).
      apply Hiff in Hq'. destruct Hq' as (sz & Hin).
      exists (mkBlk q sz false). auto. }
    assert (Hout : ~ (bp - W <= a < bp + csize - W)).
    { intros Hc. apply Ha. right. exists b.
      split; [in_tac | split; [exact Hfree | exact Hc]]. }
    rewrite Hfr.
    + unfold m5. rewrite !upd_other by lia.
      rewrite Hfr3.
      * unfold m2. rewrite !upd_other by lia. reflexivity.
      * intros Hc. apply Ha.
        apply (link_cell_free_word W HW s _ _ a Hg Hfl Hc).
    + intros Hc. apply Ha. revert Hc. apply (free_word_incl W HW).
      intros x Hx Hxf.
      rewrite !in_app_iff in Hx. cbn [In] in Hx.
      destruct Hx as [[Hx | [<- | []]] | [<- | Hx]].
      * exists x. split; [in_tac | split; [exact Hxf | lia]].
      * discriminate Hxf.
      * exists b. split; [in_tac | split; [exact Hfree|]].
        cbn [rem baddr bsize]. unfold r. fold bp csize. lia.
      * exists x. split; [in_tac | split; [exact Hxf | lia]].
  - intros Hs. destruct (Hstarts Hs) as (-> & Esz). split; [reflexivity|].
    cbn [rem baddr bsize] in Esz. unfold r in Esz. lia.
  - intros Hp. destruct (no_free_pair_parts _ _ _ Hp) as (Hp1 & Hp2).
    pose proof (Hnfp (no_free_pair_one l1 [] bu Hp1 I (or_introl eq_refl)) Hp2) as H.
    rewrite <- app_assoc in H. exact H.
  - intros nb l3 El2 Hnf. destruct (Hnext nb l3 El2 Hnf) as (-> & Eend).
    split; [reflexivity|].
    subst l2. cbn [layout] in Hlay2. destruct Hlay2 as (Enb & _).
    fold bp csize in Enb. lia.
Qed.

End Placing.

(** ** Searching the list: first fit *)

Section Searching.

Variable W : Z.
Hypothesis HW : W = 4 \/ W = 8.
#[local] Set Default Proof Using "HW".

Ltac in_tac := cbn [In]; rewrite ?in_app_iff; cbn [In]; tauto.
Ltac valid_tac := apply (valid_intro W HW); [lia | lia | auto 10 with algn].
Ltac upd_tac := repeat (rewrite upd_same || (rewrite upd_other by lia)).

(** One turn of the loop of find_fit at the free block [b]. *)
Lemma find_fit_loop_step (s : state) (bl : list blk) (asize : Z) (b : blk)
      (fuel : nat) :
  geom W s bl -> tags_ok W s (mem s) bl -> In b bl -> bused b = false ->
  find_fit_loop W (S fuel) asize (baddr b) s
  = if asize <=? bsize b
    then (set_last_malloced_size (to_int asize) ;; ret (baddr b)) s
    else find_fit_loop W fuel asize (mem s (baddr b + W)) s.
Proof.
  intros Hg Ht Hb Hfree.
  pose proof (W_pos W HW) as HWp.
  destruct (geom_brk W HW _ _ Hg) as (Hlo & Hbrk8 & Hbrk & Hloal & Hbal).
  destruct (block_facts W HW s _ b Hg Hb)
    as (B1 & B2 & B3 & B4 & B5 & B6 & B7 & B8 & _).
  assert (Eh : mem s (baddr b - W) = bsize b).
  { destruct Ht as (Ht & _). destruct (Ht b Hb) as (E & _).
    rewrite E. unfold tag. rewrite Hfree. lia. }
  cbn [find_fit_loop]. unfold bind at 1.
  rewrite (HDRP_eq W HW) by lia.
  rewrite (GET_ALLOC_state W HW) by valid_tac. rewrite Eh.
  replace (alloc_bit (bsize b)) with 0.
  2:{ symmetry. replace (bsize b) with (bsize b + 0) by lia.
      apply (alloc_bit_tag W HW); [|left; reflexivity].
      apply Z.mod_divide; [lia | exact B8]. }
  change (0 =? 0) with true. cbv beta iota.
  unfold bind at 1.
  rewrite (GET_SIZE_state W HW) by valid_tac. rewrite Eh.
  rewrite (size_field_aligned W HW) by first [lia | apply Z.mod_divide; [lia | exact B8]].
  destruct (asize <=? bsize b); [reflexivity|].
  unfold bind, GET_NEXT_PTR, WSIZE. rewrite (wrap_small W (baddr b + W)) by lia.
  rewrite (GET_state W HW) by valid_tac. reflexivity.
Qed.

(** The loop of find_fit stops at the prologue, whose header reads
    allocated. *)
Lemma find_fit_loop_end (s : state) (bl : list blk) (asize : Z) (fuel : nat) :
  geom W s bl -> tags_ok W s (mem s) bl ->
  find_fit_loop W (S fuel) asize (sentinel W s) s = Ok NULL s.
Proof.
  intros Hg Ht.
  pose proof (W_pos W HW) as HWp.
  destruct (geom_brk W HW _ _ Hg) as (Hlo & Hbrk8 & Hbrk & Hloal & Hbal).
  cbn [find_fit_loop]. unfold bind, sentinel.
  rewrite (HDRP_eq W HW) by lia.
  rewrite (GET_ALLOC_state W HW) by valid_tac.
  replace (mem_start_brk s + 2 * W - W) with (mem_start_brk s + W) by lia.
  destruct Ht as (_ & _ & -> & _).
  rewrite (alloc_bit_tag W HW (2 * W) 1);
    [ | apply Z_mod_same_full | right; reflexivity].
  reflexivity.
Qed.

(** The loop passes the nodes that are too small and stops at the first
    one that is large enough. *)
Lemma find_fit_loop_first (s : state) (bl : list blk) (asize : Z)
      (b : blk) (fl2 : list Z) :
  geom W s bl -> tags_ok W s (mem s) bl ->
  In b bl -> bused b = false -> asize <= bsize b ->
  forall (fl1 : list Z) (fuel : nat) (prev cur : Z),
    chain W (mem s) (sentinel W s) prev cur (fl1 ++ baddr b :: fl2) ->
    (forall p, In p fl1 ->
       exists x, In x bl /\ bused x = false /\ baddr x = p /\ bsize x < asize) ->
    (length fl1 < fuel)%nat ->
    find_fit_loop W fuel asize cur s
    = (set_last_malloced_size (to_int asize) ;; ret (baddr b)) s.
Proof.
  intros Hg Ht Hb Hfree Hfit.
  induction fl1 as [|p fl1 IH]; intros fuel prev cur Hch Hsmall Hfuel;
    (destruct fuel as [|fuel]; [cbn [length] in Hfuel; lia|]);
    cbn [app chain] in Hch; destruct Hch as (-> & Hpv & Hch).
  - rewrite (find_fit_loop_step s bl asize b fuel Hg Ht Hb Hfree).
    replace (asize <=? bsize b) with true by (symmetry; apply Z.leb_le; exact Hfit).
    reflexivity.
  - destruct (Hsmall p (or_introl eq_refl)) as (x & Hx & Hxf & <- & Hlt).
    rewrite (find_fit_loop_step s bl asize x fuel Hg Ht Hx Hxf).
    replace (asize <=? bsize x) with false by (symmetry; apply Z.leb_gt; exact Hlt).
    apply (IH fuel (baddr x) _ Hch).
    + intros q Hq. apply Hsmall. right. exact Hq.
    + cbn [length] in Hfuel. lia.
Qed.

(** The loop passes a list whose nodes are all too small and returns
    NULL. *)
Lemma find_fit_loop_none (s : state) (bl : list blk) (asize : Z) :
  geom W s bl -> tags_ok W s (mem s) bl ->
  forall (fl : list Z) (fuel : nat) (prev cur : Z),
    chain W (mem s) (sentinel W s) prev cur fl ->
    (forall p, In p fl ->
       exists x, In x bl /\ bused x = false /\ baddr x = p /\ bsize x < asize) ->
    (length fl < fuel)%nat ->
    find_fit_loop W fuel asize cur s = Ok NULL s.
Proof.
  intros Hg Ht.
  induction fl as [|p fl IH]; intros fuel prev cur Hch Hsmall Hfuel;
    (destruct fuel as [|fuel]; [cbn [length] in Hfuel; lia|]);
    cbn [chain] in Hch.
  - subst cur. apply (find_fit_loop_end s bl asize fuel Hg Ht).
  - destruct Hch as (-> & Hpv & Hch).
    destruct (Hsmall p (or_introl eq_refl)) as (x & Hx & Hxf & <- & Hlt).
    rewrite (find_fit_loop_step s bl asize x fuel Hg Ht Hx Hxf).
    replace (asize <=? bsize x) with false by (symmetry; apply Z.leb_gt; exact Hlt).
    apply (IH fuel (baddr x) _ Hch).
    + intros q Hq. apply Hsmall. right. exact Hq.
    + cbn [length] in Hfuel. lia.
Qed.

(** The node [p] of the list is the block pointer of one free block. *)
Lemma listed_block (s : state) (bl : list blk) (fl : list Z) (x : blk) :
  heap_inv W s bl fl -> In x bl -> In (baddr x) fl -> bused x = false.
Proof.
  intros Hinv Hx Hp. apply (heap_inv_state W HW) in Hinv.
  destruct Hinv as (Hg & _ & _ & _ & Hiff).
  apply Hiff in Hp. destruct Hp as (sz & Hin).
  destruct Hg as (_ & _ & _ & _ & Hlay).
  rewrite <- (layout_same_addr W HW _ _ _ _ _ Hlay Hin Hx eq_refl). reflexivity.
Qed.

End Searching.

(** ** mm_malloc, with the heap it leaves *)

Section Allocating.

Variable W : Z.
Hypothesis HW : W = 4 \/ W = 8.
#[local] Set Default Proof Using "HW".

Ltac in_tac := cbn [In]; rewrite ?in_app_iff; cbn [In]; tauto.
Ltac valid_tac := apply (valid_intro W HW); [lia | lia | auto 10 with algn].
Ltac upd_tac := repeat (rewrite upd_same || (rewrite upd_other by lia)).

Lemma kept_same (bl : list blk) (s s' : state) :
  same_heap s s' -> kept W bl (mem s) (mem s').
Proof. intros (E & _) x a _ _ _. rewrite E. reflexivity. Qed.

Lemma found_kept_weaken (s : state) (bl : list blk) (sz sz' : Z) (o : outcome Z) :
  found_kept W s bl sz o -> sz' <= sz -> found_kept W s bl sz' o.
Proof.
  intros (s' & l1 & b & l2 & fl' & E & Hinv & Hf & Hsz & Hu & Hk & Hp) Hle.
  exists s', l1, b, l2, fl'.
  split; [exact E|]. split; [exact Hinv|]. split; [exact Hf|].
  split; [lia|]. auto.
Qed.

Lemma found_kept_same (s s1 : state) (bl : list blk) (sz : Z) (o : outcome Z) :
  same_heap s s1 -> found_kept W s1 bl sz o -> found_kept W s bl sz o.
Proof.
  intros (Em & _) (s' & l1 & b & l2 & fl' & E & Hinv & Hf & Hsz & Hu & Hk & Hp).
  exists s', l1, b, l2, fl'. rewrite <- Em. auto 10.
Qed.

(** extend_heap on a heap that satisfies the invariant, when the provider
    grants the request. *)
Lemma extend_heap_effect (s : state) (bl : list blk) (fl : list Z) (words : Z) :
  heap_inv W s bl fl ->
  4 * W <= extend_size W words ->
  0 <= to_intptr W (extend_size W words) ->
  mem_brk s + extend_size W words <= mem_max_addr s ->
  found_kept W s bl (extend_size W words) (extend_heap W words s).
Proof.
  intros Hinv Hmin Hpos Hfit. apply (heap_inv_state W HW) in Hinv.
  destruct Hinv as (Hg & (T1 & _ & T3 & T4) & Hl & Hn & Hiff).
  rewrite <- (with_heap_id s) at 2.
  destruct (extend_heap_merged W HW s (mem s) (free_list_start s) bl fl words
              Hg T1 T3 T4 Hl Hn Hiff Hmin Hpos Hfit)
    as (m3 & Hm3 & Hg3 & m' & bm & pre & post & rest & E & Hinv' & Hbmf & Hlo & Hhi
        & _ & Hused & Hfr & _ & _ & Hnfp & _).
  cbn [baddr bsize] in Hlo, Hhi.
  exists (with_heap m' (baddr bm) (set_brk (mem_brk s + extend_size W words) s)),
    pre, bm, post, (baddr bm :: rest).
  split; [exact E|]. split; [exact Hinv'|]. split; [exact Hbmf|].
  split; [lia|]. split; [|split].
  - rewrite Hused. unfold used_blocks. rewrite filter_app. cbn [filter bused].
    apply app_nil_r.
  - intros x a Hx Hu Ha. cbn [with_heap mem].
    assert (Hx3 : In x (bl ++ [mkBlk (mem_brk s) (extend_size W words) false]))
      by in_tac.
    rewrite Hfr by (apply (used_not_free_word W HW _ _ x a Hg3 Hx3 Hu Ha)).
    apply Hm3.
    destruct Hg as (_ & _ & _ & _ & Hlay).
    destruct (layout_in W HW _ _ _ _ Hlay Hx) as (_ & ? & _). lia.
  - intros Hp. apply (Hnfp Hp I).
Qed.

(** find_fit returns NULL and leaves the heap alone, or returns a free
    block of at least [asize] bytes. *)
Lemma find_fit_effect (s : state) (bl : list blk) (fl : list Z)
      (fuel : nat) (asize : Z) :
  heap_inv W s bl fl -> (2 * W | asize) -> 4 * W <= asize < 2 ^ 31 ->
  (length fl < fuel)%nat ->
  (exists s', find_fit W fuel asize s = Ok NULL s' /\ same_heap s s') \/
  found_kept W s bl asize (find_fit W fuel asize s).
Proof.
  intros Hinv Hd Hr Hfuel. pose proof (W_pos W HW) as HWp.
  unfold find_fit, get_last_malloced_size, get_repeat_counter, bind.
  assert (Hwalk : forall s1, same_heap s s1 ->
            (exists s', find_fit_walk W fuel asize s1 = Ok NULL s' /\ same_heap s s') \/
            found_kept W s bl asize (find_fit_walk W fuel asize s1)).
  { intros s1 Hs1.
    pose proof (heap_inv_same W HW _ _ _ _ Hs1 Hinv) as Hinv1.
    pose proof Hinv1 as Hinv1'.
    apply (heap_inv_state W HW) in Hinv1'.
    destruct Hinv1' as (Hg & Ht & Hl & Hn & Hiff).
    destruct (find_fit_loop_spec W HW s1 bl asize Hg Ht fl fuel 0 (free_list_start s1))
      as (r & s' & E & Hsame & Hr'); try assumption.
    { apply (lk_chain _ _ _ _ _ Hl). }
    { intros p Hp. apply Hiff. exact Hp. }
    unfold find_fit_walk, get_free_list_start, bind. rewrite E.
    pose proof (same_heap_trans W HW _ _ _ Hs1 Hsame) as Hs'.
    destruct Hr' as [-> | (b & Hb & Hfree & Hsz & ->)].
    - left. exists s'. auto.
    - right. destruct (in_split _ _ Hb) as (l1 & l2 & ->).
      exists s', l1, b, l2, fl.
      split; [reflexivity|].
      split; [apply (heap_inv_same W HW s); assumption|].
      split; [exact Hfree|]. split; [exact Hsz|]. split; [reflexivity|].
      split; [apply kept_same; exact Hs' | auto]. }
  destruct (last_malloced_size s =? to_int asize).
  - destruct (repeat_counter s >? 30).
    + set (words := wrap W (Z.quot (to_int (MAX asize (wrap W (4 * WSIZE W)))) 4)).
      assert (Esz : extend_size W words = asize * (W / 4))
        by (apply (extend_size_quarter W HW); assumption).
      pose proof (W_quarter W HW) as Hq.
      destruct (Z_lt_dec (to_intptr W (extend_size W words)) 0) as [Hneg | Hpos];
        [left; exists s; split;
          [apply (extend_heap_refused W HW); left; exact Hneg
          | apply (same_heap_refl W HW)]|].
      destruct (Z_lt_dec (mem_max_addr s) (mem_brk s + extend_size W words))
        as [Hbig | Hfit];
        [left; exists s; split;
          [apply (extend_heap_refused W HW); right; exact Hbig
          | apply (same_heap_refl W HW)]|].
      right. apply (found_kept_weaken s bl (extend_size W words)); [|rewrite Esz; nia].
      apply (extend_heap_effect s bl fl words Hinv); [rewrite Esz; nia | lia | lia].
    + unfold set_repeat_counter. apply Hwalk. repeat split.
  - unfold set_repeat_counter. apply Hwalk. repeat split.
Qed.

(** place on a free block of at least [asize] bytes marks its first
    [asize] bytes, or all of it, allocated; the blocks before it stay, and
    so do the allocated blocks after it. *)
Lemma place_effect (s : state) (l1 l2 : list blk) (b : blk) (fl : list Z)
      (asize : Z) :
  heap_inv W s (l1 ++ b :: l2) fl -> bused b = false ->
  (2 * W | asize) -> 4 * W <= asize <= bsize b ->
  exists s' sz post fl',
    place W (baddr b) asize s = Ok tt s' /\
    heap_inv W s' (l1 ++ mkBlk (baddr b) sz true :: post) fl' /\
    asize <= sz <= bsize b /\
    used_blocks post = used_blocks l2 /\
    kept W (l1 ++ b :: l2) (mem s) (mem s') /\
    (no_free_pair (l1 ++ b :: l2) ->
     no_free_pair (l1 ++ mkBlk (baddr b) sz true :: post)).
Proof.
  intros Hinv Hfree Hd Hr.
  assert (Hg : geom W s (l1 ++ b :: l2))
    by (apply (heap_inv_state W HW) in Hinv; apply Hinv).
  rewrite <- (with_heap_id s) in Hinv |- *.
  destruct (Z_lt_dec (bsize b - asize) (4 * W)) as [Hsmall | Hbig].
  - destruct (place_whole_effect W HW _ _ _ _ _ b _ asize Hinv Hfree)
      as (m' & f' & fl' & E & Hinv' & _ & Hfr); [lia | lia |].
    exists (with_heap m' f' s), (bsize b), l2, fl'.
    split; [exact E|]. split; [exact Hinv'|]. split; [lia|].
    split; [reflexivity|]. split.
    + apply (kept_frame W HW s); assumption.
    + intros Hp. destruct (no_free_pair_parts W HW _ _ _ Hp) as (Hp1 & Hp2).
      apply no_free_pair_one; auto.
  - destruct (place_split_effect W HW _ _ _ _ _ b _ asize Hinv Hfree Hd)
      as (m' & bm & post & rest & E & Hinv' & Hbmf & _ & _ & _ & Hused & Hfr & _
          & Hnfp & _); [lia | lia |].
    exists (with_heap m' (baddr bm) s), asize, (bm :: post), (baddr bm :: rest).
    split; [exact E|]. split; [exact Hinv'|]. split; [lia|].
    split; [|split; [|exact Hnfp]].
    + rewrite (used_blocks_cons_free W HW bm) by exact Hbmf. exact Hused.
    + apply (kept_frame W HW s); assumption.
Qed.

(** mm_malloc returns NULL and leaves the heap alone, which it does only
    when the provider cannot grow the region, or it returns a new allocated
    block with room for [size] bytes; the blocks allocated before stay
    allocated and keep their contents. *)
Lemma mm_malloc_effect (s : state) (bl : list blk) (fl : list Z)
      (fuel : nat) (size : Z) :
  heap_inv W s bl fl -> 0 < size -> size + 4 * W <= 2 ^ 31 ->
  (length fl < fuel)%nat ->
  exists r s' bl' fl',
    mm_malloc W fuel size s = Ok r s' /\ heap_inv W s' bl' fl' /\
    kept W bl (mem s) (mem s') /\
    (no_free_pair bl -> no_free_pair bl') /\
    ((r = NULL /\ same_heap s s' /\ bl' = bl /\ fl' = fl /\
      mem_max_addr s < mem_brk s + MAX (adjust_size W size) CHUNKSIZE) \/
     exists sz l1 post l0,
       size + 2 * W <= sz /\ bl' = l1 ++ mkBlk r sz true :: post /\
       used_blocks bl = used_blocks l1 ++ used_blocks l0 /\
       used_blocks post = used_blocks l0).
Proof.
  intros Hinv Hpos Hle Hfuel. unfold mm_malloc.
  replace (size =? 0) with false by (symmetry; apply Z.eqb_neq; lia).
  destruct (adjust_size_bounds W HW size) as (Hd & Hr & Hroom); [lia | lia |].
  set (asize := adjust_size W size) in *.
  assert (Hplace : forall o, found_kept W s bl asize o ->
            exists b1 s1 s' bl' fl',
              o = Ok (baddr b1) s1 /\ (baddr b1 =? NULL) = false /\
              place W (baddr b1) asize s1 = Ok tt s' /\
              heap_inv W s' bl' fl' /\
              kept W bl (mem s) (mem s') /\
              (no_free_pair bl -> no_free_pair bl') /\
              exists sz l1 post l0,
                size + 2 * W <= sz /\ bl' = l1 ++ mkBlk (baddr b1) sz true :: post /\
                used_blocks bl = used_blocks l1 ++ used_blocks l0 /\
                used_blocks post = used_blocks l0).
  { intros o (s1 & l1 & b1 & l2 & fl1 & -> & Hinv1 & Hfree1 & Hsz1 & Hused1 & Hk1 & Hp1).
    destruct (place_effect s1 l1 l2 b1 fl1 asize Hinv1 Hfree1 Hd)
      as (s2 & sz & post & fl2 & E & Hinv2 & Hsz2 & Hused2 & Hk2 & Hp2); [lia|].
    assert (Hg1 : geom W s1 (l1 ++ b1 :: l2))
      by (apply (heap_inv_state W HW) in Hinv1; apply Hinv1).
    assert (Hb1 : In b1 (l1 ++ b1 :: l2)) by in_tac.
    destruct (block_facts W HW _ _ _ Hg1 Hb1) as (? & _).
    pose proof (W_pos W HW).
    exists b1, s1, s2, (l1 ++ mkBlk (baddr b1) sz true :: post), fl2.
    split; [reflexivity|].
    split; [apply Z.eqb_neq; unfold NULL; lia|].
    split; [exact E|]. split; [exact Hinv2|].
    split; [|split; [auto|]].
    - apply (kept_trans W HW bl (l1 ++ b1 :: l2) _ _ _ Hk1 Hk2).
      intros x Hx. rewrite Hused1. exact Hx.
    - exists sz, l1, post, l2. split; [lia|]. split; [reflexivity|].
      split; [|exact Hused2].
      rewrite <- Hused1, (used_blocks_app W HW).
      rewrite (used_blocks_cons_free W HW b1) by exact Hfree1. reflexivity. }
  unfold bind at 1.
  destruct (find_fit_effect s bl fl fuel asize Hinv Hd Hr Hfuel)
    as [(s1 & E & Hsame) | Hf].
  - rewrite E. change (negb (NULL =? NULL)) with false. cbv iota.
    pose proof (heap_inv_same W HW _ _ _ _ Hsame Hinv) as Hinv1.
    destruct (chunk_words W HW asize Hd Hr) as (Ews & Hge & Hmin).
    unfold bind.
    assert (Hpos' : 0 <= to_intptr W (MAX asize CHUNKSIZE)).
    { rewrite (to_intptr_small W HW); [lia|].
      split; [lia|]. unfold MAX. change CHUNKSIZE with 4096.
      destruct (asize >? 4096); [lia|]. change (2 ^ 31) with 2147483648. lia. }
    destruct Hsame as (Em & Elo & Ebrk & Emax & Efl) eqn:Hsame'. clear Hsame'.
    destruct (Z_lt_dec (mem_max_addr s1) (mem_brk s1 + MAX asize CHUNKSIZE))
      as [Hbig | Hfit].
    + rewrite (extend_heap_refused W HW) by (right; rewrite Ews; exact Hbig).
      change (NULL =? NULL) with true. cbv iota.
      exists NULL, s1, bl, fl. split; [reflexivity|]. split; [exact Hinv1|].
      split; [intros x a _ _ _; rewrite Em; reflexivity|].
      split; [auto|]. left.
      split; [reflexivity|]. split; [repeat split; assumption|].
      split; [reflexivity|]. split; [reflexivity|]. lia.
    + assert (Hf1 : found_kept W s bl asize
                (extend_heap W (MAX asize CHUNKSIZE / WSIZE W) s1)).
      { apply (found_kept_same s s1); [repeat split; assumption|].
        apply (found_kept_weaken s1 bl (MAX asize CHUNKSIZE)); [|exact Hge].
        pose proof (extend_heap_effect s1 bl fl (MAX asize CHUNKSIZE / WSIZE W) Hinv1)
          as H.
        rewrite Ews in H. apply H; lia. }
      destruct (Hplace _ Hf1)
        as (b1 & s2 & s' & bl' & fl' & Eo & Hnn & E2 & Hinv' & Hk & Hp & Hnew).
      rewrite Eo, Hnn, E2. cbv iota.
      exists (baddr b1), s', bl', fl'. unfold ret. auto 10.
  - destruct (Hplace _ Hf)
      as (b1 & s2 & s' & bl' & fl' & Eo & Hnn & E2 & Hinv' & Hk & Hp & Hnew).
    rewrite Eo, Hnn. cbn [negb]. unfold bind. rewrite E2.
    exists (baddr b1), s', bl', fl'. unfold ret. auto 10.
Qed.

End Allocating.

(** ** mm_free, mm_init and mm_realloc, with the heap they leave *)

Section Releasing.

Variable W : Z.
Hypothesis HW : W = 4 \/ W = 8.
#[local] Set Default Proof Using "HW".

Ltac in_tac := cbn [In]; rewrite ?in_app_iff; cbn [In]; tauto.
Ltac valid_tac := apply (valid_intro W HW); [lia | lia | auto 10 with algn].
Ltac upd_tac := repeat (rewrite upd_same || (rewrite upd_other by lia)).

Lemma allocated_used (bl : list blk) (p : Z) :
  allocated bl p <-> exists sz, In (mkBlk p sz true) (used_blocks bl).
Proof.
  unfold allocated. split; intros (sz & H); exists sz.
  - apply filter_In. auto.
  - apply filter_In in H. apply H.
Qed.

(** The allocated blocks around a block. *)
Lemma allocated_around (p0 q0 : Z) (l1 l2 : list blk) (b : blk) (p : Z) :
  layout W p0 q0 (l1 ++ b :: l2) ->
  (exists sz, In (mkBlk p sz true) (used_blocks l1 ++ used_blocks l2)) <->
  allocated (l1 ++ b :: l2) p /\ p <> baddr b.
Proof.
  intros Hlay. rewrite <- (used_blocks_app W HW), <- allocated_used.
  change (b :: l2) with ([b] ++ l2) in *.
  split.
  - intros (sz & Hin). split; [exists sz; revert Hin; in_tac|].
    apply (layout_parts_disjoint W HW _ _ _ _ _ (mkBlk p sz true) b Hlay Hin).
    in_tac.
  - intros ((sz & Hin) & Hne). exists sz.
    rewrite !in_app_iff in Hin. cbn [In] in Hin.
    destruct Hin as [H | [[H | []] | H]]; try in_tac.
    exfalso. apply Hne. rewrite H. reflexivity.
Qed.

(** mm_free on an allocated block: the block is merged with its free
    neighbours into a free block at the head of the list; the other
    allocated blocks stay, with their contents. *)
Lemma mm_free_effect (s : state) (l1 l2 : list blk) (b : blk) (fl : list Z) :
  heap_inv W s (l1 ++ b :: l2) fl -> bused b = true ->
  exists s' pre bm post rest,
    mm_free W (baddr b) s = Ok tt s' /\
    heap_inv W s' (pre ++ bm :: post) (baddr bm :: rest) /\
    bused bm = false /\
    baddr bm <= baddr b /\ baddr b + bsize b <= baddr bm + bsize bm /\
    (forall p, In p rest -> In p fl) /\
    used_blocks (pre ++ bm :: post) = used_blocks l1 ++ used_blocks l2 /\
    kept W (l1 ++ l2) (mem s) (mem s') /\
    (ends_used l1 -> pre = l1 /\ baddr bm = baddr b) /\
    (starts_used l2 -> post = l2 /\ baddr bm + bsize bm = baddr b + bsize b) /\
    (no_free_pair (l1 ++ b :: l2) -> no_free_pair (pre ++ bm :: post)) /\
    last_malloced_size s' = last_malloced_size s /\
    repeat_counter s' = repeat_counter s /\
    (forall l0 pb, l1 = l0 ++ [pb] -> bused pb = false ->
       pre = l0 /\ baddr bm = baddr pb) /\
    (forall nb l3, l2 = nb :: l3 -> bused nb = false ->
       post = l3 /\ baddr bm + bsize bm = baddr nb + bsize nb).
Proof.
  intros Hinv Hu. rewrite <- (with_heap_id s) in Hinv |- *.
  destruct (mm_free_merged W HW s (mem s) (free_list_start s) l1 l2 b fl Hinv Hu)
    as (r & s' & Hg0 & Hm & E).
  destruct Hm as (m' & bm & pre & post & rest & Eo & Hinv' & Hbmf & Hlo & Hhi & Hrest
                  & Hused & Hfr & Hends & Hstarts & Hnfp & Hprev & Hnext).
  injection Eo as -> ->.
  cbn [baddr bsize] in *.
  exists (with_heap m' (baddr bm) s), pre, bm, post, rest.
  split; [exact E|]. split; [exact Hinv'|]. split; [exact Hbmf|].
  split; [exact Hlo|]. split; [exact Hhi|]. split; [exact Hrest|].
  split; [|split; [|split; [exact Hends | split; [exact Hstarts |
          split; [|split; [|split; [|split; [exact Hprev | exact Hnext]]]]]]]].
  - rewrite Hused, (used_blocks_app W HW).
    rewrite (used_blocks_cons_free W HW) by reflexivity. reflexivity.
  - intros x a Hx Hxu Ha. cbn [with_heap mem]. apply Hfr.
    apply (used_not_free_word W HW s _ x a Hg0); [revert Hx; in_tac | exact Hxu | exact Ha].
  - intros Hp. destruct (no_free_pair_parts W HW _ _ _ Hp) as (Hp1 & Hp2). auto.
  - reflexivity.
  - reflexivity.
Qed.

(** mm_init on a region that is still empty and can grow by twelve words
    sets up a heap of one free block of four words. *)
Lemma mm_init_heap (s0 : state) :
  fresh_region W s0 ->
  mem_start_brk s0 + 12 * W <= mem_max_addr s0 ->
  exists s',
    mm_init W s0 = Ok 0 s' /\
    heap_inv W s' [mkBlk (mem_start_brk s0 + 8 * W) (4 * W) false]
      [mem_start_brk s0 + 8 * W] /\
    mem_start_brk s' = mem_start_brk s0 /\
    mem_brk s' = mem_start_brk s0 + 12 * W /\
    mem_max_addr s' = mem_max_addr s0 /\
    heap_listp s' = mem_start_brk s0.
Proof.
  intros (Hempty & Hlo & Hal & Hmax & Hgap) Hroom.
  pose proof (W_pos W HW) as HWp. pose proof (modulus_large W HW) as Hml.
  destruct (mm_init_eval W HW s0 Hempty Hlo Hal Hmax) as (Hv & E0); [lia|].
  rewrite E0. clear E0.
  set (lo := mem_start_brk s0) in *.
  set (s2 := mkState (mem s0) lo (lo + 8 * W) (mem_max_addr s0) lo
                     (free_list_start s0) (last_malloced_size s0)
                     (repeat_counter s0)) in *.
  set (m4 := upd (upd (upd (upd (mem s0) lo 0) (lo + W) (2 * W + 1))
                      (lo + 2 * W) (2 * W + 1)) (lo + 3 * W) 1).
  assert (Hg : geom W s2 []).
  { unfold geom, first_block. cbn [s2 mem_start_brk mem_brk mem_max_addr layout].
    repeat split; try assumption; lia. }
  assert (Hl : linked W s2 m4 (lo + 2 * W) []).
  { constructor; cbn [chain In]; try tauto.
    - constructor.
    - intros a b [].
    - apply (Hv 2). lia. }
  destruct (extend_heap_merged W HW s2 m4 (lo + 2 * W) [] [] 4 Hg)
    as (m3 & _ & _ & m' & bm & pre & post & rest & E & Hinv' & Hbmf & _ & _ & Hrest
        & _ & _ & Hends & Hstarts & _);
    try assumption.
  { intros b []. }
  { cbn [s2 mem_start_brk]. unfold m4. upd_tac. reflexivity. }
  { cbn [s2 mem_start_brk]. unfold m4. upd_tac. exact Hgap. }
  { intros p []. }
  { intros p. cbn [In]. split; [tauto | intros (? & [])]. }
  { rewrite (extend_size_4 W HW). lia. }
  { rewrite (extend_size_4 W HW), (to_intptr_small W HW); lia. }
  { rewrite (extend_size_4 W HW). cbn [s2 mem_brk mem_max_addr]. lia. }
  destruct (Hends ends_used_nil) as (-> & Eaddr).
  destruct (Hstarts starts_used_nil) as (-> & Esize).
  rewrite (extend_size_4 W HW) in *.
  cbn [baddr bsize s2 mem_brk] in Eaddr, Esize.
  assert (Ebm : bm = mkBlk (lo + 8 * W) (4 * W) false).
  { rewrite (blk_eta W HW bm), Hbmf, Eaddr. f_equal. lia. }
  assert (Erest : rest = []).
  { destruct rest as [|q rest]; [reflexivity|].
    destruct (Hrest q (or_introl eq_refl)). }
  subst rest. rewrite Ebm in *. cbn [baddr app] in *.
  eexists. split; [|split; [exact Hinv'|]].
  - unfold bind. rewrite E.
    replace (lo + 8 * W =? NULL) with false; [reflexivity|].
    symmetry. apply Z.eqb_neq. unfold NULL. lia.
  - cbn [with_heap set_brk s2 mem_start_brk mem_brk mem_max_addr heap_listp].
    repeat split. lia.
Qed.

End Releasing.

(** ** Further invariants of the states between public operations *)

Section Tidy.

Variable W : Z.
Hypothesis HW : W = 4 \/ W = 8.
#[local] Set Default Proof Using "HW".

Ltac in_tac := cbn [In]; rewrite ?in_app_iff; cbn [In]; tauto.
Ltac valid_tac := apply (valid_intro W HW); [lia | lia | auto 10 with algn].
Ltac upd_tac := repeat (rewrite upd_same || (rewrite upd_other by lia)).

Lemma in_remove_iff (l : list Z) (p q : Z) :
  In q (remove Z.eq_dec p l) <-> In q l /\ q <> p.
Proof.
  split; [apply in_remove | intros (H1 & H2); apply in_in_remove; assumption].
Qed.

Lemma NoDup_remove_all (l : list Z) (p : Z) :
  NoDup l -> NoDup (remove Z.eq_dec p l).
Proof.
  induction 1 as [|x l Hx Hnd IH]; [constructor|].
  cbn [remove]. destruct (Z.eq_dec p x); [exact IH|].
  constructor; [|exact IH].
  intros Hc. apply in_remove in Hc. tauto.
Qed.

(** mm_realloc served in place: the allocated blocks stay where they are,
    except that a size of zero frees the block. *)
Lemma mm_realloc_in_place_effect (s : state) (bl : list blk) (fl : list Z)
      (b : blk) (fuel : nat) (size : Z) :
  heap_inv W s bl fl -> In b bl -> bused b = true ->
  0 <= size < modulus W ->
  realloc_in_place W s (baddr b) size = true ->
  exists r s' bl' fl',
    mm_realloc W fuel (baddr b) size s = Ok r s' /\ heap_inv W s' bl' fl' /\
    (no_free_pair bl -> no_free_pair bl') /\
    forall p, allocated bl' p <->
              allocated bl p /\ (to_int size = 0 -> p <> baddr b).
Proof.
  intros Hinv Hb Hu Hsize Hplace.
  destruct (in_split _ _ Hb) as (l1 & l2 & Ebl). subst bl.
  destruct (Z_lt_dec (to_int size) 0) as [Hneg | Hnneg].
  { exists NULL, s, (l1 ++ b :: l2), fl. unfold mm_realloc.
    replace (to_int size <? 0) with true by (symmetry; apply Z.ltb_lt; lia).
    unfold ret. split; [reflexivity|]. split; [exact Hinv|]. split; [auto|].
    intros p. split; [intros H; split; [exact H | lia] | tauto]. }
  pose proof Hinv as Hinv0. apply (heap_inv_state W HW) in Hinv.
  destruct Hinv as (Hg & Ht & Hl & Hn & Hiff).
  assert (Hlay : layout W (first_block W s) (mem_brk s) (l1 ++ b :: l2)) by apply Hg.
  destruct (Z.eq_dec (to_int size) 0) as [Hzero | Hnz].
  { destruct (mm_free_effect W HW s l1 l2 b fl Hinv0 Hu)
      as (s' & pre & bm & post & rest & E & Hinv' & _ & _ & _ & _ & Hused & _ & _ & _
          & Hnfp & _).
    exists NULL, s', (pre ++ bm :: post), (baddr bm :: rest). unfold mm_realloc.
    replace (to_int size <? 0) with false by (symmetry; apply Z.ltb_ge; lia).
    rewrite Hzero. change (0 =? 0) with true. cbv iota.
    unfold bind. rewrite E. unfold ret.
    split; [reflexivity|]. split; [exact Hinv'|]. split; [exact Hnfp|].
    intros p. rewrite (allocated_used W HW), Hused.
    rewrite (allocated_around W HW _ _ l1 l2 b p Hlay). tauto. }
  assert (Hint : 0 < to_int size) by lia.
  assert (Hsp : 0 < size).
  { destruct (Z.eq_dec size 0) as [-> | ?]; [exfalso; apply Hnz; reflexivity | lia]. }
  destruct (block_facts W HW s _ b Hg Hb)
    as (B1 & B2 & B3 & B4 & B5 & B6 & B7 & B8 & B9).
  destruct (block_here W HW s (mem s) l1 l2 b Hg Ht) as (Eh & Ef & En & _ & Hl2).
  pose proof (modulus_large W HW) as Hml.
  assert (Hsz1 : size_field W (mem s (baddr b - W)) = bsize b).
  { rewrite Eh. apply (tag_size W HW); assumption. }
  unfold realloc_in_place in Hplace. rewrite Hsz1, En in Hplace.
  replace (to_int size <=? 0) with false in Hplace by (symmetry; apply Z.leb_gt; lia).
  cbn [orb] in Hplace.
  destruct (wrap W (size + 2 * W) <=? bsize b) eqn:Hshrink.
  { exists (baddr b), s, (l1 ++ b :: l2), fl.
    split; [|split; [exact Hinv0 | split; [auto | intros p; tauto]]].
    unfold mm_realloc.
    replace (to_int size <? 0) with false by (symmetry; apply Z.ltb_ge; lia).
    replace (to_int size =? 0) with false by (symmetry; apply Z.eqb_neq; lia).
    replace (size >? 0) with true by (symmetry; rewrite Z.gtb_ltb; apply Z.ltb_lt; lia).
    unfold bind. rewrite (HDRP_eq W HW) by lia.
    rewrite (GET_SIZE_state W HW) by valid_tac. rewrite Hsz1.
    unfold WSIZE. rewrite (wrap_small W (2 * W)) by lia.
    rewrite Hshrink. reflexivity. }
  cbn [orb] in Hplace. apply andb_true_iff in Hplace.
  destruct Hplace as (Hna & Hfit). apply Z.eqb_eq in Hna. apply Z.leb_le in Hfit.
  apply Z.leb_gt in Hshrink.
  destruct l2 as [|nb l2]; cbn [next_tag] in Hna, Hfit.
  { discriminate Hna. }
  assert (Hnb : In nb (l1 ++ b :: nb :: l2)) by in_tac.
  destruct (block_facts W HW s _ nb Hg Hnb)
    as (N1 & N2 & N3 & N4 & N5 & N6 & N7 & N8 & _).
  rewrite (tag_alloc W HW) in Hna by assumption.
  rewrite (tag_size W HW) in Hfit by assumption.
  assert (Hnfree : bused nb = false) by (destruct (bused nb); [discriminate Hna | reflexivity]).
  rewrite <- (with_heap_id s) in Hinv0 |- *.
  destruct (mm_realloc_absorb_heap W HW s (mem s) (free_list_start s) l1 l2 b nb fl
              fuel size Hinv0 Hu Hnfree Hsize Hint)
    as (m' & f' & fl' & E & Hinv' & _); [lia|].
  exists (baddr b), (with_heap m' f' s),
    (l1 ++ mkBlk (baddr b) (bsize b + bsize nb) true :: l2), fl'.
  split; [exact E|]. split; [exact Hinv'|]. split.
  - intros Hp. destruct (no_free_pair_parts W HW _ _ _ Hp) as (Hp1 & Hp2).
    apply no_free_pair_one; [exact Hp1 | apply (no_free_pair_tail nb), Hp2 |].
    left. reflexivity.
  - intros p. split.
    + intros (sz & Hin). split; [|intros Hc; lia].
      rewrite in_app_iff in Hin. cbn [In] in Hin.
      destruct Hin as [H | [H | H]].
      * exists sz. in_tac.
      * exists (bsize b).
        replace p with (baddr b) by (injection H as <- _; reflexivity).
        rewrite <- Hu, <- (blk_eta W HW). in_tac.
      * exists sz. in_tac.
    + intros ((sz & Hin) & _).
      rewrite in_app_iff in Hin. cbn [In] in Hin.
      destruct Hin as [H | [H | [H | H]]].
      * exists sz. in_tac.
      * exists (bsize b + bsize nb).
        replace p with (baddr b) by (rewrite H; reflexivity). in_tac.
      * rewrite H in Hnfree. discriminate Hnfree.
      * exists sz. in_tac.
Qed.

(** In every state between public operations the heap satisfies the
    invariant, no two free blocks are neighbours, and the pointers handed
    out and not freed are the allocated blocks, each once. *)
Lemma reachable_tidy (s : state) (L : list Z) :
  reachable W s L ->
  exists bl fl, heap_inv W s bl fl /\ no_free_pair bl /\ NoDup L /\
                forall p, In p L <-> allocated bl p.
Proof.
  induction 1 as [s0 s Hfresh E
                 | s L fuel size p s' Hreach IH Hpos Hle E
                 | s L p s' Hreach IH Hp E
                 | s L fuel bp size r s' Hreach IH Hbp Hsize Hplace E].
  - pose proof Hfresh as (Hempty & Hlo & Hal & Hmax & Hgap).
    pose proof (mm_init_room W HW s0 s Hempty Hlo Hal Hmax E) as Hroom.
    destruct (mm_init_heap W HW s0 Hfresh Hroom) as (s1 & E1 & Hinv & _).
    rewrite E1 in E. injection E as <-.
    eexists _, _. split; [exact Hinv|].
    split; [cbn; auto|]. split; [constructor|].
    intros p. split; [intros [] | intros (sz & [H | []]); discriminate H].
  - destruct IH as (bl & fl & Hinv & Hnfp & Hnd & HL).
    destruct (Z.eq_dec size 0) as [-> | Hnz].
    { unfold mm_malloc in E. change (0 =? 0) with true in E. cbv iota in E.
      unfold ret in E. injection E as <- <-. change (NULL =? NULL) with true.
      cbv iota. exists bl, fl. auto. }
    destruct (mm_malloc_effect W HW s bl fl (Nat.max fuel (S (length fl))) size
                Hinv)
      as (r & s1 & bl' & fl' & E1 & Hinv' & _ & Hnfp' & Hnew); [lia | lia | lia |].
    rewrite (mm_malloc_mono W HW fuel _ size s p s' (Nat.le_max_l _ _) E) in E1.
    injection E1 as <- <-.
    exists bl', fl'. split; [exact Hinv'|]. split; [auto|].
    destruct Hnew as [(-> & _ & -> & _) | (sz & l1 & post & l0 & Hsz & -> & Hu & Hu')].
    { change (NULL =? NULL) with true. cbv iota. auto. }
    assert (Hg' : geom W s' (l1 ++ mkBlk p sz true :: post))
      by (apply (heap_inv_state W HW) in Hinv'; apply Hinv').
    assert (Hin' : In (mkBlk p sz true) (l1 ++ mkBlk p sz true :: post)) by in_tac.
    destruct (block_facts W HW _ _ _ Hg' Hin') as (Hp1 & _).
    cbn [baddr] in Hp1. pose proof (W_pos W HW) as HWp.
    replace (p =? NULL) with false by (symmetry; apply Z.eqb_neq; unfold NULL; lia).
    assert (Hall : forall q, allocated (l1 ++ mkBlk p sz true :: post) q <->
                             q = p \/ allocated bl q).
    { intros q. rewrite !(allocated_used W HW), Hu, (used_blocks_app W HW).
      cbn [used_blocks filter bused]. fold (used_blocks post). rewrite Hu'.
      split.
      - intros (sz' & Hin). rewrite in_app_iff in Hin. cbn [In] in Hin.
        destruct Hin as [H | [H | H]].
        + right. exists sz'. in_tac.
        + left. injection H as -> _. reflexivity.
        + right. exists sz'. in_tac.
      - intros [-> | (sz' & Hin)]; [exists sz; in_tac|].
        exists sz'. revert Hin. in_tac. }
    assert (Hfresh : ~ allocated bl p).
    { rewrite (allocated_used W HW), Hu, <- Hu', <- (used_blocks_app W HW).
      intros (sz' & Hin). apply filter_In in Hin. destruct Hin as (Hin & _).
      destruct Hg' as (_ & _ & _ & _ & Hlay').
      change (mkBlk p sz true :: post) with ([mkBlk p sz true] ++ post) in Hlay'.
      apply (layout_parts_disjoint W HW _ _ _ _ _ (mkBlk p sz' true)
               (mkBlk p sz true) Hlay' Hin); [in_tac | reflexivity]. }
    split.
    + constructor; [|exact Hnd]. intros Hc. apply Hfresh, HL, Hc.
    + intros q. rewrite Hall. cbn [In]. rewrite HL. split; intros [H | H]; auto.
  - destruct IH as (bl & fl & Hinv & Hnfp & Hnd & HL).
    destruct (allocated_block W HW _ _ (proj1 (HL p) Hp)) as (b & Hb & Hu & <-).
    destruct (in_split _ _ Hb) as (l1 & l2 & ->).
    assert (Hlay : layout W (first_block W s) (mem_brk s) (l1 ++ b :: l2))
      by (apply (heap_inv_state W HW) in Hinv; apply Hinv).
    destruct (mm_free_effect W HW s l1 l2 b fl Hinv Hu)
      as (s1 & pre & bm & post & rest & E1 & Hinv' & _ & _ & _ & _ & Hused & _ & _ & _
          & Hnfp' & _).
    rewrite E1 in E. injection E as <-.
    eexists _, _. split; [exact Hinv'|]. split; [auto|].
    split; [apply NoDup_remove_all; exact Hnd|].
    intros q. rewrite in_remove_iff, HL.
    rewrite (allocated_used W HW (pre ++ bm :: post)), Hused.
    rewrite (allocated_around W HW _ _ l1 l2 b q Hlay). tauto.
  - destruct IH as (bl & fl & Hinv & Hnfp & Hnd & HL).
    destruct (allocated_block W HW _ _ (proj1 (HL bp) Hbp)) as (b & Hb & Hu & <-).
    destruct (mm_realloc_in_place_effect s bl fl b fuel size Hinv Hb Hu Hsize Hplace)
      as (r1 & s1 & bl' & fl' & E1 & Hinv' & Hnfp' & Hall).
    rewrite E1 in E. injection E as <- <-.
    exists bl', fl'. split; [exact Hinv'|]. split; [auto|].
    destruct (to_int size =? 0) eqn:Hz.
    + apply Z.eqb_eq in Hz. split; [apply NoDup_remove_all; exact Hnd|].
      intros q. rewrite in_remove_iff, HL, Hall. tauto.
    + apply Z.eqb_neq in Hz. split; [exact Hnd|].
      intros q. rewrite HL, Hall. tauto.
Qed.

(** A row of calls of mm_malloc leads from a state between public
    operations to another one. *)
Lemma reachable_repeat_malloc (fuel : nat) (size : Z) (n : nat) :
  0 <= size -> size + 4 * W <= 2 ^ 31 ->
  forall s L r s',
    reachable W s L ->
    repeat_call n (mm_malloc W fuel size) s = Ok r s' ->
    exists L', reachable W s' L'.
Proof.
  intros Hpos Hle. induction n as [|n IH]; intros s L r s' Hreach E.
  - cbn [repeat_call] in E. injection E as _ <-. exists L. exact Hreach.
  - cbn [repeat_call] in E. unfold bind in E.
    destruct (mm_malloc W fuel size s) as [p s1| |] eqn:E1; try discriminate E.
    apply (IH s1 _ r s' (reach_malloc W s L fuel size p s1 Hreach Hpos Hle E1) E).
Qed.

End Tidy.

(** ** find_fit with its counters *)

Section FirstFit.

Variable W : Z.
Hypothesis HW : W = 4 \/ W = 8.
#[local] Set Default Proof Using "HW".

Ltac in_tac := cbn [In]; rewrite ?in_app_iff; cbn [In]; tauto.
Ltac valid_tac := apply (valid_intro W HW); [lia | lia | auto 10 with algn].
Ltac upd_tac := repeat (rewrite upd_same || (rewrite upd_other by lia)).

(** Unless the repeat counter sends it to extend_heap, find_fit is the
    list walk in a state that differs in the counter only. *)
Lemma find_fit_walks (s : state) (fuel : nat) (asize : Z) :
  last_malloced_size s <> to_int asize \/ repeat_counter s <= 30 ->
  exists s1, same_heap s s1 /\
             last_malloced_size s1 = last_malloced_size s /\
             find_fit W fuel asize s
             = find_fit_loop W fuel asize (free_list_start s1) s1.
Proof.
  intros Hc. unfold find_fit, get_last_malloced_size, get_repeat_counter, bind.
  destruct (last_malloced_size s =? to_int asize) eqn:Hl.
  - apply Z.eqb_eq in Hl.
    replace (repeat_counter s >? 30) with false
      by (symmetry; rewrite Z.gtb_ltb; apply Z.ltb_ge; lia).
    unfold set_repeat_counter, find_fit_walk, get_free_list_start, bind.
    eexists. split; [|split]; [| |reflexivity]; [repeat split | reflexivity].
  - unfold set_repeat_counter, find_fit_walk, get_free_list_start, bind.
    eexists. split; [|split]; [| |reflexivity]; [repeat split | reflexivity].
Qed.

(** First fit: find_fit returns the first node of the list, in list order,
    whose block has at least [asize] bytes. *)
Lemma find_fit_takes_first (s : state) (bl : list blk) (fl : list Z)
      (fuel : nat) (asize : Z) (fl1 fl2 : list Z) (b : blk) :
  heap_inv W s bl fl ->
  last_malloced_size s <> to_int asize \/ repeat_counter s <= 30 ->
  fl = fl1 ++ baddr b :: fl2 -> In b bl -> asize <= bsize b ->
  (forall x, In x bl -> In (baddr x) fl1 -> bsize x < asize) ->
  (length fl1 < fuel)%nat ->
  exists s', find_fit W fuel asize s = Ok (baddr b) s' /\ same_heap s s' /\
             last_malloced_size s' = to_int asize.
Proof.
  intros Hinv Hc -> Hb Hfit Hsmall Hfuel.
  destruct (find_fit_walks s fuel asize Hc) as (s1 & Hs1 & _ & ->).
  pose proof (heap_inv_same W HW _ _ _ _ Hs1 Hinv) as Hinv1.
  pose proof (listed_block W HW s1 bl _ b Hinv1 Hb ltac:(in_tac)) as Hfree.
  pose proof Hinv1 as Hinv1'. apply (heap_inv_state W HW) in Hinv1'.
  destruct Hinv1' as (Hg & Ht & Hl & Hn & Hiff).
  rewrite (find_fit_loop_first W HW s1 bl asize b fl2 Hg Ht Hb Hfree Hfit fl1 fuel 0
             (free_list_start s1)).
  - unfold set_last_malloced_size, ret, bind. eexists. split; [reflexivity|].
    destruct Hs1 as (? & ? & ? & ? & ?). repeat split; assumption.
  - apply (lk_chain _ _ _ _ _ Hl).
  - intros p Hp.
    assert (Hp' : In p (fl1 ++ baddr b :: fl2)) by (revert Hp; in_tac).
    apply Hiff in Hp'. destruct Hp' as (sz & Hin).
    exists (mkBlk p sz false). split; [exact Hin|]. split; [reflexivity|].
    split; [reflexivity|]. apply (Hsmall _ Hin). exact Hp.
  - exact Hfuel.
Qed.

(** find_fit returns NULL when every free block is too small. *)
Lemma find_fit_none (s : state) (bl : list blk) (fl : list Z)
      (fuel : nat) (asize : Z) :
  heap_inv W s bl fl ->
  last_malloced_size s <> to_int asize \/ repeat_counter s <= 30 ->
  (forall x, In x bl -> bused x = false -> bsize x < asize) ->
  (length fl < fuel)%nat ->
  exists s', find_fit W fuel asize s = Ok NULL s' /\ same_heap s s' /\
             last_malloced_size s' = last_malloced_size s.
Proof.
  intros Hinv Hc Hsmall Hfuel.
  destruct (find_fit_walks s fuel asize Hc) as (s1 & Hs1 & El & ->).
  pose proof (heap_inv_same W HW _ _ _ _ Hs1 Hinv) as Hinv1.
  apply (heap_inv_state W HW) in Hinv1.
  destruct Hinv1 as (Hg & Ht & Hl & Hn & Hiff).
  rewrite (find_fit_loop_none W HW s1 bl asize Hg Ht fl fuel 0 (free_list_start s1)).
  - exists s1. auto.
  - apply (lk_chain _ _ _ _ _ Hl).
  - intros p Hp. apply Hiff in Hp. destruct Hp as (sz & Hin).
    exists (mkBlk p sz false). split; [exact Hin|]. split; [reflexivity|].
    split; [reflexivity|]. apply (Hsmall _ Hin). reflexivity.
  - exact Hfuel.
Qed.

(** The first node of a list of free blocks that is large enough, if there
    is one. *)
Lemma first_fit_split (p0 q0 : Z) (bl : list blk) (asize : Z) (fl : list Z) :
  layout W p0 q0 bl ->
  (forall p, In p fl -> exists sz, In (mkBlk p sz false) bl) ->
  (forall x, In x bl -> In (baddr x) fl -> bsize x < asize) \/
  (exists fl1 fl2 b,
     fl = fl1 ++ baddr b :: fl2 /\ In b bl /\ asize <= bsize b /\
     forall x, In x bl -> In (baddr x) fl1 -> bsize x < asize).
Proof.
  intros Hlay. induction fl as [|p fl IH]; intros Hfl.
  - left. intros x _ [].
  - destruct (Hfl p (or_introl eq_refl)) as (sz & Hin).
    destruct (Z_lt_dec sz asize) as [Hlt | Hge].
    + assert (Hp : forall x, In x bl -> baddr x = p -> bsize x < asize).
      { intros x Hx E.
        rewrite (layout_same_addr W HW _ _ _ _ _ Hlay Hx Hin E). exact Hlt. }
      destruct IH as [Hall | (fl1 & fl2 & b & -> & Hb & Hfit & Hsmall)].
      * intros q Hq. apply Hfl. right. exact Hq.
      * left. intros x Hx [E | Hq]; [apply Hp; auto | apply Hall; assumption].
      * right. exists (p :: fl1), fl2, b. split; [reflexivity|].
        split; [exact Hb|]. split; [exact Hfit|].
        intros x Hx [E | Hq]; [apply Hp; auto | apply Hsmall; assumption].
    + right. exists [], fl, (mkBlk p sz false). split; [reflexivity|].
      split; [exact Hin|]. split; [cbn [bsize]; lia | intros x _ []].
Qed.

(** The walk over the boundary tags of a run of blocks that ends at the
    break. *)
Lemma walk_ok_layout (s : state) (bl : list blk) :
  mem s (mem_brk s - W) = 1 ->
  forall p,
    layout W p (mem_brk s) bl ->
    (forall b, In b bl -> mem s (baddr b - W) = tag b /\ 0 <= bsize b < modulus W) ->
    walk_ok W (S (length bl)) s p = true.
Proof.
  intros Hepi. pose proof (W_pos W HW) as HWp.
  induction bl as [|b bl IH]; intros p Hlay Hb.
  - cbn [layout] in Hlay. subst p. cbn [length walk_ok].
    rewrite Z.eqb_refl. apply Z.eqb_eq, Hepi.
  - destruct (layout_in W HW _ _ _ b Hlay (or_introl eq_refl)) as (_ & Hend & _).
    cbn [layout] in Hlay. destruct Hlay as (Ep & Hmin & Hd & Hlay).
    destruct (Hb b (or_introl eq_refl)) as (Eh & Hr).
    cbn [length]. cbn [walk_ok]. rewrite <- Ep.
    replace (baddr b =? mem_brk s) with false by (symmetry; apply Z.eqb_neq; lia).
    rewrite Eh, (tag_size W HW), (tag_alloc W HW) by assumption.
    replace (tag b - (if bused b then 1 else 0)) with (bsize b)
      by (unfold tag; lia).
    rewrite Z.eqb_refl.
    replace (4 * W <=? bsize b) with true by (symmetry; apply Z.leb_le; lia).
    replace (baddr b + bsize b <=? mem_brk s) with true
      by (symmetry; apply Z.leb_le; lia).
    cbn [andb]. apply IH; [rewrite Ep; exact Hlay|].
    intros x Hx. apply Hb. right. exact Hx.
Qed.

(** The request find_fit makes when it skips the list is not negative as an
    intptr_t. *)
Lemma quarter_request_positive (asize : Z) :
  0 <= asize < 2 ^ 31 -> 0 <= to_intptr W (asize * (W / 4)).
Proof.
  intros Hr. change (2 ^ 31) with 2147483648 in Hr. unfold to_intptr.
  destruct HW; subst W; [rewrite modulus_4 | rewrite modulus_8];
    [change (4 / 4) with 1
    |change (8 / 4) with 2];
    [change (4294967296 / 2) with 2147483648
    |change (18446744073709551616 / 2) with 9223372036854775808];
    rewrite Z.mod_small; lia.
Qed.

End FirstFit.

(** ** What no operation after mm_init changes *)

Section Stable.

Variable W : Z.

Lemma stable_refl (s : state) : stable s s.
Proof. split; reflexivity. Qed.

Lemma stable_trans (s1 s2 s3 : state) :
  stable s1 s2 -> stable s2 s3 -> stable s1 s3.
Proof. intros (A1 & A2) (B1 & B2). split; congruence. Qed.

Lemma preserves_ret {A} (a : A) : preserves (ret a).
Proof. intros s x s' E. injection E as _ <-. apply stable_refl. Qed.

Lemma preserves_bind {A B} (c : M A) (k : A -> M B) :
  preserves c -> (forall x, preserves (k x)) -> preserves (bind c k).
Proof.
  intros Hc Hk s b s' E. unfold bind in E.
  destruct (c s) as [a s1| |] eqn:E1; try discriminate E.
  apply (stable_trans s s1 s'); [apply (Hc s a s1 E1) | apply (Hk a s1 b s' E)].
Qed.

Lemma preserves_GET (p : Z) : preserves (GET W p).
Proof.
  intros s a s' E. unfold GET in E.
  destruct (valid_word W s p); [|discriminate E].
  injection E as _ <-. apply stable_refl.
Qed.

Lemma preserves_PUT (p v : Z) : preserves (PUT W p v).
Proof.
  intros s a s' E. unfold PUT in E.
  destruct (valid_word W s p); [|discriminate E].
  injection E as _ <-. split; reflexivity.
Qed.

Lemma preserves_mem_sbrk (incr : Z) : preserves (mem_sbrk W incr).
Proof.
  intros s a s' E. unfold mem_sbrk in E.
  destruct (_ || _); injection E as _ <-; split; reflexivity.
Qed.

Lemma preserves_get_free_list_start : preserves get_free_list_start.
Proof. intros s a s' E. injection E as _ <-. apply stable_refl. Qed.
Lemma preserves_get_last_malloced_size : preserves get_last_malloced_size.
Proof. intros s a s' E. injection E as _ <-. apply stable_refl. Qed.
Lemma preserves_get_repeat_counter : preserves get_repeat_counter.
Proof. intros s a s' E. injection E as _ <-. apply stable_refl. Qed.
Lemma preserves_set_free_list_start (p : Z) : preserves (set_free_list_start p).
Proof. intros s a s' E. injection E as _ <-. split; reflexivity. Qed.
Lemma preserves_set_last_malloced_size (v : Z) :
  preserves (set_last_malloced_size v).
Proof. intros s a s' E. injection E as _ <-. split; reflexivity. Qed.
Lemma preserves_set_repeat_counter (v : Z) : preserves (set_repeat_counter v).
Proof. intros s a s' E. injection E as _ <-. split; reflexivity. Qed.

Create HintDb pres.
#[local] Hint Resolve preserves_GET preserves_PUT preserves_mem_sbrk
  preserves_get_free_list_start preserves_get_last_malloced_size
  preserves_get_repeat_counter preserves_set_free_list_start
  preserves_set_last_malloced_size preserves_set_repeat_counter : pres.

Ltac pres_tac :=
  repeat first
    [ apply preserves_ret
    | apply preserves_bind; [|intros ?]
    | match goal with |- preserves (if ?b then _ else _) => destruct b end
    | progress cbv zeta
    | solve [auto with pres] ].

Lemma preserves_GET_SIZE (p : Z) : preserves (GET_SIZE W p).
Proof. unfold GET_SIZE. pres_tac. Qed.
Lemma preserves_GET_ALLOC (p : Z) : preserves (GET_ALLOC W p).
Proof. unfold GET_ALLOC. pres_tac. Qed.
#[local] Hint Resolve preserves_GET_SIZE preserves_GET_ALLOC : pres.

Lemma preserves_FTRP (bp : Z) : preserves (FTRP W bp).
Proof. unfold FTRP. pres_tac. Qed.
Lemma preserves_NEXT_BLK (bp : Z) : preserves (NEXT_BLK W bp).
Proof. unfold NEXT_BLK. pres_tac. Qed.
Lemma preserves_PREV_BLK (bp : Z) : preserves (PREV_BLK W bp).
Proof. unfold PREV_BLK. pres_tac. Qed.
Lemma preserves_GET_NEXT_PTR (bp : Z) : preserves (GET_NEXT_PTR W bp).
Proof. unfold GET_NEXT_PTR. pres_tac. Qed.
Lemma preserves_GET_PREV_PTR (bp : Z) : preserves (GET_PREV_PTR W bp).
Proof. unfold GET_PREV_PTR. pres_tac. Qed.
Lemma preserves_SET_NEXT_PTR (bp qp : Z) : preserves (SET_NEXT_PTR W bp qp).
Proof. unfold SET_NEXT_PTR. pres_tac. Qed.
Lemma preserves_SET_PREV_PTR (bp qp : Z) : preserves (SET_PREV_PTR W bp qp).
Proof. unfold SET_PREV_PTR. pres_tac. Qed.
#[local] Hint Resolve preserves_FTRP preserves_NEXT_BLK preserves_PREV_BLK
  preserves_GET_NEXT_PTR preserves_GET_PREV_PTR preserves_SET_NEXT_PTR
  preserves_SET_PREV_PTR : pres.

Lemma preserves_insert_in_free_list (bp : Z) :
  preserves (insert_in_free_list W bp).
Proof. unfold insert_in_free_list. pres_tac. Qed.
Lemma preserves_remove_from_free_list (bp : Z) :
  preserves (remove_from_free_list W bp).
Proof. unfold remove_from_free_list. pres_tac. Qed.
#[local] Hint Resolve preserves_insert_in_free_list
  preserves_remove_from_free_list : pres.

Lemma preserves_coalesce (bp : Z) : preserves (coalesce W bp).
Proof. unfold coalesce. pres_tac. Qed.
#[local] Hint Resolve preserves_coalesce : pres.

Lemma preserves_extend_heap (words : Z) : preserves (extend_heap W words).
Proof. unfold extend_heap. pres_tac. Qed.
#[local] Hint Resolve preserves_extend_heap : pres.

Lemma preserves_find_fit_loop (fuel : nat) (asize : Z) :
  forall bp, preserves (find_fit_loop W fuel asize bp).
Proof.
  induction fuel as [|fuel IH]; intros bp; cbn [find_fit_loop].
  - intros s a s' E. discriminate E.
  - pres_tac.
Qed.
#[local] Hint Resolve preserves_find_fit_loop : pres.

Lemma preserves_find_fit (fuel : nat) (asize : Z) :
  preserves (find_fit W fuel asize).
Proof. unfold find_fit, find_fit_walk. pres_tac. Qed.
Lemma preserves_place (bp asize : Z) : preserves (place W bp asize).
Proof. unfold place. pres_tac. Qed.
#[local] Hint Resolve preserves_find_fit preserves_place : pres.

Lemma preserves_mm_malloc (fuel : nat) (size : Z) :
  preserves (mm_malloc W fuel size).
Proof. unfold mm_malloc. pres_tac. Qed.
Lemma preserves_mm_free (bp : Z) : preserves (mm_free W bp).
Proof. unfold mm_free. pres_tac. Qed.
#[local] Hint Resolve preserves_mm_malloc preserves_mm_free : pres.

Lemma preserves_copy_words (n : nat) :
  forall dst src, preserves (copy_words W n dst src).
Proof.
  induction n as [|n IH]; intros dst src; cbn [copy_words]; pres_tac.
Qed.
#[local] Hint Resolve preserves_copy_words : pres.

Lemma preserves_memcpy (dst src n : Z) : preserves (memcpy W dst src n).
Proof. unfold memcpy. pres_tac. Qed.
#[local] Hint Resolve preserves_memcpy : pres.

Lemma preserves_mm_realloc (fuel : nat) (bp size : Z) :
  preserves (mm_realloc W fuel bp size).
Proof. unfold mm_realloc. pres_tac. Qed.

Hypothesis HW : W = 4 \/ W = 8.

(** heap_listp stays where mm_init puts it: at the start of the region. *)
Lemma reachable_heap_listp (s : state) (L : list Z) :
  reachable W s L -> heap_listp s = mem_start_brk s.
Proof using HW.
  induction 1 as [s0 s Hfresh E
                 | s L fuel size p s' Hreach IH Hpos Hle E
                 | s L p s' Hreach IH Hp E
                 | s L fuel bp size r s' Hreach IH Hbp Hsize Hplace E].
  - pose proof Hfresh as (Hempty & Hlo & Hal & Hmax & Hgap).
    pose proof (mm_init_room W HW s0 s Hempty Hlo Hal Hmax E) as Hroom.
    destruct (mm_init_heap W HW s0 Hfresh Hroom) as (s1 & E1 & _ & E2 & _ & _ & E3).
    rewrite E1 in E. injection E as <-. congruence.
  - destruct (preserves_mm_malloc _ _ _ _ _ E). congruence.
  - destruct (preserves_mm_free _ _ _ _ E). congruence.
  - destruct (preserves_mm_realloc _ _ _ _ _ _ E). congruence.
Qed.

End Stable.

(** ** mm_realloc in place: what it leaves alone *)

Section InPlace.

Variable W : Z.
Hypothesis HW : W = 4 \/ W = 8.
#[local] Set Default Proof Using "HW".

Ltac in_tac := cbn [In]; rewrite ?in_app_iff; cbn [In]; tauto.
Ltac valid_tac := apply (valid_intro W HW); [lia | lia | auto 10 with algn].
Ltac upd_tac := repeat (rewrite upd_same || (rewrite upd_other by lia)).

(** mm_realloc absorbing the next block writes the header of the block and
    words of free blocks only. *)
Lemma mm_realloc_absorb_frame (s : state) (m : Z -> Z) (f : Z)
      (l1 l2 : list blk) (b nb : blk) (fl : list Z) (fuel : nat) (size : Z) :
  heap_inv W (with_heap m f s) (l1 ++ b :: nb :: l2) fl ->
  bused b = true -> bused nb = false ->
  0 <= size < modulus W -> 0 < to_int size ->
  bsize b < wrap W (size + 2 * W) <= bsize b + bsize nb ->
  exists m' f',
    mm_realloc W fuel (baddr b) size (with_heap m f s)
    = Ok (baddr b) (with_heap m' f' s) /\
    forall a, ~ free_word W s (l1 ++ b :: nb :: l2) a -> a <> baddr b - W ->
              m' a = m a.
Proof.
  intros Hinv Hu Hnfree Hsize Hint Hnew. apply (heap_inv_heap W HW) in Hinv.
  destruct Hinv as (Hg & Ht & Hl & Hn & Hiff).
  set (bl := l1 ++ b :: nb :: l2) in *.
  assert (Hb : In b bl) by (unfold bl; in_tac).
  assert (Hnb : In nb bl) by (unfold bl; in_tac).
  destruct (block_here W HW s m l1 (nb :: l2) b Hg Ht) as (Eh & Ef & En & _ & Hl2).
  pose proof (block_next W HW _ _ _ _ Hl2) as Enb.
  cbn [next_tag] in En.
  destruct (block_facts W HW s _ b Hg Hb)
    as (B1 & B2 & B3 & B4 & B5 & B6 & B7 & B8 & B9).
  destruct (block_facts W HW s _ nb Hg Hnb)
    as (N1 & N2 & N3 & N4 & N5 & N6 & N7 & N8 & _).
  pose proof (modulus_large W HW) as Hml.
  assert (Hnbin : In (baddr nb) fl).
  { apply Hiff. exists (bsize nb). rewrite <- Hnfree, <- (blk_eta W HW). exact Hnb. }
  destruct (in_split _ _ Hnbin) as (f1 & f2 & Efl).
  assert (Hfl : forall q, In q (f1 ++ f2) ->
            exists x, In x bl /\ bused x = false /\ baddr x = q).
  { intros q Hq.
    assert (Hq' : In q fl) by (rewrite Efl; revert Hq; in_tac).
    apply Hiff in Hq'. destruct Hq' as (sz & Hin).
    exists (mkBlk q sz false). auto. }
  rewrite Efl in Hl, Hn.
  destruct (remove_step_frame W HW s m f bl f1 f2 (baddr nb) Hg Ht Hl Hn)
    as (m1 & f' & Erm & Hl1 & Ht1 & Hn1 & Hnb1 & Hfr1).
  set (sz := bsize b + bsize nb).
  set (bm := mkBlk (baddr b) sz true).
  set (m3 := upd (upd m1 (baddr b - W) (tag bm)) (baddr b + sz - 2 * W) (tag bm)).
  assert (Htag : tag bm = sz + 1) by reflexivity.
  assert (Hdsz : (2 * W | sz)) by (unfold sz; auto with algn).
  assert (Hpack : PACK sz 1 = tag bm).
  { rewrite Htag. apply PACK_add; [|right; reflexivity].
    destruct Hdsz as (k & ->). replace (k * (2 * W)) with (k * W * 2) by lia.
    apply Z.mod_mul. lia. }
  assert (Hnewsize : wrap W (size + wrap W (2 * WSIZE W)) = wrap W (size + 2 * W)).
  { unfold WSIZE. rewrite (wrap_small W (2 * W)) by lia. reflexivity. }
  exists m3, f'. split.
  - unfold mm_realloc.
    replace (to_int size <? 0) with false by (symmetry; apply Z.ltb_ge; lia).
    replace (to_int size =? 0) with false by (symmetry; apply Z.eqb_neq; lia).
    replace (size >? 0) with true
      by (symmetry; rewrite Z.gtb_ltb; apply Z.ltb_lt;
          destruct (Z.eq_dec size 0) as [-> | ?]; [discriminate Hint | lia]).
    rewrite Hnewsize. unfold bind.
    rewrite (HDRP_eq W HW) by lia.
    rewrite (GET_SIZE_heap W HW) by valid_tac. cbv beta iota.
    rewrite Eh, (tag_size W HW) by assumption.
    replace (wrap W (size + 2 * W) <=? bsize b) with false
      by (symmetry; apply Z.leb_gt; lia).
    assert (Hsz1 : size_field W (m (baddr b - W)) = bsize b).
    { rewrite Eh. apply (tag_size W HW); assumption. }
    assert (Hnext : NEXT_BLK W (baddr b) (with_heap m f s)
                    = Ok (baddr nb) (with_heap m f s)).
    { rewrite Enb. apply (NEXT_BLK_heap W HW); try assumption; try lia. valid_tac. }
    rewrite Hnext. cbv beta iota.
    rewrite (HDRP_eq W HW) by lia.
    rewrite (GET_ALLOC_heap W HW) by valid_tac. cbv beta iota.
    replace (baddr nb - W) with (baddr b + bsize b - W) by lia.
    rewrite En, (tag_alloc W HW) by assumption. rewrite Hnfree.
    change (0 =? 0) with true. cbv beta iota.
    rewrite Hnext. cbv beta iota.
    rewrite (HDRP_eq W HW) by lia.
    rewrite (GET_SIZE_heap W HW) by valid_tac. cbv beta iota.
    replace (baddr nb - W) with (baddr b + bsize b - W) by lia.
    rewrite En, (tag_size W HW) by assumption.
    rewrite (wrap_small W (bsize b + bsize nb)) by lia. fold sz.
    replace (sz >=? wrap W (size + 2 * W)) with true
      by (symmetry; rewrite Z.geb_leb; apply Z.leb_le; unfold sz; lia).
    cbn [andb]. cbv beta iota.
    rewrite Hnext. cbv beta iota.
    rewrite Erm. cbv beta iota.
    rewrite (PUT_heap W HW) by valid_tac. cbv beta iota.
    rewrite Hpack.
    rewrite (FTRP_heap W HW _ _ _ (baddr b) sz);
      [ | lia | valid_tac | | unfold sz; lia | unfold sz; lia].
    2:{ rewrite upd_same.
        apply (tag_size W HW bm); cbn [bm bsize]; [unfold sz; lia | assumption]. }
    cbv beta iota.
    rewrite (PUT_heap W HW) by (unfold sz; valid_tac). cbv beta iota.
    fold m3. reflexivity.
  - intros a Ha Hne.
    assert (Hft : a <> baddr b + sz - 2 * W).
    { intros ->. apply Ha. right. exists nb.
      split; [exact Hnb | split; [exact Hnfree | unfold sz; lia]]. }
    unfold m3. rewrite !upd_other by assumption.
    apply Hfr1. intros Hc. apply Ha.
    apply (link_cell_free_word W HW s bl _ a Hg Hfl Hc).
Qed.

End InPlace.

(** * Further properties of the allocator *)

Section Further.

Variable W : Z.
Hypothesis HW : W = 4 \/ W = 8.
#[local] Set Default Proof Using "HW".

Ltac in_tac := cbn [In]; rewrite ?in_app_iff; cbn [In]; tauto.
Ltac valid_tac := apply (valid_intro W HW); [lia | lia | auto 10 with algn].
Ltac upd_tac := repeat (rewrite upd_same || (rewrite upd_other by lia)).

(** X1: checkblock reports nothing on a block of a heap that satisfies the
    invariant, allocated or free: the block pointer is double-word aligned
    and the header equals the footer.  It reads two words and leaves the
    state as it is. *)
Theorem checkblock_accepts_heap_blocks (s : state) (bl : list blk)
        (fl : list Z) (b : blk) :
  heap_inv W s bl fl -> In b bl -> checkblock W (baddr b) s = Ok [] s.
Proof.
  intros Hinv Hb. apply (heap_inv_state W HW) in Hinv.
  destruct Hinv as (Hg & (Ht & _) & _).
  destruct (block_facts W HW s _ b Hg Hb)
    as (B1 & B2 & B3 & B4 & B5 & B6 & B7 & B8 & B9).
  destruct (Ht b Hb) as (Eh & Ef).
  unfold checkblock. rewrite (DSIZE_eq W HW).
  replace (baddr b mod (2 * W)) with 0
    by (symmetry; apply Z.mod_divide; [lia | exact B7]).
  cbn [Z.eqb negb app]. unfold bind.
  rewrite (HDRP_eq W HW) by lia.
  rewrite (GET_state W HW) by valid_tac.
  rewrite <- (with_heap_id s).
  rewrite (FTRP_heap W HW _ _ _ (baddr b) (bsize b)); [ | lia | valid_tac | | lia | lia].
  2:{ rewrite Eh. apply (tag_size W HW); assumption. }
  rewrite (GET_heap W HW) by valid_tac.
  rewrite !with_heap_id. rewrite Eh, Ef, Z.eqb_refl. reflexivity.
Qed.


(** X3: mm_free on an allocated block of a heap that satisfies the
    invariant returns without a fault and leaves a heap that satisfies the
    invariant.  The bytes of the block now lie in a free block that is the
    first node of the free list (the list grows at its head); the other
    allocated blocks are allocated as before, and every word of theirs,
    header and footer included, is unchanged. *)
Theorem mm_free_keeps_other_blocks (s : state) (l1 l2 : list blk) (b : blk)
        (fl : list Z) :
  heap_inv W s (l1 ++ b :: l2) fl -> bused b = true ->
  exists s' pre bm post rest,
    mm_free W (baddr b) s = Ok tt s' /\
    heap_inv W s' (pre ++ bm :: post) (baddr bm :: rest) /\
    bused bm = false /\
    baddr bm <= baddr b /\ baddr b + bsize b <= baddr bm + bsize bm /\
    (forall p, In p rest -> In p fl) /\
    used_blocks (pre ++ bm :: post) = used_blocks l1 ++ used_blocks l2 /\
    kept W (l1 ++ l2) (mem s) (mem s').
Proof.
  intros Hinv Hu.
  destruct (mm_free_effect W HW s l1 l2 b fl Hinv Hu)
    as (s' & pre & bm & post & rest & E & Hinv' & Hbmf & Hlo & Hhi & Hrest & Hused
        & Hkept & _).
  exists s', pre, bm, post, rest. auto 10.
Qed.

(** X4: mm_malloc with a size between 1 and 2^31 - 4 * WSIZE, on a heap
    that satisfies the invariant and with fuel for the whole free list,
    returns without a fault and leaves a heap that satisfies the invariant.
    A pointer other than NULL is double-word aligned and is the block
    pointer of an allocated block of at least size + 2 * WSIZE bytes that
    was not allocated before; every block allocated before is still
    allocated, does not overlap the new block, and keeps every word it
    had. *)
Theorem mm_malloc_returns_fresh_block (s : state) (bl : list blk)
        (fl : list Z) (fuel : nat) (size : Z) :
  heap_inv W s bl fl -> 0 < size -> size + 4 * W <= 2 ^ 31 ->
  (length fl < fuel)%nat ->
  exists r s' bl' fl',
    mm_malloc W fuel size s = Ok r s' /\ heap_inv W s' bl' fl' /\
    kept W bl (mem s) (mem s') /\
    (r <> NULL ->
     exists sz, In (mkBlk r sz true) bl' /\ size + 2 * W <= sz /\
                (2 * W | r) /\ ~ allocated bl r /\
                forall x, In x bl -> bused x = true ->
                  In x bl' /\
                  (baddr x + bsize x <= r \/ r + sz <= baddr x)).
Proof.
  intros Hinv Hpos Hle Hfuel.
  destruct (mm_malloc_effect W HW s bl fl fuel size Hinv Hpos Hle Hfuel)
    as (r & s' & bl' & fl' & E & Hinv' & Hkept & _ & Hnew).
  exists r, s', bl', fl'. split; [exact E|]. split; [exact Hinv'|].
  split; [exact Hkept|]. intros Hnn.
  destruct Hnew as [(-> & _) | (sz & l1 & post & l0 & Hsz & -> & Hu & Hu')];
    [contradiction|].
  set (nb := mkBlk r sz true) in *.
  assert (Hg' : geom W s' (l1 ++ nb :: post))
    by (apply (heap_inv_state W HW) in Hinv'; apply Hinv').
  assert (Hin' : In nb (l1 ++ nb :: post)) by in_tac.
  destruct (block_facts W HW _ _ _ Hg' Hin') as (_ & _ & _ & _ & _ & _ & Hal & _).
  assert (Hlay' : layout W (first_block W s') (mem_brk s') (l1 ++ [nb] ++ post))
    by apply Hg'.
  assert (Hold : forall x, In x bl -> bused x = true -> In x (l1 ++ post)).
  { intros x Hx Hxu.
    assert (Hx' : In x (used_blocks bl)) by (apply filter_In; auto).
    rewrite Hu, <- Hu', <- (used_blocks_app W HW) in Hx'.
    apply filter_In in Hx'. apply Hx'. }
  exists sz. split; [exact Hin'|]. split; [exact Hsz|]. split; [exact Hal|]. split.
  - intros (sz' & Hin). pose proof (Hold _ Hin eq_refl) as Hin2.
    apply (layout_parts_disjoint W HW _ _ _ _ _ (mkBlk r sz' true) nb Hlay' Hin2);
      [in_tac | reflexivity].
  - intros x Hx Hxu. pose proof (Hold x Hx Hxu) as Hx2.
    assert (Hx3 : In x (l1 ++ nb :: post)) by (revert Hx2; in_tac).
    split; [exact Hx3|].
    destruct Hg' as (_ & _ & _ & _ & Hlay).
    destruct (layout_sep W HW _ _ _ x nb Hlay Hx3 Hin') as [Ex | Hsep].
    + exfalso.
      apply (layout_parts_disjoint W HW _ _ _ _ _ x nb Hlay' Hx2); [in_tac|].
      rewrite Ex. reflexivity.
    + exact Hsep.
Qed.

(** X5: mm_malloc under the conditions of X4 returns NULL only when the
    provider cannot grow the region by MAX(asize, CHUNKSIZE) bytes, asize
    being the adjusted size; the heap is then as it was: the memory, the
    break and the free list are unchanged, only the two statics of find_fit
    may differ. *)
Theorem mm_malloc_fails_only_without_room (s : state) (bl : list blk)
        (fl : list Z) (fuel : nat) (size : Z) :
  heap_inv W s bl fl -> 0 < size -> size + 4 * W <= 2 ^ 31 ->
  (length fl < fuel)%nat ->
  exists r s',
    mm_malloc W fuel size s = Ok r s' /\
    (r = NULL ->
     same_heap s s' /\
     mem_max_addr s < mem_brk s + MAX (adjust_size W size) CHUNKSIZE) /\
    (mem_brk s + MAX (adjust_size W size) CHUNKSIZE <= mem_max_addr s ->
     r <> NULL).
Proof.
  intros Hinv Hpos Hle Hfuel.
  destruct (mm_malloc_effect W HW s bl fl fuel size Hinv Hpos Hle Hfuel)
    as (r & s' & bl' & fl' & E & Hinv' & _ & _ & Hnew).
  exists r, s'. split; [exact E|].
  destruct Hnew as [(-> & Hsame & _ & _ & Hbig) | (sz & l1 & post & l0 & _ & -> & _)].
  - split; [auto | lia].
  - assert (Hg' : geom W s' (l1 ++ mkBlk r sz true :: post))
      by (apply (heap_inv_state W HW) in Hinv'; apply Hinv').
    destruct (block_facts W HW _ _ (mkBlk r sz true) Hg') as (Hr & _); [in_tac|].
    cbn [baddr] in Hr. pose proof (W_pos W HW).
    assert (Hne : r <> NULL) by (unfold NULL; lia).
    split; [contradiction | auto].
Qed.

(** X6: place on a free block [b] of at least [asize] bytes, [asize] a
    multiple of the double word and at least four words.  When fewer than
    four words would remain, the whole block becomes allocated and leaves
    the free list; the rest of the heap and of the list is as before.
    Otherwise the first [asize] bytes become an allocated block and the
    remainder a free block that starts right behind it and is the first
    node of the free list: the remainder alone when the block after [b] is
    allocated or missing, the remainder merged with the block after [b],
    which leaves the heap, when that one is free. *)
Theorem place_splits_large_blocks (s : state) (l1 l2 : list blk) (b : blk)
        (fl : list Z) (asize : Z) :
  heap_inv W s (l1 ++ b :: l2) fl -> bused b = false ->
  (2 * W | asize) -> 4 * W <= asize <= bsize b ->
  exists s' fl',
    place W (baddr b) asize s = Ok tt s' /\
    (bsize b - asize < 4 * W ->
     heap_inv W s' (l1 ++ mkBlk (baddr b) (bsize b) true :: l2) fl' /\
     forall p, In p fl' <-> In p fl /\ p <> baddr b) /\
    (4 * W <= bsize b - asize ->
     exists bm post rest,
       heap_inv W s' (l1 ++ mkBlk (baddr b) asize true :: bm :: post) fl' /\
       fl' = baddr bm :: rest /\ bused bm = false /\
       baddr bm = baddr b + asize /\ bsize b - asize <= bsize bm /\
       (forall p, In p rest -> In p fl /\ p <> baddr b) /\
       used_blocks post = used_blocks l2 /\
       (starts_used l2 -> post = l2 /\ bsize bm = bsize b - asize) /\
       (forall nb l3, l2 = nb :: l3 -> bused nb = false ->
          post = l3 /\ bsize bm = bsize b - asize + bsize nb)).
Proof.
  intros Hinv Hfree Hd Hr.
  rewrite <- (with_heap_id s) in Hinv |- *.
  destruct (Z_lt_dec (bsize b - asize) (4 * W)) as [Hsmall | Hbig].
  - destruct (place_whole_effect W HW _ _ _ _ _ b _ asize Hinv Hfree)
      as (m' & f' & fl' & E & Hinv' & Hfl & _); [lia | lia |].
    exists (with_heap m' f' s), fl'. split; [exact E|].
    split; [auto | intros Hc; lia].
  - destruct (place_split_effect W HW _ _ _ _ _ b _ asize Hinv Hfree Hd)
      as (m' & bm & post & rest & E & Hinv' & Hbmf & Eaddr & Hsz & Hrest & Hused & _
          & Hstarts & _ & Hnext); [lia | lia |].
    exists (with_heap m' (baddr bm) s), (baddr bm :: rest). split; [exact E|].
    split; [intros Hc; lia|]. intros _.
    exists bm, post, rest. auto 12.
Qed.

(** X7: first fit.  Unless the repeat counter sends it to extend_heap (the
    last size found equals [asize] and the counter is above 30), find_fit
    leaves the heap alone and returns the first node of the free list, in
    list order, whose block has at least [asize] bytes; it returns NULL when
    every free block is smaller. *)
Theorem find_fit_first_fit (s : state) (bl : list blk) (fl : list Z)
        (fuel : nat) (asize : Z) :
  heap_inv W s bl fl ->
  last_malloced_size s <> to_int asize \/ repeat_counter s <= 30 ->
  (length fl < fuel)%nat ->
  exists r s',
    find_fit W fuel asize s = Ok r s' /\ same_heap s s' /\
    (r = NULL -> forall x, In x bl -> bused x = false -> bsize x < asize) /\
    (r <> NULL ->
     exists fl1 fl2 b,
       fl = fl1 ++ r :: fl2 /\ In b bl /\ baddr b = r /\ bused b = false /\
       asize <= bsize b /\
       forall x, In x bl -> In (baddr x) fl1 -> bsize x < asize).
Proof.
  intros Hinv Hc Hfuel.
  pose proof Hinv as Hinv0. apply (heap_inv_state W HW) in Hinv0.
  destruct Hinv0 as (Hg & _ & _ & _ & Hiff).
  assert (Hlay : layout W (first_block W s) (mem_brk s) bl) by apply Hg.
  destruct (first_fit_split W HW _ _ bl asize fl Hlay)
    as [Hall | (fl1 & fl2 & b & Efl & Hb & Hfit & Hsmall)].
  { intros p Hp. apply Hiff, Hp. }
  - assert (Hfree : forall x, In x bl -> bused x = false -> bsize x < asize).
    { intros x Hx Hxf. apply (Hall x Hx). apply Hiff. exists (bsize x).
      rewrite <- Hxf, <- (blk_eta W HW). exact Hx. }
    destruct (find_fit_none W HW s bl fl fuel asize Hinv Hc Hfree Hfuel)
      as (s' & E & Hsame & _).
    exists NULL, s'. split; [exact E|]. split; [exact Hsame|].
    split; [auto | intros Hne; contradiction].
  - destruct (find_fit_takes_first W HW s bl fl fuel asize fl1 fl2 b Hinv Hc Efl Hb Hfit
                Hsmall)
      as (s' & E & Hsame & _).
    { rewrite Efl, length_app in Hfuel. lia. }
    exists (baddr b), s'. split; [exact E|]. split; [exact Hsame|].
    destruct (block_facts W HW s _ b Hg Hb) as (Hb1 & _).
    pose proof (W_pos W HW). split; [unfold NULL; lia|].
    intros _. exists fl1, fl2, b. split; [exact Efl|]. split; [exact Hb|].
    split; [reflexivity|]. split; [|auto].
    apply (listed_block W HW s bl fl b Hinv Hb). rewrite Efl. in_tac.
Qed.

(** X8: extend_heap on a heap that satisfies the invariant, when the
    rounded size extend_size(words) is at least four words (4 * WSIZE bytes)
    and the provider grants the request.  (The rounded size is never below
    16 bytes, which is four words on a 32-bit target only; a smaller block
    has no room for the two list pointers, and is left out here.)  The
    break moves up by that amount, and the call returns a free
    block that ends at the new break and is the first node of the free list:
    the new bytes alone when the heap ended with an allocated block, the
    last block grown by them when it ended with a free block.  The heap
    satisfies the invariant, and the allocated blocks keep every word. *)
Theorem extend_heap_grows_last_free_block (s : state) (bl : list blk)
        (fl : list Z) (words : Z) :
  heap_inv W s bl fl ->
  4 * W <= extend_size W words ->
  0 <= to_intptr W (extend_size W words) ->
  mem_brk s + extend_size W words <= mem_max_addr s ->
  exists s' pre bm rest,
    extend_heap W words s = Ok (baddr bm) s' /\
    heap_inv W s' (pre ++ [bm]) (baddr bm :: rest) /\ bused bm = false /\
    mem_brk s' = mem_brk s + extend_size W words /\
    baddr bm + bsize bm = mem_brk s' /\
    (ends_used bl -> pre = bl /\ baddr bm = mem_brk s) /\
    (forall l0 pb, bl = l0 ++ [pb] -> bused pb = false ->
       pre = l0 /\ baddr bm = baddr pb) /\
    (forall p, In p rest -> In p fl) /\
    kept W bl (mem s) (mem s').
Proof.
  intros Hinv Hmin Hpos Hfit. apply (heap_inv_state W HW) in Hinv.
  destruct Hinv as (Hg & (T1 & _ & T3 & T4) & Hl & Hn & Hiff).
  destruct (extend_heap_merged W HW s (mem s) (free_list_start s) bl fl words
              Hg T1 T3 T4 Hl Hn Hiff Hmin Hpos Hfit)
    as (m3 & Hm3 & Hg3 & m' & bm & pre & post & rest & E & Hinv' & Hbmf & _ & _
        & Hrest & _ & Hfr & Hends & Hstarts & _ & Hprev & _).
  rewrite (with_heap_id s) in E.
  destruct (Hstarts starts_used_nil) as (-> & Eend).
  cbn [baddr bsize] in Eend, Hends.
  exists (with_heap m' (baddr bm) (set_brk (mem_brk s + extend_size W words) s)),
    pre, bm, rest.
  split; [exact E|]. split; [exact Hinv'|]. split; [exact Hbmf|].
  split; [reflexivity|]. split; [exact Eend|]. split; [exact Hends|].
  split; [exact Hprev|]. split; [exact Hrest|].
  intros x a Hx Hu Ha. cbn [with_heap mem].
  assert (Hx3 : In x (bl ++ [mkBlk (mem_brk s) (extend_size W words) false]))
    by in_tac.
  rewrite Hfr by (apply (used_not_free_word W HW _ _ x a Hg3 Hx3 Hu Ha)).
  apply Hm3.
  destruct Hg as (_ & _ & _ & _ & Hlay).
  destruct (layout_in W HW _ _ _ _ Hlay Hx) as (_ & ? & _). lia.
Qed.

(** X9: mm_init on a fresh region that the provider can grow by twelve
    words returns 0 and leaves a heap that satisfies the invariant and
    consists of one free block of four words, eight words above the start
    of the region; the free list holds that block alone. *)
Theorem mm_init_builds_one_free_block (s0 : state) :
  fresh_region W s0 ->
  mem_start_brk s0 + 12 * W <= mem_max_addr s0 ->
  exists s',
    mm_init W s0 = Ok 0 s' /\
    heap_inv W s' [mkBlk (mem_start_brk s0 + 8 * W) (4 * W) false]
      [mem_start_brk s0 + 8 * W] /\
    mem_start_brk s' = mem_start_brk s0 /\
    mem_brk s' = mem_start_brk s0 + 12 * W /\
    heap_listp s' = mem_start_brk s0 /\
    free_list_start s' = mem_start_brk s0 + 8 * W.
Proof.
  intros Hfresh Hroom.
  destruct (mm_init_heap W HW s0 Hfresh Hroom)
    as (s' & E & Hinv & Elo & Ebrk & _ & Ehl).
  exists s'. split; [exact E|]. split; [exact Hinv|].
  split; [exact Elo|]. split; [exact Ebrk|]. split; [exact Ehl|].
  destruct Hinv as (Hsh & _).
  pose proof (sh_chain _ _ _ _ Hsh) as Hch. cbn [chain] in Hch. apply Hch.
Qed.

(** X10: mm_init when the provider refuses a request.  The first request
    is answered with the failure pointer (void * )-1, which mm_init compares
    with NULL and then writes through: the call faults instead of returning
    -1.  Only a refusal of the second request, the one extend_heap makes, is
    reported with -1; the eight words of the first request stay. *)
Theorem mm_init_refusal (s0 : state) :
  fresh_region W s0 ->
  (mem_max_addr s0 < mem_start_brk s0 + 8 * W -> mm_init W s0 = Fault) /\
  (mem_start_brk s0 + 8 * W <= mem_max_addr s0 < mem_start_brk s0 + 12 * W ->
   exists s', mm_init W s0 = Ok (-1) s' /\
              mem_brk s' = mem_start_brk s0 + 8 * W).
Proof.
  intros (Hempty & Hlo & Hal & Hmax & Hgap).
  pose proof (W_pos W HW) as HWp. pose proof (modulus_large W HW) as Hml.
  split.
  - intros Hno. unfold mm_init, bind.
    rewrite (mem_sbrk_refuses W)
      by (right; rewrite (wrap_small W (8 * WSIZE W)); unfold WSIZE; lia).
    unfold set_heap_listp.
    replace (wrap W (-1) =? NULL) with false
      by (destruct HW; subst W; reflexivity).
    unfold init_sentinels, bind, PUT at 1.
    rewrite (invalid_failure_sentinel W HW). reflexivity.
  - intros Hroom.
    destruct (mm_init_eval W HW s0 Hempty Hlo Hal Hmax) as (_ & E0); [lia|].
    rewrite E0. clear E0. unfold bind.
    rewrite (extend_heap_refused W HW).
    + change (NULL =? NULL) with true. unfold ret. eexists. split; reflexivity.
    + right. rewrite (extend_size_4 W HW). cbn [with_heap mem_max_addr mem_brk]. lia.
Qed.




(** X14: insert_in_free_list followed by remove_from_free_list on the same
    node restores the list: the node becomes the first one, and after its
    removal the head and the nodes are the ones before the insertion.  Only
    link words of the node and of the old nodes, and the "prev" word of the
    sentinel, are written. *)
Theorem insert_then_remove_restores_list (s : state) (m : Z -> Z) (f : Z)
        (fl : list Z) (p : Z) :
  0 < mem_start_brk s -> mem_brk s < modulus W ->
  linked W s m f fl ->
  valid W s p -> valid W s (p + W) -> sentinel W s + W < p ->
  ~ In p fl ->
  (forall q, In q fl -> p + W < q \/ q + W < p) ->
  exists m1 m2,
    insert_in_free_list W p (with_heap m f s) = Ok tt (with_heap m1 p s) /\
    linked W s m1 p (p :: fl) /\
    remove_from_free_list W p (with_heap m1 p s) = Ok tt (with_heap m2 f s) /\
    linked W s m2 f fl /\
    forall a, ~ link_cell W s (p :: fl) a -> m2 a = m a.
Proof.
  intros Hlo Hbrk Hl Hv1 Hv2 Hsent Hnin Hsp.
  destruct (linked_insert W HW s m f fl p Hlo Hbrk Hl Hv1 Hv2 Hsent Hnin Hsp)
    as (m1 & E1 & Hl1 & Hfr1).
  destruct (linked_remove W HW s m1 p [] fl p Hlo Hbrk Hl1)
    as (m2 & f' & E2 & Hl2 & Hfr2).
  cbn [app] in Hl2, Hfr2.
  assert (Ef : f' = f).
  { pose proof (lk_chain _ _ _ _ _ Hl) as C. pose proof (lk_chain _ _ _ _ _ Hl2) as C2.
    destruct fl as [|q fl]; cbn [chain] in C, C2.
    - congruence.
    - destruct C as (-> & _). destruct C2 as (-> & _). reflexivity. }
  subst f'. exists m1, m2.
  split; [exact E1|]. split; [exact Hl1|]. split; [exact E2|]. split; [exact Hl2|].
  intros a Ha. rewrite Hfr2.
  - apply Hfr1, Ha.
  - intros Hc. apply Ha. revert Hc. apply (link_cell_incl W HW).
    intros q Hq. right. exact Hq.
Qed.

(** X15: a block that is freed is the first to be used again.  After
    mm_free on an allocated block whose predecessor is allocated (or which
    is the first block), the next mm_malloc with a size between 1 and
    2^31 - 4 * WSIZE whose adjusted size fits the block returns the pointer
    that was freed, unless the repeat counter sends find_fit to extend_heap:
    the freed block is the first node of the list, and find_fit takes the
    first node that fits.  (A larger size can wrap around in the adjusted
    size; that case is left out here.) *)
Theorem mm_malloc_reuses_freed_block (s : state) (l1 l2 : list blk) (b : blk)
        (fl : list Z) (fuel : nat) (size : Z) :
  heap_inv W s (l1 ++ b :: l2) fl -> bused b = true -> ends_used l1 ->
  0 < size -> size + 4 * W <= 2 ^ 31 -> adjust_size W size <= bsize b ->
  last_malloced_size s <> to_int (adjust_size W size) \/ repeat_counter s <= 30 ->
  (0 < fuel)%nat ->
  exists s1 s2 bl' fl',
    mm_free W (baddr b) s = Ok tt s1 /\
    mm_malloc W fuel size s1 = Ok (baddr b) s2 /\
    heap_inv W s2 bl' fl' /\ allocated bl' (baddr b).
Proof.
  intros Hinv Hu He Hpos Hle Hfit Hc Hfuel.
  destruct (mm_free_effect W HW s l1 l2 b fl Hinv Hu)
    as (s1 & pre & bm & post & rest & E1 & Hinv1 & Hbmf & _ & Hhi & _ & _ & _ & Hends
        & _ & _ & El & Er & _).
  destruct (Hends He) as (-> & Eaddr).
  destruct (adjust_size_bounds W HW size) as (Hd & Hr & Hroom); [lia | lia |].
  set (asize := adjust_size W size) in *.
  assert (Hbm : In bm (l1 ++ bm :: post)) by in_tac.
  destruct (find_fit_takes_first W HW s1 _ _ fuel asize [] rest bm Hinv1)
    as (s1' & E2 & Hsame & _); try assumption.
  { rewrite El, Er. exact Hc. }
  { reflexivity. }
  { lia. }
  { intros x _ []. }
  pose proof (heap_inv_same W HW _ _ _ _ Hsame Hinv1) as Hinv1'.
  destruct (place_effect W HW s1' l1 post bm _ asize Hinv1' Hbmf Hd)
    as (s2 & sz & post' & fl' & E3 & Hinv2 & _); [lia|].
  assert (Hg1 : geom W s1 (l1 ++ bm :: post))
    by (apply (heap_inv_state W HW) in Hinv1; apply Hinv1).
  destruct (block_facts W HW _ _ _ Hg1 Hbm) as (Hb1 & _).
  pose proof (W_pos W HW) as HWp.
  exists s1, s2, (l1 ++ mkBlk (baddr bm) sz true :: post'), fl'.
  split; [exact E1|]. rewrite <- Eaddr.
  split; [|split; [exact Hinv2 | exists sz; in_tac]].
  unfold mm_malloc.
  replace (size =? 0) with false by (symmetry; apply Z.eqb_neq; lia).
  fold asize. unfold bind at 1. rewrite E2.
  replace (baddr bm =? NULL) with false
    by (symmetry; apply Z.eqb_neq; unfold NULL; lia).
  cbn [negb]. unfold bind. rewrite E3. reflexivity.
Qed.

(** X16: mm_realloc never shrinks a block.  On a block of a heap that
    satisfies the invariant, with a size that is positive, also when read as
    an int, and for which size + 2 * WSIZE (in size_t arithmetic) is at most
    the size of the block, mm_realloc returns the pointer it was given and
    leaves the state as it is. *)
Theorem mm_realloc_keeps_large_enough_block (s : state) (bl : list blk)
        (fl : list Z) (b : blk) (fuel : nat) (size : Z) :
  heap_inv W s bl fl -> In b bl ->
  0 < size -> 0 < to_int size -> wrap W (size + 2 * W) <= bsize b ->
  mm_realloc W fuel (baddr b) size s = Ok (baddr b) s.
Proof.
  intros Hinv Hb Hpos Hint Hfit. apply (heap_inv_state W HW) in Hinv.
  destruct Hinv as (Hg & (Ht & _) & _).
  destruct (block_facts W HW s _ b Hg Hb)
    as (B1 & B2 & B3 & B4 & B5 & B6 & B7 & B8 & B9).
  destruct (Ht b Hb) as (Eh & _).
  pose proof (modulus_large W HW) as Hml.
  unfold mm_realloc.
  replace (to_int size <? 0) with false by (symmetry; apply Z.ltb_ge; lia).
  replace (to_int size =? 0) with false by (symmetry; apply Z.eqb_neq; lia).
  replace (size >? 0) with true by (symmetry; rewrite Z.gtb_ltb; apply Z.ltb_lt; lia).
  unfold bind. rewrite (HDRP_eq W HW) by lia.
  rewrite (GET_SIZE_state W HW) by valid_tac.
  rewrite Eh, (tag_size W HW) by assumption.
  unfold WSIZE. rewrite (wrap_small W (2 * W)) by lia.
  replace (wrap W (size + 2 * W) <=? bsize b) with true
    by (symmetry; apply Z.leb_le; exact Hfit).
  reflexivity.
Qed.



(** X19: mm_realloc served in place (the block is large enough already, or
    the next block is free and large enough to be absorbed), for a size that
    is positive when read as an int: the call returns the pointer it was
    given; the block is allocated with at least size + 2 * WSIZE bytes (in
    size_t arithmetic) and at least its old size; its old payload words and
    every word of every other allocated block are unchanged; the heap
    satisfies the invariant. *)
Theorem mm_realloc_in_place_keeps_contents (s : state) (l1 l2 : list blk)
        (b : blk) (fl : list Z) (fuel : nat) (size : Z) :
  heap_inv W s (l1 ++ b :: l2) fl -> bused b = true ->
  0 <= size < modulus W -> 0 < to_int size ->
  realloc_in_place W s (baddr b) size = true ->
  exists s' bl' fl',
    mm_realloc W fuel (baddr b) size s = Ok (baddr b) s' /\
    heap_inv W s' bl' fl' /\
    (exists sz, In (mkBlk (baddr b) sz true) bl' /\ bsize b <= sz /\
                wrap W (size + 2 * W) <= sz) /\
    (forall a, baddr b <= a < baddr b + bsize b - 2 * W -> mem s' a = mem s a) /\
    kept W (l1 ++ l2) (mem s) (mem s').
Proof.
  intros Hinv Hu Hsize Hint Hplace.
  assert (Hb : In b (l1 ++ b :: l2)) by in_tac.
  pose proof Hinv as Hinv0. apply (heap_inv_state W HW) in Hinv.
  destruct Hinv as (Hg & Ht & Hl & Hn & Hiff).
  destruct (block_facts W HW s _ b Hg Hb)
    as (B1 & B2 & B3 & B4 & B5 & B6 & B7 & B8 & B9).
  destruct (block_here W HW s (mem s) l1 l2 b Hg Ht) as (Eh & Ef & En & _ & Hl2).
  pose proof (modulus_large W HW) as Hml.
  assert (Hsz1 : size_field W (mem s (baddr b - W)) = bsize b).
  { rewrite Eh. apply (tag_size W HW); assumption. }
  unfold realloc_in_place in Hplace. rewrite Hsz1, En in Hplace.
  replace (to_int size <=? 0) with false in Hplace by (symmetry; apply Z.leb_gt; lia).
  cbn [orb] in Hplace.
  destruct (wrap W (size + 2 * W) <=? bsize b) eqn:Hshrink.
  { apply Z.leb_le in Hshrink.
    exists s, (l1 ++ b :: l2), fl.
    split; [|split; [exact Hinv0 | split; [|split]]].
    - unfold mm_realloc.
      replace (to_int size <? 0) with false by (symmetry; apply Z.ltb_ge; lia).
      replace (to_int size =? 0) with false by (symmetry; apply Z.eqb_neq; lia).
      replace (size >? 0) with true
        by (symmetry; rewrite Z.gtb_ltb; apply Z.ltb_lt;
            destruct (Z.eq_dec size 0) as [-> | ?]; [discriminate Hint | lia]).
      unfold bind. rewrite (HDRP_eq W HW) by lia.
      rewrite (GET_SIZE_state W HW) by valid_tac. rewrite Hsz1.
      unfold WSIZE. rewrite (wrap_small W (2 * W)) by lia.
      replace (wrap W (size + 2 * W) <=? bsize b) with true
        by (symmetry; apply Z.leb_le; exact Hshrink).
      reflexivity.
    - exists (bsize b). rewrite <- Hu, <- (blk_eta W HW).
      split; [exact Hb | lia].
    - reflexivity.
    - apply (kept_refl W HW). }
  cbn [orb] in Hplace. apply andb_true_iff in Hplace.
  destruct Hplace as (Hna & Hfit). apply Z.eqb_eq in Hna. apply Z.leb_le in Hfit.
  apply Z.leb_gt in Hshrink.
  destruct l2 as [|nb l2]; cbn [next_tag] in Hna, Hfit.
  { discriminate Hna. }
  assert (Hnb : In nb (l1 ++ b :: nb :: l2)) by in_tac.
  destruct (block_facts W HW s _ nb Hg Hnb)
    as (N1 & N2 & N3 & N4 & N5 & N6 & N7 & N8 & _).
  rewrite (tag_alloc W HW) in Hna by assumption.
  rewrite (tag_size W HW) in Hfit by assumption.
  assert (Hnfree : bused nb = false) by (destruct (bused nb); [discriminate Hna | reflexivity]).
  rewrite <- (with_heap_id s) in Hinv0.
  destruct (mm_realloc_absorb_heap W HW s (mem s) (free_list_start s) l1 l2 b nb fl
              fuel size Hinv0 Hu Hnfree Hsize Hint)
    as (m' & f' & fl' & E & Hinv' & _ & _ & _ & Hpay); [lia|].
  destruct (mm_realloc_absorb_frame W HW s (mem s) (free_list_start s) l1 l2 b nb fl
              fuel size Hinv0 Hu Hnfree Hsize Hint)
    as (m2 & f2 & E2 & Hfr); [lia|].
  rewrite E in E2. injection E2 as <- <-.
  rewrite (with_heap_id s) in E.
  exists (with_heap m' f' s),
    (l1 ++ mkBlk (baddr b) (bsize b + bsize nb) true :: l2), fl'.
  split; [exact E|]. split; [exact Hinv'|].
  split; [|split; [exact Hpay|]].
  - exists (bsize b + bsize nb). split; [in_tac | lia].
  - intros x a Hx Hxu Ha. cbn [with_heap mem].
    assert (Hx' : In x (l1 ++ b :: nb :: l2)) by (revert Hx; in_tac).
    apply Hfr.
    + apply (used_not_free_word W HW s _ x a Hg Hx' Hxu Ha).
    + destruct (block_facts W HW s _ x Hg Hx') as (_ & _ & _ & Hx4 & _).
      destruct Hg as (_ & _ & _ & _ & Hlay).
      destruct (layout_sep W HW _ _ _ x b Hlay Hx' Hb) as [Ex | Hsep]; [|lia].
      exfalso.
      change (b :: nb :: l2) with ([b] ++ nb :: l2) in Hlay.
      apply (layout_parts_disjoint W HW _ _ _ _ _ x b Hlay Hx); [in_tac|].
      rewrite Ex. reflexivity.
Qed.

(** X20: once the repeat counter is above 30 and the size asked for equals
    the last size found, find_fit does not look at the free list, whatever
    it holds: it asks extend_heap for extendsize / 4 words, that is
    asize * (WSIZE / 4) bytes, and returns the free block at the end of the
    grown heap, or NULL with the state unchanged when the provider refuses.
    The two statics are left as they are, so the next request of that size
    extends the heap again. *)
Theorem find_fit_bypass_keeps_extending (s : state) (bl : list blk)
        (fl : list Z) (fuel : nat) (asize : Z) :
  heap_inv W s bl fl -> (2 * W | asize) -> 4 * W <= asize < 2 ^ 31 ->
  last_malloced_size s = to_int asize -> 30 < repeat_counter s ->
  (mem_max_addr s < mem_brk s + asize * (W / 4) ->
   find_fit W fuel asize s = Ok NULL s) /\
  (mem_brk s + asize * (W / 4) <= mem_max_addr s ->
   exists s' pre bm rest,
     find_fit W fuel asize s = Ok (baddr bm) s' /\
     heap_inv W s' (pre ++ [bm]) (baddr bm :: rest) /\ bused bm = false /\
     mem_brk s' = mem_brk s + asize * (W / 4) /\
     baddr bm + bsize bm = mem_brk s' /\ asize <= bsize bm /\
     last_malloced_size s' = last_malloced_size s /\
     repeat_counter s' = repeat_counter s).
Proof.
  intros Hinv Hd Hr Hlast Hrc.
  pose proof (W_pos W HW) as HWp. pose proof (W_quarter W HW) as Hq.
  set (words := wrap W (Z.quot (to_int (MAX asize (wrap W (4 * WSIZE W)))) 4)).
  assert (Esz : extend_size W words = asize * (W / 4))
    by (apply (extend_size_quarter W HW); assumption).
  assert (E : find_fit W fuel asize s = extend_heap W words s).
  { unfold find_fit, get_last_malloced_size, get_repeat_counter, bind.
    rewrite Hlast, Z.eqb_refl.
    replace (repeat_counter s >? 30) with true
      by (symmetry; rewrite Z.gtb_ltb; apply Z.ltb_lt; exact Hrc).
    reflexivity. }
  rewrite E. split.
  - intros Hno. apply (extend_heap_refused W HW). right. rewrite Esz. exact Hno.
  - intros Hroom. apply (heap_inv_state W HW) in Hinv.
    destruct Hinv as (Hg & (T1 & _ & T3 & T4) & Hl & Hn & Hiff).
    destruct (extend_heap_merged W HW s (mem s) (free_list_start s) bl fl words
                Hg T1 T3 T4 Hl Hn Hiff)
      as (m3 & _ & _ & m' & bm & pre & post & rest & E1 & Hinv' & Hbmf & Hlo & Hhi
          & _ & _ & _ & _ & Hstarts & _).
    { rewrite Esz. nia. }
    { rewrite Esz. apply (quarter_request_positive W HW). lia. }
    { rewrite Esz. exact Hroom. }
    rewrite (with_heap_id s) in E1.
    destruct (Hstarts starts_used_nil) as (-> & Eend).
    cbn [baddr bsize] in Eend, Hlo, Hhi. rewrite Esz in *.
    exists (with_heap m' (baddr bm) (set_brk (mem_brk s + asize * (W / 4)) s)),
      pre, bm, rest.
    split; [exact E1|]. split; [exact Hinv'|]. split; [exact Hbmf|].
    split; [reflexivity|]. split; [exact Eend|].
    split; [nia|]. split; reflexivity.
Qed.

End Further.

(** * Epilogue headers and the release through mm_realloc *)

Section Epilogues.

Variable W : Z.
Hypothesis HW : W = 4 \/ W = 8.
#[local] Set Default Proof Using "HW".

Ltac in_tac := cbn [In]; rewrite ?in_app_iff; cbn [In]; tauto.
Ltac upd_tac := repeat (rewrite upd_same || (rewrite upd_other by lia)).

(** mm_init up to its call of extend_heap, on a region that is still empty
    and can grow by eight words: the break is eight words above the start,
    and the first four words are written. *)
Lemma mm_init_prefix_eval (s0 : state) :
  mem_brk s0 = mem_start_brk s0 -> 0 < mem_start_brk s0 ->
  (2 * W | mem_start_brk s0) -> mem_max_addr s0 < modulus W ->
  mem_start_brk s0 + 8 * W <= mem_max_addr s0 ->
  mm_init_prefix W s0
  = Ok tt
      (with_heap
         (upd (upd (upd (upd (mem s0) (mem_start_brk s0) 0)
                        (mem_start_brk s0 + W) (2 * W + 1))
                   (mem_start_brk s0 + 2 * W) (2 * W + 1))
              (mem_start_brk s0 + 3 * W) 1)
         (mem_start_brk s0 + 2 * W)
         (mkState (mem s0) (mem_start_brk s0) (mem_start_brk s0 + 8 * W)
                  (mem_max_addr s0) (mem_start_brk s0)
                  (free_list_start s0) (last_malloced_size s0)
                  (repeat_counter s0))).
Proof.
  intros Hempty Hlo Hal Hmax Hroom.
  pose proof (W_pos W HW) as HWp. pose proof (modulus_large W HW) as Hml.
  destruct (mm_init_eval W HW s0 Hempty Hlo Hal Hmax Hroom) as (Hv & _).
  set (lo := mem_start_brk s0) in *.
  set (s2 := mkState (mem s0) lo (lo + 8 * W) (mem_max_addr s0) lo
                     (free_list_start s0) (last_malloced_size s0)
                     (repeat_counter s0)) in *.
  unfold mm_init_prefix. unfold bind at 1.
  rewrite (mem_sbrk_accepts W).
  2:{ rewrite (wrap_small W (8 * W)), (to_intptr_small W HW); lia. }
  2:{ rewrite (wrap_small W (8 * W)); lia. }
  rewrite Hempty. unfold bind at 1. unfold set_heap_listp.
  rewrite (wrap_small W (8 * W)) by lia.
  cbn [set_brk mem mem_start_brk mem_brk mem_max_addr heap_listp
       free_list_start last_malloced_size repeat_counter].
  change (mkState _ _ _ _ _ _ _ _)
    with (with_heap (mem s0) (free_list_start s0) s2).
  unfold init_sentinels, bind.
  rewrite (word_offset W HW lo 1), (word_offset W HW lo 2),
    (word_offset W HW lo 3) by lia.
  rewrite (DSIZE_eq W HW).
  rewrite (PACK_add (2 * W) 1) by (try (right; reflexivity);
    replace (2 * W) with (W * 2) by lia; apply Z.mod_mul; lia).
  change (PACK 0 1) with 1.
  replace lo with (lo + 0 * W) at 1 by lia.
  rewrite (PUT_heap W HW) by (apply Hv; lia). cbv beta iota.
  rewrite (PUT_heap W HW) by (apply Hv; lia). cbv beta iota.
  rewrite (PUT_heap W HW) by (apply Hv; lia). cbv beta iota.
  rewrite (PUT_heap W HW) by (apply Hv; lia). cbv beta iota.
  rewrite set_fls_heap.
  replace (lo + 0 * W) with lo by lia.
  replace (1 * W) with W in * by lia. reflexivity.
Qed.

(** extend_heap on a heap that satisfies the invariant: the word just below
    the break is the epilogue header, and it is the word that receives the
    header of the new block. *)
Lemma extend_heap_over_epilogue (s : state) (bl : list blk) (fl : list Z)
      (words : Z) :
  heap_inv W s bl fl ->
  0 <= to_intptr W (extend_size W words) ->
  mem_brk s + extend_size W words <= mem_max_addr s ->
  mem s (mem_brk s - W) = PACK 0 1 /\
  extend_heap W words s
  = coalesce W (mem_brk s) (tags_written W s (extend_size W words)) /\
  mem (tags_written W s (extend_size W words)) (mem_brk s - W)
  = PACK (extend_size W words) 0 /\
  mem (tags_written W s (extend_size W words))
      (mem_brk s + extend_size W words - W) = PACK 0 1 /\
  (4 * W <= extend_size W words ->
   exists s' bm,
     extend_heap W words s = Ok (baddr bm) s' /\
     mem_brk s' = mem_brk s + extend_size W words /\
     mem s' (mem_brk s' - W) = PACK 0 1 /\
     bused bm = false /\
     baddr bm + bsize bm = mem_brk s' /\
     mem s' (baddr bm - W) = PACK (bsize bm) 0 /\
     (ends_used bl ->
      baddr bm = mem_brk s /\ bsize bm = extend_size W words /\
      mem s' (mem_brk s - W) = PACK (extend_size W words) 0) /\
     (forall l0 pb, bl = l0 ++ [pb] -> bused pb = false ->
        baddr bm = baddr pb /\
        bsize bm = bsize pb + extend_size W words /\
        mem s' (baddr pb - W) = PACK (bsize pb + extend_size W words) 0)).
Proof.
  intros Hinv Hpos Hfit.
  pose proof (W_pos W HW) as HWp.
  pose proof Hinv as Hinv0.
  apply (heap_inv_state W HW) in Hinv.
  destruct Hinv as (Hg & (T1 & T2 & T3 & T4) & Hl & Hn & Hiff).
  destruct (geom_brk W HW _ _ Hg) as (Hlo & Hbrk8 & Hbrk & Hloal & Hbal).
  assert (Hmax : mem_max_addr s < modulus W) by apply Hg.
  destruct (extend_heap_writes_tags W HW words s) as (E1 & E2 & E3);
    try assumption; try lia.
  { apply Z.mod_divide; [lia | exact Hbal]. }
  split; [exact T2|]. split; [exact E1|]. split; [exact E2|].
  split.
  { rewrite <- E3. reflexivity. }
  intros Hmin.
  destruct (extend_heap_merged W HW s (mem s) (free_list_start s) bl fl words
              Hg T1 T3 T4 Hl Hn Hiff Hmin Hpos Hfit)
    as (m3 & Hm3 & Hg3 & m' & bm & pre & post & rest & E & Hinv' & Hbmf & _ & _
        & _ & _ & _ & Hends & Hstarts & _ & Hprev & _).
  rewrite (with_heap_id s) in E.
  destruct (Hstarts starts_used_nil) as (-> & Eend).
  cbn [baddr bsize] in Eend, Hends, Hprev.
  set (s' := with_heap m' (baddr bm)
               (set_brk (mem_brk s + extend_size W words) s)) in *.
  pose proof Hinv' as Hinv1.
  apply (heap_inv_state W HW) in Hinv1.
  destruct Hinv1 as (Hg' & (T1' & T2' & _) & _).
  assert (Hbm : In bm (pre ++ [bm])) by in_tac.
  destruct (T1' bm Hbm) as (Ehd & _).
  assert (Etag : tag bm = PACK (bsize bm) 0).
  { unfold tag. rewrite Hbmf. reflexivity. }
  rewrite Etag in Ehd.
  assert (Ebrk : mem_brk s' = mem_brk s + extend_size W words) by reflexivity.
  exists s', bm.
  split; [exact E|]. split; [exact Ebrk|]. split; [exact T2'|].
  split; [exact Hbmf|]. split; [rewrite Ebrk; exact Eend|].
  split; [exact Ehd|]. split.
  - intros He. destruct (Hends He) as (_ & Eaddr).
    assert (Esz : bsize bm = extend_size W words) by lia.
    split; [exact Eaddr|]. split; [exact Esz|].
    rewrite <- Eaddr, <- Esz. exact Ehd.
  - intros l0 pb Ebl Hpf. destruct (Hprev l0 pb Ebl Hpf) as (_ & Eaddr).
    assert (Hlay : layout W (first_block W s) (mem_brk s) bl) by apply Hg.
    rewrite Ebl in Hlay.
    pose proof (layout_last W HW _ _ _ _ Hlay) as Eq.
    assert (Esz : bsize bm = bsize pb + extend_size W words) by lia.
    split; [exact Eaddr|]. split; [exact Esz|].
    rewrite <- Eaddr, <- Esz. exact Ehd.
Qed.

(** The first extension, made by mm_init on a fresh region that can grow by
    twelve words: eight words were requested before the call, so the header
    of the first block is written four words above the epilogue header of
    mm_init, which stays where it is. *)
Lemma mm_init_extension_above_epilogue (s0 : state) :
  fresh_region W s0 ->
  mem_start_brk s0 + 12 * W <= mem_max_addr s0 ->
  exists s1 s',
    mm_init_prefix W s0 = Ok tt s1 /\
    heap_listp s1 = mem_start_brk s0 /\
    mem_brk s1 = mem_start_brk s0 + 8 * W /\
    mem s1 (mem_start_brk s0 + 3 * W) = PACK 0 1 /\
    mem s1 (mem_brk s1 - W) = mem s0 (mem_start_brk s0 + 7 * W) /\
    mm_init W s0
    = (r <- extend_heap W 4 ;; if r =? NULL then ret (-1) else ret 0) s1 /\
    extend_heap W 4 s1 = Ok (mem_start_brk s0 + 8 * W) s' /\
    mm_init W s0 = Ok 0 s' /\
    mem s' (mem_start_brk s0 + 3 * W) = PACK 0 1 /\
    mem s' (mem_start_brk s0 + 7 * W) = PACK (4 * W) 0 /\
    mem_brk s' = mem_start_brk s0 + 12 * W /\
    mem s' (mem_brk s' - W) = PACK 0 1 /\
    heap_inv W s' [mkBlk (mem_start_brk s0 + 8 * W) (4 * W) false]
      [mem_start_brk s0 + 8 * W].
Proof.
  intros (Hempty & Hlo & Hal & Hmax & Hgap) Hroom.
  pose proof (W_pos W HW) as HWp. pose proof (modulus_large W HW) as Hml.
  destruct (mm_init_eval W HW s0 Hempty Hlo Hal Hmax) as (Hv & E0); [lia|].
  assert (Ep := mm_init_prefix_eval s0 Hempty Hlo Hal Hmax ltac:(lia)).
  set (lo := mem_start_brk s0) in *.
  set (s2 := mkState (mem s0) lo (lo + 8 * W) (mem_max_addr s0) lo
                     (free_list_start s0) (last_malloced_size s0)
                     (repeat_counter s0)) in *.
  set (m4 := upd (upd (upd (upd (mem s0) lo 0) (lo + W) (2 * W + 1))
                      (lo + 2 * W) (2 * W + 1)) (lo + 3 * W) 1) in *.
  assert (Hg : geom W s2 []).
  { unfold geom, first_block. cbn [s2 mem_start_brk mem_brk mem_max_addr layout].
    repeat split; try assumption; lia. }
  assert (Hl : linked W s2 m4 (lo + 2 * W) []).
  { constructor; cbn [chain In]; try tauto.
    - constructor.
    - intros a b [].
    - apply (Hv 2). lia. }
  destruct (extend_heap_merged W HW s2 m4 (lo + 2 * W) [] [] 4 Hg)
    as (m3 & Hm3 & _ & m' & bm & pre & post & rest & E & Hinv' & Hbmf & _ & _
        & Hrest & _ & Hfr & Hends & Hstarts & _);
    try assumption.
  { intros b []. }
  { cbn [s2 mem_start_brk]. unfold m4. upd_tac. reflexivity. }
  { cbn [s2 mem_start_brk]. unfold m4. upd_tac. exact Hgap. }
  { intros p []. }
  { intros p. cbn [In]. split; [tauto | intros (? & [])]. }
  { rewrite (extend_size_4 W HW). lia. }
  { rewrite (extend_size_4 W HW), (to_intptr_small W HW); lia. }
  { rewrite (extend_size_4 W HW). cbn [s2 mem_brk mem_max_addr]. lia. }
  destruct (Hends ends_used_nil) as (-> & Eaddr).
  destruct (Hstarts starts_used_nil) as (-> & Esize).
  rewrite (extend_size_4 W HW) in *.
  cbn [baddr bsize s2 mem_brk mem_start_brk app] in Eaddr, Esize, Hfr, Hm3.
  assert (Ebm : bm = mkBlk (lo + 8 * W) (4 * W) false).
  { rewrite (blk_eta W HW bm), Hbmf, Eaddr. f_equal. lia. }
  assert (Erest : rest = []).
  { destruct rest as [|q rest]; [reflexivity|].
    destruct (Hrest q (or_introl eq_refl)). }
  subst rest. rewrite Ebm in *. cbn [baddr bsize app] in *.
  pose proof Hinv' as Hinv1.
  apply (heap_inv_state W HW) in Hinv1.
  destruct Hinv1 as (_ & (T1 & T2 & _) & _).
  destruct (T1 (mkBlk (lo + 8 * W) (4 * W) false) (or_introl eq_refl)) as (Ehd & _).
  cbn [baddr bsize with_heap set_brk mem mem_brk s2] in Ehd, T2.
  exists (with_heap m4 (lo + 2 * W) s2),
    (with_heap m' (lo + 8 * W) (set_brk (lo + 8 * W + 4 * W) s2)).
  split; [exact Ep|]. split; [reflexivity|]. split; [reflexivity|].
  split.
  { cbn [with_heap mem]. unfold m4. upd_tac. reflexivity. }
  split.
  { cbn [with_heap mem mem_brk s2]. unfold m4. upd_tac. f_equal. lia. }
  split; [exact E0|]. split; [exact E|].
  split.
  { rewrite E0. unfold bind. rewrite E.
    replace (lo + 8 * W =? NULL) with false; [reflexivity|].
    symmetry. apply Z.eqb_neq. unfold NULL. lia. }
  split.
  { cbn [with_heap mem]. rewrite Hfr.
    - rewrite Hm3 by lia. unfold m4. upd_tac. reflexivity.
    - intros [Es | (x & [<- | []] & _ & Hx)].
      + unfold sentinel in Es. cbn [set_brk mem_start_brk s2] in Es. lia.
      + cbn [baddr bsize] in Hx. lia. }
  split.
  { cbn [with_heap mem]. replace (lo + 7 * W) with (lo + 8 * W - W) by lia.
    exact Ehd. }
  split.
  { cbn [with_heap set_brk mem_brk]. lia. }
  split; [|exact Hinv'].
  cbn [with_heap set_brk mem mem_brk]. exact T2.
Qed.

(** C6, amended: extend_heap writes the header of the new free block over
    the epilogue header only from the second extension on.  First part: on a
    heap that satisfies the invariant (every heap once mm_init has returned),
    for every request the provider accepts, the word just below the break is
    the epilogue header PACK(0, 1); extend_heap hands to coalesce the state
    in which that word holds the header PACK(size, 0) of the new block and
    the word just below the new break holds a fresh epilogue header
    PACK(0, 1); and when size is at least four words the call returns a free
    block that ends at the new break, with the epilogue header PACK(0, 1)
    right after it and its own header in place: the new block, with its
    header where the old epilogue header was, when the heap ended with an
    allocated block, and the last block grown by size bytes, with its header
    where that block had it, when the heap ended with a free block.  Second
    part: the first extension, made by mm_init on a fresh region that can
    grow by twelve words, starts with the break at heap_listp + 8 * WSIZE
    and the epilogue header of mm_init at heap_listp + 3 * WSIZE; it returns
    heap_listp + 8 * WSIZE, writes the header PACK(4 * WSIZE, 0) at
    heap_listp + 7 * WSIZE and the new epilogue header just below the new
    break, and leaves the word at heap_listp + 3 * WSIZE as it was; the heap
    it leaves satisfies the invariant, so the first part holds for every
    extension that follows. *)
Theorem extend_heap_places_tags :
  (forall (s : state) (bl : list blk) (fl : list Z) (words : Z),
     heap_inv W s bl fl ->
     0 <= to_intptr W (extend_size W words) ->
     mem_brk s + extend_size W words <= mem_max_addr s ->
     mem s (mem_brk s - W) = PACK 0 1 /\
     extend_heap W words s
     = coalesce W (mem_brk s) (tags_written W s (extend_size W words)) /\
     mem (tags_written W s (extend_size W words)) (mem_brk s - W)
     = PACK (extend_size W words) 0 /\
     mem (tags_written W s (extend_size W words))
         (mem_brk s + extend_size W words - W) = PACK 0 1 /\
     (4 * W <= extend_size W words ->
      exists s' bm,
        extend_heap W words s = Ok (baddr bm) s' /\
        mem_brk s' = mem_brk s + extend_size W words /\
        mem s' (mem_brk s' - W) = PACK 0 1 /\
        bused bm = false /\
        baddr bm + bsize bm = mem_brk s' /\
        mem s' (baddr bm - W) = PACK (bsize bm) 0 /\
        (ends_used bl ->
         baddr bm = mem_brk s /\ bsize bm = extend_size W words /\
         mem s' (mem_brk s - W) = PACK (extend_size W words) 0) /\
        (forall l0 pb, bl = l0 ++ [pb] -> bused pb = false ->
           baddr bm = baddr pb /\
           bsize bm = bsize pb + extend_size W words /\
           mem s' (baddr pb - W) = PACK (bsize pb + extend_size W words) 0))) /\
  (forall s0 : state,
     fresh_region W s0 ->
     mem_start_brk s0 + 12 * W <= mem_max_addr s0 ->
     exists s1 s',
       mm_init_prefix W s0 = Ok tt s1 /\
       heap_listp s1 = mem_start_brk s0 /\
       mem_brk s1 = mem_start_brk s0 + 8 * W /\
       mem s1 (mem_start_brk s0 + 3 * W) = PACK 0 1 /\
       mem s1 (mem_brk s1 - W) = mem s0 (mem_start_brk s0 + 7 * W) /\
       mm_init W s0
       = (r <- extend_heap W 4 ;; if r =? NULL then ret (-1) else ret 0) s1 /\
       extend_heap W 4 s1 = Ok (mem_start_brk s0 + 8 * W) s' /\
       mm_init W s0 = Ok 0 s' /\
       mem s' (mem_start_brk s0 + 3 * W) = PACK 0 1 /\
       mem s' (mem_start_brk s0 + 7 * W) = PACK (4 * W) 0 /\
       mem_brk s' = mem_start_brk s0 + 12 * W /\
       mem s' (mem_brk s' - W) = PACK 0 1 /\
       heap_inv W s' [mkBlk (mem_start_brk s0 + 8 * W) (4 * W) false]
         [mem_start_brk s0 + 8 * W]).
Proof.
  split.
  - intros s bl fl words. apply extend_heap_over_epilogue.
  - intros s0. apply mm_init_extension_above_epilogue.
Qed.

(** C10: mm_realloc dispatches on the size cast to int.  For every allocated
    block of a heap that satisfies the invariant (its pointer is not NULL)
    and every size that is positive, fits a size_t and has its low 32 bits
    all zero (a 64-bit size_t has such values, a 32-bit one has none), the
    size is 0 as an int, and mm_realloc returns NULL in the
    state mm_free leaves: the block is free, merged with the free blocks
    next to it and first on the free list; the pointer is no longer
    allocated, the other allocated blocks are the allocated blocks of the
    new heap and keep every word, and the heap satisfies the invariant. *)
Theorem mm_realloc_truncates_size (fuel : nat) (s : state) (l1 l2 : list blk)
        (b : blk) (fl : list Z) (size : Z) :
  heap_inv W s (l1 ++ b :: l2) fl -> bused b = true ->
  0 < size < modulus W -> size mod 2 ^ 32 = 0 ->
  baddr b <> NULL /\ to_int size = 0 /\
  exists s' pre bm post rest,
    mm_realloc W fuel (baddr b) size s = Ok NULL s' /\
    mm_free W (baddr b) s = Ok tt s' /\
    heap_inv W s' (pre ++ bm :: post) (baddr bm :: rest) /\
    bused bm = false /\
    baddr bm <= baddr b /\ baddr b + bsize b <= baddr bm + bsize bm /\
    (forall p, In p rest -> In p fl) /\
    ~ allocated (pre ++ bm :: post) (baddr b) /\
    (forall p, allocated (pre ++ bm :: post) p <->
               allocated (l1 ++ b :: l2) p /\ p <> baddr b) /\
    used_blocks (pre ++ bm :: post) = used_blocks l1 ++ used_blocks l2 /\
    kept W (l1 ++ l2) (mem s) (mem s') /\
    (ends_used l1 -> pre = l1 /\ baddr bm = baddr b) /\
    (starts_used l2 -> post = l2 /\ baddr bm + bsize bm = baddr b + bsize b) /\
    (forall l0 pb, l1 = l0 ++ [pb] -> bused pb = false ->
       pre = l0 /\ baddr bm = baddr pb) /\
    (forall nb l3, l2 = nb :: l3 -> bused nb = false ->
       post = l3 /\ baddr bm + bsize bm = baddr nb + bsize nb).
Proof.
  intros Hinv Hu Hsize Hlow.
  pose proof (W_pos W HW) as HWp.
  pose proof Hinv as Hinv0. apply (heap_inv_state W HW) in Hinv0.
  destruct Hinv0 as (Hg & _).
  assert (Hb : In b (l1 ++ b :: l2)) by in_tac.
  destruct (block_facts W HW s _ b Hg Hb) as (P1 & _).
  assert (Hlay : layout W (first_block W s) (mem_brk s) (l1 ++ b :: l2))
    by apply Hg.
  destruct (mm_free_effect W HW s l1 l2 b fl Hinv Hu)
    as (s' & pre & bm & post & rest & E & Hinv' & Hbmf & Hlo & Hhi & Hrest
        & Hused & Hkept & Hends & Hstarts & _ & _ & _ & Hprev & Hnext).
  assert (Hall : forall p, allocated (pre ++ bm :: post) p <->
                           allocated (l1 ++ b :: l2) p /\ p <> baddr b).
  { intros p. rewrite (allocated_used W HW (pre ++ bm :: post)), Hused.
    apply (allocated_around W HW _ _ _ _ _ _ Hlay). }
  split; [unfold NULL; lia|].
  split; [apply to_int_multiple; exact Hlow|].
  exists s', pre, bm, post, rest.
  split.
  { rewrite (mm_realloc_zero_int_size W fuel (baddr b) size s Hlow).
    unfold bind. rewrite E. reflexivity. }
  split; [exact E|]. split; [exact Hinv'|]. split; [exact Hbmf|].
  split; [exact Hlo|]. split; [exact Hhi|]. split; [exact Hrest|].
  split.
  { intros Ha. apply Hall in Ha. destruct Ha as (_ & Hne). apply Hne. reflexivity. }
  split; [exact Hall|]. split; [exact Hused|]. split; [exact Hkept|].
  split; [exact Hends|]. split; [exact Hstarts|]. split; [exact Hprev|].
  exact Hnext.
Qed.

End Epilogues.

(** ** The properties on concrete heaps *)

Lemma one_block_64_reachable : reachable 8 one_block_64 [4160].
Proof.
  apply (reach_malloc 8 after_init_64 [] 8 24 4160 one_block_64).
  - apply (reach_init 8 (fresh zeros (2 ^ 20))).
    + repeat split; try reflexivity. exists 256. reflexivity.
    + vm_compute. reflexivity.
  - lia.
  - vm_compute. congruence.
  - vm_compute. reflexivity.
Qed.

Lemma two_blocks_64_reachable : reachable 8 two_blocks_64 [4208; 4160].
Proof.
  apply (reach_malloc 8 one_block_64 [4160] 8 24 4208 two_blocks_64).
  - exact one_block_64_reachable.
  - lia.
  - vm_compute. congruence.
  - vm_compute. reflexivity.
Qed.

(** The heap of [two_blocks_64]: two allocated blocks and one free block up
    to the break. *)
Lemma two_blocks_64_heap :
  heap_inv 8 two_blocks_64
    [mkBlk 4160 48 true; mkBlk 4208 48 true; mkBlk 4256 4032 false] [4256].
Proof.
  split.
  - constructor.
    + reflexivity.
    + exists 256. reflexivity.
    + vm_compute. congruence.
    + reflexivity.
    + vm_compute.
      repeat split; try congruence; try (exists 3; reflexivity);
        try (exists 252; reflexivity).
    + intros b [<- | [<- | [<- | []]]]; split; reflexivity.
    + reflexivity.
    + reflexivity.
    + reflexivity.
    + vm_compute. auto.
    + repeat constructor. intros [].
    + intros p [<- | []]. eexists.
      split; [right; right; left; reflexivity | reflexivity].
  - intros p. split.
    + intros [<- | []]. exists 4032. right. right. left. reflexivity.
    + intros (sz & [H | [H | [H | []]]]);
        [discriminate H | discriminate H | injection H as <- _; left; reflexivity].
Qed.

(** The heap of [adjacent_free_64]: two free blocks, both on the list. *)
Lemma adjacent_free_64_heap :
  heap_inv 8 adjacent_free_64
    [mkBlk 4160 96 false; mkBlk 4256 4032 false] [4160; 4256].
Proof.
  split.
  - constructor.
    + reflexivity.
    + exists 256. reflexivity.
    + vm_compute. congruence.
    + reflexivity.
    + vm_compute.
      repeat split; try congruence; try (exists 6; reflexivity);
        try (exists 252; reflexivity).
    + intros b [<- | [<- | []]]; split; reflexivity.
    + reflexivity.
    + reflexivity.
    + reflexivity.
    + vm_compute. auto.
    + repeat constructor; cbn [In]; intros H; intuition congruence.
    + intros p [<- | [<- | []]]; eexists.
      * split; [left; reflexivity | reflexivity].
      * split; [right; left; reflexivity | reflexivity].
  - intros p. split.
    + intros [<- | [<- | []]].
      * exists 96. left. reflexivity.
      * exists 4032. right. left. reflexivity.
    + intros (sz & [H | [H | []]]); injection H as <- _.
      * left. reflexivity.
      * right. left. reflexivity.
Qed.

(** The state after thirty-three requests of the same size is one between
    public operations. *)
Lemma same_size_requests_64_heap :
  exists bl fl, heap_inv 8 same_size_requests_64 bl fl.
Proof.
  destruct (reachable_repeat_malloc 8 (or_intror eq_refl) 8 24 33) with
    (s := after_init_64) (L := @nil Z) (r := 0) (s' := same_size_requests_64)
    as (L' & Hreach).
  - lia.
  - vm_compute. congruence.
  - apply (reach_init 8 (fresh zeros (2 ^ 20))).
    + repeat split; try reflexivity. exists 256. reflexivity.
    + vm_compute. reflexivity.
  - vm_compute. reflexivity.
  - destruct (reachable_tidy 8 (or_intror eq_refl) _ _ Hreach) as (bl & fl & Hinv & _).
    exists bl, fl. exact Hinv.
Qed.

Lemma checkblock_accepts_heap_blocks_witness :
  checkblock 8 4160 grow_in_place_64 = Ok [] grow_in_place_64.
Proof.
  apply (checkblock_accepts_heap_blocks 8 (or_intror eq_refl) grow_in_place_64
           _ _ (mkBlk 4160 48 true) grow_in_place_64_heap).
  left. reflexivity.
Defined.


Lemma mm_free_keeps_other_blocks_witness :
  exists s' pre bm post rest,
    mm_free 8 4160 two_blocks_64 = Ok tt s' /\
    heap_inv 8 s' (pre ++ bm :: post) (baddr bm :: rest) /\
    bused bm = false /\
    baddr bm <= 4160 /\ 4160 + 48 <= baddr bm + bsize bm /\
    (forall p, In p rest -> In p [4256]) /\
    used_blocks (pre ++ bm :: post)
    = used_blocks [] ++ used_blocks [mkBlk 4208 48 true; mkBlk 4256 4032 false] /\
    kept 8 ([] ++ [mkBlk 4208 48 true; mkBlk 4256 4032 false])
      (mem two_blocks_64) (mem s').
Proof.
  apply (mm_free_keeps_other_blocks 8 (or_intror eq_refl) two_blocks_64 []
           [mkBlk 4208 48 true; mkBlk 4256 4032 false] (mkBlk 4160 48 true)
           [4256]).
  - exact two_blocks_64_heap.
  - reflexivity.
Defined.

Lemma mm_malloc_returns_fresh_block_witness :
  exists r s' bl' fl',
    mm_malloc 8 2 24 grow_in_place_64 = Ok r s' /\ heap_inv 8 s' bl' fl' /\
    kept 8 [mkBlk 4160 48 true; mkBlk 4208 4080 false]
      (mem grow_in_place_64) (mem s') /\
    (r <> NULL ->
     exists sz, In (mkBlk r sz true) bl' /\ 24 + 2 * 8 <= sz /\
                (2 * 8 | r) /\
                ~ allocated [mkBlk 4160 48 true; mkBlk 4208 4080 false] r /\
                forall x, In x [mkBlk 4160 48 true; mkBlk 4208 4080 false] ->
                  bused x = true ->
                  In x bl' /\
                  (baddr x + bsize x <= r \/ r + sz <= baddr x)).
Proof.
  apply (mm_malloc_returns_fresh_block 8 (or_intror eq_refl) grow_in_place_64
           _ [4208] 2 24 grow_in_place_64_heap).
  - lia.
  - vm_compute. congruence.
  - cbn. lia.
Defined.

Lemma mm_malloc_fails_only_without_room_witness :
  exists r s',
    mm_malloc 8 2 24 grow_in_place_64 = Ok r s' /\
    (r = NULL ->
     same_heap grow_in_place_64 s' /\
     mem_max_addr grow_in_place_64
     < mem_brk grow_in_place_64 + MAX (adjust_size 8 24) CHUNKSIZE) /\
    (mem_brk grow_in_place_64 + MAX (adjust_size 8 24) CHUNKSIZE
     <= mem_max_addr grow_in_place_64 ->
     r <> NULL).
Proof.
  apply (mm_malloc_fails_only_without_room 8 (or_intror eq_refl) grow_in_place_64
           _ [4208] 2 24 grow_in_place_64_heap).
  - lia.
  - vm_compute. congruence.
  - cbn. lia.
Defined.

Lemma place_splits_large_blocks_witness :
  exists s' fl',
    place 8 4160 48 adjacent_free_64 = Ok tt s' /\
    (96 - 48 < 4 * 8 ->
     heap_inv 8 s' ([] ++ mkBlk 4160 96 true :: [mkBlk 4256 4032 false]) fl' /\
     forall p, In p fl' <-> In p [4160; 4256] /\ p <> 4160) /\
    (4 * 8 <= 96 - 48 ->
     exists bm post rest,
       heap_inv 8 s' ([] ++ mkBlk 4160 48 true :: bm :: post) fl' /\
       fl' = baddr bm :: rest /\ bused bm = false /\
       baddr bm = 4160 + 48 /\ 96 - 48 <= bsize bm /\
       (forall p, In p rest -> In p [4160; 4256] /\ p <> 4160) /\
       used_blocks post = used_blocks [mkBlk 4256 4032 false] /\
       (starts_used [mkBlk 4256 4032 false] ->
        post = [mkBlk 4256 4032 false] /\ bsize bm = 96 - 48) /\
       (forall nb l3, [mkBlk 4256 4032 false] = nb :: l3 -> bused nb = false ->
          post = l3 /\ bsize bm = 96 - 48 + bsize nb)).
Proof.
  apply (place_splits_large_blocks 8 (or_intror eq_refl) adjacent_free_64
           [] [mkBlk 4256 4032 false] (mkBlk 4160 96 false) [4160; 4256] 48).
  - exact adjacent_free_64_heap.
  - reflexivity.
  - exists 3. reflexivity.
  - cbn. lia.
Defined.

Lemma find_fit_first_fit_witness :
  exists r s',
    find_fit 8 2 48 grow_in_place_64 = Ok r s' /\ same_heap grow_in_place_64 s' /\
    (r = NULL ->
     forall x, In x [mkBlk 4160 48 true; mkBlk 4208 4080 false] ->
               bused x = false -> bsize x < 48) /\
    (r <> NULL ->
     exists fl1 fl2 b,
       [4208] = fl1 ++ r :: fl2 /\
       In b [mkBlk 4160 48 true; mkBlk 4208 4080 false] /\ baddr b = r /\
       bused b = false /\ 48 <= bsize b /\
       forall x, In x [mkBlk 4160 48 true; mkBlk 4208 4080 false] ->
                 In (baddr x) fl1 -> bsize x < 48).
Proof.
  apply (find_fit_first_fit 8 (or_intror eq_refl) grow_in_place_64 _ [4208] 2 48
           grow_in_place_64_heap).
  - right. vm_compute. congruence.
  - cbn. lia.
Defined.

Lemma extend_heap_grows_last_free_block_witness :
  exists s' pre bm rest,
    extend_heap 8 512 grow_in_place_64 = Ok (baddr bm) s' /\
    heap_inv 8 s' (pre ++ [bm]) (baddr bm :: rest) /\ bused bm = false /\
    mem_brk s' = mem_brk grow_in_place_64 + extend_size 8 512 /\
    baddr bm + bsize bm = mem_brk s' /\
    (ends_used [mkBlk 4160 48 true; mkBlk 4208 4080 false] ->
     pre = [mkBlk 4160 48 true; mkBlk 4208 4080 false] /\
     baddr bm = mem_brk grow_in_place_64) /\
    (forall l0 pb, [mkBlk 4160 48 true; mkBlk 4208 4080 false] = l0 ++ [pb] ->
       bused pb = false -> pre = l0 /\ baddr bm = baddr pb) /\
    (forall p, In p rest -> In p [4208]) /\
    kept 8 [mkBlk 4160 48 true; mkBlk 4208 4080 false]
      (mem grow_in_place_64) (mem s').
Proof.
  apply (extend_heap_grows_last_free_block 8 (or_intror eq_refl) grow_in_place_64
           _ [4208] 512 grow_in_place_64_heap).
  - vm_compute. congruence.
  - vm_compute. congruence.
  - vm_compute. congruence.
Defined.

Lemma mm_init_builds_one_free_block_witness :
  exists s',
    mm_init 8 (fresh zeros (2 ^ 20)) = Ok 0 s' /\
    heap_inv 8 s'
      [mkBlk (mem_start_brk (fresh zeros (2 ^ 20)) + 8 * 8) (4 * 8) false]
      [mem_start_brk (fresh zeros (2 ^ 20)) + 8 * 8] /\
    mem_start_brk s' = mem_start_brk (fresh zeros (2 ^ 20)) /\
    mem_brk s' = mem_start_brk (fresh zeros (2 ^ 20)) + 12 * 8 /\
    heap_listp s' = mem_start_brk (fresh zeros (2 ^ 20)) /\
    free_list_start s' = mem_start_brk (fresh zeros (2 ^ 20)) + 8 * 8.
Proof.
  apply (mm_init_builds_one_free_block 8 (or_intror eq_refl)
           (fresh zeros (2 ^ 20))).
  - repeat split; try reflexivity. exists 256. reflexivity.
  - vm_compute. congruence.
Defined.

Lemma mm_init_refusal_witness :
  (mem_max_addr (fresh zeros 80) < mem_start_brk (fresh zeros 80) + 8 * 8 ->
   mm_init 8 (fresh zeros 80) = Fault) /\
  (mem_start_brk (fresh zeros 80) + 8 * 8 <= mem_max_addr (fresh zeros 80)
   < mem_start_brk (fresh zeros 80) + 12 * 8 ->
   exists s', mm_init 8 (fresh zeros 80) = Ok (-1) s' /\
              mem_brk s' = mem_start_brk (fresh zeros 80) + 8 * 8).
Proof.
  apply (mm_init_refusal 8 (or_intror eq_refl) (fresh zeros 80)).
  repeat split; try reflexivity. exists 256. reflexivity.
Defined.




Lemma insert_then_remove_restores_list_witness :
  exists m1 m2,
    insert_in_free_list 8 4160
      (with_heap (mem grow_in_place_64) 4208 grow_in_place_64)
    = Ok tt (with_heap m1 4160 grow_in_place_64) /\
    linked 8 grow_in_place_64 m1 4160 [4160; 4208] /\
    remove_from_free_list 8 4160 (with_heap m1 4160 grow_in_place_64)
    = Ok tt (with_heap m2 4208 grow_in_place_64) /\
    linked 8 grow_in_place_64 m2 4208 [4208] /\
    forall a, ~ link_cell 8 grow_in_place_64 [4160; 4208] a ->
              m2 a = mem grow_in_place_64 a.
Proof.
  apply (insert_then_remove_restores_list 8 (or_intror eq_refl) grow_in_place_64
           (mem grow_in_place_64) 4208 [4208] 4160).
  - reflexivity.
  - vm_compute. reflexivity.
  - apply (proj1 (heap_inv_state 8 (or_intror eq_refl) grow_in_place_64 _ _)
             grow_in_place_64_heap).
  - repeat split; try (vm_compute; congruence). exists 520. reflexivity.
  - repeat split; try (vm_compute; congruence). exists 521. reflexivity.
  - vm_compute. reflexivity.
  - intros [H | []]. discriminate H.
  - intros q [<- | []]. left. lia.
Defined.

Lemma mm_malloc_reuses_freed_block_witness :
  exists s1 s2 bl' fl',
    mm_free 8 4160 grow_in_place_64 = Ok tt s1 /\
    mm_malloc 8 1 24 s1 = Ok 4160 s2 /\
    heap_inv 8 s2 bl' fl' /\ allocated bl' 4160.
Proof.
  apply (mm_malloc_reuses_freed_block 8 (or_intror eq_refl) grow_in_place_64 []
           [mkBlk 4208 4080 false] (mkBlk 4160 48 true) [4208] 1 24).
  - exact grow_in_place_64_heap.
  - reflexivity.
  - exact ends_used_nil.
  - lia.
  - vm_compute. congruence.
  - vm_compute. congruence.
  - right. vm_compute. congruence.
  - lia.
Defined.

Lemma mm_realloc_keeps_large_enough_block_witness :
  mm_realloc 8 8 4160 24 grow_in_place_64 = Ok 4160 grow_in_place_64.
Proof.
  apply (mm_realloc_keeps_large_enough_block 8 (or_intror eq_refl)
           grow_in_place_64 _ _ (mkBlk 4160 48 true) 8 24 grow_in_place_64_heap).
  - left. reflexivity.
  - lia.
  - reflexivity.
  - vm_compute. congruence.
Defined.



Lemma mm_realloc_in_place_keeps_contents_witness :
  exists s' bl' fl',
    mm_realloc 8 8 4208 48 two_blocks_64 = Ok 4208 s' /\
    heap_inv 8 s' bl' fl' /\
    (exists sz, In (mkBlk 4208 sz true) bl' /\ 48 <= sz /\
                wrap 8 (48 + 2 * 8) <= sz) /\
    (forall a, 4208 <= a < 4208 + 48 - 2 * 8 ->
               mem s' a = mem two_blocks_64 a) /\
    kept 8 ([mkBlk 4160 48 true] ++ [mkBlk 4256 4032 false])
      (mem two_blocks_64) (mem s').
Proof.
  apply (mm_realloc_in_place_keeps_contents 8 (or_intror eq_refl)
           two_blocks_64 [mkBlk 4160 48 true] [mkBlk 4256 4032 false]
           (mkBlk 4208 48 true) [4256] 8 48).
  - exact two_blocks_64_heap.
  - reflexivity.
  - vm_compute. split; congruence.
  - reflexivity.
  - vm_compute. reflexivity.
Defined.

Lemma find_fit_bypass_keeps_extending_witness :
  (mem_max_addr same_size_requests_64
   < mem_brk same_size_requests_64 + 48 * (8 / 4) ->
   find_fit 8 0 48 same_size_requests_64 = Ok NULL same_size_requests_64) /\
  (mem_brk same_size_requests_64 + 48 * (8 / 4)
   <= mem_max_addr same_size_requests_64 ->
   exists s' pre bm rest,
     find_fit 8 0 48 same_size_requests_64 = Ok (baddr bm) s' /\
     heap_inv 8 s' (pre ++ [bm]) (baddr bm :: rest) /\ bused bm = false /\
     mem_brk s' = mem_brk same_size_requests_64 + 48 * (8 / 4) /\
     baddr bm + bsize bm = mem_brk s' /\ 48 <= bsize bm /\
     last_malloced_size s' = last_malloced_size same_size_requests_64 /\
     repeat_counter s' = repeat_counter same_size_requests_64).
Proof.
  destruct same_size_requests_64_heap as (bl & fl & Hinv).
  apply (find_fit_bypass_keeps_extending 8 (or_intror eq_refl)
           same_size_requests_64 bl fl 0 48 Hinv).
  - exists 3. reflexivity.
  - vm_compute. split; congruence.
  - vm_compute. reflexivity.
  - vm_compute. reflexivity.
Defined.

Lemma extend_heap_places_tags_witness :
  (mem grow_in_place_64 (mem_brk grow_in_place_64 - 8) = PACK 0 1 /\
   extend_heap 8 512 grow_in_place_64
   = coalesce 8 (mem_brk grow_in_place_64)
       (tags_written 8 grow_in_place_64 (extend_size 8 512)) /\
   mem (tags_written 8 grow_in_place_64 (extend_size 8 512))
       (mem_brk grow_in_place_64 - 8)
   = PACK (extend_size 8 512) 0 /\
   mem (tags_written 8 grow_in_place_64 (extend_size 8 512))
       (mem_brk grow_in_place_64 + extend_size 8 512 - 8) = PACK 0 1 /\
   (4 * 8 <= extend_size 8 512 ->
    exists s' bm,
      extend_heap 8 512 grow_in_place_64 = Ok (baddr bm) s' /\
      mem_brk s' = mem_brk grow_in_place_64 + extend_size 8 512 /\
      mem s' (mem_brk s' - 8) = PACK 0 1 /\
      bused bm = false /\
      baddr bm + bsize bm = mem_brk s' /\
      mem s' (baddr bm - 8) = PACK (bsize bm) 0 /\
      (ends_used [mkBlk 4160 48 true; mkBlk 4208 4080 false] ->
       baddr bm = mem_brk grow_in_place_64 /\
       bsize bm = extend_size 8 512 /\
       mem s' (mem_brk grow_in_place_64 - 8) = PACK (extend_size 8 512) 0) /\
      (forall l0 pb,
         [mkBlk 4160 48 true; mkBlk 4208 4080 false] = l0 ++ [pb] ->
         bused pb = false ->
         baddr bm = baddr pb /\
         bsize bm = bsize pb + extend_size 8 512 /\
         mem s' (baddr pb - 8) = PACK (bsize pb + extend_size 8 512) 0))) /\
  (exists s1 s',
     mm_init_prefix 8 (fresh zeros (2 ^ 20)) = Ok tt s1 /\
     heap_listp s1 = mem_start_brk (fresh zeros (2 ^ 20)) /\
     mem_brk s1 = mem_start_brk (fresh zeros (2 ^ 20)) + 8 * 8 /\
     mem s1 (mem_start_brk (fresh zeros (2 ^ 20)) + 3 * 8) = PACK 0 1 /\
     mem s1 (mem_brk s1 - 8)
     = mem (fresh zeros (2 ^ 20)) (mem_start_brk (fresh zeros (2 ^ 20)) + 7 * 8) /\
     mm_init 8 (fresh zeros (2 ^ 20))
     = (r <- extend_heap 8 4 ;; if r =? NULL then ret (-1) else ret 0) s1 /\
     extend_heap 8 4 s1
     = Ok (mem_start_brk (fresh zeros (2 ^ 20)) + 8 * 8) s' /\
     mm_init 8 (fresh zeros (2 ^ 20)) = Ok 0 s' /\
     mem s' (mem_start_brk (fresh zeros (2 ^ 20)) + 3 * 8) = PACK 0 1 /\
     mem s' (mem_start_brk (fresh zeros (2 ^ 20)) + 7 * 8) = PACK (4 * 8) 0 /\
     mem_brk s' = mem_start_brk (fresh zeros (2 ^ 20)) + 12 * 8 /\
     mem s' (mem_brk s' - 8) = PACK 0 1 /\
     heap_inv 8 s'
       [mkBlk (mem_start_brk (fresh zeros (2 ^ 20)) + 8 * 8) (4 * 8) false]
       [mem_start_brk (fresh zeros (2 ^ 20)) + 8 * 8]).
Proof.
  split.
  - apply (proj1 (extend_heap_places_tags 8 (or_intror eq_refl))
             grow_in_place_64 [mkBlk 4160 48 true; mkBlk 4208 4080 false]
             [4208] 512 grow_in_place_64_heap).
    + vm_compute. congruence.
    + vm_compute. congruence.
  - apply (proj2 (extend_heap_places_tags 8 (or_intror eq_refl))
             (fresh zeros (2 ^ 20))).
    + repeat split; try reflexivity. exists 256. reflexivity.
    + vm_compute. congruence.
Defined.

Lemma mm_realloc_truncates_size_witness :
  4160 <> NULL /\ to_int (2 ^ 32) = 0 /\
  exists s' pre bm post rest,
    mm_realloc 8 0 4160 (2 ^ 32) two_blocks_64 = Ok NULL s' /\
    mm_free 8 4160 two_blocks_64 = Ok tt s' /\
    heap_inv 8 s' (pre ++ bm :: post) (baddr bm :: rest) /\
    bused bm = false /\
    baddr bm <= 4160 /\ 4160 + 48 <= baddr bm + bsize bm /\
    (forall p, In p rest -> In p [4256]) /\
    ~ allocated (pre ++ bm :: post) 4160 /\
    (forall p, allocated (pre ++ bm :: post) p <->
               allocated ([] ++ mkBlk 4160 48 true ::
                          [mkBlk 4208 48 true; mkBlk 4256 4032 false]) p /\
               p <> 4160) /\
    used_blocks (pre ++ bm :: post)
    = used_blocks [] ++ used_blocks [mkBlk 4208 48 true; mkBlk 4256 4032 false] /\
    kept 8 ([] ++ [mkBlk 4208 48 true; mkBlk 4256 4032 false])
      (mem two_blocks_64) (mem s') /\
    (ends_used [] -> pre = [] /\ baddr bm = 4160) /\
    (starts_used [mkBlk 4208 48 true; mkBlk 4256 4032 false] ->
     post = [mkBlk 4208 48 true; mkBlk 4256 4032 false] /\
     baddr bm + bsize bm = 4160 + 48) /\
    (forall l0 pb, [] = l0 ++ [pb] -> bused pb = false ->
       pre = l0 /\ baddr bm = baddr pb) /\
    (forall nb l3,
       [mkBlk 4208 48 true; mkBlk 4256 4032 false] = nb :: l3 ->
       bused nb = false ->
       post = l3 /\ baddr bm + bsize bm = baddr nb + bsize nb).
Proof.
  apply (mm_realloc_truncates_size 8 (or_intror eq_refl) 0 two_blocks_64
           [] [mkBlk 4208 48 true; mkBlk 4256 4032 false]
           (mkBlk 4160 48 true) [4256] (2 ^ 32) two_blocks_64_heap).
  - reflexivity.
  - vm_compute. split; reflexivity.
  - reflexivity.
Defined.
